(** * Documentation-code consistency engine (ultra-doc scripts)

    A shallow embedding of the JavaScript sources

      - add-code-pointers      (extractCodeReferences, matchReferencesToFiles,
                                generateCodePointers),
      - analyze-doc-state      (daysBetween, calculateStaleRisk, analyzeDocState),
      - analyze-coverage.mjs   (analyzeCoverage),
      - track-code-changes.mjs (analyzeChangeImpact, trackCodeChanges),
      - validate-accuracy      (validateViaCodePointers, validateFilePaths,
                                validateCodeExamples, validateAccuracy),

    together with the properties their specification states about them.

    Conventions of the embedding.
      - A JavaScript string is a Rocq [string]; one character stands for one
        UTF-16 code unit below 256.
      - A [Date] is its time value, an integer number of milliseconds ([Z]).
      - A JavaScript object used as a map is an association list in insertion
        order (the order [Object.entries] and [JSON.stringify] follow for
        keys that are not array indices).
      - The file system and the version-control tool are read through explicit
        arguments (modification times, file contents, diff text). *)

From Stdlib Require Import ZArith List Bool Ascii String DecimalString Lia.
From Stdlib Require Import Floats.SpecFloat.
Import ListNotations.

Local Open Scope string_scope.
Local Open Scope Z_scope.

Set Implicit Arguments.

(* ------------------------------------------------------------------ *)
(** ** String.prototype helpers *)

Module JsString.

(** [s.startsWith(p)] *)
Definition startsWith (s p : string) : bool := String.prefix p s.

(** [s.includes(sub)]: [sub] occurs at some offset of [s]. *)
Fixpoint includes (s sub : string) : bool :=
  String.prefix sub s ||
  match s with
  | EmptyString => false
  | String _ s' => includes s' sub
  end.

Fixpoint rev_string (s acc : string) : string :=
  match s with
  | EmptyString => acc
  | String c s' => rev_string s' (String c acc)
  end.

(** [s.endsWith(suf)] *)
Definition endsWith (s suf : string) : bool :=
  String.prefix (rev_string suf EmptyString) (rev_string s EmptyString).

(** [s.split(sep)[0]] for a one-character separator: the text before the
    first separator (the whole string when there is none). *)
Fixpoint splitHead (sep : ascii) (s : string) : string :=
  match s with
  | EmptyString => EmptyString
  | String c s' => if Ascii.eqb c sep then EmptyString
                   else String c (splitHead sep s')
  end.

(** [s.split(sep)[1]]: the text between the first and the second separator,
    [None] (undefined) when there is no separator. *)
Fixpoint splitSecond (sep : ascii) (s : string) : option string :=
  match s with
  | EmptyString => None
  | String c s' => if Ascii.eqb c sep then Some (splitHead sep s')
                   else splitSecond sep s'
  end.

(** White space in the sense of [\s] and of [trim], among code units
    below 256: TAB, LF, VT, FF, CR, SPACE and NBSP. *)
Definition isSpace (c : ascii) : bool :=
  let n := nat_of_ascii c in
  ((9 <=? n) && (n <=? 13) || (n =? 32) || (n =? 160))%nat.

Fixpoint trimStart (s : string) : string :=
  match s with
  | EmptyString => EmptyString
  | String c s' => if isSpace c then trimStart s' else s
  end.

(** [s.trim()] *)
Definition trim (s : string) : string :=
  rev_string (trimStart (rev_string (trimStart s) EmptyString)) EmptyString.

(** [s.substring(0, n)] *)
Fixpoint take (n : nat) (s : string) : string :=
  match n, s with
  | S n', String c s' => String c (take n' s')
  | _, _ => EmptyString
  end.

End JsString.

(* ------------------------------------------------------------------ *)
(** ** A backtracking matcher for the regular expressions of the scripts

    The matcher follows the ECMAScript semantics of the constructs the
    scripts use: ordered alternation, greedy and lazy repetition (an
    iteration that consumes nothing is rejected), numbered capture groups,
    the word boundary and the multi-line start-of-line assertion.  It is
    written in continuation-passing style: the continuation is the rest of
    the pattern, so that a later failure backtracks into earlier choices. *)

Module Regex.

Inductive regex : Type :=
| Chr (p : ascii -> bool)          (* one character of a class *)
| Eps                              (* the empty pattern *)
| Seq (a b : regex)                (* ab *)
| Alt (a b : regex)                (* a|b, [a] tried first *)
| Star (greedy : bool) (a : regex) (* a* or a*? *)
| Group (n : nat) (a : regex)      (* capture group number n *)
| WordBoundary                     (* \b *)
| LineStart.                       (* ^ under the m flag *)

Record state : Type := mkState {
  prev : option ascii;             (* character before the position *)
  rest : list ascii;               (* input from the position on *)
  pos  : nat;                      (* the position (an index) *)
  caps : list (nat * list ascii)   (* captures, most recent first *)
}.

Definition isWord (c : ascii) : bool :=
  let n := nat_of_ascii c in
  ((48 <=? n) && (n <=? 57) || (65 <=? n) && (n <=? 90)
   || (97 <=? n) && (n <=? 122) || (n =? 95))%nat.

Definition isDigit (c : ascii) : bool :=
  let n := nat_of_ascii c in ((48 <=? n) && (n <=? 57))%nat.

(** Line terminators below 256: LF and CR. *)
Definition isLineTerminator (c : ascii) : bool :=
  let n := nat_of_ascii c in ((n =? 10) || (n =? 13))%nat.

Definition optWord (o : option ascii) : bool :=
  match o with Some c => isWord c | None => false end.

Fixpoint run (r : regex) (st : state) (k : state -> option state)
  {struct r} : option state :=
  match r with
  | Chr p =>
      match rest st with
      | c :: t => if p c then k (mkState (Some c) t (S (pos st)) (caps st))
                  else None
      | [] => None
      end
  | Eps => k st
  | Seq a b => run a st (fun st1 => run b st1 k)
  | Alt a b =>
      match run a st k with
      | Some e => Some e
      | None => run b st k
      end
  | Star g a =>
      (fix iter (n : nat) (st0 : state) {struct n} : option state :=
         match n with
         | O => k st0
         | S n' =>
             let again (_ : unit) :=
               run a st0 (fun st1 => if (pos st0 <? pos st1)%nat
                                     then iter n' st1 else None) in
             if g then
               match again tt with
               | Some e => Some e
               | None => k st0
               end
             else
               match k st0 with
               | Some e => Some e
               | None => again tt
               end
         end) (S (List.length (rest st))) st
  | Group n a =>
      run a st (fun st1 =>
        k (mkState (prev st1) (rest st1) (pos st1)
             ((n, firstn (pos st1 - pos st) (rest st)) :: caps st1)))
  | WordBoundary =>
      if xorb (optWord (prev st)) (optWord (hd_error (rest st)))
      then k st else None
  | LineStart =>
      match prev st with
      | None => k st
      | Some c => if isLineTerminator c then k st else None
      end
  end.

(** The leftmost match at or after the current position: the state the
    match starts in and the state it ends in. *)
Fixpoint search (r : regex) (p : option ascii) (s : list ascii) (i : nat)
  {struct s} : option (state * state) :=
  let st := mkState p s i [] in
  match run r st Some with
  | Some e => Some (st, e)
  | None =>
      match s with
      | [] => None
      | c :: t => search r (Some c) t (S i)
      end
  end.

(** What a successful [exec] returns: [index], [match[0]] and the groups. *)
Record result : Type := mkResult {
  index   : nat;
  matched : string;
  groups  : list (nat * list ascii)
}.

Fixpoint lookup (n : nat) (l : list (nat * list ascii)) : option string :=
  match l with
  | [] => None
  | (m, v) :: l' => if (n =? m)%nat then Some (string_of_list_ascii v)
                    else lookup n l'
  end.

(** [match[n]]; [None] is [undefined] (the group did not take part). *)
Definition group (n : nat) (m : result) : option string :=
  lookup n (groups m).

Definition resultOf (se : state * state) : result :=
  let (st, e) := se in
  mkResult (pos st)
    (string_of_list_ascii (firstn (pos e - pos st) (rest st)))
    (caps e).

(** The loop [while ((m = re.exec(s)) !== null)] of a pattern with the
    g flag (and [s.match(re)] for such a pattern): every match, each search
    starting where the previous match ended.  Every pattern of the scripts
    consumes at least one character, so that the position advances; the
    fuel is the number of characters left plus one. *)
Fixpoint execLoop (fuel : nat) (r : regex) (p : option ascii)
  (s : list ascii) (i : nat) : list result :=
  match fuel with
  | O => []
  | S fuel' =>
      match search r p s i with
      | None => []
      | Some (st, e) =>
          resultOf (st, e) ::
          (if (pos st <? pos e)%nat
           then execLoop fuel' r (prev e) (rest e) (pos e)
           else [])
      end
  end.

Definition execAll (r : regex) (s : string) : list result :=
  let l := list_ascii_of_string s in
  execLoop (S (List.length l)) r None l 0.

(** [re.exec(s)] from index 0, as [s.match(re)] and [re.test(s)] use it
    for a pattern without the g flag. *)
Definition exec (r : regex) (s : string) : option result :=
  option_map resultOf (search r None (list_ascii_of_string s) 0).

Definition test (r : regex) (s : string) : bool :=
  match exec r s with Some _ => true | None => false end.

(** *** Pattern combinators *)

Definition any : regex := Chr (fun _ => true).                (* [\s\S] *)
Definition dot : regex := Chr (fun c => negb (isLineTerminator c)). (* . *)
Definition chr (c : ascii) : regex := Chr (Ascii.eqb c).
Definition notOneOf (l : list ascii) : regex :=
  Chr (fun c => negb (existsb (Ascii.eqb c) l)).
Definition oneOf (l : list ascii) : regex :=
  Chr (fun c => existsb (Ascii.eqb c) l).
Definition word : regex := Chr isWord.                        (* \w *)
Definition space : regex := Chr JsString.isSpace.             (* \s *)
Definition digit : regex := Chr isDigit.                      (* \d *)
Definition plus (a : regex) : regex := Seq a (Star true a).   (* a+ *)
Definition opt (a : regex) : regex := Alt a Eps.              (* a? *)

Fixpoint lit (s : string) : regex :=
  match s with
  | EmptyString => Eps
  | String c s' => Seq (chr c) (lit s')
  end.

Fixpoint alts (l : list string) : regex :=
  match l with
  | [] => Chr (fun _ => false)
  | [s] => lit s
  | s :: l' => Alt (lit s) (alts l')
  end.

Fixpoint seqs (l : list regex) : regex :=
  match l with
  | [] => Eps
  | [r] => r
  | r :: l' => Seq r (seqs l')
  end.

End Regex.

Import Regex.

(* ------------------------------------------------------------------ *)
(** ** The [path] module of the runtime (POSIX flavour) *)

Module Path.

Definition slash : ascii := "/"%char.
Definition period : ascii := "."%char.

Fixpoint dropSlashes (l : list ascii) : list ascii :=
  match l with
  | c :: t => if Ascii.eqb c slash then dropSlashes t else l
  | [] => []
  end.

Fixpoint takeSegment (l : list ascii) : list ascii :=
  match l with
  | c :: t => if Ascii.eqb c slash then [] else c :: takeSegment t
  | [] => []
  end.

(** The last path component, reversed: trailing slashes are skipped and
    the component runs back to the previous slash. *)
Definition lastSegmentRev (p : string) : list ascii :=
  takeSegment (dropSlashes (rev (list_ascii_of_string p))).

(** [path.basename(p)] *)
Definition basename (p : string) : string :=
  string_of_list_ascii (rev (lastSegmentRev p)).

(** The reversed component up to and including its last period. *)
Fixpoint uptoPeriod (l : list ascii) : option (list ascii) :=
  match l with
  | [] => None
  | c :: t => if Ascii.eqb c period then Some [c]
              else option_map (cons c) (uptoPeriod t)
  end.

(** [path.extname(p)]: from the last period of the last component to its
    end; empty when there is no period, when the only period is the first
    character of the component, and for the component [..]. *)
Definition extname (p : string) : string :=
  let seg := lastSegmentRev p in
  match uptoPeriod seg with
  | None => ""
  | Some e =>
      if (List.length e =? List.length seg)%nat then ""
      else if String.eqb (string_of_list_ascii (rev seg)) ".." then ""
      else string_of_list_ascii (rev e)
  end.

(** [path.basename(p, ext)]: the component without the suffix [ext], when
    it ends with [ext] and is longer than it. *)
Definition basenameExt (p ext : string) : string :=
  let b := basename p in
  if String.eqb ext "" then b
  else if String.eqb ext p then ""
  else if JsString.endsWith b ext
          && (String.length ext <? String.length b)%nat
       then JsString.take (String.length b - String.length ext) b
       else b.

End Path.

(* ------------------------------------------------------------------ *)
(** ** JSON values, as [JSON.parse] returns them and [JSON.stringify]
       writes them *)

#[warnings="-register-all"]
Inductive json : Type :=
| JNull
| JBool (b : bool)
| JNum (n : Z)
| JStr (s : string)
| JArr (l : list json)
| JObj (l : list (string * json)).

Module Js.

Fixpoint assoc {A : Type} (k : string) (l : list (string * A)) : option A :=
  match l with
  | [] => None
  | (k', v) :: l' => if String.eqb k k' then Some v else assoc k l'
  end.

(** [o[k] = v]: an own key keeps its place, a new key goes last. *)
Fixpoint assign {A : Type} (k : string) (v : A) (l : list (string * A))
  : list (string * A) :=
  match l with
  | [] => [(k, v)]
  | (k', v') :: l' => if String.eqb k k' then (k, v) :: l'
                      else (k', v') :: assign k v l'
  end.

(** [Object.entries(v)] of a parsed JSON document. *)
Definition entries (v : json) : list (string * json) :=
  match v with
  | JObj l => l
  | _ => []
  end.

(** [v.k] for a property name that no prototype defines ([files],
    [lastValidated]): the own property of an object, [undefined] ([None])
    on a string, a number, a boolean or an array.  (On [null] the read
    throws; no script writes a [null] entry.) *)
Definition prop (v : json) (k : string) : option json :=
  match v with
  | JObj l => assoc k l
  | _ => None
  end.

(** Truthiness of a value that may be [undefined]. *)
Definition truthy (o : option json) : bool :=
  match o with
  | None | Some JNull => false
  | Some (JBool b) => b
  | Some (JNum n) => negb (n =? 0)
  | Some (JStr s) => negb (String.eqb s "")
  | Some (JArr _) | Some (JObj _) => true
  end.

Fixpoint strings (l : list json) : list string :=
  match l with
  | [] => []
  | JStr s :: l' => s :: strings l'
  | _ :: l' => strings l'
  end.

(** The elements [for (const f of v.files)] visits when [v.files] is truthy.
    The consumers are written for an array of path strings; that is the
    shape modelled here.  (The reading of the validator, with the other
    shapes and the calls that throw on them, is [Validation.checkEntry].) *)
Definition files (v : json) : option (list string) :=
  match prop v "files" with
  | Some (JArr l) => Some (strings l)
  | _ => None
  end.

(** An entry in which the consumers find no [files] array. *)
Definition noFiles (kv : string * json) : Prop := files (snd kv) = None.

(** [array.includes(x)] and [set.has(x)] on strings. *)
Definition mem (x : string) (l : list string) : bool :=
  existsb (String.eqb x) l.

(** [set.add(x)] on a Set of strings, kept in insertion order. *)
Definition add (l : list string) (x : string) : list string :=
  if mem x l then l else (l ++ [x])%list.

(** [array.sort(cmp)]: the sort is stable. *)
Fixpoint insertWith {A : Type} (cmp : A -> A -> Z) (x : A) (l : list A)
  : list A :=
  match l with
  | [] => [x]
  | y :: l' => if cmp x y <=? 0 then x :: l
               else y :: insertWith cmp x l'
  end.

Definition sortWith {A : Type} (cmp : A -> A -> Z) (l : list A) : list A :=
  fold_right (insertWith cmp) [] l.

(** [String(n)] for an integer. *)
Definition showZ (n : Z) : string :=
  DecimalString.NilZero.string_of_int (Z.to_int n).

(** The entries [["0", x0], ["1", x1], ...] of an array-like value. *)
Definition indexed {A : Type} (l : list A) : list (string * A) :=
  combine (map (fun i => showZ (Z.of_nat i)) (seq 0 (List.length l))) l.

(** The characters of a string, each a string of its own. *)
Definition characters (s : string) : list json :=
  map (fun c => JStr (String c EmptyString)) (list_ascii_of_string s).

(** [Object.entries(v)] of any parsed document: the own entries of an
    object, the indexed elements of an array, the indexed characters of a
    string, nothing for a number or a boolean; on [null] it throws
    ([None]). *)
Definition ownEntries (v : json) : option (list (string * json)) :=
  match v with
  | JObj l => Some l
  | JArr l => Some (indexed l)
  | JStr s => Some (indexed (characters s))
  | JNum _ | JBool _ => Some []
  | JNull => None
  end.

(** [for (const x of v)]: the elements of an array, the characters of a
    string; any other value is not iterable and the loop throws ([None]). *)
Definition iterate (v : json) : option (list json) :=
  match v with
  | JArr l => Some l
  | JStr s => Some (characters s)
  | _ => None
  end.

(** [a.join(sep)] on strings. *)
Fixpoint join (sep : string) (l : list string) : string :=
  match l with
  | [] => ""
  | [x] => x
  | x :: l' => x ++ sep ++ join sep l'
  end.

(** [String(v)]: an array is its elements joined by commas, [null] among
    them counting as the empty string; an object is [[object Object]].
    [numberToString] is the conversion of a number. *)
Fixpoint toString (numberToString : Z -> string) (v : json) : string :=
  match v with
  | JNull => "null"
  | JBool b => if b then "true" else "false"
  | JNum n => numberToString n
  | JStr s => s
  | JArr l =>
      join ","
        (map (fun e => match e with
                       | JNull => ""
                       | _ => toString numberToString e
                       end) l)
  | JObj _ => "[object Object]"
  end.

End Js.

(* ------------------------------------------------------------------ *)
(** ** add-code-pointers: Reference Extractor and Source Resolver *)

(** The apostrophe and the quotation mark. *)
Definition quotes : list ascii := ["'"; "034"]%char.
Definition newline : ascii := "010"%char.

(** [/```[\w]*\n([\s\S]*?)```/g] *)
Definition codeBlockPattern : regex :=
  seqs [lit "```"; Star true word; chr newline;
        Group 1 (Star false any); lit "```"].

(** [/(?:from|import|require)\s+Q([^Q]+)Q/g], where Q stands for the class
    of the two quote characters. *)
Definition filePathPattern : regex :=
  seqs [alts ["from"; "import"; "require"]; plus space; oneOf quotes;
        Group 1 (plus (notOneOf quotes)); oneOf quotes].

(** [/class\s+(\w+)/g] *)
Definition classPattern : regex :=
  seqs [lit "class"; plus space; Group 1 (plus word)].

(** [/(?:function|def|fn)\s+(\w+)/g] *)
Definition functionPattern : regex :=
  seqs [alts ["function"; "def"; "fn"]; plus space; Group 1 (plus word)].

Inductive RefType : Type := import | class | function.

Record Reference : Type := mkReference { type : RefType; value : string }.

Record Pointer : Type := mkPointer { file : string; reason : string }.

Definition lf : string := String newline EmptyString.

Definition typeName (t : RefType) : string :=
  match t with
  | import => "import"
  | class => "class"
  | function => "function"
  end.

(** [match[1]] of a successful match of a pattern whose group 1 always takes
    part. *)
Definition group1 (m : result) : string :=
  match group 1 m with Some s => s | None => "" end.

(** The body of the outer loop: what one fenced block pushes. *)
Definition blockReferences (codeBlock : string) : list Reference :=
  (map (fun m => mkReference import (group1 m)) (execAll filePathPattern codeBlock)
   ++ map (fun m => mkReference class (group1 m)) (execAll classPattern codeBlock)
   ++ map (fun m => mkReference function (group1 m))
        (execAll functionPattern codeBlock))%list.

Definition extractCodeReferences (content : string) : list Reference :=
  flat_map (fun m => blockReferences (group1 m)) (execAll codeBlockPattern content).

(** [new RegExp(`(?:class|function|def|fn)\\s+${ref.value}\\b`)]; the value
    of a class or function reference consists of word characters, which
    stand for themselves in a pattern. *)
Definition definitionPattern (name : string) : regex :=
  seqs [alts ["class"; "function"; "def"; "fn"]; plus space; lit name;
        WordBoundary].

Section SourceResolver.

(** [fs.readFileSync(file, 'utf-8')]; [None] when the read throws. *)
Variable readFile : string -> option string.

Definition isCandidate (ref : Reference) (f : string) : bool :=
  JsString.includes f (value ref)
  || String.eqb (Path.basenameExt f (Path.extname f)) (Path.basename (value ref)).

Definition referencePointers (sourceFiles : list string) (ref : Reference)
  : list Pointer :=
  match type ref with
  | import =>
      map (fun f => mkPointer f ("imports " ++ value ref))
          (filter (isCandidate ref) sourceFiles)
  | class | function =>
      flat_map (fun f =>
        match readFile f with
        | Some content =>
            if test (definitionPattern (value ref)) content
            then [mkPointer f ("defines " ++ typeName (type ref) ++ " "
                                ++ value ref)]
            else []
        | None => []
        end) sourceFiles
  end.

Definition matchReferencesToFiles (references : list Reference)
  (sourceFiles : list string) : list Pointer :=
  flat_map (referencePointers sourceFiles) references.

(** The reducer of [generateCodePointers]: the accumulator maps a source
    file to its reasons; a file is entered at its first pointer and a
    reason is pushed unless the list already includes it. *)
Definition addPointer (acc : list (string * list string)) (p : Pointer)
  : list (string * list string) :=
  let acc1 :=
    match Js.assoc (file p) acc with
    | None => Js.assign (file p) [] acc
    | Some _ => acc
    end in
  match Js.assoc (file p) acc1 with
  | Some rs =>
      if Js.mem (reason p) rs then acc1
      else Js.assign (file p) (rs ++ [reason p])%list acc1
  | None => acc1
  end.

Definition groupPointers (pointers : list Pointer)
  : list (string * list string) :=
  fold_left addPointer pointers [].

Definition sourceExtensions : list string :=
  [".js"; ".ts"; ".jsx"; ".tsx"; ".py"; ".go"; ".rs"; ".java"; ".rb"; ".php"].

Definition hasSourceExtension (f : string) : bool :=
  existsb (JsString.endsWith f) sourceExtensions.

(** [findSourceFiles]: the lines of [git ls-files] that are not empty and
    end with a source extension; when there are none, the files the
    directory walk finds outside the excluded directories. *)
Definition findSourceFiles (gitLines walked : list string) : list string :=
  match filter (fun f => negb (String.eqb f "") && hasSourceExtension f)
               gitLines with
  | [] => filter hasSourceExtension walked
  | gitFiles => gitFiles
  end.

Definition isMarkdown (f : string) : bool := JsString.endsWith f ".md".
Definition endsWithMd (f : string) : Prop := isMarkdown f = true.

(** The [mappings] object: one key per document with at least one pointer. *)
Definition buildMappings (readDoc : string -> string)
  (sourceFiles docFiles : list string)
  : list (string * list (string * list string)) :=
  fold_left (fun mappings docFile =>
    let pointers :=
      matchReferencesToFiles (extractCodeReferences (readDoc docFile))
                             sourceFiles in
    match pointers with
    | [] => mappings
    | _ => Js.assign docFile (groupPointers pointers) mappings
    end) docFiles [].

Definition mappingsJson (m : list (string * list (string * list string)))
  : json :=
  JObj (map (fun dm =>
    (fst dm, JObj (map (fun fr => (fst fr, JArr (map JStr (snd fr))))
                       (snd dm)))) m).

(** The document written to CODE_POINTERS.json.  [dirEntries] is the
    listing of the documentation directory, [now] the time stamp. *)
Definition generateCodePointers (now : string) (dirEntries : list string)
  (readDoc : string -> string) (sourceFiles : list string) : json :=
  let docFiles := filter isMarkdown dirEntries in
  let mappings := buildMappings readDoc sourceFiles docFiles in
  JObj [("generated", JStr now);
        ("total_source_files", JNum (Z.of_nat (List.length sourceFiles)));
        ("total_mappings", JNum (Z.of_nat (List.length mappings)));
        ("mappings", mappingsJson mappings)].

End SourceResolver.

(* ------------------------------------------------------------------ *)
(** ** Numbers: IEEE 754 binary64, as the runtime computes them *)

Module JsNumber.

Definition prec : Z := 53.
Definition emax : Z := 1024.

(** The number that an integer literal or an integer-valued count denotes. *)
Definition ofZ (z : Z) : spec_float := binary_normalize prec emax z 0 false.

Definition div (x y : spec_float) : spec_float := SFdiv prec emax x y.
Definition mul (x y : spec_float) : spec_float := SFmul prec emax x y.

(** [Math.round(x)]: the integer nearest to [x], a tie going up. *)
Definition round (x : spec_float) : spec_float :=
  match x with
  | S754_finite s m e =>
      if 0 <=? e then x
      else
        let num := if s then Z.neg m else Z.pos m in
        let den := 2 ^ (- e) in
        let n := (2 * num + den) / (2 * den) in
        if (n =? 0) && s then S754_zero true else ofZ n
  | _ => x
  end.

(** The integer a number is, when it is one. *)
Definition toZ (x : spec_float) : option Z :=
  match x with
  | S754_zero _ => Some 0
  | S754_finite s m e =>
      if 0 <=? e then Some ((if s then Z.neg m else Z.pos m) * 2 ^ e)
      else
        let den := 2 ^ (- e) in
        if Z.pos m mod den =? 0
        then Some ((if s then Z.neg m else Z.pos m) / den)
        else None
  | _ => None
  end.

Definition ltb (x y : spec_float) : bool := SFltb x y.
Definition leb (x y : spec_float) : bool := SFleb x y.

Definition sub (x y : spec_float) : spec_float := SFsub prec emax x y.
Definition abs (x : spec_float) : spec_float := SFabs x.

(** [Math.ceil(x)] *)
Definition ceil (x : spec_float) : spec_float :=
  match x with
  | S754_finite s m e =>
      if 0 <=? e then x
      else
        let num := if s then Z.neg m else Z.pos m in
        let n := - ((- num) / 2 ^ (- e)) in
        if (n =? 0) && s then S754_zero true else ofZ n
  | _ => x
  end.

(** The largest time value: a [Date] holds an integer number of
    milliseconds of at most this magnitude, or is invalid. *)
Definition maxTime : Z := 8640000000000000.

(** [TimeClip]: what the [Date] constructor keeps of an integer. *)
Definition timeClip (t : Z) : option Z :=
  if Z.abs t <=? maxTime then Some t else None.

(** The number that the difference of two time values is.  Such a
    difference is below 2^54 in magnitude: up to 2^53 it is a number as it
    stands, above it is rounded to the nearest even integer, a tie going
    to the multiple of 4. *)
Definition ofDifference (z : Z) : Z :=
  if Z.abs z <=? 2 ^ 53 then z
  else if Z.even z then z
  else if (z - 1) mod 4 =? 0 then z - 1
  else z + 1.

End JsNumber.

(* ------------------------------------------------------------------ *)
(** ** analyze-doc-state: Staleness Estimator *)

Module DocState.

Inductive StaleRisk : Type := none | low | medium | high | critical.
Inductive Status : Type := current | stale.

Definition msPerDay : Z := 1000 * 60 * 60 * 24.

(** [Math.ceil(Math.abs(d2 - d1) / msPerDay)] for two time values.  The
    subtraction rounds above 2^53.  The quotient of a number of this size
    by [msPerDay] is either an integer or further from every integer than
    the rounding error of the division, so that the ceiling is the exact
    one. *)
Definition daysBetween (date1 date2 : Z) : Z :=
  let diffTime := Z.abs (JsNumber.ofDifference (date2 - date1)) in
  - ((- diffTime) / msPerDay).

(** The same computation in binary64, operation by operation. *)
Definition daysBetweenNumber (date1 date2 : Z) : spec_float :=
  let d1 := JsNumber.ofZ date1 in
  let d2 := JsNumber.ofZ date2 in
  let diffTime := JsNumber.abs (JsNumber.sub d2 d1) in
  JsNumber.ceil (JsNumber.div diffTime (JsNumber.ofZ msPerDay)).

(** [new Date(t)] for a time stamp that may be [null]: [new Date(null)] is
    the epoch. *)
Definition dateOf (t : option Z) : Z :=
  match t with Some d => d | None => 0 end.

(** Time stamps travel as ISO strings, which [modTime > lastCodeChange]
    compares as strings; for the years 0000 to 9999 that is the order of
    the time values.  [daysSinceCodeChange], which the function computes
    from the clock, is not used by it. *)
Definition calculateStaleRisk (docUpdateTime codeChangeTime : option Z)
  : StaleRisk :=
  match codeChangeTime with
  | None => none
  | Some codeDate =>
      let docDate := dateOf docUpdateTime in
      if codeDate <=? docDate then none
      else
        let daysSinceDocUpdate := daysBetween (dateOf docUpdateTime) codeDate in
        if 30 <? daysSinceDocUpdate then critical
        else if 7 <? daysSinceDocUpdate then high
        else if 3 <? daysSinceDocUpdate then medium
        else low
  end.

Section Analysis.

(** [getFileModTime] of a path below the working directory; [None] when
    [statSync] throws. *)
Variable getFileModTime : string -> option Z.

(** The inner loop over [value.files]. *)
Definition scanFiles (lastCodeChange : option Z) (files : list string)
  : option Z :=
  fold_left (fun last codeFile =>
    match getFileModTime codeFile with
    | Some modTime =>
        match last with
        | None => Some modTime
        | Some l => if l <? modTime then Some modTime else last
        end
    | None => last
    end) files lastCodeChange.

(** The loop over [Object.entries(codePointers)]: the linked files and
    the latest modification time among them. *)
Definition scanPointers (codePointers : json) (fileName : string)
  : list string * option Z :=
  fold_left (fun acc kv =>
    if JsString.startsWith (fst kv) fileName then
      match Js.files (snd kv) with
      | Some files => ((fst acc ++ files)%list, scanFiles (snd acc) files)
      | None => acc
      end
    else acc) (Js.entries codePointers) ([], None).

Record DocEntry : Type := mkDocEntry {
  status : Status;
  lastUpdated : option Z;
  linkedFiles : list string;
  lastCodeChange : option Z;
  validationNeeded : bool;
  staleRisk : StaleRisk
}.

Definition isStale (s : Status) : bool :=
  match s with stale => true | current => false end.

(** The staleness part of the entry [analyzeDocState] records for one
    document ([fileName] is its base name, [docTime] its modification
    time). *)
Definition analyzeDoc (codePointers : json) (fileName : string)
  (docTime : option Z) : DocEntry :=
  let lastUpdated := docTime in
  let (linkedFiles, lastCodeChange) := scanPointers codePointers fileName in
  let staleRisk := calculateStaleRisk lastUpdated lastCodeChange in
  let status :=
    match staleRisk with
    | none | low => current
    | _ => stale
    end in
  mkDocEntry status lastUpdated linkedFiles lastCodeChange
             (isStale status) staleRisk.

(** [state.metrics.stale_docs] over the documents of the directory. *)
Definition staleDocs (codePointers : json)
  (docs : list (string * option Z)) : nat :=
  List.length (filter (fun d =>
    isStale (status (analyzeDoc codePointers (fst d) (snd d)))) docs).

End Analysis.

End DocState.

(* ------------------------------------------------------------------ *)
(** ** track-code-changes.mjs: Change History Tracker *)

Module CodeChanges.

Inductive Impact : Type := high | medium | low | unknown.
Inductive ChangeType : Type := added | modified | deleted.

Record Commit : Type := mkCommit {
  hash : string;
  timestamp : Z;
  message : string
}.

Record ChangeAnalysis : Type := mkChangeAnalysis {
  changeType : ChangeType;
  linesAdded : Z;
  linesRemoved : Z;
  totalLines : Z;
  impact : Impact;
  hasBreakingChange : option bool   (* [None]: the field is not set *)
}.

(** [/^\+[^+]/gm] and [/^-[^-]/gm] *)
Definition addedPattern : regex :=
  seqs [LineStart; chr "+"; notOneOf ["+"%char]].
Definition removedPattern : regex :=
  seqs [LineStart; chr "-"; notOneOf ["-"%char]].

(** [/export|function.*\(|class\s+\w+|interface\s+\w+/] *)
Definition breakingPattern : regex :=
  Alt (lit "export")
 (Alt (seqs [lit "function"; Star true dot; chr "("])
 (Alt (seqs [lit "class"; plus space; plus word])
      (seqs [lit "interface"; plus space; plus word]))).

(** [(s.match(re) || []).length] for a pattern with the g flag. *)
Definition countMatches (r : regex) (s : string) : Z :=
  Z.of_nat (List.length (execAll r s)).

(** The record of the [catch] branch. *)
Definition analysisFailed : ChangeAnalysis :=
  mkChangeAnalysis modified 0 0 0 unknown None.

Section Git.

(** [git diff lastCommit firstCommit -- filePath]; [None] when the
    command fails. *)
Variable gitDiff : string -> string -> string -> option string.

Definition analyzeChangeImpact (filePath : string) (commits : list Commit)
  : ChangeAnalysis :=
  match commits with
  | [] => analysisFailed
  | c0 :: _ =>
      let firstCommit := hash c0 in
      let lastCommit := hash (List.last commits c0) in
      match gitDiff lastCommit firstCommit filePath with
      | None => analysisFailed
      | Some diff =>
          let linesAdded := countMatches addedPattern diff in
          let linesRemoved := countMatches removedPattern diff in
          let totalLines := linesAdded + linesRemoved in
          let changeType := modified in
          let changeType :=
            if (0 <? linesAdded) && (linesRemoved =? 0) then added
            else changeType in
          let changeType :=
            if (0 <? linesRemoved) && (linesAdded =? 0) then deleted
            else changeType in
          let impact := low in
          let impact :=
            if 100 <? totalLines then high
            else if 20 <? totalLines then medium
            else impact in
          let hasBreakingChange := test breakingPattern diff in
          let impact := if hasBreakingChange then high else impact in
          mkChangeAnalysis changeType linesAdded linesRemoved totalLines
                           impact (Some hasBreakingChange)
      end
  end.

Record AffectedDoc : Type := mkAffectedDoc {
  code_file : string;
  change_type : ChangeType;
  lines_changed : Z;
  affected_documentation : list string;
  doc_impact : Impact;
  breaking_change : option bool;
  most_recent_hash : string;
  most_recent_message : string;
  most_recent_timestamp : Z
}.

Definition affectedDocsOf (codePointers : json) (filePath : string)
  : list string :=
  fold_left (fun docs kv =>
    match Js.files (snd kv) with
    | Some files =>
        if Js.mem filePath files
        then Js.add docs (JsString.splitHead "#" (fst kv))
        else docs
    | None => docs
    end) (Js.entries codePointers) [].

Definition impactOrder (i : Impact) : Z :=
  match i with high => 0 | medium => 1 | low => 2 | unknown => 3 end.

(** [report.affected_docs] of [trackCodeChanges]; [changes] is the Map of
    [getFileChanges], in insertion order (every file of it has at least one
    commit). *)
Definition affectedDocs (codePointers : json)
  (changes : list (string * list Commit)) : list AffectedDoc :=
  Js.sortWith (fun a b => impactOrder (doc_impact a)
                          - impactOrder (doc_impact b))
    (flat_map (fun fc : string * list Commit =>
       let (filePath, commits) := fc in
       match affectedDocsOf codePointers filePath with
       | [] => ([] : list AffectedDoc)
       | docs =>
           let analysis := analyzeChangeImpact filePath commits in
           let c0 := hd (mkCommit "" 0 "") commits in
           [mkAffectedDoc filePath (changeType analysis)
              (totalLines analysis) docs (impact analysis)
              (hasBreakingChange analysis)
              (JsString.take 7 (hash c0)) (message c0) (timestamp c0)]
       end) changes).

(** The DOC_STATE keys [trackCodeChanges] marks stale (each one when the
    state has an entry for it). *)
Definition markedStale (codePointers : json)
  (changes : list (string * list Commit)) : list string :=
  flat_map (fun fc =>
    map (fun docFile => "context_for_llms/" ++ docFile)
        (affectedDocsOf codePointers (fst fc))) changes.

End Git.

End CodeChanges.

(* ------------------------------------------------------------------ *)
(** ** analyze-coverage.mjs: Coverage Aggregator *)

Module Coverage.

Inductive Priority : Type := high | medium | low.

Definition CODE_EXTENSIONS : list string :=
  [".js"; ".ts"; ".jsx"; ".tsx"; ".py"; ".go"; ".rs"; ".java"].

(** [documentedFiles]: the Set filled from the [files] arrays. *)
Definition documentedFiles (codePointers : json) : list string :=
  fold_left (fun set kv =>
    match Js.files (snd kv) with
    | Some files => fold_left Js.add files set
    | None => set
    end) (Js.entries codePointers) [].

(** [s.toLowerCase()] on code units below 256. *)
Definition lowerChar (c : ascii) : ascii :=
  let n := nat_of_ascii c in
  if ((65 <=? n) && (n <=? 90)
      || (192 <=? n) && (n <=? 222) && negb (n =? 215))%nat
  then ascii_of_nat (n + 32) else c.

Fixpoint toLowerCase (s : string) : string :=
  match s with
  | EmptyString => EmptyString
  | String c s' => String (lowerChar c) (toLowerCase s')
  end.

Definition detectFileType (filePath : string) : string :=
  let fileName := toLowerCase (Path.basename filePath) in
  if JsString.includes fileName "test" || JsString.includes fileName "spec"
  then "test"
  else if JsString.includes fileName "util"
          || JsString.includes fileName "helper" then "utility"
  else if JsString.includes fileName "config" then "config"
  else if JsString.includes fileName "route"
          || JsString.includes fileName "controller" then "api"
  else if JsString.includes fileName "model" then "model"
  else if JsString.includes fileName "component" then "component"
  else "module".

Definition locationMap : list (string * string) :=
  [("utility", "context_for_llms/utilities.md");
   ("api", "context_for_llms/api-overview.md");
   ("model", "context_for_llms/domains-and-modules.md");
   ("component", "context_for_llms/architecture.md");
   ("config", "context_for_llms/development-workflows.md");
   ("module", "context_for_llms/architecture.md")].

Definition suggestDocLocation (filePath : string) : string :=
  match Js.assoc (detectFileType filePath) locationMap with
  | Some l => l
  | None => "context_for_llms/architecture.md"
  end.

Record Undocumented : Type := mkUndocumented {
  u_file : string;
  u_type : string;
  exports : list string;
  usage_count : Z;
  priority : Priority;
  suggested_location : string
}.

Record Report : Type := mkReport {
  total_files : Z;
  documented_files : Z;
  undocumented_files : Z;
  coverage_percentage : spec_float;
  documented : list string;
  undocumented : list Undocumented
}.

Definition priorityOrder (p : Priority) : Z :=
  match p with high => 0 | medium => 1 | low => 2 end.

Definition compareBacklog (a b : Undocumented) : Z :=
  let priorityDiff := priorityOrder (priority a) - priorityOrder (priority b) in
  if negb (priorityDiff =? 0) then priorityDiff
  else usage_count b - usage_count a.

Section Tree.

(** [process.cwd()] *)
Variable cwd : string.
(** [parseExports] and [countFileUsage] read the contents of the source
    files; their results fill the backlog entries. *)
Variable parseExports : string -> list string.
Variable countFileUsage : string -> list string -> Z.

(** A code file is named by its path relative to the working directory,
    as [git ls-files] prints it; [path.join(process.cwd(), f)] is its
    absolute path and [path.relative] gives [f] back. *)
Definition absolute (f : string) : string := cwd ++ "/" ++ f.

Definition getAllCodeFiles (allFiles : list string) : list string :=
  filter (fun f => Js.mem (Path.extname (absolute f)) CODE_EXTENSIONS)
         allFiles.

Definition isDocumented (documentedSet : list string) (f : string) : bool :=
  Js.mem f documentedSet
  || Js.mem (absolute f) documentedSet
  || existsb (fun d => JsString.includes d (Path.basename (absolute f)))
             documentedSet.

Definition backlogEntry (allCodeFiles : list string) (f : string)
  : Undocumented :=
  let usageCount := countFileUsage (absolute f) (map absolute allCodeFiles) in
  let priority :=
    if 10 <? usageCount then high
    else if 5 <? usageCount then medium
    else low in
  mkUndocumented f (detectFileType (absolute f)) (parseExports (absolute f))
    usageCount priority (suggestDocLocation f).

(** One turn of the loop over the code files. *)
Definition visit (documentedSet allCodeFiles : list string)
  (acc : Z * list string * Z * list Undocumented) (f : string)
  : Z * list string * Z * list Undocumented :=
  let '(nDoc, docs, nUndoc, undocs) := acc in
  if isDocumented documentedSet f
  then (nDoc + 1, (docs ++ [f])%list, nUndoc, undocs)
  else (nDoc, docs, nUndoc + 1,
        (undocs ++ [backlogEntry allCodeFiles f])%list).

(** [Math.round((documented_files / total_files) * 100)] *)
Definition hundredths (documented_files total_files : Z) : spec_float :=
  JsNumber.round
    (JsNumber.mul
       (JsNumber.div (JsNumber.ofZ documented_files)
                     (JsNumber.ofZ total_files))
       (JsNumber.ofZ 100)).

Definition percentage (documented_files total_files : Z) : spec_float :=
  if 0 <? total_files
  then JsNumber.div (hundredths documented_files total_files)
                    (JsNumber.ofZ 100)
  else JsNumber.ofZ 0.

(** [analyzeCoverage]; [allFiles] are the files of the tree. *)
Definition analyzeCoverage (codePointers : json) (allFiles : list string)
  : Report :=
  let documentedSet := documentedFiles codePointers in
  let allCodeFiles := getAllCodeFiles allFiles in
  let total := Z.of_nat (List.length allCodeFiles) in
  let '(nDoc, docs, nUndoc, undocs) :=
    fold_left (visit documentedSet allCodeFiles) allCodeFiles
              (0, [], 0, []) in
  mkReport total nDoc nUndoc (percentage nDoc total) docs
           (Js.sortWith compareBacklog undocs).

End Tree.

End Coverage.

(* ------------------------------------------------------------------ *)
(** ** validate-accuracy: Accuracy Validator *)

Module Validation.

Inductive Severity : Type := error | warning.

Inductive FindingType : Type :=
| broken_reference
| code_example_error
| deprecated_api
| broken_code_link
| stale_documentation.

Record Finding : Type := mkFinding {
  docFile : string;
  section : option string;
  ftype : FindingType;
  severity : Severity;
  message : string;
  context : option string;
  codeFile : option string;
  lastValidated : option json;
  codeModified : option Z;
  autoFixable : bool;
  requiresAIReview : option bool;   (* [None]: the field is not set *)
  suggestion : option string
}.

Definition isError (f : Finding) : bool :=
  match severity f with error => true | warning => false end.
Definition isWarning (f : Finding) : bool :=
  match severity f with warning => true | error => false end.

Definition pathExtensions : list string :=
  ["js"; "ts"; "jsx"; "tsx"; "py"; "go"; "rs"; "java"; "rb"].

Definition backtick : ascii := "`"%char.

(** The three patterns of [extractFilePaths]: a path with a source
    extension between backticks (with an optional line number), between
    parentheses, and between quote characters. *)
Definition backtickPathPattern : regex :=
  seqs [chr backtick;
        Group 1 (seqs [plus (notOneOf [backtick]); chr ".";
                       Group 2 (alts pathExtensions);
                       opt (Seq (chr ":") (plus digit))]);
        chr backtick].

Definition parenPathPattern : regex :=
  seqs [chr "(";
        Group 1 (seqs [plus (notOneOf [")"%char]); chr ".";
                       Group 2 (alts pathExtensions)]);
        chr ")"].

Definition quotedPathPattern : regex :=
  seqs [oneOf quotes;
        Group 1 (seqs [plus (notOneOf quotes); chr ".";
                       Group 2 (alts pathExtensions)]);
        oneOf quotes].

Definition extractFilePaths (content : string) : list string :=
  let paths :=
    flat_map (fun pattern =>
      map (fun m => JsString.splitHead ":" (group1 m))
          (execAll pattern content))
      [backtickPathPattern; parenPathPattern; quotedPathPattern] in
  fold_left Js.add paths [].

(** [/```(\w+)?\n([\s\S]*?)```/g] *)
Definition examplePattern : regex :=
  seqs [lit "```"; opt (Group 1 (plus word)); chr newline;
        Group 2 (Star false any); lit "```"].

Record Example : Type := mkExample {
  language : string;
  code : string;
  startIndex : nat
}.

Definition extractCodeExamples (content : string) : list Example :=
  map (fun m =>
    mkExample (match group 1 m with
               | Some l => if String.eqb l "" then "unknown" else l
               | None => "unknown"
               end)
              (JsString.trim (match group 2 m with Some c => c | None => "" end))
              (index m))
      (execAll examplePattern content).

Definition countChar (c : ascii) (s : string) : nat :=
  List.length (filter (Ascii.eqb c) (list_ascii_of_string s)).

Definition validateCodeExamples (docFile content : string) : list Finding :=
  flat_map (fun example =>
    if String.eqb (language example) "javascript"
       || String.eqb (language example) "typescript"
    then
      ((if negb (countChar "{" (code example) =? countChar "}" (code example))%nat
        then [mkFinding docFile None code_example_error warning
                "Code example has unmatched braces"
                (Some (JsString.take 100 (code example)))
                None None None false None None]
        else [])
       ++
       (if JsString.includes (code example) "app.start("
        then [mkFinding docFile None deprecated_api warning
                "Code example may use deprecated API: app.start()"
                (Some (JsString.take 100 (code example)))
                None None None false None
                (Some "Check if app.listen() should be used instead")]
        else []))%list
    else []) (extractCodeExamples content).

Definition msPerDay : Z := 1000 * 60 * 60 * 24.

Section FileSystem.

(** The modification time [fs.statSync(path.join(process.cwd(), f)).mtimeMs]
    of a path, in whole milliseconds; [None] when the file does not exist
    ([fs.existsSync] is false). *)
Variable mtime : string -> option Z.
(** [Date.parse(s)]; [None] when it is [NaN]. *)
Variable dateParse : string -> option Z.
(** The conversion of a number to a string. *)
Variable numberToString : Z -> string.

Definition existsSync (f : string) : bool :=
  match mtime f with Some _ => true | None => false end.

Definition validateFilePaths (docFile content : string) : list Finding :=
  flat_map (fun filePath =>
    if existsSync filePath then []
    else [mkFinding docFile None broken_reference error
            ("Referenced file does not exist: " ++ filePath)
            None None None None false None None])
    (extractFilePaths content).

(** The time value of [new Date(v)] for a parsed value; [None] for an
    invalid date.  A number is the time value when it is in the range of
    the time values, a boolean counts as 1 or 0 and [null] as 0, a string
    is parsed, an array or an object is parsed as the string it converts
    to. *)
Definition dateOfJson (v : json) : option Z :=
  match v with
  | JNum n => JsNumber.timeClip n
  | JBool b => Some (if b then 1 else 0)
  | JNull => Some 0
  | JStr _ | JArr _ | JObj _ =>
      match dateParse (Js.toString numberToString v) with
      | Some t => JsNumber.timeClip t
      | None => None
      end
  end.

(** The body of the inner loop: what the validator pushes for one
    pointer, the link from the entry [key] to the path [codeFile].  The
    difference of the two dates is a number ([JsNumber.ofDifference]); its
    quotient by [msPerDay] is compared with 0 and with 7 only, which
    comparing the difference decides, and [Math.round] of the quotient is
    the exact rounding.  An invalid date makes the quotient [NaN], which
    is not above 0. *)
Definition checkPointer (key : string) (value : json) (codeFile : string)
  : list Finding :=
  let docFile := JsString.splitHead "#" key in
  match mtime codeFile with
  | None =>
      [mkFinding docFile None broken_code_link error
         ("CODE_POINTERS references non-existent file: " ++ codeFile)
         None (Some codeFile) None None false None None]
  | Some ms =>
      if Js.truthy (Js.prop value "lastValidated") then
        match Js.prop value "lastValidated" with
        | Some lv =>
            match JsNumber.timeClip ms, dateOfJson lv with
            | Some modTime, Some lastValidated =>
                let gap := JsNumber.ofDifference (modTime - lastValidated) in
                if 0 <? gap then
                  [mkFinding docFile (JsString.splitSecond "#" key)
                     stale_documentation
                     (if 7 * msPerDay <? gap then error else warning)
                     ("Code changed "
                      ++ Js.showZ ((2 * gap + msPerDay) / (2 * msPerDay))
                      ++ " days after last validation")
                     None (Some codeFile) (Some lv) (Some modTime)
                     false (Some true) None]
                else []
            | _, _ => []
            end
        | None => []
        end
      else []
  end.

(** The day count of the validator in binary64, operation by operation:
    [(modTime - lastValidated) / (1000 * 60 * 60 * 24)]. *)
Definition daysSinceValidationNumber (modTime lastValidated : Z)
  : spec_float :=
  JsNumber.div
    (JsNumber.sub (JsNumber.ofZ modTime) (JsNumber.ofZ lastValidated))
    (JsNumber.ofZ msPerDay).

(** The inner loop over the elements of [value.files]: [path.join] throws
    on an element that is not a string, and what was pushed until then is
    lost with the function's result ([None]). *)
Fixpoint checkPointers (key : string) (value : json) (elements : list json)
  : option (list Finding) :=
  match elements with
  | [] => Some []
  | JStr codeFile :: elements' =>
      match checkPointers key value elements' with
      | Some findings => Some (checkPointer key value codeFile ++ findings)%list
      | None => None
      end
  | _ :: _ => None
  end.

(** One turn of the outer loop.  Reading [value.files] throws on [null];
    a falsy [files] skips the entry; a truthy one is iterated, which throws
    unless it is an array or a string. *)
Definition checkEntry (key : string) (value : json) : option (list Finding) :=
  match value with
  | JNull => None
  | _ =>
      if Js.truthy (Js.prop value "files") then
        match Js.prop value "files" with
        | Some files =>
            match Js.iterate files with
            | Some elements => checkPointers key value elements
            | None => None
            end
        | None => Some []
        end
      else Some []
  end.

Fixpoint checkEntries (entries : list (string * json))
  : option (list Finding) :=
  match entries with
  | [] => Some []
  | (key, value) :: entries' =>
      match checkEntry key value, checkEntries entries' with
      | Some findings, Some findings' => Some (findings ++ findings')%list
      | _, _ => None
      end
  end.

(** [validateViaCodePointers]; [None] when it throws. *)
Definition validateViaCodePointers (codePointers : json)
  : option (list Finding) :=
  match Js.ownEntries codePointers with
  | Some entries => checkEntries entries
  | None => None
  end.






Record Results : Type := mkResults {
  total_checks : Z;
  passed : Z;
  failed : Z;
  warnings_count : Z;
  accuracy_score : spec_float;
  errors : list Finding;
  warnings : list Finding
}.

(** [validateAccuracy] from the pointer findings on; [docs] are the
    markdown files of the documentation directory with their contents. *)
Definition report (codePointerErrors : list Finding)
  (docs : list (string * string)) : Results :=
  let perDoc (d : string * string) :=
    let relativePath := "context_for_llms/" ++ fst d in
    (validateFilePaths relativePath (snd d),
     validateCodeExamples relativePath (snd d)) in
  let errors :=
    (filter isError codePointerErrors
     ++ flat_map (fun d => fst (perDoc d) ++ filter isError (snd (perDoc d)))
                 docs)%list in
  let warnings :=
    (filter isWarning codePointerErrors
     ++ flat_map (fun d => filter isWarning (snd (perDoc d))) docs)%list in
  let total_checks := Z.of_nat (List.length docs) in
  let failed := Z.of_nat (List.length errors) in
  let passed := total_checks - failed in
  let accuracy_score :=
    if 0 <? total_checks
    then JsNumber.div (JsNumber.ofZ passed) (JsNumber.ofZ total_checks)
    else JsNumber.ofZ 1 in
  mkResults total_checks passed failed (Z.of_nat (List.length warnings))
            accuracy_score errors warnings.

(** [validateAccuracy]: the report written to VALIDATION.json; [None]
    when the pass over the pointers throws, upon which the script exits
    without a report. *)
Definition validateAccuracy (codePointers : json)
  (docs : list (string * string)) : option Results :=
  match validateViaCodePointers codePointers with
  | Some codePointerErrors => Some (report codePointerErrors docs)
  | None => None
  end.

End FileSystem.

End Validation.

(* ------------------------------------------------------------------ *)
(** ** The wording of the specification, for comparison with the code *)

Module Spec.

Import DocState.

(** ">30 days: critical, >7: high, >3: medium, else low". *)
Definition tierOfDays (days : Z) : StaleRisk :=
  if 30 <? days then critical
  else if 7 <? days then high
  else if 3 <? days then medium
  else low.





(** "The impact tier is high if the total changed lines exceed 100 or the
    breaking-change flag is set, medium if they exceed 20, and low
    otherwise." *)
Definition impactTier (totalLines : Z) (breaking : bool) : CodeChanges.Impact :=
  if (100 <? totalLines) || breaking then CodeChanges.high
  else if 20 <? totalLines then CodeChanges.medium
  else CodeChanges.low.

(** The start of the text or the place after a line terminator. *)
Definition atLineStart (p : option ascii) : bool :=
  match p with
  | None => true
  | Some c => isLineTerminator c
  end.

(** The lines of a diff text that a sign marks: the places at the start of
    a line that hold the sign and, after it, a character other than the
    sign.  [p] is the character before the text. *)
Fixpoint markedLines (sign : ascii) (p : option ascii) (l : list ascii)
  : nat :=
  match l with
  | [] => 0
  | c :: t =>
      ((if atLineStart p && Ascii.eqb sign c
           && match t with
              | d :: _ => negb (Ascii.eqb d sign)
              | [] => false
              end
        then 1 else 0)
       + markedLines sign (Some c) t)%nat
  end.

(** "A source file matches when its path contains the reference value as a
    substring or when the basenames agree with extensions stripped." *)
Definition matchesStripped (f v : string) : bool :=
  JsString.includes f v
  || String.eqb (Path.basenameExt f (Path.extname f))
                (Path.basenameExt v (Path.extname v)).

(** "Duplicates collapse to a single entry while the first-occurrence order
    is preserved." *)
Fixpoint dedup (seen l : list string) : list string :=
  match l with
  | [] => []
  | x :: l' => if Js.mem x seen then dedup seen l'
               else x :: dedup (x :: seen) l'
  end.

Definition firstOccurrences (l : list string) : list string := dedup [] l.

(** The reasons of the pointers to one file, in the order of the pointers. *)
Definition reasonsFor (f : string) (ps : list Pointer) : list string :=
  map reason (filter (fun p => String.eqb (file p) f) ps).

(** The number of code files that the documented set names by their exact
    relative path. *)
Definition exactlyDocumented (documentedSet codeFiles : list string) : Z :=
  Z.of_nat (List.length (filter (fun f => Js.mem f documentedSet) codeFiles)).

(** [h] hundredths is a value of [d / n] rounded to two decimal places: no
    number of hundredths is nearer to the quotient. *)
Definition nearestHundredth (h d n : Z) : Prop :=
  2 * Z.abs (h * n - 100 * d) <= n.

Definition roundsToNearest (d n : Z) : bool :=
  match JsNumber.toZ (Coverage.hundredths d n) with
  | Some h => 2 * Z.abs (h * n - 100 * d) <=? n
  | None => false
  end.

(** The pairs [(d, n)] with [0 <= d <= n] and [1 <= n <= bound]. *)
Definition countPairs (bound : nat) : list (nat * nat) :=
  flat_map (fun n => map (fun d => (d, n)) (seq 0 (S n))) (seq 1 bound).

End Spec.

(* ------------------------------------------------------------------ *)
(** ** Orders and measures used by the further properties *)

From Stdlib Require Import Permutation Sorted.

Module Order.

(** [a] may stand before [b] for the comparator [cmp]. *)
Definition before {A : Type} (cmp : A -> A -> Z) (a b : A) : Prop :=
  cmp a b <= 0.

Definition byImpact (a b : CodeChanges.AffectedDoc) : Prop :=
  CodeChanges.impactOrder (CodeChanges.doc_impact a)
  <= CodeChanges.impactOrder (CodeChanges.doc_impact b).

Definition byUsageDescending (a b : Coverage.Undocumented) : Prop :=
  Coverage.usage_count b <= Coverage.usage_count a.

(** The priority the aggregator derives from a usage count. *)
Definition priorityOf (usageCount : Z) : Coverage.Priority :=
  if 10 <? usageCount then Coverage.high
  else if 5 <? usageCount then Coverage.medium
  else Coverage.low.

Definition hasAffectedDocs (codePointers : json) (filePath : string) : bool :=
  match CodeChanges.affectedDocsOf codePointers filePath with
  | [] => false
  | _ => true
  end.

(** The rank of a risk tier, none lowest. *)
Definition riskRank (r : DocState.StaleRisk) : Z :=
  match r with
  | DocState.none => 0
  | DocState.low => 1
  | DocState.medium => 2
  | DocState.high => 3
  | DocState.critical => 4
  end.

End Order.

(* ------------------------------------------------------------------ *)
(** ** Well-formedness of the pointer map *)

Module PointerMap.

(** One file of a document's map: it is a source file and has a reason. *)
Definition goodTarget (sourceFiles : list string)
  (fr : string * list string) : Prop :=
  In (fst fr) sourceFiles /\ snd fr <> [].

(** One document of the map: it is a markdown file of the directory and
    links at least one file, each of them a good target. *)
Definition goodEntry (docFiles sourceFiles : list string)
  (dm : string * list (string * list string)) : Prop :=
  In (fst dm) docFiles
  /\ snd dm <> []
  /\ Forall (goodTarget sourceFiles) (snd dm).

End PointerMap.

(* ------------------------------------------------------------------ *)
(** ** track-code-changes.mjs: the git log and the DOC_STATE updates *)

Module Tracker.

Import CodeChanges.

(** [s.split(sep)] for a one-character separator. *)
Fixpoint splitOn (sep : ascii) (s : string) : list string :=
  match s with
  | EmptyString => [EmptyString]
  | String c s' =>
      if Ascii.eqb c sep then EmptyString :: splitOn sep s'
      else match splitOn sep s' with
           | piece :: pieces => String c piece :: pieces
           | [] => [String c EmptyString]
           end
  end.

(** [parts.join(sep)] *)
Fixpoint join (sep : string) (parts : list string) : string :=
  match parts with
  | [] => ""
  | [p] => p
  | p :: rest => p ++ sep ++ join sep rest
  end.

Section Log.

(** [parseInt(timestamp) * 1000] *)
Variable timestampOf : string -> Z.

(** [const [hash, timestamp, ...messageParts] = line.split('|')] and the
    commit built from them; a commit line has at least two parts. *)
Definition parseCommit (line : string) : Commit :=
  match splitOn "|" line with
  | hash :: timestamp :: messageParts =>
      mkCommit hash (timestampOf timestamp) (join "|" messageParts)
  | hash :: [] => mkCommit hash (timestampOf "") ""
  | [] => mkCommit "" (timestampOf "") ""
  end.

(** [changes.get(file).push(commit)], after [changes.set(file, [])] for a
    new file. *)
Definition pushCommit (file : string) (c : Commit)
  (changes : list (string * list Commit)) : list (string * list Commit) :=
  match Js.assoc file changes with
  | Some cs => Js.assign file (cs ++ [c])%list changes
  | None => Js.assign file [c] changes
  end.

(** One line of the log. *)
Definition logLine (acc : list (string * list Commit) * option Commit)
  (line : string) : list (string * list Commit) * option Commit :=
  let (changes, currentCommit) := acc in
  if JsString.includes line "|" then (changes, Some (parseCommit line))
  else if negb (String.eqb (JsString.trim line) "") then
    match currentCommit with
    | Some c => (pushCommit (JsString.trim line) c changes, currentCommit)
    | None => acc
    end
  else acc.

(** [getFileChanges]; [output] is what [git log] prints, [None] when the
    command fails (the [catch] branch returns an empty Map). *)
Definition getFileChanges (output : option string)
  : list (string * list Commit) :=
  match output with
  | Some text => fst (fold_left logLine (splitOn newline text) ([], None))
  | None => []
  end.

End Log.

(** The entries of [docState.files]: the staleness part of an entry of
    DOC_STATE.json, by document path. *)
Definition DocStateFiles : Type := list (string * DocState.DocEntry).

(** The three assignments that mark an entry. *)
Definition markEntry (time : Z) (e : DocState.DocEntry) : DocState.DocEntry :=
  DocState.mkDocEntry DocState.stale (DocState.lastUpdated e)
    (DocState.linkedFiles e) (Some time) true (DocState.staleRisk e).

(** [if (docState.files[docPath]) { ... }] *)
Definition markDoc (docPath : string) (time : Z) (files : DocStateFiles)
  : DocStateFiles :=
  match Js.assoc docPath files with
  | Some e => Js.assign docPath (markEntry time e) files
  | None => files
  end.

(** The DOC_STATE entries after [trackCodeChanges]. *)
Definition updateDocState (codePointers : json)
  (changes : list (string * list Commit)) (files : DocStateFiles)
  : DocStateFiles :=
  fold_left (fun files fc =>
    let c0 := hd (mkCommit "" 0 "") (snd fc) in
    fold_left (fun files docFile =>
                 markDoc ("context_for_llms/" ++ docFile) (timestamp c0) files)
              (affectedDocsOf codePointers (fst fc)) files)
    changes files.

Section FileTimes.

(** The modification time of a path below the working directory; [None]
    when [fs.existsSync] is false. *)
Variable mtime : string -> option Z.

(** The body of the inner loop of [trackViaFileTimes]. *)
Definition checkCodeFile (docPath : string) (acc : DocStateFiles * Z)
  (codeFile : string) : DocStateFiles * Z :=
  match mtime codeFile with
  | Some codeModTime =>
      match mtime docPath with
      | Some docModTime =>
          if docModTime <? codeModTime then
            match Js.assoc docPath (fst acc) with
            | Some _ => (markDoc docPath codeModTime (fst acc), snd acc + 1)
            | None => acc
            end
          else acc
      | None => acc
      end
  | None => acc
  end.

(** [trackViaFileTimes]: the DOC_STATE entries and [changesFound]. *)
Definition trackViaFileTimes (codePointers : json) (files : DocStateFiles)
  : DocStateFiles * Z :=
  fold_left (fun acc kv =>
    match Js.files (snd kv) with
    | Some codeFiles =>
        let docPath := "context_for_llms/" ++ JsString.splitHead "#" (fst kv) in
        fold_left (checkCodeFile docPath) codeFiles acc
    | None => acc
    end) (Js.entries codePointers) (files, 0).

End FileTimes.

(** What tracking may do to an entry: leave it, or mark it stale without
    touching its risk tier, its own time and its links. *)
Definition marked (e e' : DocState.DocEntry) : Prop :=
  DocState.status e' = DocState.stale
  /\ DocState.validationNeeded e' = true
  /\ DocState.lastCodeChange e' <> None
  /\ DocState.staleRisk e' = DocState.staleRisk e
  /\ DocState.lastUpdated e' = DocState.lastUpdated e
  /\ DocState.linkedFiles e' = DocState.linkedFiles e.

Definition keptOrMarked (a b : string * DocState.DocEntry) : Prop :=
  fst b = fst a /\ (snd b = snd a \/ marked (snd a) (snd b)).

(** A commit that was parsed from a commit line of the log. *)
Definition fromLog (timestampOf : string -> Z) (text : string) (c : Commit)
  : Prop :=
  exists line, In line (splitOn newline text)
               /\ JsString.includes line "|" = true
               /\ c = parseCommit timestampOf line.

(** A changed file of the Map: a name that is not empty, with at least one
    commit, each of them parsed from the log. *)
Definition goodChange (timestampOf : string -> Z) (text : string)
  (fc : string * list Commit) : Prop :=
  fst fc <> "" /\ snd fc <> [] /\ Forall (fromLog timestampOf text) (snd fc).

End Tracker.

(* ------------------------------------------------------------------ *)
(** ** analyze-doc-state: completeness, metrics and priorities *)

Module DocReport.

(** [x + y] *)
Definition add (x y : spec_float) : spec_float :=
  SFadd JsNumber.prec JsNumber.emax x y.

(** The literals 0.2, 0.3, 0.4 and 0.7: the binary64 numbers nearest to
    the decimal fractions. *)
Definition tenths (n : Z) : spec_float :=
  JsNumber.div (JsNumber.ofZ n) (JsNumber.ofZ 10).

(** [Math.min(x, y)] *)
Definition min (x y : spec_float) : spec_float :=
  if JsNumber.ltb y x then y else x.

Record Analysis : Type := mkAnalysis {
  sectionCount : Z;
  wordCount : Z;
  codeFences : Z;       (* [codeBlockCount] is half of it, exactly *)
  completeness : spec_float
}.

(** [analyzeMarkdownFile].  The word count is the number of pieces of
    [content.split(/\s+/)], one more than the number of white-space runs;
    [codeBlocks] is half the number of fence marks, and is positive when
    there is one. *)
Definition analyzeMarkdownFile (content : string) : Analysis :=
  let lines := Tracker.splitOn newline content in
  let headings :=
    filter (fun line => JsString.startsWith (JsString.trim line) "#") lines in
  let sectionCount := Z.of_nat (List.length headings) in
  let wordCount := Z.of_nat (S (List.length (execAll (plus space) content))) in
  let codeFences := Z.of_nat (List.length (execAll (lit "```") content)) in
  let completeness := JsNumber.ofZ 0 in
  let completeness :=
    if 0 <? sectionCount then add completeness (tenths 3) else completeness in
  let completeness :=
    if 200 <? wordCount then add completeness (tenths 3) else completeness in
  let completeness :=
    if 0 <? codeFences then add completeness (tenths 2) else completeness in
  let completeness :=
    if 500 <? wordCount then add completeness (tenths 2) else completeness in
  mkAnalysis sectionCount wordCount codeFences
             (min (JsNumber.ofZ 1) completeness).

(** [analysis.completeness >= 0.7] and [analysis.completeness < 0.4] *)
Definition isComplete (a : Analysis) : bool :=
  JsNumber.leb (tenths 7) (completeness a).
Definition isPoor (a : Analysis) : bool :=
  JsNumber.ltb (completeness a) (tenths 4).

Inductive Action : Type := enhance | update.

Record Priority : Type := mkPriority {
  p_file : string;
  action : Action;
  reason : string;
  p_impact : DocState.StaleRisk     (* the label: critical, high or medium *)
}.

(** [impactOrder[a.impact] - impactOrder[b.impact]]; the table has no key
    [none], for which the difference is not a number and counts as 0. *)
Definition impactRank (r : DocState.StaleRisk) : option Z :=
  match r with
  | DocState.critical => Some 0
  | DocState.high => Some 1
  | DocState.medium => Some 2
  | DocState.low => Some 3
  | DocState.none => None
  end.

Definition compareImpact (a b : Priority) : Z :=
  match impactRank (p_impact a), impactRank (p_impact b) with
  | Some x, Some y => x - y
  | _, _ => 0
  end.

Record Metrics : Type := mkMetrics {
  total_docs : Z;
  complete_docs : Z;
  incomplete_docs : Z;
  stale_docs : Z
}.

Record State : Type := mkState {
  files : list (string * (DocState.DocEntry * Analysis));
  metrics : Metrics;
  priorities : list Priority
}.

Section Report.

Variable getFileModTime : string -> option Z.
(** The text of a document of the directory. *)
Variable readDoc : string -> string.
(** The ISO string of a time stamp. *)
Variable isoString : Z -> string.

(** [Math.round(analysis.completeness * 100)], printed. *)
Definition percent (a : Analysis) : string :=
  match JsNumber.toZ (JsNumber.round
                        (JsNumber.mul (completeness a) (JsNumber.ofZ 100))) with
  | Some n => Js.showZ n
  | None => "NaN"
  end.

(** What the two [if]s at the end of the loop body push. *)
Definition docPriorities (relativePath : string) (e : DocState.DocEntry)
  (a : Analysis) : list Priority :=
  ((if negb (isComplete a)
    then [mkPriority relativePath enhance
            ("Low completeness score (" ++ percent a ++ "%)")
            (if isPoor a then DocState.high else DocState.medium)]
    else [])
   ++
   (match DocState.staleRisk e with
    | DocState.critical | DocState.high =>
        [mkPriority relativePath update
           ("Stale documentation (code changed "
            ++ match DocState.lastCodeChange e with
               | Some t => isoString t
               | None => "null"
               end ++ ")")
           (DocState.staleRisk e)]
    | _ => []
    end))%list.

(** One turn of the loop over the markdown files. *)
Definition visitDoc (codePointers : json) (st : State) (fileName : string)
  : State :=
  let relativePath := "context_for_llms/" ++ fileName in
  let lastUpdated := getFileModTime relativePath in
  let analysis := analyzeMarkdownFile (readDoc fileName) in
  let e := DocState.analyzeDoc getFileModTime codePointers fileName
             lastUpdated in
  let m := metrics st in
  let m :=
    if isComplete analysis
    then mkMetrics (total_docs m) (complete_docs m + 1) (incomplete_docs m)
                   (stale_docs m)
    else mkMetrics (total_docs m) (complete_docs m) (incomplete_docs m + 1)
                   (stale_docs m) in
  let m :=
    if DocState.isStale (DocState.status e)
    then mkMetrics (total_docs m) (complete_docs m) (incomplete_docs m)
                   (stale_docs m + 1)
    else m in
  mkState (Js.assign relativePath (e, analysis) (files st)) m
          (priorities st ++ docPriorities relativePath e analysis)%list.

(** [analyzeDocState]: the state written to DOC_STATE.json. *)
Definition analyzeDocState (codePointers : json) (dirEntries : list string)
  : State :=
  let docs := filter isMarkdown dirEntries in
  let st :=
    fold_left (visitDoc codePointers) docs
      (mkState [] (mkMetrics (Z.of_nat (List.length docs)) 0 0 0) []) in
  mkState (files st) (metrics st)
          (Js.sortWith compareImpact (priorities st)).

End Report.

(** The rank by which the priorities are ordered: critical, high, medium. *)
Definition rankOf (p : Priority) : Z :=
  match impactRank (p_impact p) with Some x => x | None => 0 end.

Definition byRank (a b : Priority) : Prop := rankOf a <= rankOf b.

Definition wellLabelled (p : Priority) : Prop :=
  match action p with
  | enhance => p_impact p = DocState.high \/ p_impact p = DocState.medium
  | update => p_impact p = DocState.critical \/ p_impact p = DocState.high
  end.

End DocReport.

(* ------------------------------------------------------------------ *)
(** ** What a match of the matcher is *)

Module RegexSem.

(** [Matches r st st1]: the pattern [r] can consume the input from the
    state [st] to the state [st1].  The relation forgets the order in which
    the matcher tries the alternatives; every result of the matcher is one
    of its matches. *)
Inductive Matches : regex -> state -> state -> Prop :=
| MChr (p : ascii -> bool) (st : state) (c : ascii) (t : list ascii) :
    rest st = c :: t -> p c = true ->
    Matches (Chr p) st (Regex.mkState (Some c) t (S (pos st)) (caps st))
| MEps (st : state) : Matches Eps st st
| MSeq (a b : regex) (st st1 st2 : state) :
    Matches a st st1 -> Matches b st1 st2 -> Matches (Seq a b) st st2
| MAltL (a b : regex) (st st1 : state) :
    Matches a st st1 -> Matches (Alt a b) st st1
| MAltR (a b : regex) (st st1 : state) :
    Matches b st st1 -> Matches (Alt a b) st st1
| MStarEnd (g : bool) (a : regex) (st : state) : Matches (Star g a) st st
| MStarMore (g : bool) (a : regex) (st st1 st2 : state) :
    Matches a st st1 -> (pos st < pos st1)%nat ->
    Matches (Star g a) st1 st2 -> Matches (Star g a) st st2
| MGroup (n : nat) (a : regex) (st st1 : state) :
    Matches a st st1 ->
    Matches (Group n a) st
      (Regex.mkState (prev st1) (rest st1) (pos st1)
         ((n, firstn (pos st1 - pos st) (rest st)) :: caps st1))
| MWordBoundary (st : state) :
    xorb (optWord (prev st)) (optWord (hd_error (rest st))) = true ->
    Matches WordBoundary st st
| MLineStart (st : state) :
    match prev st with
    | None => True
    | Some c => isLineTerminator c = true
    end ->
    Matches LineStart st st.

(** The characters a match consumed. *)
Definition consumes (st st1 : state) (w : list ascii) : Prop :=
  rest st = (w ++ rest st1)%list /\ pos st1 = (pos st + List.length w)%nat.

End RegexSem.

(* ------------------------------------------------------------------ *)
(** ** The shape of an extracted reference *)

Module RefShape.

Definition isQuote (c : ascii) : bool := existsb (Ascii.eqb c) quotes.

(** The value is not empty; the value of an import has no quote character,
    the value of a class or function reference is made of word characters. *)
Definition wellFormed (ref : Reference) : Prop :=
  let chars := list_ascii_of_string (value ref) in
  chars <> []
  /\ match type ref with
     | import => Forall (fun c => isQuote c = false) chars
     | class | function => Forall (fun c => isWord c = true) chars
     end.

End RefShape.

(* ------------------------------------------------------------------ *)
(** ** generate-section-index: the sections of a document *)

Module SectionIndex.

(** [Math.ceil(text.length / 4)] *)
Definition estimateTokens (text : string) : nat :=
  (String.length text + 3) / 4.

(** At most [n] further occurrences of [a], as many as possible. *)
Fixpoint upTo (n : nat) (a : regex) : regex :=
  match n with
  | O => Eps
  | S n' => opt (Seq a (upTo n' a))
  end.

(** [/^(#{1,6})\s+(.+)/] without its anchor. *)
Definition headingPattern : regex :=
  seqs [Group 1 (Seq (chr "#") (upTo 5 (chr "#"))); plus space;
        Group 2 (plus dot)].

(** [s.match(re)] for a pattern that begins with [^] and has neither the g
    nor the m flag: the match can only start at index 0. *)
Definition matchAtStart (r : regex) (s : string) : option result :=
  let st := Regex.mkState None (list_ascii_of_string s) 0 [] in
  option_map (fun e => resultOf (st, e)) (run r st Some).

Definition groupText (n : nat) (m : result) : string :=
  match group n m with Some s => s | None => "" end.

(** The level and the title of a heading line. *)
Definition headingOf (line : string) : option (nat * string) :=
  match matchAtStart headingPattern line with
  | Some m => Some (String.length (groupText 1 m),
                    JsString.trim (groupText 2 m))
  | None => None
  end.

Definition isHeading (line : string) : bool :=
  match headingOf line with Some _ => true | None => false end.

Record Section_ : Type := mkSection {
  file : string;
  heading : string;
  level : nat;
  line : nat;
  content : string;
  tokens : nat;
  lines : nat
}.

(** [currentSection] with [currentContent]: title, level, line number and
    the lines gathered so far. *)
Definition Current : Type := (string * nat * nat * list string)%type.

(** "Save previous section if exists". *)
Definition save (filename : string) (current : option Current)
  (sections : list Section_) : list Section_ :=
  match current with
  | Some (title, lvl, ln, currentContent) =>
      let sectionText := JsString.trim (Tracker.join lf currentContent) in
      (sections ++ [mkSection filename title lvl ln sectionText
                      (estimateTokens sectionText)
                      (List.length currentContent)])%list
  | None => sections
  end.

Definition pushLine (l : string) (current : Current) : Current :=
  let '(title, lvl, ln, currentContent) := current in
  (title, lvl, ln, (currentContent ++ [l])%list).

(** The loop over the lines; [i] is the index of the first of [ls]. *)
Fixpoint scan (filename : string) (ls : list string) (i : nat)
  (current : option Current) (sections : list Section_) : list Section_ :=
  match ls with
  | [] => save filename current sections
  | l :: rest =>
      match headingOf l with
      | Some (lvl, title) =>
          scan filename rest (S i) (Some (title, lvl, S i, [l]))
               (save filename current sections)
      | None =>
          scan filename rest (S i) (option_map (pushLine l) current) sections
      end
  end.

Definition extractSections (content filename : string) : list Section_ :=
  scan filename (Tracker.splitOn newline content) 0 None [].

(** The number of lines before the first heading line. *)
Fixpoint preamble (ls : list string) : nat :=
  match ls with
  | [] => O
  | l :: rest => if isHeading l then O else S (preamble rest)
  end.

(** What holds of a section of a document with the lines [ls]. *)
Definition wellFormed (filename : string) (ls : list string) (s : Section_)
  : Prop :=
  file s = filename
  /\ (1 <= level s <= 6)%nat
  /\ (1 <= line s <= List.length ls)%nat
  /\ (exists l, nth_error ls (line s - 1) = Some l
                /\ headingOf l = Some (level s, heading s))
  /\ (1 <= lines s)%nat
  /\ tokens s = estimateTokens (content s).

Definition earlier (a b : Section_) : Prop := (line a < line b)%nat.

(** The section being gathered while the line of index [i] is read. *)
Definition currentOk (ls : list string) (i : nat) (current : option Current)
  : Prop :=
  match current with
  | Some (title, lvl, ln, currentContent) =>
      (1 <= lvl <= 6)%nat /\ (1 <= ln <= i)%nat
      /\ (exists l, nth_error ls (ln - 1) = Some l
                    /\ headingOf l = Some (lvl, title))
      /\ (1 <= List.length currentContent)%nat
  | None => True
  end.

(** The saved sections lie before the current one, or before line [i]. *)
Definition savedBelow (i : nat) (current : option Current)
  (sections : list Section_) : Prop :=
  match current with
  | Some (_, _, ln, _) => Forall (fun s => (line s < ln)%nat) sections
  | None => Forall (fun s => (line s <= i)%nat) sections
  end.

Definition pending (current : option Current) : nat :=
  match current with Some _ => 1 | None => 0 end.

Definition dropped (current : option Current) (ls : list string) : nat :=
  match current with Some _ => 0 | None => preamble ls end.

Definition gathered (current : option Current) : nat :=
  match current with
  | Some (_, _, _, currentContent) => List.length currentContent
  | None => O
  end.

End SectionIndex.

(* ------------------------------------------------------------------ *)
(** ** autofix-linting: heading structure and trailing white space *)

Module Autofix.

(** An entry of [fixes.fixDetails] of the type heading-structure. *)
Record FixDetail : Type := mkFixDetail {
  ftype : string;
  line : nat;
  before : string;
  after : string;
  description : string
}.

(** [$] without the m flag, at the end of a pattern: the match has to end
    where the input ends. *)
Definition atEnd (e : state) : option state :=
  match rest e with
  | [] => Some e
  | _ :: _ => None
  end.

(** [s.match(re)] for a pattern between [^] and [$] that has neither the g
    nor the m flag: the match starts at index 0 and ends with the input. *)
Definition matchWhole (r : regex) (s : string) : option result :=
  let st := Regex.mkState None (list_ascii_of_string s) 0 [] in
  option_map (fun e => resultOf (st, e)) (run r st atEnd).

(** [line.match(/^(#{1,6})\s+(.+)$/)]: the level and the text. *)
Definition headingMatch (l : string) : option (nat * string) :=
  match matchWhole SectionIndex.headingPattern l with
  | Some m => Some (String.length (SectionIndex.groupText 1 m),
                    SectionIndex.groupText 2 m)
  | None => None
  end.

(** ['#'.repeat(n)] *)
Fixpoint hashes (n : nat) : string :=
  match n with
  | O => ""
  | S n' => String "#" (hashes n')
  end.

Definition intermediateLine (lastLevel : nat) (text : string) : string :=
  hashes (lastLevel + 1) ++ " " ++ text ++ " (Section)".

(** The loop over the lines; [i] is the index of the first of [ls]. *)
Fixpoint fixLoop (ls : list string) (i lastLevel : nat)
  (fixedLines : list string) (details : list FixDetail) (madeChanges : bool)
  : list string * list FixDetail * bool :=
  match ls with
  | [] => (fixedLines, details, madeChanges)
  | l :: ls' =>
      match headingMatch l with
      | Some (level, text) =>
          if (lastLevel + 1 <? level)%nat && (0 <? lastLevel)%nat then
            fixLoop ls' (S i) level
              (fixedLines ++ [intermediateLine lastLevel text] ++ [l])
              (details ++
               [mkFixDetail "heading-structure" (i + 1) l
                  (intermediateLine lastLevel text ++ lf ++ l)
                  "Added missing intermediate heading level"])
              true
          else
            fixLoop ls' (S i) level (fixedLines ++ [l]) details madeChanges
      | None =>
          fixLoop ls' (S i) lastLevel (fixedLines ++ [l]) details madeChanges
      end
  end.

(** The fixed content and what the call adds to [fixes.fixDetails]. *)
Definition fixHeadingStructure (content : string) : string * list FixDetail :=
  let '(fixedLines, details, madeChanges) :=
    fixLoop (Tracker.splitOn newline content) 0 0 [] [] false in
  (if madeChanges then Tracker.join lf fixedLines else content, details).

(** The levels of the heading lines, in the order of the text. *)
Definition levels (ls : list string) : list nat :=
  flat_map (fun l => match headingMatch l with
                     | Some (level, _) => [level]
                     | None => []
                     end) ls.

(** Whether some heading is more than one level below the heading before
    it; [lastLevel] is the level before the first of [lv], 0 for none. *)
Fixpoint skips (lastLevel : nat) (lv : list nat) : bool :=
  match lv with
  | [] => false
  | level :: lv' =>
      (lastLevel + 1 <? level)%nat && (0 <? lastLevel)%nat || skips level lv'
  end.

(** [l'] is [l] with lines added. *)
Inductive OnlyInserts : list string -> list string -> Prop :=
| OnlyInserts_nil : OnlyInserts [] []
| OnlyInserts_keep (x : string) (l l' : list string) :
    OnlyInserts l l' -> OnlyInserts (x :: l) (x :: l')
| OnlyInserts_insert (y : string) (l l' : list string) :
    OnlyInserts l l' -> OnlyInserts l (y :: l').

(** A recorded fix names a heading line of the text and the two lines that
    replace it. *)
Definition goodDetail (ls : list string) (d : FixDetail) : Prop :=
  ftype d = "heading-structure"
  /\ (1 <= line d <= List.length ls)%nat
  /\ nth_error ls (line d - 1) = Some (before d)
  /\ exists level text lastLevel,
       headingMatch (before d) = Some (level, text)
       /\ (1 <= lastLevel)%nat /\ (lastLevel + 1 < level)%nat
       /\ after d = intermediateLine lastLevel text ++ lf ++ before d.

(** *** Trailing white space *)

Definition isBlank (c : ascii) : bool :=
  existsb (Ascii.eqb c) [" "; "009"]%char.

(** [/[ \t]+$/gm] without its final assertion. *)
Definition trailingPattern : regex := plus (oneOf [" "; "009"]%char).

(** [$] under the m flag, at the end of a pattern: the match has to end at
    the end of the input or before a line terminator. *)
Definition atLineEnd (e : state) : option state :=
  match rest e with
  | [] => Some e
  | c :: _ => if isLineTerminator c then Some e else None
  end.

(** The leftmost match of the pattern [r] followed by the assertion [k]. *)
Fixpoint searchEnd (r : regex) (k : state -> option state) (p : option ascii)
  (s : list ascii) (i : nat) {struct s} : option (state * state) :=
  let st := Regex.mkState p s i [] in
  match run r st k with
  | Some e => Some (st, e)
  | None =>
      match s with
      | [] => None
      | c :: t => searchEnd r k (Some c) t (S i)
      end
  end.

(** [s.replace(re, '')] for a pattern with the g flag: the text between the
    matches is kept; after an empty match the search goes on one character
    further.  The fuel is the number of characters left plus one. *)
Fixpoint removeLoop (fuel : nat) (r : regex) (k : state -> option state)
  (p : option ascii) (s : list ascii) (i : nat) : list ascii :=
  match fuel with
  | O => s
  | S fuel' =>
      match searchEnd r k p s i with
      | None => s
      | Some (st, e) =>
          (firstn (pos st - i) s ++
           (if (pos st <? pos e)%nat
            then removeLoop fuel' r k (prev e) (rest e) (pos e)
            else match rest e with
                 | [] => []
                 | c :: t => c :: removeLoop fuel' r k (Some c) t (S (pos e))
                 end))%list
      end
  end.

Definition removeAll (r : regex) (k : state -> option state) (s : string)
  : string :=
  let l := list_ascii_of_string s in
  string_of_list_ascii (removeLoop (S (List.length l)) r k None l 0).

Definition fixTrailingWhitespace (content : string) : string :=
  let fixed := removeAll trailingPattern atLineEnd content in
  if negb (String.eqb fixed content) then fixed else content.

(** The end of a line: the end of the text or a line terminator. *)
Definition lineEnd (s : list ascii) : bool :=
  match s with
  | [] => true
  | c :: _ => isLineTerminator c
  end.

(** A text without a blank before the end of a line. *)
Fixpoint clean (s : list ascii) : bool :=
  match s with
  | [] => true
  | c :: t => negb (isBlank c && lineEnd t) && clean t
  end.

(** The text without the blanks that end a line, read from its end. *)
Fixpoint strip (s : list ascii) : list ascii :=
  match s with
  | [] => []
  | c :: t => if isBlank c && lineEnd (strip t) then strip t
              else c :: strip t
  end.

(** *** Heading spacing *)

(** [/([^\n])\n(#{1,6}\s+)/g] *)
Definition headingSpacingPattern : regex :=
  seqs [Group 1 (notOneOf [newline]); chr newline;
        Group 2 (Seq (Seq (chr "#") (SectionIndex.upTo 5 (chr "#")))
                     (plus space))].

(** The replacement [$1\n\n$2]. *)
Definition blankLineTemplate (m : result) : list ascii :=
  (list_ascii_of_string (SectionIndex.groupText 1 m)
   ++ [newline; newline]
   ++ list_ascii_of_string (SectionIndex.groupText 2 m))%list.

(** [s.replace(re, template)] for a pattern with the g flag: the text
    between the matches is kept and every match gives way to what the
    template makes of it; after an empty match the search goes on one
    character further.  The fuel is the number of characters left plus one. *)
Fixpoint replaceLoop (fuel : nat) (r : regex) (template : result -> list ascii)
  (p : option ascii) (s : list ascii) (i : nat) : list ascii :=
  match fuel with
  | O => s
  | S fuel' =>
      match search r p s i with
      | None => s
      | Some (st, e) =>
          (firstn (pos st - i) s ++ template (resultOf (st, e)) ++
           (if (pos st <? pos e)%nat
            then replaceLoop fuel' r template (prev e) (rest e) (pos e)
            else match rest e with
                 | [] => []
                 | c :: t =>
                     c :: replaceLoop fuel' r template (Some c) t (S (pos e))
                 end))%list
      end
  end.

Definition replaceAll (r : regex) (template : result -> list ascii)
  (s : string) : string :=
  let l := list_ascii_of_string s in
  string_of_list_ascii (replaceLoop (S (List.length l)) r template None l 0).

Definition fixHeadingSpacing (content : string) : string :=
  let fixed := replaceAll headingSpacingPattern blankLineTemplate content in
  if negb (String.eqb fixed content) then fixed else content.

(** The text with every run of line feeds cut down to one line feed: the
    text without its blank lines. *)
Fixpoint squeeze (s : list ascii) : list ascii :=
  match s with
  | [] => []
  | c :: t =>
      match t with
      | d :: _ => if Ascii.eqb c newline && Ascii.eqb d newline
                  then squeeze t else c :: squeeze t
      | [] => [c]
      end
  end.

End Autofix.

(* ------------------------------------------------------------------ *)
(** ** The directory walks of add-code-pointers and analyze-coverage *)

Module FileTree.

(** A directory entry as a script sees it: a directory with its entries in
    the order of [readdirSync], or something else, of which [isFile] tells
    whether it is a regular file.  The walk of analyze-coverage calls
    [statSync] on every entry; the entries on which that call throws are
    given apart, by their paths. *)
#[warnings="-register-all"]
Inductive node : Type :=
| Dir (entries : list (string * node))
| NotDir (isFile : bool).

(** The path of an entry below the working directory, given by the names
    that lead to it: what [path.join] builds from them, made relative. *)
Definition relative (components : list string) : string :=
  Tracker.join "/" components.

(** The entry at a path below [n]. *)
Inductive at_ : node -> list string -> node -> Prop :=
| at_here (n : node) : at_ n [] n
| at_below (entries : list (string * node)) (name : string) (child : node)
    (rest : list string) (m : node) :
    In (name, child) entries -> at_ child rest m ->
    at_ (Dir entries) (name :: rest) m.

(** *** add-code-pointers *)

Definition excludeDirs : list string :=
  ["node_modules"; "dist"; "build"; ".git"; "coverage"; "__pycache__"].

(** [scan(dir)] of [findSourceFiles]: the array [files] after the call.
    It is called for the working directory and for directories. *)
Fixpoint scan (dir : list string) (n : node) (files : list string)
  {struct n} : list string :=
  match n with
  | Dir entries =>
      fold_left (fun (files : list string) (e : string * node) =>
        let (name, child) := e in
        if Js.mem name excludeDirs then files
        else match child with
             | Dir _ => scan (dir ++ [name]) child files
             | NotDir _ =>
                 if hasSourceExtension name
                 then (files ++ [relative (dir ++ [name])])%list
                 else files
             end) entries files
  | NotDir _ => files
  end.

(** [findSourceFiles] with its directory scan. *)
Definition findSourceFilesIn (gitLines : list string) (cwd : node)
  : list string :=
  match filter (fun f => negb (String.eqb f "") && hasSourceExtension f)
               gitLines with
  | [] => scan [] cwd []
  | gitFiles => gitFiles
  end.

(** *** analyze-coverage *)

Definition SOURCE_DIRS : list string := ["src"; "lib"; "app"; "packages"].

Definition skippedDirs : list string :=
  ["node_modules"; ".git"; "dist"; "build"; "out"; ".next"; "coverage"].

(** The files that the walk of a directory collects when no call throws.
    A file is named by its path relative to the working directory, as in
    [Coverage]. *)
Fixpoint filesBelow (dir : list string) (n : node)
  (fileList : list string) {struct n} : list string :=
  match n with
  | Dir entries =>
      fold_left (fun (fileList : list string) (e : string * node) =>
        let (file, child) := e in
        match child with
        | Dir _ =>
            if negb (Js.mem file skippedDirs)
            then filesBelow (dir ++ [file]) child fileList
            else fileList
        | NotDir true => (fileList ++ [relative (dir ++ [file])])%list
        | NotDir false => fileList
        end) entries fileList
  | NotDir _ => fileList
  end.

Section Failures.

(** [fs.statSync] throws on the entry at this path below the working
    directory: a dangling link, an entry that may not be read. *)
Variable statFails : list string -> bool.
(** [fs.readdirSync] throws on the directory at this path: it may not be
    listed. *)
Variable readdirFails : list string -> bool.

(** [getFilesRecursive(dir, fileList)] for a path [dir] that exists; [None]
    when it throws: [readdirSync] throws on what is not a directory and on a
    directory that may not be listed, and [statSync] is called on every
    entry of a listed directory, before its name is looked at. *)
Fixpoint getFilesRecursive (dir : list string) (n : node)
  (fileList : list string) {struct n} : option (list string) :=
  match n with
  | Dir entries =>
      if readdirFails dir then None
      else
        fold_left (fun (acc : option (list string)) (e : string * node) =>
          match acc with
          | None => None
          | Some fileList =>
              let (file, child) := e in
              if statFails (dir ++ [file]) then None
              else
                match child with
                | Dir _ =>
                    if negb (Js.mem file skippedDirs)
                    then getFilesRecursive (dir ++ [file]) child fileList
                    else Some fileList
                | NotDir true =>
                    Some (fileList ++ [relative (dir ++ [file])])%list
                | NotDir false => Some fileList
                end
          end) entries (Some fileList)
  | NotDir _ => None
  end.

(** Whether the walk of [n], at the path [dir], throws. *)
Fixpoint throwsBelow (dir : list string) (n : node) {struct n} : bool :=
  match n with
  | Dir entries =>
      readdirFails dir
      || existsb (fun e : string * node =>
           let (file, child) := e in
           statFails (dir ++ [file])
           || match child with
              | Dir _ => negb (Js.mem file skippedDirs)
                         && throwsBelow (dir ++ [file]) child
              | NotDir _ => false
              end) entries
  | NotDir _ => true
  end.

(** The calls that throw in the walk of [n], at the path [dir]: the listing
    of [n] when it is not a directory, and, for a directory that the walk
    reaches over names that are not skipped, its listing or the [statSync]
    of one of its entries. *)
Definition walkFails (dir : list string) (n : node) : Prop :=
  (exists b, n = NotDir b)
  \/ exists dirs es,
       at_ n dirs (Dir es)
       /\ Forall (fun c => Js.mem c skippedDirs = false) dirs
       /\ (readdirFails (dir ++ dirs) = true
           \/ exists name child,
                In (name, child) es
                /\ statFails (dir ++ dirs ++ [name]) = true).

(** A source directory that the fallback of [getAllCodeFiles] walks: it is
    listed in the working directory and [fs.existsSync] holds of it. *)
Definition walked (cwdEntries : list (string * node)) (top : string)
  (n : node) : Prop :=
  In top SOURCE_DIRS /\ Js.assoc top cwdEntries = Some n
  /\ statFails [top] = false.

(** The fallback of [getAllCodeFiles]: the files below the source
    directories that exist.  [None]: a call throws. *)
Definition scanSourceDirs (cwdEntries : list (string * node))
  : option (list string) :=
  fold_left (fun allFiles dir =>
    match allFiles with
    | None => None
    | Some fileList =>
        match Js.assoc dir cwdEntries with
        | None => Some fileList
        | Some n =>
            if statFails [dir] then Some fileList
            else getFilesRecursive [dir] n fileList
        end
    end) SOURCE_DIRS (Some []).

End Failures.

End FileTree.

(* ------------------------------------------------------------------ *)
(** ** render-relationships: the dependencies of the project *)

Module Relationships.



(** The [type] of a dependency. *)
Inductive DepType : Type := production | development.

Definition sameType (a b : DepType) : bool :=
  match a, b with
  | production, production | development, development => true
  | _, _ => false
  end.

Record Dependency : Type := mkDependency {
  name : string;
  version : json;
  dtype : DepType
}.









Section Project.

(** [fs.existsSync] for a file of the working directory. *)
Variable existsSync : string -> bool.
(** What reading and parsing package.json gives; [None]: [readFileSync] or
    [JSON.parse] throws. *)
Variable packageJson : option json.
(** The content of requirements.txt; [None]: [readFileSync] throws. *)
Variable requirements : option string.
(** The version as the template of the label prints it. *)
Variable show : json -> string.
(** Whether [extractDocumentationRelationships], which reads the
    documentation directory and its markdown files, returns; [false]: it
    throws. *)
Variable documentationRead : bool.
(** Whether [fs.writeFileSync] of RELATIONSHIPS.json into the
    documentation directory returns; [false]: it throws, as it does when
    the directory is missing. *)
Variable outputWritten : bool.







End Project.


(** The number of dependencies of a type. *)
Definition countOf (t : DepType) (deps : list Dependency) : nat :=
  List.length (filter (fun d => sameType (dtype d) t) deps).

End Relationships.

(* ------------------------------------------------------------------ *)
(** ** lint-documentation: the rules and the report *)

Module Lint.

Inductive Severity : Type := error | warning | info.

(** What a rule reports. *)
Record Issue : Type := mkIssue {
  line : nat;
  message : string;
  severity : Severity
}.

Definition showNat (n : nat) : string := Js.showZ (Z.of_nat n).


Definition quote : string := String "034" "".


(** *** heading-structure *)

(** [lines[i].match(/^(#{1,6})\s+(.+)/)]: the level and the text. *)
Definition headingMatch (l : string) : option (nat * string) :=
  match SectionIndex.matchAtStart SectionIndex.headingPattern l with
  | Some m => Some (String.length (SectionIndex.groupText 1 m),
                    SectionIndex.groupText 2 m)
  | None => None
  end.

(** [headings[headings.length - 1]], [None] for an empty array. *)
Definition lastHeading (headings : list (nat * string * nat))
  : option (nat * string * nat) :=
  nth_error headings (List.length headings - 1).

Fixpoint headingStructureLoop (ls : list string) (i : nat)
  (headings : list (nat * string * nat)) (issues : list Issue)
  : list Issue :=
  match ls with
  | [] => issues
  | l :: ls' =>
      match headingMatch l with
      | Some (level, text) =>
          headingStructureLoop ls' (S i)
            (headings ++ [(level, text, (i + 1)%nat)])%list
            (match lastHeading headings with
             | Some (prevLevel, _, _) =>
                 if (prevLevel + 1 <? level)%nat
                 then (issues ++
                       [mkIssue (i + 1)
                          ("Heading level skipped: h" ++ showNat prevLevel
                           ++ " to h" ++ showNat level) warning])%list
                 else issues
             | None => issues
             end)
      | None => headingStructureLoop ls' (S i) headings issues
      end
  end.

Definition headingStructure (content : string) : list Issue :=
  headingStructureLoop (Tracker.splitOn newline content) 0 [] [].

(** *** code-block-language *)


(** *** broken-internal-links *)

(** The pattern of a link: a text in square brackets, then a target in
    parentheses. *)
Definition linkPattern : regex :=
  seqs [chr "["; Group 1 (plus (notOneOf ["]"]%char)); chr "]"; chr "(";
        Group 2 (plus (notOneOf [")"]%char)); chr ")"].

Section Links.

(** [fs.existsSync(path.join(CONTEXT_DIR, url))] *)
Variable existsSync : string -> bool.



End Links.

(** *** line-length *)



(** *** empty-headings *)



(** *** duplicate-headings *)

(** The heading pattern with one group, for the text. *)
Definition headingTextPattern : regex :=
  seqs [Seq (chr "#") (SectionIndex.upTo 5 (chr "#")); plus space;
        Group 1 (plus dot)].

(** [match[1]] of a heading line. *)
Definition headingText (l : string) : option string :=
  match SectionIndex.matchAtStart headingTextPattern l with
  | Some m => Some (SectionIndex.groupText 1 m)
  | None => None
  end.

(** [match[1].toLowerCase().trim()] *)
Definition normalized (text : string) : string :=
  JsString.trim (Coverage.toLowerCase text).

(** The loop; [headings] is the Map from a text to its first line. *)
Fixpoint duplicateLoop (ls : list string) (i : nat)
  (headings : list (string * nat)) (issues : list Issue) : list Issue :=
  match ls with
  | [] => issues
  | l :: ls' =>
      match headingText l with
      | Some match1 =>
          let text := normalized match1 in
          match Js.assoc text headings with
          | Some first =>
              duplicateLoop ls' (S i) headings
                (issues ++
                 [mkIssue (i + 1)
                    ("Duplicate heading: " ++ quote ++ match1 ++ quote
                     ++ " (first seen at line " ++ showNat first ++ ")")
                    warning])%list
          | None =>
              duplicateLoop ls' (S i) (headings ++ [(text, (i + 1)%nat)])%list
                issues
          end
      | None => duplicateLoop ls' (S i) headings issues
      end
  end.

Definition duplicateHeadings (content : string) : list Issue :=
  duplicateLoop (Tracker.splitOn newline content) 0 [] [].

(** The normalized texts of the heading lines, in the order of the text. *)
Definition headingTexts (ls : list string) : list string :=
  flat_map (fun l => match headingText l with
                     | Some m => [normalized m]
                     | None => []
                     end) ls.

(** The line of index [j] is a heading with the normalized text [t]. *)
Definition textAt (ls : list string) (j : nat) (t : string) : Prop :=
  exists l m, nth_error ls j = Some l /\ headingText l = Some m
              /\ normalized m = t.

(** The issue is about a heading whose normalized text an earlier heading
    has, and it names the first line with that text. *)
Definition duplicateOf (ls : list string) (issue : Issue) : Prop :=
  exists i j l m,
    line issue = (i + 1)%nat
    /\ nth_error ls i = Some l /\ headingText l = Some m
    /\ (j < i)%nat /\ textAt ls j (normalized m)
    /\ (forall k, (k < j)%nat -> ~ textAt ls k (normalized m))
    /\ message issue
       = "Duplicate heading: " ++ quote ++ m ++ quote
         ++ " (first seen at line " ++ showNat (j + 1) ++ ")".

(** *** The report *)

Section Report.

Variable existsSync : string -> bool.
(** [fs.readFileSync] for a file of the documentation directory. *)
Variable readDoc : string -> string.







End Report.

Definition sameSeverity (a b : Severity) : bool :=
  match a, b with
  | error, error | warning, warning | info, info => true
  | _, _ => false
  end.

(** The number of issues of a severity. *)
Definition countOf (s : Severity) (issues : list (string * Issue)) : nat :=
  List.length (filter (fun ri => sameSeverity (severity (snd ri)) s) issues).

End Lint.

(* ------------------------------------------------------------------ *)
(** ** update-timestamps *)

Module Timestamps.

(** The pattern of a timestamp line, with the m flag: at the start of a
    line [Last Updated] or [Updated], a colon, white space, and the rest of
    the line. *)
Definition TIMESTAMP_PATTERN : regex :=
  seqs [LineStart; Group 1 (alts ["Last Updated"; "Updated"]); chr ":";
        Star true space; Star true dot].

(** [s.replace(re, replacement)] for a pattern without the g flag and a
    replacement without a dollar sign: the first match gives way to the
    replacement. *)
Definition replaceFirst (r : regex) (replacement : string) (s : string)
  : string :=
  let l := list_ascii_of_string s in
  match search r None l 0 with
  | Some (st, e) =>
      string_of_list_ascii
        (firstn (pos st) l ++ list_ascii_of_string replacement ++ rest e)
  | None => s
  end.

(** The line that is written; [now] is the date, as in 2025-01-31. *)
Definition timestamp (now : string) : string := "Last Updated: " ++ now.

(** [lines.findIndex((line, i) => i > 0 && line === '---')] from the index
    [i] on; [None] stands for -1. *)
Fixpoint findIndexFrom (ls : list string) (i : nat) : option nat :=
  match ls with
  | [] => None
  | l :: ls' =>
      if (0 <? i)%nat && String.eqb l "---" then Some i
      else findIndexFrom ls' (S i)
  end.

(** Where the new line goes: after the front matter, if there is one. *)
Definition insertIndex (lines : list string) : nat :=
  match lines with
  | first :: _ =>
      if String.eqb first "---"
      then match findIndexFrom lines 0 with
           | Some endIndex => (endIndex + 1)%nat
           | None => 0%nat
           end
      else 0%nat
  | [] => 0%nat
  end.

(** [lines.splice(i, 0, a, b)] *)
Definition splice2 (i : nat) (a b : string) (lines : list string)
  : list string :=
  (firstn i lines ++ [a; b] ++ skipn i lines)%list.

(** The new content of a file. *)
Definition updateContent (now : string) (content : string) : string :=
  if Regex.test TIMESTAMP_PATTERN content
  then replaceFirst TIMESTAMP_PATTERN (timestamp now) content
  else
    let lines := Tracker.splitOn newline content in
    Tracker.join lf (splice2 (insertIndex lines) (timestamp now) "" lines).

(** [updateTimestamps]: what is written to every markdown file of the
    directory, and the count that is printed. *)
Definition updateTimestamps (now : string) (readDoc : string -> string)
  (dirEntries : list string) : list (string * string) * nat :=
  fold_left (fun (acc : list (string * string) * nat) (file : string) =>
    ((fst acc ++ [(file, updateContent now (readDoc file))])%list,
     S (snd acc)))
    (filter isMarkdown dirEntries) ([], 0%nat).

(** A date as [toISOString] prints it: digits and hyphens, not empty. *)
Definition isDate (now : string) : Prop :=
  now <> ""
  /\ Forall (fun c => isDigit c || Ascii.eqb c "-" = true)
            (list_ascii_of_string now).

(** *** What the pattern matches *)

Fixpoint startsWithL (l s : list ascii) : bool :=
  match l, s with
  | [], _ => true
  | c :: l', d :: s' => Ascii.eqb c d && startsWithL l' s'
  | _ :: _, [] => false
  end.

Fixpoint dropWhile (p : ascii -> bool) (s : list ascii) : list ascii :=
  match s with
  | [] => []
  | c :: t => if p c then dropWhile p t else s
  end.

Definition longHead : list ascii := list_ascii_of_string "Last Updated:".
Definition shortHead : list ascii := list_ascii_of_string "Updated:".

Definition lineStartOK (p : option ascii) : bool :=
  match p with
  | None => true
  | Some c => isLineTerminator c
  end.

(** A match starts at a position with the previous character [p] and the
    rest [s] of the text. *)
Definition headOK (p : option ascii) (s : list ascii) : bool :=
  lineStartOK p && (startsWithL longHead s || startsWithL shortHead s).

(** What is left of the text after the match that starts at [s]. *)
Definition tailOf (s : list ascii) : list ascii :=
  let afterHead :=
    if startsWithL longHead s then skipn (List.length longHead) s
    else skipn (List.length shortHead) s in
  dropWhile (fun c => negb (isLineTerminator c))
            (dropWhile JsString.isSpace afterHead).

(** The first match: the text before it and the text after it. *)
Fixpoint locate (p : option ascii) (s : list ascii)
  : option (list ascii * list ascii) :=
  if headOK p s then Some ([], tailOf s)
  else match s with
       | [] => None
       | c :: t =>
           match locate (Some c) t with
           | Some (pre, post) => Some (c :: pre, post)
           | None => None
           end
       end.

(** No match starts inside [s]. *)
Fixpoint noHead (p : option ascii) (s : list ascii) : bool :=
  match s with
  | [] => true
  | c :: t => negb (headOK p s) && noHead (Some c) t
  end.

End Timestamps.

(* ------------------------------------------------------------------ *)
(** ** check-external-links: the URLs of the documentation *)

Module Links.

(** An address: [http], an optional [s], [://], then at least one
    character that does not end the address. *)
Definition urlPattern (ends : ascii -> bool) : regex :=
  seqs [lit "http"; opt (chr "s"); lit "://";
        plus (Chr (fun c => negb (ends c)))].

(** The pattern of a link with an address: a text in square brackets, then
    the address in parentheses. *)
Definition linkPattern : regex :=
  seqs [chr "["; Group 1 (plus (notOneOf ["]"]%char)); chr "]"; chr "(";
        Group 2 (urlPattern (Ascii.eqb ")")); chr ")"].

(** [^] without the m flag, for a match that starts after the character
    [p]: it holds at the start of the input only. *)
Definition inputStart (p : option ascii) : regex :=
  match p with
  | None => Eps
  | Some _ => Chr (fun _ => false)
  end.

(** The pattern of a bare address, at the start of the input or after
    white space, for a match that starts after the character [p]. *)
Definition bareUrlPattern (p : option ascii) : regex :=
  Seq (Alt (inputStart p) space) (Group 1 (urlPattern JsString.isSpace)).

(** The leftmost match at or after the current position of a pattern that
    depends on the character before the start of the match. *)
Fixpoint searchFrom (mk : option ascii -> regex) (p : option ascii)
  (s : list ascii) (i : nat) {struct s} : option (state * state) :=
  let st := Regex.mkState p s i [] in
  match run (mk p) st Some with
  | Some e => Some (st, e)
  | None =>
      match s with
      | [] => None
      | c :: t => searchFrom mk (Some c) t (S i)
      end
  end.

(** The loop over the matches of such a pattern with the g flag. *)
Fixpoint execLoopFrom (fuel : nat) (mk : option ascii -> regex)
  (p : option ascii) (s : list ascii) (i : nat) : list result :=
  match fuel with
  | O => []
  | S fuel' =>
      match searchFrom mk p s i with
      | None => []
      | Some (st, e) =>
          resultOf (st, e) ::
          (if (pos st <? pos e)%nat
           then execLoopFrom fuel' mk (prev e) (rest e) (pos e)
           else [])
      end
  end.

(** [extractUrls]: the Set of the addresses, as an array. *)
Definition extractUrls (content : string) : list string :=
  let l := list_ascii_of_string content in
  let urls :=
    fold_left Js.add
      (map (SectionIndex.groupText 2) (execAll linkPattern content)) [] in
  fold_left Js.add
    (map (SectionIndex.groupText 1)
         (execLoopFrom (S (List.length l)) bareUrlPattern None l 0))
    urls.

Inductive Status : Type := ok | redirect | error | timeout.

(** What becomes of a request: a response with its status code, an error
    event or an exception, or the timeout. *)
Inductive Outcome : Type :=
| Response (statusCode : Z)
| Failure
| TimedOut.

Record CheckResult : Type := mkCheckResult {
  url : string;
  status : Status;
  code : option Z
}.

(** The branches of the response callback. *)
Definition classify (statusCode : Z) : Status :=
  if (200 <=? statusCode) && (statusCode <? 400) then ok
  else if (300 <=? statusCode) && (statusCode <? 400) then redirect
  else error.

Definition MAX_CONCURRENT : nat := 5.

Section Requests.

(** What the request for an address ends with, and the content of the file
    of a given name in the documentation directory. *)
Variable outcome : string -> Outcome.
Variable readDoc : string -> string.

Definition checkUrl (u : string) : CheckResult :=
  match outcome u with
  | Response statusCode => mkCheckResult u (classify statusCode)
                             (Some statusCode)
  | Failure => mkCheckResult u error None
  | TimedOut => mkCheckResult u timeout None
  end.

(** The loop of [checkUrlsBatch]; every batch is awaited as a whole. *)
Fixpoint batchLoop (fuel : nat) (urls : list string) (i : nat)
  (results : list CheckResult) : list CheckResult :=
  match fuel with
  | O => results
  | S fuel' =>
      if (i <? List.length urls)%nat
      then batchLoop fuel' urls (i + MAX_CONCURRENT)
             (results ++ map checkUrl (firstn MAX_CONCURRENT (skipn i urls)))
      else results
  end.

Definition checkUrlsBatch (urls : list string) : list CheckResult :=
  batchLoop (S (List.length urls)) urls 0 [].

(** [allUrls]: one turn of the inner loop. *)
Definition addUrl (file : string) (allUrls : list (string * list string))
  (u : string) : list (string * list string) :=
  Js.assign u
    (match Js.assoc u allUrls with
     | Some files => (files ++ [file])%list
     | None => [file]
     end) allUrls.

Definition collectUrls (files : list string) : list (string * list string) :=
  fold_left (fun allUrls file =>
               fold_left (addUrl file) (extractUrls (readDoc file)) allUrls)
            files [].

(** An address with a scheme [http] or [https] and something after it. *)
Definition absolute (u : string) : bool :=
  (String.prefix "http://" u && (7 <? String.length u)%nat)
  || (String.prefix "https://" u && (8 <? String.length u)%nat).

(** The files that [extractUrls] finds the address in. *)
Definition foundIn (u : string) (files : list string) : list string :=
  filter (fun file => Js.mem u (extractUrls (readDoc file))) files.

(** What the Map holds once the files [pre] are read. *)
Definition collected (pre : list string) (acc : list (string * list string))
  : Prop :=
  NoDup (map fst acc)
  /\ (forall u, In u (map fst acc)
                <-> exists file, In file pre
                                 /\ In u (extractUrls (readDoc file)))
  /\ (forall u, Js.assoc u acc
                = match foundIn u pre with
                  | [] => None
                  | fs => Some fs
                  end).

(** The request for the address ends with a status code from 200 to 399. *)
Definition reachable (u : string) : Prop :=
  exists statusCode, outcome u = Response statusCode
                     /\ 200 <= statusCode < 400.

Definition hasStatus (s : Status) (r : CheckResult) : bool :=
  match status r, s with
  | ok, ok | redirect, redirect | error, error | timeout, timeout => true
  | _, _ => false
  end.

Record Summary : Type := mkSummary {
  results : list CheckResult;
  okResults : list CheckResult;
  errors : list CheckResult;
  timeouts : list CheckResult;
  redirects : list CheckResult;
  allValid : bool
}.

(** [checkExternalLinks] for an existing documentation directory; [None]:
    there is no address and nothing is checked. *)
Definition checkExternalLinks (dirEntries : list string) : option Summary :=
  let files := filter isMarkdown dirEntries in
  let uniqueUrls := map fst (collectUrls files) in
  if (List.length uniqueUrls =? 0)%nat then None
  else
    let results := checkUrlsBatch uniqueUrls in
    let errors := filter (hasStatus error) results in
    let timeouts := filter (hasStatus timeout) results in
    Some (mkSummary results (filter (hasStatus ok) results) errors timeouts
            (filter (hasStatus redirect) results)
            ((List.length errors =? 0)%nat
             && (List.length timeouts =? 0)%nat)).

End Requests.

End Links.

(* ------------------------------------------------------------------ *)
(** ** Properties *)

(** *** Strings *)

Lemma prefix_refl (s : string) : String.prefix s s = true.
Proof.
  induction s as [|c s IH]; simpl; [reflexivity|].
  destruct (ascii_dec c c) as [_|H]; [exact IH | contradiction].
Qed.

Lemma includes_refl (s : string) : JsString.includes s s = true.
Proof.
  destruct s; simpl; [reflexivity|].
  rewrite prefix_refl.
  destruct (ascii_dec a a) as [_|H]; [reflexivity | contradiction].
Qed.

Lemma mem_In (x : string) (l : list string) : Js.mem x l = true <-> In x l.
Proof.
  unfold Js.mem. rewrite existsb_exists. split.
  - intros [y [Hy He]]. apply String.eqb_eq in He. now subst.
  - intros H. exists x. split; [assumption | apply String.eqb_refl].
Qed.

Lemma mem_false (x : string) (l : list string) :
  Js.mem x l = false <-> ~ In x l.
Proof.
  rewrite <- mem_In. destruct (Js.mem x l); split; congruence.
Qed.

(** *** Source Resolver *)

Lemma isCandidate_exact (f : string) :
  isCandidate (mkReference import f) f = true.
Proof.
  unfold isCandidate; simpl. now rewrite includes_refl.
Qed.

(** The pointers of a path-literal reference: the files that contain its
    value, or whose base name without the extension is the base name of the
    value, each with the reason [imports <value>]. *)
Lemma import_pointers readFile (v : string) (sourceFiles : list string)
  (p : Pointer) :
  In p (referencePointers readFile sourceFiles (mkReference import v))
  <-> In (file p) sourceFiles
      /\ reason p = "imports " ++ v
      /\ (JsString.includes (file p) v = true
          \/ Path.basenameExt (file p) (Path.extname (file p)) = Path.basename v).
Proof.
  unfold referencePointers; simpl. rewrite in_map_iff. split.
  - intros [f [<- Hf]]. apply filter_In in Hf as [Hin Hc]. simpl.
    repeat split; trivial.
    unfold isCandidate in Hc; simpl in Hc.
    apply orb_true_iff in Hc as [Hc|Hc]; [now left | right].
    now apply String.eqb_eq.
  - intros (Hin & Hr & Hc). exists (file p). split.
    + destruct p as [pf pr]; simpl in *. now subst.
    + apply filter_In; split; trivial.
      unfold isCandidate; simpl. apply orb_true_iff.
      destruct Hc as [Hc|Hc]; [now left | right].
      now apply String.eqb_eq.
Qed.

Lemma append_inj_l (a x y : string) : a ++ x = a ++ y -> x = y.
Proof.
  induction a as [|c a IH]; cbn [append]; intros H; [exact H|].
  injection H as H. now apply IH.
Qed.

(** C4 (as amended). A path-literal reference whose value is exactly the
    path of a file of the source set resolves to that file: the resolver
    returns the pointer to it, with the reason naming the import.  In
    general a file of the source set matches the reference when its path
    contains the value, or when its base name without its extension is the
    base name of the value, the extension of the value being kept; these
    and no others are the pointers that name an import. *)
Theorem exact_path_resolves readFile (references : list Reference)
  (sourceFiles : list string) :
  (forall f,
     In f sourceFiles ->
     In (mkReference import f) references ->
     In (mkPointer f ("imports " ++ f))
        (matchReferencesToFiles readFile references sourceFiles))
  /\ (forall f v,
        In (mkPointer f ("imports " ++ v))
           (matchReferencesToFiles readFile references sourceFiles)
        <-> In (mkReference import v) references
            /\ In f sourceFiles
            /\ (JsString.includes f v = true
                \/ Path.basenameExt f (Path.extname f) = Path.basename v)).
Proof.
  assert (R : forall f v,
             In (mkPointer f ("imports " ++ v))
                (matchReferencesToFiles readFile references sourceFiles)
             <-> In (mkReference import v) references
                 /\ In f sourceFiles
                 /\ (JsString.includes f v = true
                     \/ Path.basenameExt f (Path.extname f)
                        = Path.basename v)).
  { intros f v. unfold matchReferencesToFiles. rewrite in_flat_map. split.
    - intros [[t v'] [Hr Hp]]. destruct t.
      + apply import_pointers in Hp as (Hf & Hreason & Hc).
        cbn [file reason] in Hf, Hreason, Hc.
        apply append_inj_l in Hreason. subst v'. now repeat split.
      + unfold referencePointers in Hp. cbn [type value] in Hp.
        apply in_flat_map in Hp as [g [_ Hp]].
        destruct (readFile g) as [content|]; [|destruct Hp].
        destruct (test _ content); [|destruct Hp].
        destruct Hp as [Hp|[]]. discriminate Hp.
      + unfold referencePointers in Hp. cbn [type value] in Hp.
        apply in_flat_map in Hp as [g [_ Hp]].
        destruct (readFile g) as [content|]; [|destruct Hp].
        destruct (test _ content); [|destruct Hp].
        destruct Hp as [Hp|[]]. discriminate Hp.
    - intros (Hr & Hf & Hc). exists (mkReference import v).
      split; [exact Hr|]. apply import_pointers. now repeat split. }
  split; [|exact R].
  intros f Hf Hr. apply R. split; [exact Hr|]. split; [exact Hf|].
  left. apply includes_refl.
Qed.

Lemma exact_path_resolves_witness :
  In (mkPointer "src/foo.ts" "imports src/foo.ts")
     (matchReferencesToFiles (fun _ => None)
        [mkReference class "Foo"; mkReference import "src/foo.ts"]
        ["lib/bar.js"; "src/foo.ts"]).
Proof.
  apply (proj1 (@exact_path_resolves (fun _ => None)
                  [mkReference class "Foo"; mkReference import "src/foo.ts"]
                  ["lib/bar.js"; "src/foo.ts"]) "src/foo.ts").
  - simpl. right. left. reflexivity.
  - simpl. right. left. reflexivity.
Defined.

(** C4, as stated, fails: the reference [utils/foo.ts] and the source file
    [lib/foo.ts] have the same base name once both extensions are stripped,
    which is a match by the stated rule, and the resolver returns no pointer
    to the file: it strips the extension of the source file only. *)
Lemma stripped_basenames_do_not_match :
  Spec.matchesStripped "lib/foo.ts" "utils/foo.ts" = true
  /\ ~ exists reason,
         In (mkPointer "lib/foo.ts" reason)
            (matchReferencesToFiles (fun _ => None)
               [mkReference import "utils/foo.ts"] ["lib/foo.ts"]).
Proof.
  split; [reflexivity|]. intros [reason H]. vm_compute in H. exact H.
Qed.

(** *** Reference Extractor *)

(** A literal cannot match where the input does not begin with it. *)
Lemma run_lit_fails (l s : string) :
  String.prefix l s = false ->
  forall p i cs k,
    run (lit l) (mkState p (list_ascii_of_string s) i cs) k = None.
Proof.
  revert s. induction l as [|c l IH]; intros s H p i cs k.
  - destruct s; discriminate H.
  - cbn [lit run]. unfold chr at 1. cbn [run rest pos caps].
    destruct s as [|c2 s]; [reflexivity|].
    cbn [list_ascii_of_string]. cbn [prefix] in H.
    destruct (Ascii.eqb_spec c c2) as [->|N].
    + destruct (ascii_dec c2 c2) as [_|N]; [|contradiction].
      apply IH, H.
    + reflexivity.
Qed.

Lemma run_fence_fails (r : regex) (s : string) (p : option ascii) (i : nat)
  (cs : list (nat * list ascii)) (k : state -> option state) :
  String.prefix "```" s = false ->
  run (Seq (lit "```") r) (mkState p (list_ascii_of_string s) i cs) k = None.
Proof.
  intros H. cbn [run]. now apply run_lit_fails.
Qed.

Lemma search_fence_fails (r : regex) (s : string) :
  JsString.includes s "```" = false ->
  forall p i, search (Seq (lit "```") r) p (list_ascii_of_string s) i = None.
Proof.
  induction s as [|c s IH]; intros H p i.
  - reflexivity.
  - simpl in H. apply orb_false_iff in H as [Hp Hi].
    change (list_ascii_of_string (String c s)) with (c :: list_ascii_of_string s).
    cbn [search].
    change (c :: list_ascii_of_string s) with (list_ascii_of_string (String c s)).
    rewrite run_fence_fails by exact Hp.
    simpl. apply IH, Hi.
Qed.

Lemma no_fence_no_block (content : string) :
  JsString.includes content "```" = false ->
  execAll codeBlockPattern content = [].
Proof.
  intros H. unfold execAll. cbn [execLoop].
  change codeBlockPattern with
    (Seq (lit "```")
         (seqs [Star true word; chr newline; Group 1 (Star false any); lit "```"])).
  now rewrite search_fence_fails.
Qed.

(** *** Objects as insertion-ordered maps *)

Section Assoc.

Context {A : Type}.
Implicit Types (l : list (string * A)) (k : string) (v : A).

Lemma assoc_none_iff k l :
  Js.assoc k l = None <-> Js.mem k (map fst l) = false.
Proof.
  induction l as [|[k' v'] l IH]; simpl; [tauto|].
  destruct (String.eqb_spec k k'); simpl; [split; discriminate | exact IH].
Qed.

Lemma assoc_assign_same k v l : Js.assoc k (Js.assign k v l) = Some v.
Proof.
  induction l as [|[k' v'] l IH]; simpl.
  - now rewrite String.eqb_refl.
  - destruct (String.eqb_spec k k') as [E|N]; simpl.
    + now rewrite String.eqb_refl.
    + destruct (String.eqb_spec k k'); [contradiction | exact IH].
Qed.

Lemma assoc_assign_other k k0 v l :
  k <> k0 -> Js.assoc k (Js.assign k0 v l) = Js.assoc k l.
Proof.
  intros N. induction l as [|[k' v'] l IH]; simpl.
  - destruct (String.eqb_spec k k0); [contradiction | reflexivity].
  - destruct (String.eqb_spec k0 k') as [<-|N']; simpl.
    + destruct (String.eqb_spec k k0); [contradiction | reflexivity].
    + destruct (String.eqb_spec k k'); [reflexivity | exact IH].
Qed.

Lemma keys_assign k v l :
  map fst (Js.assign k v l)
  = if Js.mem k (map fst l) then map fst l else (map fst l ++ [k])%list.
Proof.
  induction l as [|[k' v'] l IH]; simpl; [reflexivity|].
  destruct (String.eqb_spec k k') as [<-|N]; simpl; [reflexivity|].
  rewrite IH. now destruct (Js.mem k (map fst l)).
Qed.

Lemma in_assign k v l (kv : string * A) :
  In kv (Js.assign k v l) -> kv = (k, v) \/ In kv l.
Proof.
  induction l as [|[k' v'] l IH]; simpl.
  - intros [<-|[]]. now left.
  - destruct (String.eqb_spec k k') as [<-|N]; simpl.
    + intros [<-|H]; [now left | now right; right].
    + intros [<-|H]; [now right; left|].
      destruct (IH H) as [E|E]; [now left | now right; right].
Qed.

Lemma assoc_In k v l : Js.assoc k l = Some v -> In (k, v) l.
Proof.
  induction l as [|[k' v'] l IH]; simpl; [discriminate|].
  destruct (String.eqb_spec k k') as [<-|N].
  - intros [= <-]. now left.
  - intros H. right. now apply IH.
Qed.

End Assoc.

(** *** First occurrences *)

Lemma dedup_ext (s1 s2 l : list string) :
  (forall y, Js.mem y s1 = Js.mem y s2) ->
  Spec.dedup s1 l = Spec.dedup s2 l.
Proof.
  revert s1 s2. induction l as [|x l IH]; intros s1 s2 H; simpl; [reflexivity|].
  rewrite (H x). destruct (Js.mem x s2).
  - now apply IH.
  - f_equal. apply IH. intros y. simpl. now rewrite H.
Qed.

Lemma mem_app (y : string) (l1 l2 : list string) :
  Js.mem y (l1 ++ l2) = Js.mem y l1 || Js.mem y l2.
Proof. unfold Js.mem. apply existsb_app. Qed.

Lemma dedup_snoc (seen l : list string) (x : string) :
  Spec.dedup (seen ++ [x]) l = Spec.dedup (x :: seen) l.
Proof.
  apply dedup_ext. intros y. rewrite mem_app. simpl.
  rewrite orb_false_r. apply orb_comm.
Qed.

Lemma dedup_fresh (seen l : list string) (x : string) :
  In x (Spec.dedup seen l) -> In x l /\ ~ In x seen.
Proof.
  revert seen. induction l as [|y l IH]; intros seen; simpl; [tauto|].
  destruct (Js.mem y seen) eqn:E.
  - intros H. destruct (IH _ H). tauto.
  - intros [<-|H].
    + split; [now left | now apply mem_false].
    + destruct (IH _ H) as [H1 H2]. split; [now right|].
      intros Hs. apply H2. now right.
Qed.

Lemma dedup_NoDup (seen l : list string) : NoDup (Spec.dedup seen l).
Proof.
  revert seen. induction l as [|y l IH]; intros seen; simpl; [constructor|].
  destruct (Js.mem y seen); [apply IH|].
  constructor; [|apply IH].
  intros H. apply dedup_fresh in H as [_ H]. apply H. now left.
Qed.

Lemma dedup_complete (seen l : list string) (x : string) :
  In x l -> In x seen \/ In x (Spec.dedup seen l).
Proof.
  revert seen. induction l as [|y l IH]; intros seen; simpl; [tauto|].
  intros [->|H].
  - destruct (Js.mem x seen) eqn:E.
    + left. now apply mem_In.
    + right. now left.
  - destruct (Js.mem y seen) eqn:E.
    + now apply IH.
    + destruct (IH (y :: seen) H) as [[->|H1]|H1].
      * right. now left.
      * now left.
      * right. now right.
Qed.

(** *** The pointer map of a document *)

Lemma addPointer_keys (acc : list (string * list string)) (p : Pointer) :
  map fst (addPointer acc p)
  = if Js.mem (file p) (map fst acc) then map fst acc
    else (map fst acc ++ [file p])%list.
Proof.
  unfold addPointer.
  destruct (Js.assoc (file p) acc) as [rs|] eqn:E.
  - assert (M : Js.mem (file p) (map fst acc) = true).
    { destruct (Js.mem (file p) (map fst acc)) eqn:M; [reflexivity|].
      apply assoc_none_iff in M. congruence. }
    rewrite E, M. destruct (Js.mem (reason p) rs); [reflexivity|].
    now rewrite keys_assign, M.
  - assert (M := E). apply assoc_none_iff in M. rewrite M.
    rewrite assoc_assign_same. simpl.
    rewrite !keys_assign, M, mem_app. simpl.
    now rewrite String.eqb_refl, orb_true_r.
Qed.

Lemma addPointer_assoc (acc : list (string * list string)) (p : Pointer)
  (f : string) :
  Js.assoc f (addPointer acc p)
  = if String.eqb (file p) f
    then Some match Js.assoc f acc with
              | None => [reason p]
              | Some rs => if Js.mem (reason p) rs then rs
                           else (rs ++ [reason p])%list
              end
    else Js.assoc f acc.
Proof.
  unfold addPointer.
  destruct (String.eqb_spec (file p) f) as [<-|N].
  - destruct (Js.assoc (file p) acc) as [rs|] eqn:E.
    + rewrite E. destruct (Js.mem (reason p) rs); [now rewrite E|].
      now rewrite assoc_assign_same.
    + rewrite assoc_assign_same. simpl. now rewrite assoc_assign_same.
  - assert (N' : f <> file p) by congruence.
    destruct (Js.assoc (file p) acc) as [rs|] eqn:E.
    + rewrite E. destruct (Js.mem (reason p) rs); [reflexivity|].
      now rewrite assoc_assign_other.
    + rewrite assoc_assign_same. simpl.
      now rewrite !assoc_assign_other.
Qed.

Lemma fold_addPointer_keys (ps : list Pointer)
  (acc : list (string * list string)) :
  map fst (fold_left addPointer ps acc)
  = (map fst acc ++ Spec.dedup (map fst acc) (map file ps))%list.
Proof.
  revert acc. induction ps as [|p ps IH]; intros acc; simpl.
  - now rewrite app_nil_r.
  - rewrite IH, addPointer_keys.
    destruct (Js.mem (file p) (map fst acc)); [reflexivity|].
    now rewrite dedup_snoc, <- app_assoc.
Qed.

Lemma fold_addPointer_assoc (ps : list Pointer)
  (acc : list (string * list string)) (f : string) :
  Js.assoc f (fold_left addPointer ps acc)
  = match Js.assoc f acc with
    | Some rs => Some (rs ++ Spec.dedup rs (Spec.reasonsFor f ps))%list
    | None => match Spec.reasonsFor f ps with
              | [] => None
              | _ => Some (Spec.firstOccurrences (Spec.reasonsFor f ps))
              end
    end.
Proof.
  revert acc. unfold Spec.reasonsFor.
  induction ps as [|p ps IH]; intros acc; simpl.
  - destruct (Js.assoc f acc); [now rewrite app_nil_r | reflexivity].
  - rewrite IH, addPointer_assoc.
    destruct (String.eqb_spec (file p) f) as [E|N]; [|reflexivity].
    simpl. destruct (Js.assoc f acc) as [rs|].
    + destruct (Js.mem (reason p) rs); [reflexivity|].
      now rewrite dedup_snoc, <- app_assoc.
    + reflexivity.
Qed.

Lemma groupPointers_reasons_NoDup (ps : list Pointer) :
  Forall (fun fr => NoDup (snd fr)) (groupPointers ps).
Proof.
  apply Forall_forall. intros [f rs] H. simpl.
  assert (K : NoDup (map fst (groupPointers ps))).
  { unfold groupPointers. rewrite fold_addPointer_keys. apply dedup_NoDup. }
  assert (E : Js.assoc f (groupPointers ps) = Some rs).
  { revert K H. generalize (groupPointers ps) as l.
    induction l as [|[k v] l IH]; simpl; [tauto|].
    intros K [[= -> ->]|H].
    - now rewrite String.eqb_refl.
    - inversion K as [|? ? Hn Hd]; subst.
      destruct (String.eqb_spec f k) as [->|N].
      + exfalso. apply Hn. apply in_map_iff. now exists (k, rs).
      + now apply IH. }
  unfold groupPointers in E. rewrite fold_addPointer_assoc in E. simpl in E.
  destruct (Spec.reasonsFor f ps); [discriminate|].
  injection E as <-. apply dedup_NoDup.
Qed.

(** C10 (as amended). The extractor lists the references block by block
    and keeps duplicates; they collapse in the pointer map of the document,
    where the target files are the first occurrences of the pointers' files,
    the reasons of a file are the first occurrences of the reasons of its
    pointers, and no key and no reason is repeated. *)
Theorem pointer_map_first_occurrences readFile (content : string)
  (sourceFiles : list string) :
  let references := extractCodeReferences content in
  let pointers := matchReferencesToFiles readFile references sourceFiles in
  let m := groupPointers pointers in
  references
  = flat_map blockReferences (map group1 (execAll codeBlockPattern content))
  /\ map fst m = Spec.firstOccurrences (map file pointers)
  /\ (forall f,
        Js.assoc f m
        = match Spec.reasonsFor f pointers with
          | [] => None
          | _ => Some (Spec.firstOccurrences (Spec.reasonsFor f pointers))
          end)
  /\ NoDup (map fst m)
  /\ Forall (fun fr => NoDup (snd fr)) m.
Proof.
  intros references pointers m. subst m. repeat split.
  - subst references. unfold extractCodeReferences.
    now rewrite flat_map_concat_map, flat_map_concat_map, map_map.
  - unfold groupPointers. now rewrite fold_addPointer_keys.
  - intros f. unfold groupPointers. now rewrite fold_addPointer_assoc.
  - unfold groupPointers. rewrite fold_addPointer_keys. apply dedup_NoDup.
  - apply groupPointers_reasons_NoDup.
Qed.

(** C10, as stated, fails: a block that imports the same path twice yields
    the reference twice. *)
Lemma extractor_keeps_duplicates :
  extractCodeReferences
    ("```js" ++ lf ++ "import 'src/a.js'" ++ lf ++ "import 'src/a.js'" ++ lf
     ++ "```")
  = [mkReference import "src/a.js"; mkReference import "src/a.js"]
  /\ ~ NoDup (extractCodeReferences
                ("```js" ++ lf ++ "import 'src/a.js'" ++ lf
                 ++ "import 'src/a.js'" ++ lf ++ "```")).
Proof.
  assert (E : extractCodeReferences
    ("```js" ++ lf ++ "import 'src/a.js'" ++ lf ++ "import 'src/a.js'" ++ lf
     ++ "```")
    = [mkReference import "src/a.js"; mkReference import "src/a.js"])
    by (vm_compute; reflexivity).
  split; [exact E|]. rewrite E. intros H.
  inversion H as [|x l Hn _]; subst. apply Hn. now left.
Qed.

(** *** What the consumers read in the generated pointer file *)

Lemma buildMappings_keys readFile (readDoc : string -> string)
  (sourceFiles docFiles : list string) :
  Forall endsWithMd docFiles ->
  Forall endsWithMd
         (map fst (buildMappings readFile readDoc sourceFiles docFiles)).
Proof.
  unfold buildMappings. intros H.
  set (step := fun mappings docFile => _).
  assert (G : forall acc : list (string * list (string * list string)),
             Forall endsWithMd (map fst acc) ->
             Forall endsWithMd (map fst (fold_left step docFiles acc))).
  { induction H as [|d ds Hd Hds IH]; intros acc Hacc; simpl.
    - exact Hacc.
    - apply IH. unfold step.
      destruct (matchReferencesToFiles readFile
                  (extractCodeReferences (readDoc d)) sourceFiles);
        [exact Hacc|].
      rewrite keys_assign. destruct (Js.mem d (map fst acc)); [exact Hacc|].
      apply Forall_app. split; [exact Hacc | now constructor]. }
  apply G. constructor.
Qed.

Lemma mappings_have_no_files (m : list (string * list (string * list string))) :
  Forall endsWithMd (map fst m) ->
  Js.prop (mappingsJson m) "files" = None.
Proof.
  unfold mappingsJson. simpl. intros H.
  apply assoc_none_iff. rewrite map_map. simpl.
  apply mem_false. intros Hin.
  rewrite Forall_forall in H. specialize (H _ Hin). discriminate H.
Qed.

Lemma files_of_no_prop (v : json) :
  Js.prop v "files" = None -> Js.files v = None.
Proof. unfold Js.files. now intros ->. Qed.

Lemma fold_left_unchanged {A B : Type} (step : A -> B -> A) (P : B -> Prop)
  (l : list B) :
  (forall a b, P b -> step a b = a) ->
  Forall P l -> forall acc, fold_left step l acc = acc.
Proof.
  intros Hstep H. induction H as [|b l Hb Hl IH]; intros acc; simpl.
  - reflexivity.
  - now rewrite Hstep, IH.
Qed.

Lemma documentedFiles_empty (cp : json) :
  Forall Js.noFiles (Js.entries cp) -> Coverage.documentedFiles cp = [].
Proof.
  intros H. unfold Coverage.documentedFiles.
  apply fold_left_unchanged with (P := Js.noFiles); [|exact H].
  intros a kv Hkv. now rewrite Hkv.
Qed.

Lemma affectedDocsOf_empty (cp : json) (filePath : string) :
  Forall Js.noFiles (Js.entries cp) ->
  CodeChanges.affectedDocsOf cp filePath = [].
Proof.
  intros H. unfold CodeChanges.affectedDocsOf.
  apply fold_left_unchanged with (P := Js.noFiles); [|exact H].
  intros a kv Hkv. now rewrite Hkv.
Qed.

Lemma generated_entries_have_no_files readFile (now : string)
  (dirEntries : list string) (readDoc : string -> string)
  (sourceFiles : list string) :
  Forall (fun kv => Js.prop (snd kv) "files" = None)
    (Js.entries (generateCodePointers readFile now dirEntries readDoc sourceFiles)).
Proof.
  unfold generateCodePointers. cbn [Js.entries].
  repeat constructor. cbn [snd].
  apply mappings_have_no_files, buildMappings_keys.
  apply Forall_forall. intros f Hf. now apply filter_In in Hf.
Qed.

(** C2. In the file the generator writes, no top-level entry has a [files]
    field; the documented set of the Coverage Aggregator is therefore empty,
    and the Change History Tracker reports no affected document and marks
    none, whatever the mappings and the changes are. *)
Theorem generated_pointers_feed_no_consumer readFile (now : string)
  (dirEntries : list string) (readDoc : string -> string)
  (sourceFiles : list string) :
  let codePointers :=
    generateCodePointers readFile now dirEntries readDoc sourceFiles in
  map fst (Js.entries codePointers)
  = ["generated"; "total_source_files"; "total_mappings"; "mappings"]
  /\ Forall (fun kv => Js.prop (snd kv) "files" = None) (Js.entries codePointers)
  /\ Coverage.documentedFiles codePointers = []
  /\ (forall gitDiff changes,
        CodeChanges.affectedDocs gitDiff codePointers changes = []
        /\ CodeChanges.markedStale codePointers changes = []).
Proof.
  intros codePointers.
  assert (H := generated_entries_have_no_files readFile now dirEntries readDoc
                 sourceFiles).
  fold codePointers in H.
  assert (N : Forall Js.noFiles (Js.entries codePointers)).
  { eapply Forall_impl; [|exact H]. intros kv. apply files_of_no_prop. }
  split; [reflexivity|]. split; [exact H|].
  split; [now apply documentedFiles_empty|].
  intros gitDiff changes. split.
  - unfold CodeChanges.affectedDocs.
    replace (flat_map _ changes) with (@nil CodeChanges.AffectedDoc);
      [reflexivity|].
    symmetry. induction changes as [|[f cs] changes IH]; simpl; [reflexivity|].
    rewrite affectedDocsOf_empty by exact N. exact IH.
  - unfold CodeChanges.markedStale.
    induction changes as [|[f cs] changes IH]; simpl; [reflexivity|].
    rewrite affectedDocsOf_empty by exact N. exact IH.
Qed.

(** *** Staleness Estimator *)







(** *** Change History Tracker *)

(** The pattern of a marked line at a given place. *)
Lemma run_marked (sign : ascii) (p : option ascii) (l : list ascii) (i : nat) :
  run (seqs [LineStart; chr sign; notOneOf [sign]]) (mkState p l i []) Some
  = match l with
    | c :: d :: t =>
        if Spec.atLineStart p && Ascii.eqb sign c && negb (Ascii.eqb d sign)
        then Some (mkState (Some d) t (S (S i)) [])
        else None
    | _ => None
    end.
Proof.
  cbn [seqs run prev]. unfold chr, notOneOf. cbn [run rest pos caps existsb].
  unfold Spec.atLineStart.
  destruct p as [q|]; [destruct (isLineTerminator q)|];
    destruct l as [|c [|d t]]; try reflexivity;
    cbn [andb]; destruct (Ascii.eqb sign c); try reflexivity;
    cbn [andb]; rewrite ?orb_false_r; reflexivity.
Qed.

(** The matches of the pattern of a sign are the marked lines. *)
Lemma count_marked (sign : ascii) :
  isLineTerminator sign = false ->
  forall (n : nat) (l : list ascii) (fuel : nat) (p : option ascii) (i : nat),
    (List.length l <= n)%nat -> (List.length l < fuel)%nat ->
    List.length (execLoop fuel (seqs [LineStart; chr sign; notOneOf [sign]])
                   p l i)
    = Spec.markedLines sign p l.
Proof.
  intros Hs. induction n as [n IH] using lt_wf_ind.
  intros l fuel p i Hn Hf.
  destruct fuel as [|fuel]; [lia|].
  destruct l as [|c t].
  - cbn [execLoop search]. rewrite run_marked. reflexivity.
  - cbn [execLoop search]. rewrite run_marked.
    cbn [Spec.markedLines].
    destruct t as [|d t].
    + rewrite andb_false_r. cbn [search]. rewrite run_marked. reflexivity.
    + destruct (Spec.atLineStart p && Ascii.eqb sign c
                && negb (Ascii.eqb d sign)) eqn:C.
      * cbn [resultOf pos rest prev List.length].
        destruct (Nat.ltb_spec i (S (S i))) as [_|]; [|lia].
        cbn [List.length] in Hn, Hf.
        rewrite (IH (List.length t)) by lia.
        cbn [Spec.markedLines].
        apply andb_true_iff in C as [C _].
        apply andb_true_iff in C as [_ C].
        apply Ascii.eqb_eq in C. subst c.
        unfold Spec.atLineStart at 1. rewrite Hs. cbn [andb].
        reflexivity.
      * cbn [List.length] in Hn, Hf.
        change (List.length
                  (match search (seqs [LineStart; chr sign; notOneOf [sign]])
                           (Some c) (d :: t) (S i) with
                   | Some (st, e) =>
                       resultOf (st, e)
                       :: (if (pos st <? pos e)%nat
                           then execLoop fuel
                                  (seqs [LineStart; chr sign; notOneOf [sign]])
                                  (prev e) (rest e) (pos e)
                           else [])
                   | None => []
                   end))
          with (List.length
                  (execLoop (S fuel)
                     (seqs [LineStart; chr sign; notOneOf [sign]])
                     (Some c) (d :: t) (S i))).
        rewrite (IH (List.length (d :: t))) by (cbn [List.length]; lia).
        reflexivity.
Qed.

Lemma countMatches_marked (diff : string) :
  CodeChanges.countMatches CodeChanges.addedPattern diff
  = Z.of_nat (Spec.markedLines "+" None (list_ascii_of_string diff))
  /\ CodeChanges.countMatches CodeChanges.removedPattern diff
     = Z.of_nat (Spec.markedLines "-" None (list_ascii_of_string diff)).
Proof.
  unfold CodeChanges.countMatches, execAll, CodeChanges.addedPattern,
    CodeChanges.removedPattern.
  split; f_equal;
    apply count_marked with (n := List.length (list_ascii_of_string diff));
    try reflexivity; lia.
Qed.

(** C5 (as amended). When the diff between the earliest and the latest
    commit of a changed file is obtained, the added lines are the lines of
    the diff text that begin with a plus sign followed by another character
    than a plus sign, the removed lines those that begin with a minus sign
    followed by another character than a minus sign, and the total is their
    sum; the impact is high if the total exceeds 100 or the breaking-change
    flag is set, medium if the total exceeds 20, and low otherwise.  When
    the diff is not obtained the impact is unknown, the counts are 0 and
    there is no breaking-change flag. *)
Theorem impact_tier gitDiff (filePath : string) (c0 : CodeChanges.Commit)
  (rest : list CodeChanges.Commit) :
  let a := CodeChanges.analyzeChangeImpact gitDiff filePath (c0 :: rest) in
  match gitDiff (CodeChanges.hash (List.last (c0 :: rest) c0))
                (CodeChanges.hash c0) filePath with
  | Some diff =>
      let text := list_ascii_of_string diff in
      CodeChanges.linesAdded a = Z.of_nat (Spec.markedLines "+" None text)
      /\ CodeChanges.linesRemoved a
         = Z.of_nat (Spec.markedLines "-" None text)
      /\ CodeChanges.totalLines a
         = CodeChanges.linesAdded a + CodeChanges.linesRemoved a
      /\ CodeChanges.hasBreakingChange a
         = Some (test CodeChanges.breakingPattern diff)
      /\ CodeChanges.impact a
         = Spec.impactTier (CodeChanges.totalLines a)
             (test CodeChanges.breakingPattern diff)
  | None =>
      CodeChanges.impact a = CodeChanges.unknown
      /\ CodeChanges.linesAdded a = 0
      /\ CodeChanges.linesRemoved a = 0
      /\ CodeChanges.totalLines a = 0
      /\ CodeChanges.hasBreakingChange a = None
  end.
Proof.
  intros a. subst a. unfold CodeChanges.analyzeChangeImpact.
  destruct (gitDiff _ _ filePath) as [diff|]; [|now repeat split].
  cbn [CodeChanges.linesAdded CodeChanges.linesRemoved CodeChanges.totalLines
       CodeChanges.hasBreakingChange CodeChanges.impact].
  destruct (countMatches_marked diff) as [Ha Hr].
  split; [exact Ha|]. split; [exact Hr|]. split; [reflexivity|].
  split; [reflexivity|].
  unfold Spec.impactTier.
  destruct (test CodeChanges.breakingPattern diff);
    [now rewrite orb_true_r | rewrite orb_false_r].
  destruct (100 <? _); [reflexivity|].
  now destruct (20 <? _).
Qed.

(** C5, as stated, fails: the diff of the changed file cannot be obtained;
    no line counts as changed and no breaking-change flag is set, so that
    the stated rule gives low, and the tracker answers unknown. *)
Lemma failed_diff_has_no_tier :
  let gitDiff := fun _ _ _ : string => @None string in
  let a := CodeChanges.analyzeChangeImpact gitDiff "src/foo.ts"
             [CodeChanges.mkCommit "c2" 2000 "later";
              CodeChanges.mkCommit "c1" 1000 "earlier"] in
  CodeChanges.impact a = CodeChanges.unknown
  /\ CodeChanges.totalLines a = 0
  /\ CodeChanges.hasBreakingChange a = None
  /\ Spec.impactTier (CodeChanges.totalLines a) false = CodeChanges.low
  /\ CodeChanges.impact a
     <> Spec.impactTier (CodeChanges.totalLines a) false.
Proof.
  vm_compute. repeat split. discriminate.
Qed.

(** A diff that removes list items, each of which begins with a hyphen:
    none of them counts as a changed line. *)
Example removed_list_items_are_not_counted :
  let line := "-- item" ++ lf in
  let diff := "--- a/doc.md" ++ lf ++ "+++ b/doc.md" ++ lf
              ++ line ++ line ++ line in
  CodeChanges.totalLines
    (CodeChanges.analyzeChangeImpact (fun _ _ _ => Some diff) "doc.md"
       [CodeChanges.mkCommit "c1" 1000 "items"]) = 0.
Proof. vm_compute. reflexivity. Qed.

(** *** The number of a difference of two time values *)

Lemma ofDifference_exact (z : Z) :
  Z.abs z <= 2 ^ 53 -> JsNumber.ofDifference z = z.
Proof.
  intros H. unfold JsNumber.ofDifference.
  destruct (Z.leb_spec (Z.abs z) (2 ^ 53)); [reflexivity | lia].
Qed.

Lemma ofDifference_near (z : Z) : z - 1 <= JsNumber.ofDifference z <= z + 1.
Proof.
  unfold JsNumber.ofDifference. destruct (Z.abs z <=? 2 ^ 53); [lia|].
  destruct (Z.even z); [lia|]. destruct ((z - 1) mod 4 =? 0); lia.
Qed.

Lemma ofDifference_opp (z : Z) :
  JsNumber.ofDifference (- z) = - JsNumber.ofDifference z.
Proof.
  unfold JsNumber.ofDifference. rewrite Z.abs_opp, Z.even_opp.
  destruct (Z.abs z <=? 2 ^ 53); [reflexivity|].
  destruct (Z.even z) eqn:E; [reflexivity|].
  assert (O : Z.odd z = true) by (rewrite <- Z.negb_even, E; reflexivity).
  apply Z.odd_spec in O as [k ->].
  destruct (Z.eqb_spec ((2 * k + 1 - 1) mod 4) 0) as [A|A];
    destruct (Z.eqb_spec ((- (2 * k + 1) - 1) mod 4) 0) as [B|B]; try lia.
  - exfalso. apply Z.mod_divide in A, B; try lia.
    destruct A as [a A], B as [b B]. lia.
  - exfalso.
    pose proof (Z.div_mod (2 * k + 1 - 1) 4 ltac:(lia)) as Ea.
    pose proof (Z.mod_pos_bound (2 * k + 1 - 1) 4 ltac:(lia)) as Ba.
    pose proof (Z.div_mod (- (2 * k + 1) - 1) 4 ltac:(lia)) as Eb.
    pose proof (Z.mod_pos_bound (- (2 * k + 1) - 1) 4 ltac:(lia)) as Bb.
    lia.
Qed.

Lemma ofDifference_even (z : Z) :
  2 ^ 53 < Z.abs z -> Z.even (JsNumber.ofDifference z) = true.
Proof.
  intros H. unfold JsNumber.ofDifference.
  destruct (Z.leb_spec (Z.abs z) (2 ^ 53)); [lia|].
  destruct (Z.even z) eqn:E; [exact E|].
  destruct ((z - 1) mod 4 =? 0).
  - rewrite Z.even_sub, E. reflexivity.
  - rewrite Z.even_add, E. reflexivity.
Qed.

(** Rounding keeps the order. *)
Lemma ofDifference_monotone (y z : Z) :
  y <= z -> JsNumber.ofDifference y <= JsNumber.ofDifference z.
Proof.
  intros H.
  pose proof (ofDifference_near y) as Ny.
  pose proof (ofDifference_near z) as Nz.
  destruct (Z.le_gt_cases (Z.abs y) (2 ^ 53)) as [Sy|By];
    destruct (Z.le_gt_cases (Z.abs z) (2 ^ 53)) as [Sz|Bz].
  - rewrite (@ofDifference_exact y Sy), (@ofDifference_exact z Sz). exact H.
  - rewrite (@ofDifference_exact y Sy). lia.
  - rewrite (@ofDifference_exact z Sz). lia.
  - destruct (Z.eq_dec y z) as [->|Ne]; [lia|].
    apply ofDifference_even in By, Bz.
    apply Z.even_spec in By as [a Ea], Bz as [b Eb]. lia.
Qed.

Lemma ofDifference_abs (z : Z) :
  Z.abs (JsNumber.ofDifference z) = JsNumber.ofDifference (Z.abs z).
Proof.
  destruct (Z.le_gt_cases 0 z) as [P|N].
  - rewrite (Z.abs_eq z) by exact P. apply Z.abs_eq.
    pose proof (@ofDifference_monotone 0 z P) as M.
    rewrite (@ofDifference_exact 0) in M by (cbn; lia). exact M.
  - rewrite (Z.abs_neq z) by lia. rewrite ofDifference_opp.
    apply Z.abs_neq.
    pose proof (@ofDifference_monotone z 0 ltac:(lia)) as M.
    rewrite (@ofDifference_exact 0) in M by (cbn; lia). exact M.
Qed.

(** *** Accuracy Validator *)











(** The comparisons and the rounding of [Validation.checkPointer] are what
    the binary64 operations give: around the bounds 0 and 7 days, around
    half days, around 2^53 and at the ends of the range of the time
    values. *)
Lemma daysSinceValidation_as_computed :
  let maxTime := JsNumber.maxTime in
  let day := Validation.msPerDay in
  forallb (fun p : Z * Z =>
             let days := Validation.daysSinceValidationNumber (fst p) (snd p) in
             let gap := JsNumber.ofDifference (fst p - snd p) in
             Bool.eqb (JsNumber.ltb (JsNumber.ofZ 0) days) (0 <? gap)
             && Bool.eqb (JsNumber.ltb (JsNumber.ofZ 7) days) (7 * day <? gap)
             && match JsNumber.toZ (JsNumber.round days) with
                | Some n => n =? (2 * gap + day) / (2 * day)
                | None => false
                end)
    [(0, 0); (1, 0); (0, 1); (7 * day, 0); (7 * day + 1, 0);
     (7 * day - 1, 0); (10 * day, 0); (day / 2, 0); (day / 2 - 1, 0);
     (day / 2 + 1, 0); (1700000000000 + 3 * day + day / 2, 1700000000000);
     (1700000000000 + 3 * day + day / 2 - 1, 1700000000000);
     (maxTime, - maxTime); (maxTime - 1, - maxTime);
     (maxTime, 1 - maxTime); (maxTime - day / 2, - maxTime);
     (maxTime - day / 2 - 1, - maxTime); (maxTime - day / 2 + 1, - maxTime);
     (maxTime - day / 2 - 2, - maxTime); (maxTime - day / 2 + 2, - maxTime);
     (- maxTime, maxTime); (4503599627370496, -4503599627370496);
     (4503599627370497, -4503599627370496);
     (4503599627370496 + day / 2 - 1, -4503599627370496);
     (4503599627370496 + day / 2 + 1, -4503599627370496);
     (407199254740992 - day / 2, - maxTime);
     (407199254740992 - day / 2 + 1, - maxTime)] = true.
Proof. vm_compute. reflexivity. Qed.







(** C9, evaluated where it fails: one document that mentions two files that
    do not exist.  It is one check and two errors, so that [passed] is -1
    and the accuracy score is -1, below 0. *)
Lemma accuracy_score_below_zero :
  exists r,
    Validation.validateAccuracy (fun _ => None) (fun _ => None) Js.showZ
      (JObj []) [("a.md", "See `a.js` and `b.js`.")] = Some r
    /\ Validation.total_checks r = 1
    /\ Validation.failed r = 2
    /\ Validation.passed r = -1
    /\ Validation.accuracy_score r = JsNumber.ofZ (-1)
    /\ JsNumber.ltb (Validation.accuracy_score r) (JsNumber.ofZ 0) = true.
Proof.
  eexists. split; [reflexivity|]. vm_compute. repeat split.
Qed.

(** The score is the number of documents minus the number of errors, over
    the number of documents. *)
Lemma accuracy_score_formula mtime (pointerFindings : list Validation.Finding)
  (docs : list (string * string)) :
  let r := Validation.report mtime pointerFindings docs in
  Validation.total_checks r = Z.of_nat (List.length docs)
  /\ Validation.failed r = Z.of_nat (List.length (Validation.errors r))
  /\ Validation.passed r = Validation.total_checks r - Validation.failed r
  /\ Validation.accuracy_score r
     = if 0 <? Validation.total_checks r
       then JsNumber.div (JsNumber.ofZ (Validation.passed r))
                         (JsNumber.ofZ (Validation.total_checks r))
       else JsNumber.ofZ 1.
Proof.
  repeat split.
Qed.

(** *** Coverage Aggregator *)

Lemma fold_visit cwd parseExports countFileUsage
  (documentedSet allCodeFiles files : list string) :
  forall (nDoc : Z) (docs : list string) (nUndoc : Z)
         (undocs : list Coverage.Undocumented),
    fold_left (Coverage.visit cwd parseExports countFileUsage documentedSet
                 allCodeFiles) files (nDoc, docs, nUndoc, undocs)
    = (nDoc + Z.of_nat (List.length
                 (filter (Coverage.isDocumented cwd documentedSet) files)),
       (docs ++ filter (Coverage.isDocumented cwd documentedSet) files)%list,
       nUndoc + Z.of_nat (List.length
                 (filter (fun f => negb (Coverage.isDocumented cwd documentedSet f))
                         files)),
       (undocs ++ map (Coverage.backlogEntry cwd parseExports countFileUsage
                         allCodeFiles)
                      (filter (fun f => negb (Coverage.isDocumented cwd
                                                 documentedSet f)) files))%list).
Proof.
  induction files as [|f files IH]; intros nDoc docs nUndoc undocs.
  - simpl. now rewrite !Z.add_0_r, !app_nil_r.
  - cbn [fold_left]. unfold Coverage.visit at 2.
    cbn [filter]. destruct (Coverage.isDocumented cwd documentedSet f);
      cbn [negb]; rewrite IH; cbn [List.length map];
      rewrite <- !app_assoc; cbn [app].
    + do 3 f_equal. lia.
    + f_equal. f_equal. lia.
Qed.

Lemma filter_split_length {A : Type} (p : A -> bool) (l : list A) :
  (List.length (filter p l) + List.length (filter (fun x => negb (p x)) l)
   = List.length l)%nat.
Proof.
  induction l as [|x l IH]; simpl; [reflexivity|].
  destruct (p x); simpl; lia.
Qed.

Lemma filter_length_le {A : Type} (p q : A -> bool) (l : list A) :
  (forall x, In x l -> p x = true -> q x = true) ->
  (List.length (filter p l) <= List.length (filter q l))%nat.
Proof.
  induction l as [|x l IH]; intros H; simpl; [lia|].
  assert (IH' := IH (fun y Hy => H y (or_intror Hy))).
  destruct (p x) eqn:P.
  - rewrite (H x (or_introl eq_refl) P). simpl. lia.
  - destruct (q x); simpl; lia.
Qed.

Lemma filter_agree {A : Type} (p q : A -> bool) (l : list A) :
  (forall x, In x l -> p x = q x) -> filter p l = filter q l.
Proof.
  induction l as [|x l IH]; intros H; simpl; [reflexivity|].
  rewrite (H x (or_introl eq_refl)), IH; [reflexivity|].
  intros y Hy. apply H. now right.
Qed.

(** C6 (as amended). The report counts as documented every code file whose
    relative or absolute path is in the documented set or whose base name
    occurs inside a documented path: at least the files documented by exact
    path, and exactly those when no other file is matched through its base
    name.  The undocumented count is the rest, and the percentage is computed
    from the two counts; with 4 documented files out of 10 it is 0.40. *)
Theorem coverage_counts cwd parseExports countFileUsage (codePointers : json)
  (allFiles : list string) :
  let r := Coverage.analyzeCoverage cwd parseExports countFileUsage
             codePointers allFiles in
  let files := Coverage.getAllCodeFiles cwd allFiles in
  let set := Coverage.documentedFiles codePointers in
  let k := Spec.exactlyDocumented set files in
  Coverage.total_files r = Z.of_nat (List.length files)
  /\ Coverage.documented r = filter (Coverage.isDocumented cwd set) files
  /\ Coverage.documented_files r
     = Z.of_nat (List.length (Coverage.documented r))
  /\ Coverage.undocumented_files r
     = Coverage.total_files r - Coverage.documented_files r
  /\ k <= Coverage.documented_files r
  /\ ((forall f, In f files -> Js.mem f set = false ->
                 Coverage.isDocumented cwd set f = false) ->
      Coverage.documented_files r = k)
  /\ Coverage.coverage_percentage r
     = Coverage.percentage (Coverage.documented_files r) (Coverage.total_files r)
  /\ (Coverage.total_files r = 10 -> Coverage.documented_files r = 4 ->
      Coverage.coverage_percentage r
      = JsNumber.div (JsNumber.ofZ 40) (JsNumber.ofZ 100)).
Proof.
  intros r files set k. subst r k. unfold Coverage.analyzeCoverage.
  fold set. fold files. rewrite fold_visit.
  cbn [Coverage.total_files Coverage.documented Coverage.documented_files
       Coverage.undocumented_files Coverage.coverage_percentage app].
  rewrite !Z.add_0_l.
  pose proof (filter_split_length (Coverage.isDocumented cwd set) files) as S.
  split; [reflexivity|]. split; [reflexivity|]. split; [reflexivity|].
  split; [lia|]. split; [|split; [|split]].
  - unfold Spec.exactlyDocumented. apply inj_le, filter_length_le.
    intros f _ Hf. unfold Coverage.isDocumented. now rewrite Hf.
  - intros H. unfold Spec.exactlyDocumented. do 2 f_equal.
    apply filter_agree. intros f Hf.
    destruct (Js.mem f set) eqn:E.
    + unfold Coverage.isDocumented. now rewrite E.
    + now apply H.
  - reflexivity.
  - intros -> ->. vm_compute. reflexivity.
Qed.

Lemma coverage_counts_witness :
  let codePointers :=
    JObj [("architecture.md",
           JObj [("files", JArr [JStr "src/f0.js"; JStr "src/f1.js";
                                  JStr "src/f2.js"; JStr "src/f3.js"])])] in
  let allFiles :=
    ["src/f0.js"; "src/f1.js"; "src/f2.js"; "src/f3.js"; "src/f4.js";
     "src/f5.js"; "src/f6.js"; "src/f7.js"; "src/f8.js"; "src/f9.js";
     "README.md"] in
  let r := Coverage.analyzeCoverage "/repo" (fun _ => []) (fun _ _ => 0)
             codePointers allFiles in
  Coverage.documented_files r = 4
  /\ Coverage.undocumented_files r = 6
  /\ Coverage.coverage_percentage r
     = JsNumber.div (JsNumber.ofZ 40) (JsNumber.ofZ 100).
Proof.
  intros codePointers allFiles r.
  destruct (@coverage_counts "/repo" (fun _ => []) (fun _ _ => 0)
              codePointers allFiles)
    as (Ht & _ & _ & Hu & _ & Hk & _ & Hp).
  fold r in Ht, Hu, Hk, Hp.
  assert (T : Coverage.total_files r = 10) by (rewrite Ht; reflexivity).
  assert (K : Coverage.documented_files r = 4).
  { rewrite Hk; [reflexivity|].
    intros f Hf. vm_compute in Hf.
    repeat (destruct Hf as [<-|Hf]; [vm_compute; congruence|]).
    destruct Hf. }
  split; [exact K|]. split; [rewrite Hu, T, K; reflexivity|].
  now apply Hp.
Defined.

(** C6, as stated, fails: of two files with the same base name the map
    documents one by its exact path; the report counts both as documented. *)
Lemma same_basename_counts_as_documented :
  let codePointers :=
    JObj [("architecture.md",
           JObj [("files", JArr [JStr "src/a/index.js"])])] in
  let allFiles := ["src/a/index.js"; "src/b/index.js"] in
  let r := Coverage.analyzeCoverage "/repo" (fun _ => []) (fun _ _ => 0)
             codePointers allFiles in
  Spec.exactlyDocumented (Coverage.documentedFiles codePointers)
    (Coverage.getAllCodeFiles "/repo" allFiles) = 1
  /\ Coverage.total_files r = 2
  /\ Coverage.documented_files r = 2
  /\ Coverage.undocumented_files r = 0
  /\ Coverage.documented_files r
     <> Spec.exactlyDocumented (Coverage.documentedFiles codePointers)
          (Coverage.getAllCodeFiles "/repo" allFiles).
Proof.
  vm_compute. repeat split. discriminate.
Qed.

(** For a tree of at most 100 code files the percentage is a number of
    hundredths nearest to the quotient of the two counts: the quotient
    rounded to two decimal places.  A tie is not always rounded up: 23 files
    out of 40 (0.575) give 57 hundredths, because the product computed in
    binary64 lies just below 57.5. *)
Lemma percentage_is_nearest_hundredth (d n : nat) :
  (d <= n)%nat -> (1 <= n <= 100)%nat ->
  exists h,
    JsNumber.toZ (Coverage.hundredths (Z.of_nat d) (Z.of_nat n)) = Some h
    /\ Spec.nearestHundredth h (Z.of_nat d) (Z.of_nat n).
Proof.
  intros Hd Hn.
  assert (C : forallb (fun p => Spec.roundsToNearest (Z.of_nat (fst p))
                                                     (Z.of_nat (snd p)))
                      (Spec.countPairs 100) = true)
    by (vm_compute; reflexivity).
  rewrite forallb_forall in C.
  assert (I : In (d, n) (Spec.countPairs 100)).
  { unfold Spec.countPairs. apply in_flat_map. exists n. split.
    - apply in_seq. lia.
    - apply in_map_iff. exists d. split; [reflexivity|]. apply in_seq. lia. }
  specialize (C _ I). cbn [fst snd] in C.
  unfold Spec.roundsToNearest in C.
  destruct (JsNumber.toZ (Coverage.hundredths (Z.of_nat d) (Z.of_nat n)))
    as [h|]; [|discriminate].
  exists h. split; [reflexivity|].
  unfold Spec.nearestHundredth. now apply Z.leb_le.
Qed.

Lemma tie_not_rounded_up :
  JsNumber.toZ (Coverage.hundredths 23 40) = Some 57
  /\ JsNumber.toZ (Coverage.hundredths 1 8) = Some 13.
Proof.
  vm_compute. split; reflexivity.
Qed.

(** *** The scenarios of the specification, evaluated *)

(** Inside a fence the import of a path of the source set yields the
    pointer, and the pointer map records it once. *)
Example fenced_import_gives_pointer :
  let content := "Usage:" ++ lf ++ "```ts" ++ lf
                 ++ "import { foo } from 'src/foo.ts'" ++ lf ++ "```" ++ lf in
  extractCodeReferences content = [mkReference import "src/foo.ts"]
  /\ groupPointers
       (matchReferencesToFiles (fun _ => None)
          (extractCodeReferences content) ["src/foo.ts"; "src/bar.ts"])
     = [("src/foo.ts", ["imports src/foo.ts"])].
Proof.
  vm_compute. split; reflexivity.
Qed.

(** Within a block the import paths come first, then the class names, then
    the function names, whatever their order in the text. *)
Example families_in_turn :
  extractCodeReferences
    ("```js" ++ lf ++ "function run() {}" ++ lf ++ "class Engine {}" ++ lf
     ++ "import x from './engine'" ++ lf ++ "```")
  = [mkReference import "./engine"; mkReference class "Engine";
     mkReference function "run"].
Proof.
  vm_compute. reflexivity.
Qed.

(* ------------------------------------------------------------------ *)
(** ** Further properties of the scripts *)

(** *** [Array.prototype.sort] *)

Section SortWith.

Context {A : Type} (cmp : A -> A -> Z).
Hypothesis cmp_total : forall a b, cmp a b <= 0 \/ cmp b a <= 0.
Hypothesis cmp_trans :
  forall a b c, cmp a b <= 0 -> cmp b c <= 0 -> cmp a c <= 0.

Lemma insertWith_perm (x : A) (l : list A) :
  Permutation (Js.insertWith cmp x l) (x :: l).
Proof.
  induction l as [|y l IH]; simpl; [reflexivity|].
  destruct (cmp x y <=? 0); [reflexivity|].
  rewrite IH. apply perm_swap.
Qed.

Lemma sortWith_perm (l : list A) : Permutation (Js.sortWith cmp l) l.
Proof.
  induction l as [|x l IH]; simpl; [reflexivity|].
  unfold Js.sortWith in *. simpl. rewrite insertWith_perm. now constructor.
Qed.

Lemma insertWith_sorted (x : A) (l : list A) :
  StronglySorted (Order.before cmp) l ->
  StronglySorted (Order.before cmp) (Js.insertWith cmp x l).
Proof.
  induction 1 as [|y l Hl IH Hy]; simpl.
  - repeat constructor.
  - destruct (Z.leb_spec (cmp x y) 0) as [Hxy|Hxy].
    + constructor; [now constructor|].
      constructor; [exact Hxy|].
      eapply Forall_impl; [|exact Hy]. intros z Hz.
      unfold Order.before in *. eauto.
    + constructor; [exact IH|].
      assert (Hyx : cmp y x <= 0) by (destruct (cmp_total x y); lia).
      eapply Permutation_Forall; [symmetry; apply insertWith_perm|].
      now constructor.
Qed.

Lemma sortWith_sorted (l : list A) :
  StronglySorted (Order.before cmp) (Js.sortWith cmp l).
Proof.
  induction l as [|x l IH]; [constructor|].
  unfold Js.sortWith in *. simpl. now apply insertWith_sorted.
Qed.

End SortWith.

Lemma StronglySorted_impl_in {A : Type} (R S : A -> A -> Prop) (l : list A) :
  (forall a b, In a l -> In b l -> R a b -> S a b) ->
  StronglySorted R l -> StronglySorted S l.
Proof.
  intros H HS. induction HS as [|x l Hl IH Hx]; constructor.
  - apply IH. intros a b Ha Hb. apply H; now right.
  - rewrite Forall_forall in *. intros y Hy.
    apply H; [now left | now right | now apply Hx].
Qed.

(** *** The change report *)

Lemma affected_files gitDiff (codePointers : json)
  (changes : list (string * list CodeChanges.Commit)) :
  Permutation
    (map CodeChanges.code_file
         (CodeChanges.affectedDocs gitDiff codePointers changes))
    (filter (Order.hasAffectedDocs codePointers) (map fst changes)).
Proof.
  unfold CodeChanges.affectedDocs.
  rewrite sortWith_perm.
  induction changes as [|[f cs] changes IH]; simpl; [reflexivity|].
  rewrite map_app. unfold Order.hasAffectedDocs at 1.
  destruct (CodeChanges.affectedDocsOf codePointers f); simpl.
  - exact IH.
  - now constructor.
Qed.

(** X1. The change report lists every changed file that some document
    references exactly once, ordered by impact: high first, then medium, low
    and unknown. *)
Theorem affected_docs_sorted_by_impact gitDiff (codePointers : json)
  (changes : list (string * list CodeChanges.Commit)) :
  StronglySorted Order.byImpact
    (CodeChanges.affectedDocs gitDiff codePointers changes)
  /\ Permutation
       (map CodeChanges.code_file
            (CodeChanges.affectedDocs gitDiff codePointers changes))
       (filter (Order.hasAffectedDocs codePointers) (map fst changes)).
Proof.
  split; [|apply affected_files].
  unfold CodeChanges.affectedDocs.
  eapply StronglySorted_impl_in; [|apply sortWith_sorted].
  - intros a b _ _ H. unfold Order.before in H. unfold Order.byImpact. lia.
  - intros a b. lia.
  - intros a b c. lia.
Qed.

(** *** The coverage report *)

Lemma compareBacklog_total (a b : Coverage.Undocumented) :
  Coverage.compareBacklog a b <= 0 \/ Coverage.compareBacklog b a <= 0.
Proof.
  unfold Coverage.compareBacklog.
  destruct (Z.eqb_spec (Coverage.priorityOrder (Coverage.priority a)
                        - Coverage.priorityOrder (Coverage.priority b)) 0);
  destruct (Z.eqb_spec (Coverage.priorityOrder (Coverage.priority b)
                        - Coverage.priorityOrder (Coverage.priority a)) 0);
  simpl; lia.
Qed.

Lemma compareBacklog_trans (a b c : Coverage.Undocumented) :
  Coverage.compareBacklog a b <= 0 -> Coverage.compareBacklog b c <= 0 ->
  Coverage.compareBacklog a c <= 0.
Proof.
  unfold Coverage.compareBacklog.
  destruct (Z.eqb_spec (Coverage.priorityOrder (Coverage.priority a)
                        - Coverage.priorityOrder (Coverage.priority b)) 0);
  destruct (Z.eqb_spec (Coverage.priorityOrder (Coverage.priority b)
                        - Coverage.priorityOrder (Coverage.priority c)) 0);
  destruct (Z.eqb_spec (Coverage.priorityOrder (Coverage.priority a)
                        - Coverage.priorityOrder (Coverage.priority c)) 0);
  simpl; lia.
Qed.

Lemma analyzeCoverage_undocumented cwd parseExports countFileUsage
  (codePointers : json) (allFiles : list string) :
  let files := Coverage.getAllCodeFiles cwd allFiles in
  let set := Coverage.documentedFiles codePointers in
  Coverage.undocumented
    (Coverage.analyzeCoverage cwd parseExports countFileUsage codePointers
       allFiles)
  = Js.sortWith Coverage.compareBacklog
      (map (Coverage.backlogEntry cwd parseExports countFileUsage files)
           (filter (fun f => negb (Coverage.isDocumented cwd set f)) files)).
Proof.
  intros files set. unfold Coverage.analyzeCoverage.
  fold set. fold files. rewrite fold_visit. reflexivity.
Qed.

Lemma analyzeCoverage_documented cwd parseExports countFileUsage
  (codePointers : json) (allFiles : list string) :
  Coverage.documented
    (Coverage.analyzeCoverage cwd parseExports countFileUsage codePointers
       allFiles)
  = filter (Coverage.isDocumented cwd (Coverage.documentedFiles codePointers))
           (Coverage.getAllCodeFiles cwd allFiles).
Proof.
  unfold Coverage.analyzeCoverage. rewrite fold_visit. reflexivity.
Qed.

Lemma partition_perm {A : Type} (p : A -> bool) (l : list A) :
  Permutation (filter p l ++ filter (fun x => negb (p x)) l) l.
Proof.
  induction l as [|x l IH]; simpl; [reflexivity|].
  destruct (p x); simpl.
  - now constructor.
  - rewrite <- Permutation_middle. now constructor.
Qed.

(** X2. The report partitions the code files: every file with an
    allow-listed extension is either in the documented list or in the
    backlog, exactly once, and a file without such an extension is in
    neither. *)
Theorem coverage_partitions_code_files cwd parseExports countFileUsage
  (codePointers : json) (allFiles : list string) :
  let r := Coverage.analyzeCoverage cwd parseExports countFileUsage
             codePointers allFiles in
  Permutation
    (Coverage.documented r ++ map Coverage.u_file (Coverage.undocumented r))
    (Coverage.getAllCodeFiles cwd allFiles)
  /\ (forall f,
        In f (Coverage.documented r ++ map Coverage.u_file (Coverage.undocumented r))
        <-> In f allFiles
            /\ Js.mem (Path.extname (Coverage.absolute cwd f))
                      Coverage.CODE_EXTENSIONS = true).
Proof.
  intros r.
  assert (P : Permutation
    (Coverage.documented r ++ map Coverage.u_file (Coverage.undocumented r))
    (Coverage.getAllCodeFiles cwd allFiles)).
  { subst r. rewrite analyzeCoverage_undocumented.
    rewrite analyzeCoverage_documented.
    rewrite sortWith_perm, map_map. cbn [Coverage.backlogEntry Coverage.u_file].
    rewrite map_id. apply partition_perm. }
  split; [exact P|].
  intros f. split.
  - intros H. apply (Permutation_in _ P) in H.
    unfold Coverage.getAllCodeFiles in H. now apply filter_In in H.
  - intros H. apply (Permutation_in _ (Permutation_sym P)).
    unfold Coverage.getAllCodeFiles. now apply filter_In.
Qed.

Lemma backlogEntry_priority cwd parseExports countFileUsage
  (allCodeFiles : list string) (f : string) :
  Coverage.priority
    (Coverage.backlogEntry cwd parseExports countFileUsage allCodeFiles f)
  = Order.priorityOf
      (Coverage.usage_count
         (Coverage.backlogEntry cwd parseExports countFileUsage allCodeFiles f)).
Proof. reflexivity. Qed.

Lemma compareBacklog_usage (a b : Coverage.Undocumented) :
  Coverage.priority a = Order.priorityOf (Coverage.usage_count a) ->
  Coverage.priority b = Order.priorityOf (Coverage.usage_count b) ->
  Coverage.compareBacklog a b <= 0 ->
  Order.byUsageDescending a b.
Proof.
  unfold Coverage.compareBacklog, Order.byUsageDescending, Order.priorityOf.
  intros -> ->.
  destruct (Z.ltb_spec 10 (Coverage.usage_count a));
  destruct (Z.ltb_spec 10 (Coverage.usage_count b));
  destruct (Z.ltb_spec 5 (Coverage.usage_count a));
  destruct (Z.ltb_spec 5 (Coverage.usage_count b));
  simpl; lia.
Qed.

(** X3. The backlog of undocumented files is ordered by usage count, the
    most used file first: the priority of an entry is a step function of its
    usage count (high above 10, medium above 5, else low), so that sorting by
    priority and then by usage orders the whole list by usage. *)
Theorem backlog_ordered_by_usage cwd parseExports countFileUsage
  (codePointers : json) (allFiles : list string) :
  let r := Coverage.analyzeCoverage cwd parseExports countFileUsage
             codePointers allFiles in
  StronglySorted Order.byUsageDescending (Coverage.undocumented r)
  /\ Forall (fun u => Coverage.priority u
                      = Order.priorityOf (Coverage.usage_count u))
            (Coverage.undocumented r).
Proof.
  intros r. subst r. rewrite analyzeCoverage_undocumented.
  set (entries := map _ _).
  assert (P : Forall (fun u => Coverage.priority u
                               = Order.priorityOf (Coverage.usage_count u))
                     (Js.sortWith Coverage.compareBacklog entries)).
  { eapply Permutation_Forall; [symmetry; apply sortWith_perm|].
    subst entries. apply Forall_forall. intros u Hu.
    apply in_map_iff in Hu as [f [<- _]]. apply backlogEntry_priority. }
  split; [|exact P].
  eapply StronglySorted_impl_in;
    [|apply sortWith_sorted;
      [apply compareBacklog_total | apply compareBacklog_trans]].
  intros a b Ha Hb H. rewrite Forall_forall in P.
  apply compareBacklog_usage; auto.
Qed.

(** *** The staleness estimator *)

(** The rounding written out in [JsNumber.ofDifference] and the ceiling of
    [DocState.daysBetween] are what the binary64 operations give: at the
    ends of the range of the time values, around 2^53, and around whole
    days. *)
Lemma daysBetween_as_computed :
  let maxTime := JsNumber.maxTime in
  forallb (fun p : Z * Z =>
             match JsNumber.toZ (DocState.daysBetweenNumber (fst p) (snd p)) with
             | Some n => n =? DocState.daysBetween (fst p) (snd p)
             | None => false
             end)
    [(0, 0); (0, 1); (1, 0); (0, 86400000); (0, 86400001);
     (0, 259200000); (0, 259200001); (1700000000000, 1702592000001);
     (- maxTime, maxTime); (- maxTime, maxTime - 1); (1 - maxTime, maxTime);
     (- maxTime, maxTime - 3); (maxTime, - maxTime); (maxTime, 3 - maxTime);
     (- maxTime, maxTime - 86400002); (- maxTime, maxTime - 86400001);
     (- maxTime, maxTime - 86399999); (- maxTime, maxTime - 86399998);
     (- maxTime, 407199254740992); (- maxTime, 407199254740993);
     (- maxTime, 407199254740994); (- maxTime, 407199254740995);
     (-4503599627370496, 4503599627370496);
     (-4503599627370496, 4503599627370497);
     (-4503599627370496, 4503599627370498);
     (-4503599627370496, 4503599627370499);
     (-6480000000000000, 6480000000000001)] = true
  /\ forallb (fun z => match JsNumber.toZ (JsNumber.ofZ z) with
                       | Some n => n =? JsNumber.ofDifference z
                       | None => false
                       end)
       (map (fun k => 2 ^ 53 - 8 + Z.of_nat k) (seq 0 24)
        ++ map (fun k => - 2 ^ 53 - 16 + Z.of_nat k) (seq 0 24)
        ++ map (fun k => 2 ^ 54 - 24 + Z.of_nat k) (seq 0 24)) = true.
Proof. vm_compute. split; reflexivity. Qed.

(** The day count is the ceiling of the rounded gap. *)
Lemma daysBetween_ceiling (date1 date2 : Z) :
  let n := DocState.daysBetween date1 date2 in
  let diffTime := JsNumber.ofDifference (Z.abs (date2 - date1)) in
  diffTime <= n * DocState.msPerDay /\ (n - 1) * DocState.msPerDay < diffTime.
Proof.
  intros n diffTime. subst n. unfold DocState.daysBetween.
  rewrite ofDifference_abs. fold diffTime.
  assert (P : 0 < DocState.msPerDay) by reflexivity.
  generalize dependent DocState.msPerDay. intros D P.
  pose proof (Z.div_mod (- diffTime) D ltac:(lia)) as E.
  pose proof (Z.mod_pos_bound (- diffTime) D P) as B.
  split; nia.
Qed.

Lemma daysBetween_sym (date1 date2 : Z) :
  DocState.daysBetween date2 date1 = DocState.daysBetween date1 date2.
Proof.
  unfold DocState.daysBetween.
  replace (date1 - date2) with (- (date2 - date1)) by lia.
  now rewrite ofDifference_opp, Z.abs_opp.
Qed.

(** The day count of the estimator exceeds [n] exactly when the gap exceeds
    [n] whole days. *)
Lemma daysBetween_gt (d M n : Z) :
  d <= M -> n * DocState.msPerDay < 2 ^ 53 ->
  (n < DocState.daysBetween d M <-> n * DocState.msPerDay < M - d).
Proof.
  intros H S.
  destruct (daysBetween_ceiling d M) as [C1 C2]. cbv zeta in C1, C2.
  rewrite Z.abs_eq in C1, C2 by lia.
  pose proof (ofDifference_near (M - d)) as N.
  assert (P : 0 < DocState.msPerDay) by reflexivity.
  set (days := DocState.daysBetween d M) in *.
  destruct (Z.le_gt_cases (Z.abs (M - d)) (2 ^ 53)) as [Sm|Bg].
  - rewrite (@ofDifference_exact _ Sm) in C1, C2. clear S Sm N.
    generalize dependent DocState.msPerDay. intros D C1 C2 P.
    split; intros G; nia.
  - rewrite Z.abs_eq in Bg by lia.
    pose proof (@ofDifference_monotone (2 ^ 53) (M - d) ltac:(lia)) as Mo.
    rewrite (@ofDifference_exact (2 ^ 53)) in Mo by (cbn; lia).
    assert (B : n * DocState.msPerDay < JsNumber.ofDifference (M - d)) by lia.
    assert (B' : n * DocState.msPerDay < M - d) by lia.
    clear S Mo Bg N. generalize dependent DocState.msPerDay.
    intros D C1 C2 P B B'.
    split; intros G; [exact B' | nia].
Qed.

Lemma ltb_daysBetween (d M n : Z) :
  d <= M -> n * DocState.msPerDay < 2 ^ 53 ->
  (n <? DocState.daysBetween d M) = (n * DocState.msPerDay <? M - d).
Proof.
  intros H S. pose proof (@daysBetween_gt d M n H S) as G.
  destruct (Z.ltb_spec n (DocState.daysBetween d M)),
    (Z.ltb_spec (n * DocState.msPerDay) (M - d)); try reflexivity; lia.
Qed.

(** X4. The day count of two time values is symmetric and is 0 only for
    equal times.  For a gap of at most 2^53 milliseconds (some 285,000
    years; beyond it the subtraction rounds) it is the least number of
    whole days that covers the gap: any shorter gap, be it one millisecond,
    already counts as one day. *)
Theorem daysBetween_least_cover (date1 date2 : Z) :
  let n := DocState.daysBetween date1 date2 in
  DocState.daysBetween date2 date1 = n
  /\ (n = 0 <-> date1 = date2)
  /\ (Z.abs (date2 - date1) <= 2 ^ 53 ->
      Z.abs (date2 - date1) <= n * DocState.msPerDay
      /\ (n - 1) * DocState.msPerDay < Z.abs (date2 - date1)).
Proof.
  intros n. destruct (daysBetween_ceiling date1 date2) as [C1 C2].
  fold n in C1, C2. cbv zeta in C1, C2.
  split; [apply daysBetween_sym|]. split.
  - pose proof (ofDifference_near (Z.abs (date2 - date1))) as N.
    assert (P : 0 < DocState.msPerDay) by reflexivity.
    split.
    + intros E. rewrite E in C1, C2.
      destruct (Z.le_gt_cases (Z.abs (date2 - date1)) (2 ^ 53)) as [Sm|Bg].
      * rewrite (@ofDifference_exact (Z.abs (date2 - date1))) in C1
          by (rewrite Z.abs_idemp; exact Sm).
        lia.
      * pose proof (@ofDifference_monotone (2 ^ 53) (Z.abs (date2 - date1))
                      ltac:(lia)) as Mb.
        rewrite (@ofDifference_exact (2 ^ 53)) in Mb by (cbn; lia). lia.
    + intros ->. subst n. unfold DocState.daysBetween.
      rewrite Z.sub_diag. reflexivity.
  - intros Sm.
    rewrite (@ofDifference_exact (Z.abs (date2 - date1))) in C1, C2
      by (rewrite Z.abs_idemp; exact Sm).
    now split.
Qed.

Lemma daysBetween_least_cover_witness :
  DocState.daysBetween 0 1 = 1
  /\ DocState.daysBetween 0 DocState.msPerDay = 1
  /\ DocState.daysBetween 0 (DocState.msPerDay + 1) = 2.
Proof.
  pose proof (proj2 (proj2 (@daysBetween_least_cover 0 1))) as H1.
  pose proof (proj2 (proj2 (@daysBetween_least_cover 0 DocState.msPerDay)))
    as H2.
  pose proof (proj2 (proj2 (@daysBetween_least_cover 0
                              (DocState.msPerDay + 1)))) as H3.
  cbv zeta in H1, H2, H3.
  specialize (H1 ltac:(vm_compute; discriminate)).
  specialize (H2 ltac:(vm_compute; discriminate)).
  specialize (H3 ltac:(vm_compute; discriminate)).
  repeat split; reflexivity.
Defined.

Lemma calculateStaleRisk_tier (docTime : option Z) (c : Z) :
  DocState.calculateStaleRisk docTime (Some c)
  = if c <=? DocState.dateOf docTime then DocState.none
    else Spec.tierOfDays (DocState.daysBetween (DocState.dateOf docTime) c).
Proof. reflexivity. Qed.

Lemma tier_rank_positive (n : Z) : 1 <= Order.riskRank (Spec.tierOfDays n).
Proof.
  unfold Spec.tierOfDays.
  destruct (30 <? n); [simpl; lia|].
  destruct (7 <? n); [simpl; lia|].
  destruct (3 <? n); simpl; lia.
Qed.

(** X5. The risk is monotone in both times: for a given document a later
    code change never gives a lower tier, and for a given code change an
    older document never gives a lower tier. *)
Theorem stale_risk_monotone (doc1 doc2 code1 code2 : Z) :
  doc2 <= doc1 -> code1 <= code2 ->
  Order.riskRank (DocState.calculateStaleRisk (Some doc1) (Some code1))
  <= Order.riskRank (DocState.calculateStaleRisk (Some doc2) (Some code2)).
Proof.
  intros Hd Hc. rewrite !calculateStaleRisk_tier. cbn [DocState.dateOf].
  destruct (Z.leb_spec code1 doc1) as [L1|L1].
  - destruct (code2 <=? doc2); [reflexivity|].
    pose proof (tier_rank_positive (DocState.daysBetween doc2 code2)).
    simpl Order.riskRank at 1. lia.
  - destruct (Z.leb_spec code2 doc2) as [L2|L2]; [lia|].
    unfold Spec.tierOfDays.
    rewrite !ltb_daysBetween by (lia || (vm_compute; reflexivity)).
    assert (P : 0 < DocState.msPerDay) by reflexivity.
    generalize dependent DocState.msPerDay. intros D P.
    destruct (Z.ltb_spec (30 * D) (code1 - doc1));
      destruct (Z.ltb_spec (30 * D) (code2 - doc2));
      destruct (Z.ltb_spec (7 * D) (code1 - doc1));
      destruct (Z.ltb_spec (7 * D) (code2 - doc2));
      destruct (Z.ltb_spec (3 * D) (code1 - doc1));
      destruct (Z.ltb_spec (3 * D) (code2 - doc2)); simpl; lia.
Qed.

Lemma stale_risk_monotone_witness :
  Order.riskRank (DocState.calculateStaleRisk
                    (Some (5 * DocState.msPerDay)) (Some (9 * DocState.msPerDay)))
  <= Order.riskRank (DocState.calculateStaleRisk
                       (Some 0) (Some (9 * DocState.msPerDay))).
Proof.
  apply (@stale_risk_monotone (5 * DocState.msPerDay) 0
           (9 * DocState.msPerDay) (9 * DocState.msPerDay)).
  - vm_compute. discriminate.
  - apply Z.le_refl.
Defined.

(** *** The accuracy validator *)

Lemma validateCodeExamples_warnings (docFile content : string) :
  Forall (fun f => Validation.severity f = Validation.warning
                   /\ Validation.autoFixable f = false)
         (Validation.validateCodeExamples docFile content).
Proof.
  unfold Validation.validateCodeExamples.
  apply Forall_forall. intros f H.
  apply in_flat_map in H as [ex [_ H]].
  destruct (_ || _); [|destruct H].
  apply in_app_or in H as [H|H].
  - destruct (negb _); [|destruct H]. destruct H as [<-|[]]. now split.
  - destruct (JsString.includes _ _); [|destruct H].
    destruct H as [<-|[]]. now split.
Qed.

Lemma filter_none {A : Type} (p : A -> bool) (l : list A) :
  Forall (fun x => p x = false) l -> filter p l = [].
Proof.
  induction 1 as [|x l Hx Hl IH]; simpl; [reflexivity|]. now rewrite Hx.
Qed.

Lemma filter_all {A : Type} (p : A -> bool) (l : list A) :
  Forall (fun x => p x = true) l -> filter p l = l.
Proof.
  induction 1 as [|x l Hx Hl IH]; simpl; [reflexivity|]. now rewrite Hx, IH.
Qed.

Lemma flat_map_ext_in {A B : Type} (f g : A -> list B) (l : list A) :
  (forall x, In x l -> f x = g x) -> flat_map f l = flat_map g l.
Proof.
  induction l as [|x l IH]; intros H; simpl; [reflexivity|].
  rewrite (H x (or_introl eq_refl)), IH; [reflexivity|].
  intros y Hy. apply H. now right.
Qed.

Lemma report_errors mtime (pointerFindings : list Validation.Finding)
  (docs : list (string * string)) :
  Validation.errors (Validation.report mtime pointerFindings docs)
  = (filter Validation.isError pointerFindings
     ++ flat_map (fun d => Validation.validateFilePaths mtime
                             ("context_for_llms/" ++ fst d) (snd d)) docs)%list.
Proof.
  unfold Validation.report. cbn [Validation.errors].
  f_equal. apply flat_map_ext_in. intros d _.
  cbn [fst snd]. rewrite filter_none; [apply app_nil_r|].
  eapply Forall_impl; [|apply validateCodeExamples_warnings].
  intros f [Hs _]. unfold Validation.isError. now rewrite Hs.
Qed.

Lemma report_warnings mtime (pointerFindings : list Validation.Finding)
  (docs : list (string * string)) :
  Validation.warnings (Validation.report mtime pointerFindings docs)
  = (filter Validation.isWarning pointerFindings
     ++ flat_map (fun d => Validation.validateCodeExamples
                             ("context_for_llms/" ++ fst d) (snd d)) docs)%list.
Proof.
  unfold Validation.report. cbn [Validation.warnings].
  f_equal. apply flat_map_ext_in. intros d _.
  cbn [fst snd]. apply filter_all.
  eapply Forall_impl; [|apply validateCodeExamples_warnings].
  intros f [Hs _]. unfold Validation.isWarning. now rewrite Hs.
Qed.

(** X6. Problems found in code examples are warnings, never errors: when
    the pass over the pointers runs to its end, the errors of the report
    are the pointer findings of severity error followed by the broken
    references of the documents, and the warnings are the pointer warnings
    followed by the findings about code examples.  The number of failed
    checks therefore does not depend on the examples.  When the pass over
    the pointers throws there is no report. *)
Theorem examples_never_fail_a_check mtime dateParse numberToString
  (codePointers : json) (docs : list (string * string)) :
  match Validation.validateViaCodePointers mtime dateParse numberToString
          codePointers with
  | Some pointerFindings =>
      exists r,
        Validation.validateAccuracy mtime dateParse numberToString
          codePointers docs = Some r
        /\ Validation.errors r
           = (filter Validation.isError pointerFindings
              ++ flat_map (fun d => Validation.validateFilePaths mtime
                                      ("context_for_llms/" ++ fst d) (snd d))
                          docs)%list
        /\ Validation.warnings r
           = (filter Validation.isWarning pointerFindings
              ++ flat_map (fun d => Validation.validateCodeExamples
                                      ("context_for_llms/" ++ fst d) (snd d))
                          docs)%list
        /\ Validation.failed r
           = Z.of_nat (List.length
                         (filter Validation.isError pointerFindings))
             + Z.of_nat (List.length
                 (flat_map (fun d => Validation.validateFilePaths mtime
                                       ("context_for_llms/" ++ fst d) (snd d))
                           docs))
  | None =>
      Validation.validateAccuracy mtime dateParse numberToString
        codePointers docs = None
  end.
Proof.
  unfold Validation.validateAccuracy.
  destruct (Validation.validateViaCodePointers mtime dateParse numberToString
              codePointers) as [pointerFindings|]; [|reflexivity].
  eexists. split; [reflexivity|].
  split; [apply report_errors|]. split; [apply report_warnings|].
  change (Validation.failed (Validation.report mtime pointerFindings docs))
    with (Z.of_nat (List.length
            (Validation.errors (Validation.report mtime pointerFindings docs)))).
  rewrite report_errors, length_app. lia.
Qed.

Lemma fold_add_In (l acc : list string) (x : string) :
  In x (fold_left Js.add l acc) <-> In x acc \/ In x l.
Proof.
  revert acc. induction l as [|y l IH]; intros acc; simpl; [tauto|].
  rewrite IH. unfold Js.add. destruct (Js.mem y acc) eqn:E.
  - apply mem_In in E. split; [tauto|]. intros [H|[<-|H]]; tauto.
  - rewrite in_app_iff. simpl. tauto.
Qed.

Lemma fold_add_NoDup (l acc : list string) :
  NoDup acc -> NoDup (fold_left Js.add l acc).
Proof.
  revert acc. induction l as [|y l IH]; intros acc H; simpl; [exact H|].
  apply IH. unfold Js.add. destruct (Js.mem y acc) eqn:E; [exact H|].
  apply mem_false in E.
  apply NoDup_app; [exact H | repeat constructor; tauto|].
  intros z Hz [<-|[]]. contradiction.
Qed.

Lemma splitHead_no_separator (sep : ascii) (s : string) :
  JsString.includes (JsString.splitHead sep s) (String sep EmptyString) = false.
Proof.
  induction s as [|c s IH]; simpl; [reflexivity|].
  destruct (Ascii.eqb_spec c sep) as [->|N]; simpl; [reflexivity|].
  destruct (ascii_dec sep c) as [E|_]; [congruence|]. exact IH.
Qed.

Lemma validateFilePaths_messages mtime (docFile content : string) :
  map Validation.message (Validation.validateFilePaths mtime docFile content)
  = map (fun p => "Referenced file does not exist: " ++ p)
        (filter (fun p => negb (Validation.existsSync mtime p))
                (Validation.extractFilePaths content)).
Proof.
  unfold Validation.validateFilePaths.
  induction (Validation.extractFilePaths content) as [|p ps IH];
    [reflexivity|].
  cbn [flat_map filter]. rewrite map_app, IH.
  now destruct (Validation.existsSync mtime p).
Qed.

(** X7. A document's broken references: the paths taken from the text are
    pairwise distinct and carry no line-number suffix, and the validator
    reports each path that does not exist exactly once, however often the
    text mentions it, as an error of type broken_reference that is not
    auto-fixable; it reports nothing for a path that exists. *)
Theorem missing_paths_reported_once mtime (docFile content : string) :
  let paths := Validation.extractFilePaths content in
  let findings := Validation.validateFilePaths mtime docFile content in
  NoDup paths
  /\ Forall (fun p => JsString.includes p ":" = false) paths
  /\ map Validation.message findings
     = map (fun p => "Referenced file does not exist: " ++ p)
           (filter (fun p => negb (Validation.existsSync mtime p)) paths)
  /\ Forall (fun f => Validation.ftype f = Validation.broken_reference
                      /\ Validation.severity f = Validation.error
                      /\ Validation.autoFixable f = false
                      /\ Validation.docFile f = docFile) findings.
Proof.
  intros paths findings. split; [|split; [|split]].
  - apply fold_add_NoDup. constructor.
  - apply Forall_forall. intros p H.
    apply fold_add_In in H as [[]|H].
    apply in_flat_map in H as [pattern [_ H]].
    apply in_map_iff in H as [m [<- _]].
    apply splitHead_no_separator.
  - apply validateFilePaths_messages.
  - apply Forall_forall. intros f H.
    apply in_flat_map in H as [p [_ H]].
    destruct (Validation.existsSync mtime p); [destruct H|].
    destruct H as [<-|[]]. now repeat split.
Qed.



(** *** The pointer generator *)

Lemma pointer_targets_are_sources readFile (references : list Reference)
  (sourceFiles : list string) (p : Pointer) :
  In p (matchReferencesToFiles readFile references sourceFiles) ->
  In (file p) sourceFiles.
Proof.
  unfold matchReferencesToFiles. intros H.
  apply in_flat_map in H as [ref [_ H]].
  unfold referencePointers in H. destruct (type ref).
  - apply in_map_iff in H as [f [<- H]]. now apply filter_In in H.
  - apply in_flat_map in H as [f [Hf H]].
    destruct (readFile f); [|destruct H].
    destruct (test _ _); [|destruct H]. now destruct H as [<-|[]].
  - apply in_flat_map in H as [f [Hf H]].
    destruct (readFile f); [|destruct H].
    destruct (test _ _); [|destruct H]. now destruct H as [<-|[]].
Qed.

Lemma groupPointers_good (sourceFiles : list string) (ps : list Pointer) :
  Forall (fun p => In (file p) sourceFiles) ps ->
  Forall (PointerMap.goodTarget sourceFiles) (groupPointers ps).
Proof.
  intros H. apply Forall_forall. intros [f rs] Hin.
  assert (Hk : In f (map fst (groupPointers ps)))
    by (apply in_map_iff; now exists (f, rs)).
  unfold groupPointers in Hk. rewrite fold_addPointer_keys in Hk.
  simpl in Hk. apply dedup_fresh in Hk as [Hk _].
  apply in_map_iff in Hk as [p [<- Hp]].
  rewrite Forall_forall in H. split; [now apply H|]. cbn [snd].
  assert (K : NoDup (map fst (groupPointers ps))).
  { unfold groupPointers. rewrite fold_addPointer_keys. apply dedup_NoDup. }
  assert (E : Js.assoc (file p) (groupPointers ps) = Some rs).
  { revert K Hin. generalize (groupPointers ps) as l.
    induction l as [|[k v] l IH]; simpl; [tauto|].
    intros K [[= -> ->]|Hin].
    - now rewrite String.eqb_refl.
    - inversion K as [|? ? Hn Hd]; subst.
      destruct (String.eqb_spec (file p) k) as [E|N].
      + exfalso. apply Hn. apply in_map_iff. exists (file p, rs).
        split; [exact E | exact Hin].
      + now apply IH. }
  unfold groupPointers in E. rewrite fold_addPointer_assoc in E. simpl in E.
  destruct (Spec.reasonsFor (file p) ps) as [|r rs'] eqn:R; [discriminate|].
  injection E as <-. unfold Spec.firstOccurrences. simpl. discriminate.
Qed.

Lemma groupPointers_nonempty (ps : list Pointer) :
  ps <> [] -> groupPointers ps <> [].
Proof.
  intros H E. apply (f_equal (map fst)) in E.
  unfold groupPointers in E. rewrite fold_addPointer_keys in E.
  destruct ps as [|p ps]; [contradiction|]. discriminate E.
Qed.

Lemma buildMappings_good readFile (readDoc : string -> string)
  (sourceFiles docFiles : list string) :
  Forall (PointerMap.goodEntry docFiles sourceFiles)
         (buildMappings readFile readDoc sourceFiles docFiles).
Proof.
  unfold buildMappings. set (step := fun mappings docFile => _).
  assert (G : forall (ds : list string) acc,
             (forall d, In d ds -> In d docFiles) ->
             Forall (PointerMap.goodEntry docFiles sourceFiles) acc ->
             Forall (PointerMap.goodEntry docFiles sourceFiles)
                    (fold_left step ds acc)).
  { induction ds as [|d ds IH]; intros acc Hds Hacc; simpl; [exact Hacc|].
    apply IH; [intros; apply Hds; now right|].
    unfold step.
    destruct (matchReferencesToFiles readFile
                (extractCodeReferences (readDoc d)) sourceFiles)
      as [|p ps] eqn:E; [exact Hacc|].
    apply Forall_forall. intros dm Hdm.
    apply in_assign in Hdm as [->|Hdm];
      [|rewrite Forall_forall in Hacc; now apply Hacc].
    split; [apply Hds; now left|]. cbn [fst snd]. split.
    - now apply groupPointers_nonempty.
    - apply groupPointers_good. apply Forall_forall. intros q Hq.
      rewrite <- E in Hq. now apply pointer_targets_are_sources in Hq. }
  apply G; [auto | constructor].
Qed.

(** X10. Every entry of the generated pointer map is well formed: its key
    is a markdown file of the documentation directory, it links at least one
    file, every linked file is one of the source files and has at least one
    reason.  When the source files are those of [findSourceFiles], every
    linked file ends with a source extension. *)
Theorem pointer_map_well_formed readFile (readDoc : string -> string)
  (dirEntries gitLines walked : list string) :
  let sourceFiles := findSourceFiles gitLines walked in
  let docFiles := filter isMarkdown dirEntries in
  let mappings := buildMappings readFile readDoc sourceFiles docFiles in
  Forall (PointerMap.goodEntry docFiles sourceFiles) mappings
  /\ Forall (fun f => hasSourceExtension f = true) sourceFiles
  /\ Forall (fun dm => endsWithMd (fst dm)
                       /\ Forall (fun fr => hasSourceExtension (fst fr) = true)
                                 (snd dm)) mappings.
Proof.
  intros sourceFiles docFiles mappings.
  assert (G := buildMappings_good readFile readDoc sourceFiles docFiles).
  fold mappings in G.
  assert (S : Forall (fun f => hasSourceExtension f = true) sourceFiles).
  { subst sourceFiles. unfold findSourceFiles.
    destruct (filter _ gitLines) as [|g gs] eqn:E.
    - apply Forall_forall. intros f Hf. now apply filter_In in Hf.
    - rewrite <- E. apply Forall_forall. intros f Hf.
      apply filter_In in Hf as [_ Hf]. now apply andb_true_iff in Hf. }
  split; [exact G|]. split; [exact S|].
  eapply Forall_impl; [|exact G].
  intros dm (Hd & _ & Ht). split.
  - subst docFiles. now apply filter_In in Hd.
  - eapply Forall_impl; [|exact Ht]. intros fr [Hf _].
    rewrite Forall_forall in S. now apply S.
Qed.

(** *** The git log *)

Lemma assign_NoDup {A : Type} (k : string) (v : A) (l : list (string * A)) :
  NoDup (map fst l) -> NoDup (map fst (Js.assign k v l)).
Proof.
  intros H. rewrite keys_assign. destruct (Js.mem k (map fst l)) eqn:E;
    [exact H|].
  apply mem_false in E.
  apply NoDup_app; [exact H | repeat constructor; tauto|].
  intros z Hz [<-|[]]. contradiction.
Qed.

Lemma logLine_keeps timestampOf (text : string)
  (acc : list (string * list CodeChanges.Commit) * option CodeChanges.Commit)
  (line : string) :
  In line (Tracker.splitOn newline text) ->
  NoDup (map fst (fst acc)) ->
  Forall (Tracker.goodChange timestampOf text) (fst acc) ->
  (forall c, snd acc = Some c -> Tracker.fromLog timestampOf text c) ->
  let acc' := Tracker.logLine timestampOf acc line in
  NoDup (map fst (fst acc'))
  /\ Forall (Tracker.goodChange timestampOf text) (fst acc')
  /\ (forall c, snd acc' = Some c -> Tracker.fromLog timestampOf text c).
Proof.
  intros Hline Hnd Hgood Hcur. destruct acc as [changes cur].
  cbn [fst snd] in *. unfold Tracker.logLine.
  destruct (JsString.includes line "|") eqn:I.
  - cbn [fst snd]. repeat split; trivial.
    intros c [= <-]. now exists line.
  - destruct (String.eqb_spec (JsString.trim line) "") as [E|N];
      cbn [negb]; [now repeat split|].
    destruct cur as [c|]; [|now repeat split].
    cbn [fst snd]. unfold Tracker.pushCommit.
    assert (Hc := Hcur c eq_refl).
    destruct (Js.assoc (JsString.trim line) changes) as [cs|] eqn:A.
    + split; [now apply assign_NoDup|]. split; [|exact Hcur].
      apply Forall_forall. intros fc Hfc.
      apply in_assign in Hfc as [->|Hfc];
        [|rewrite Forall_forall in Hgood; now apply Hgood].
      apply assoc_In in A. rewrite Forall_forall in Hgood.
      destruct (Hgood _ A) as (_ & _ & Hcs). cbn [fst snd] in *.
      split; [exact N|]. split; [now destruct cs|].
      apply Forall_app. split; [exact Hcs | now constructor].
    + split; [now apply assign_NoDup|]. split; [|exact Hcur].
      apply Forall_forall. intros fc Hfc.
      apply in_assign in Hfc as [->|Hfc];
        [|rewrite Forall_forall in Hgood; now apply Hgood].
      split; [exact N|]. split; [discriminate|]. now constructor.
Qed.

Lemma file_changes_well_formed_parts timestampOf (text : string) :
  NoDup (map fst (Tracker.getFileChanges timestampOf (Some text)))
  /\ Forall (Tracker.goodChange timestampOf text)
            (Tracker.getFileChanges timestampOf (Some text)).
Proof.
  unfold Tracker.getFileChanges.
  assert (G : forall lines acc,
             (forall l, In l lines -> In l (Tracker.splitOn newline text)) ->
             NoDup (map fst (fst acc)) ->
             Forall (Tracker.goodChange timestampOf text) (fst acc) ->
             (forall c, snd acc = Some c -> Tracker.fromLog timestampOf text c) ->
             let r := fold_left (Tracker.logLine timestampOf) lines acc in
             NoDup (map fst (fst r))
             /\ Forall (Tracker.goodChange timestampOf text) (fst r)).
  { induction lines as [|line lines IH]; intros acc Hl H1 H2 H3; simpl.
    - now split.
    - destruct (@logLine_keeps timestampOf text acc line) as (K1 & K2 & K3);
        auto; [apply Hl; now left|].
      apply IH; auto. intros l Hin. apply Hl. now right. }
  apply (G (Tracker.splitOn newline text) ([], None));
    cbn [fst snd]; auto; try constructor; try discriminate.
Qed.

(** X11. The change Map read from the git log is well formed: its file
    names are pairwise distinct and not empty, and every file has at least
    one commit, each parsed from a commit line of the log.  When the git
    command fails the Map is empty. *)
Theorem file_changes_well_formed timestampOf (text : string) :
  let changes := Tracker.getFileChanges timestampOf (Some text) in
  NoDup (map fst changes)
  /\ Forall (Tracker.goodChange timestampOf text) changes
  /\ Tracker.getFileChanges timestampOf None = [].
Proof.
  intros changes.
  destruct (file_changes_well_formed_parts timestampOf text) as [H1 H2].
  now repeat split.
Qed.

(** X12. For a file of the change Map the impact analysis has its commits:
    when git returns the diff, the impact is one of high, medium and low and
    the breaking-change flag is set or cleared; the tier unknown can only
    come from a failing diff command. *)
Theorem tracked_change_is_classified timestampOf gitDiff (text : string)
  (filePath : string) (commits : list CodeChanges.Commit) :
  In (filePath, commits) (Tracker.getFileChanges timestampOf (Some text)) ->
  (forall lastCommit firstCommit,
     gitDiff lastCommit firstCommit filePath <> None) ->
  let a := CodeChanges.analyzeChangeImpact gitDiff filePath commits in
  CodeChanges.impact a <> CodeChanges.unknown
  /\ CodeChanges.hasBreakingChange a <> None.
Proof.
  intros Hin Hdiff a. subst a.
  destruct (file_changes_well_formed_parts timestampOf text) as [_ G].
  rewrite Forall_forall in G. destruct (G _ Hin) as (_ & Hne & _).
  cbn [snd] in Hne. destruct commits as [|c0 rest]; [contradiction|].
  unfold CodeChanges.analyzeChangeImpact.
  destruct (gitDiff _ _ filePath) as [diff|] eqn:E;
    [|exfalso; eapply Hdiff; exact E].
  cbn [CodeChanges.impact CodeChanges.hasBreakingChange].
  split; [|discriminate].
  destruct (test CodeChanges.breakingPattern diff); [discriminate|].
  destruct (100 <? _); [discriminate|].
  destruct (20 <? _); discriminate.
Qed.

Lemma tracked_change_is_classified_witness :
  let text := "abc1234|1700000000|fix parser" ++ lf ++ "src/foo.ts" ++ lf in
  let gitDiff := fun (_ _ _ : string) => Some ("+const a = 1;" ++ lf) in
  let commits := [CodeChanges.mkCommit "abc1234" 0 "fix parser"] in
  CodeChanges.impact
    (CodeChanges.analyzeChangeImpact gitDiff "src/foo.ts" commits)
  <> CodeChanges.unknown.
Proof.
  intros text gitDiff commits.
  apply (@tracked_change_is_classified (fun _ => 0) gitDiff text
           "src/foo.ts" commits).
  - vm_compute. left. reflexivity.
  - intros a b. discriminate.
Defined.

(** *** The DOC_STATE updates of the tracker *)

Lemma keptOrMarked_refl (files : Tracker.DocStateFiles) :
  Forall2 Tracker.keptOrMarked files files.
Proof.
  induction files; constructor; [|assumption]. split; [reflexivity | now left].
Qed.

Lemma marked_trans (a b c : DocState.DocEntry) :
  Tracker.marked a b -> Tracker.marked b c -> Tracker.marked a c.
Proof.
  unfold Tracker.marked. intros (_ & _ & _ & R1 & U1 & L1) (S & V & C & R2 & U2 & L2).
  repeat split; congruence.
Qed.

Lemma keptOrMarked_trans (l1 l2 l3 : Tracker.DocStateFiles) :
  Forall2 Tracker.keptOrMarked l1 l2 -> Forall2 Tracker.keptOrMarked l2 l3 ->
  Forall2 Tracker.keptOrMarked l1 l3.
Proof.
  intros H. revert l3. induction H as [|a b l1 l2 Hab H12 IH]; intros l3 H23.
  - inversion H23. constructor.
  - inversion H23 as [|b' c l2' l3' Hbc H23']; subst.
    constructor; [|now apply IH].
    destruct Hab as [K1 [E1|M1]], Hbc as [K2 [E2|M2]];
      (split; [congruence|]).
    + left. congruence.
    + right. now rewrite <- E1.
    + right. now rewrite E2.
    + right. eapply marked_trans; eassumption.
Qed.

Lemma markEntry_marked (time : Z) (e : DocState.DocEntry) :
  Tracker.marked e (Tracker.markEntry time e).
Proof. unfold Tracker.marked. repeat split. discriminate. Qed.

Lemma markDoc_keptOrMarked (docPath : string) (time : Z)
  (files : Tracker.DocStateFiles) :
  Forall2 Tracker.keptOrMarked files (Tracker.markDoc docPath time files).
Proof.
  unfold Tracker.markDoc.
  induction files as [|[k e] files IH]; [constructor|].
  cbn [Js.assoc].
  destruct (String.eqb_spec docPath k) as [E|N].
  - cbn [Js.assign]. rewrite (proj2 (String.eqb_eq docPath k) E).
    constructor; [|apply keptOrMarked_refl].
    split; [cbn [fst]; congruence|]. right. apply markEntry_marked.
  - destruct (Js.assoc docPath files) as [e'|] eqn:A.
    + cbn [Js.assign]. rewrite (proj2 (String.eqb_neq docPath k) N).
      constructor; [split; [reflexivity | now left] | exact IH].
    + apply keptOrMarked_refl.
Qed.

Lemma fold_keptOrMarked {B : Type}
  (step : Tracker.DocStateFiles -> B -> Tracker.DocStateFiles) (l : list B) :
  (forall files b, Forall2 Tracker.keptOrMarked files (step files b)) ->
  forall files, Forall2 Tracker.keptOrMarked files (fold_left step l files).
Proof.
  intros H. induction l as [|b l IH]; intros files; simpl.
  - apply keptOrMarked_refl.
  - eapply keptOrMarked_trans; [apply H | apply IH].
Qed.

Lemma checkCodeFile_keeps mtime (docPath : string)
  (acc : Tracker.DocStateFiles * Z) (codeFile : string) :
  let acc' := Tracker.checkCodeFile mtime docPath acc codeFile in
  Forall2 Tracker.keptOrMarked (fst acc) (fst acc')
  /\ snd acc <= snd acc'
  /\ (snd acc' = snd acc -> fst acc' = fst acc).
Proof.
  unfold Tracker.checkCodeFile.
  destruct (mtime codeFile); [|split; [apply keptOrMarked_refl | split; [lia | auto]]].
  destruct (mtime docPath); [|split; [apply keptOrMarked_refl | split; [lia | auto]]].
  destruct (_ <? _); [|split; [apply keptOrMarked_refl | split; [lia | auto]]].
  destruct (Js.assoc docPath (fst acc));
    [|split; [apply keptOrMarked_refl | split; [lia | auto]]].
  cbn [fst snd]. split; [apply markDoc_keptOrMarked|]. split; lia.
Qed.

Lemma trackViaFileTimes_keeps mtime (entries : list (string * json)) :
  forall (start acc : Tracker.DocStateFiles * Z),
    Forall2 Tracker.keptOrMarked (fst start) (fst acc) ->
    snd start <= snd acc ->
    (snd acc = snd start -> fst acc = fst start) ->
    let r := fold_left (fun acc kv =>
               match Js.files (snd kv) with
               | Some codeFiles =>
                   fold_left (Tracker.checkCodeFile mtime
                     ("context_for_llms/" ++ JsString.splitHead "#" (fst kv)))
                     codeFiles acc
               | None => acc
               end) entries acc in
    Forall2 Tracker.keptOrMarked (fst start) (fst r)
    /\ snd start <= snd r
    /\ (snd r = snd start -> fst r = fst start).
Proof.
  assert (Inner : forall docPath codeFiles (start acc : Tracker.DocStateFiles * Z),
    Forall2 Tracker.keptOrMarked (fst start) (fst acc) ->
    snd start <= snd acc ->
    (snd acc = snd start -> fst acc = fst start) ->
    let r := fold_left (Tracker.checkCodeFile mtime docPath) codeFiles acc in
    Forall2 Tracker.keptOrMarked (fst start) (fst r)
    /\ snd start <= snd r
    /\ (snd r = snd start -> fst r = fst start)).
  { intros docPath. induction codeFiles as [|c cs IH];
      intros start acc H1 H2 H3; simpl; [auto|].
    destruct (checkCodeFile_keeps mtime docPath acc c) as (K1 & K2 & K3).
    apply IH.
    - eapply keptOrMarked_trans; eassumption.
    - lia.
    - intros E. rewrite K3 by lia. apply H3. lia. }
  induction entries as [|kv entries IH]; intros start acc H1 H2 H3; simpl;
    [auto|].
  destruct (Js.files (snd kv)) as [codeFiles|]; [|now apply IH].
  destruct (Inner ("context_for_llms/" ++ JsString.splitHead "#" (fst kv))
              codeFiles start acc H1 H2 H3) as (K1 & K2 & K3).
  now apply IH.
Qed.

(** X13. Tracking never adds or removes a document of DOC_STATE and never
    touches the risk tier, the modification time or the links of an entry:
    after [trackCodeChanges] as after the fallback [trackViaFileTimes] every
    entry is either as it was or marked (status stale, validation needed, a
    code-change time set).  The fallback counts its marks, and a count of
    zero means that the state is unchanged. *)
Theorem tracking_only_marks_entries mtime (codePointers : json)
  (changes : list (string * list CodeChanges.Commit))
  (files : Tracker.DocStateFiles) :
  Forall2 Tracker.keptOrMarked files
          (Tracker.updateDocState codePointers changes files)
  /\ Forall2 Tracker.keptOrMarked files
             (fst (Tracker.trackViaFileTimes mtime codePointers files))
  /\ 0 <= snd (Tracker.trackViaFileTimes mtime codePointers files)
  /\ (snd (Tracker.trackViaFileTimes mtime codePointers files) = 0
      <-> fst (Tracker.trackViaFileTimes mtime codePointers files) = files
          /\ snd (Tracker.trackViaFileTimes mtime codePointers files) = 0).
Proof.
  split.
  - unfold Tracker.updateDocState. apply fold_keptOrMarked.
    intros fs fc. apply fold_keptOrMarked. intros fs' d.
    apply markDoc_keptOrMarked.
  - unfold Tracker.trackViaFileTimes.
    destruct (@trackViaFileTimes_keeps mtime (Js.entries codePointers)
                (files, 0) (files, 0)) as (K1 & K2 & K3);
      cbn [fst snd]; auto; [apply keptOrMarked_refl | lia|].
    cbn [fst snd] in *. split; [exact K1|]. split; [exact K2|].
    split; [intros E; split; auto | tauto].
Qed.

(** *** The other readers of the generated pointer file *)

Lemma scanPointers_no_files mt (codePointers : json) (fileName : string) :
  Forall Js.noFiles (Js.entries codePointers) ->
  DocState.scanPointers mt codePointers fileName = ([], None).
Proof.
  intros H. unfold DocState.scanPointers.
  apply fold_left_unchanged with (P := Js.noFiles); [|exact H].
  intros a kv Hkv. rewrite Hkv. now destruct (JsString.startsWith _ _).
Qed.

Lemma checkEntries_no_files mtime dateParse numberToString
  (entries : list (string * json)) :
  Forall (fun kv => snd kv <> JNull /\ Js.prop (snd kv) "files" = None)
         entries ->
  Validation.checkEntries mtime dateParse numberToString entries = Some [].
Proof.
  induction 1 as [|[key value] l [Hn Hp] Hl IH]; [reflexivity|].
  cbn [Validation.checkEntries]. rewrite IH. cbn [snd] in Hn, Hp.
  unfold Validation.checkEntry. rewrite Hp.
  destruct value; try reflexivity. contradiction.
Qed.

(** X14. The generated pointer file feeds none of its other readers
    either: for every document the staleness estimator finds no linked file
    and answers risk none and status current, the validator gets no pointer
    finding from it, and the tracker, in git mode as in the fallback mode,
    leaves DOC_STATE as it is. *)
Theorem generated_pointers_feed_no_reader readFile (now : string)
  (dirEntries : list string) (readDoc : string -> string)
  (sourceFiles : list string) mtime dateParse numberToString :
  let codePointers :=
    generateCodePointers readFile now dirEntries readDoc sourceFiles in
  (forall fileName docTime,
     let e := DocState.analyzeDoc mtime codePointers fileName docTime in
     DocState.linkedFiles e = []
     /\ DocState.staleRisk e = DocState.none
     /\ DocState.status e = DocState.current)
  /\ Validation.validateViaCodePointers mtime dateParse numberToString
       codePointers = Some []
  /\ (forall changes files,
        Tracker.updateDocState codePointers changes files = files
        /\ Tracker.trackViaFileTimes mtime codePointers files = (files, 0)).
Proof.
  intros codePointers.
  assert (N : Forall Js.noFiles (Js.entries codePointers)).
  { eapply Forall_impl;
      [|apply (generated_entries_have_no_files readFile now dirEntries readDoc
                 sourceFiles)].
    intros kv. apply files_of_no_prop. }
  split; [|split].
  - intros fileName docTime e. subst e. unfold DocState.analyzeDoc.
    rewrite scanPointers_no_files by exact N. now repeat split.
  - unfold Validation.validateViaCodePointers.
    change (Js.ownEntries codePointers) with (Some (Js.entries codePointers)).
    apply checkEntries_no_files.
    pose proof (generated_entries_have_no_files readFile now dirEntries
                  readDoc sourceFiles) as G.
    fold codePointers in G. unfold codePointers, generateCodePointers in *.
    cbn [Js.entries] in *.
    repeat match goal with
           | H : Forall _ (_ :: _) |- _ =>
               let a := fresh "P" in
               let b := fresh "F" in
               apply Forall_cons_iff in H as [a b]
           end.
    repeat constructor; cbn [snd]; try discriminate; assumption.
  - intros changes files. split.
    + unfold Tracker.updateDocState.
      apply fold_left_unchanged with (P := fun _ => True);
        [|apply Forall_forall; auto].
      intros fs fc _. now rewrite affectedDocsOf_empty.
    + unfold Tracker.trackViaFileTimes.
      apply fold_left_unchanged with (P := Js.noFiles); [|exact N].
      intros a kv Hkv. now rewrite Hkv.
Qed.

(** *** Completeness, metrics and priorities of the document state *)

(** The score as a function of the four tests. *)
Lemma completeness_cases (content : string) :
  let a := DocReport.analyzeMarkdownFile content in
  DocReport.completeness a
  = DocReport.min (JsNumber.ofZ 1)
      (let c := JsNumber.ofZ 0 in
       let c := if 0 <? DocReport.sectionCount a
                then DocReport.add c (DocReport.tenths 3) else c in
       let c := if 200 <? DocReport.wordCount a
                then DocReport.add c (DocReport.tenths 3) else c in
       let c := if 0 <? DocReport.codeFences a
                then DocReport.add c (DocReport.tenths 2) else c in
       if 500 <? DocReport.wordCount a
       then DocReport.add c (DocReport.tenths 2) else c).
Proof. reflexivity. Qed.

(** X15. A document counts as complete (score at least 0.7) exactly when it
    has more than 200 words and two of: a heading, a code fence, more than
    500 words.  It is rated poor (score below 0.4, impact high) exactly when
    it has at most 500 words, not both a heading and more than 200 words,
    and no code fence together with a heading or with more than 200 words.
    The score never exceeds 1.  (Both thresholds are met with equality in
    binary64: 0.3 + 0.2 + 0.2 is the number 0.7.) *)
Theorem completeness_criterion (content : string) :
  let a := DocReport.analyzeMarkdownFile content in
  let s := 0 <? DocReport.sectionCount a in
  let w := 200 <? DocReport.wordCount a in
  let c := 0 <? DocReport.codeFences a in
  let v := 500 <? DocReport.wordCount a in
  DocReport.isComplete a = w && ((s && (c || v)) || (c && v))
  /\ DocReport.isPoor a = negb ((s && w) || (c && (s || w)) || v)
  /\ JsNumber.leb (DocReport.completeness a) (JsNumber.ofZ 1) = true.
Proof.
  intros a s w c v. subst s w c v.
  unfold DocReport.isComplete, DocReport.isPoor.
  pose proof (completeness_cases content) as E. cbv zeta in E.
  fold a in E. rewrite E. clear E.
  destruct (0 <? DocReport.sectionCount a);
  destruct (Z.ltb_spec 200 (DocReport.wordCount a));
  destruct (0 <? DocReport.codeFences a);
  destruct (Z.ltb_spec 500 (DocReport.wordCount a));
  try lia; vm_compute; repeat split.
Qed.

Lemma insertWith_ext_in {A : Type} (cmp cmp' : A -> A -> Z) (x : A)
  (l : list A) :
  (forall b, In b l -> cmp x b = cmp' x b) ->
  Js.insertWith cmp x l = Js.insertWith cmp' x l.
Proof.
  induction l as [|y l IH]; intros H; simpl; [reflexivity|].
  rewrite (H y (or_introl eq_refl)), IH; [reflexivity|].
  intros b Hb. apply H. now right.
Qed.

Lemma sortWith_ext_in {A : Type} (cmp cmp' : A -> A -> Z) (l : list A) :
  (forall a b, In a l -> In b l -> cmp a b = cmp' a b) ->
  Js.sortWith cmp l = Js.sortWith cmp' l.
Proof.
  induction l as [|x l IH]; intros H; [reflexivity|].
  unfold Js.sortWith in *. simpl. rewrite IH.
  - apply insertWith_ext_in. intros b Hb. apply H; [now left|].
    right. eapply Permutation_in; [apply sortWith_perm | exact Hb].
  - intros a b Ha Hb. apply H; now right.
Qed.

Lemma docPriorities_labelled isoString (relativePath : string)
  (e : DocState.DocEntry) (a : DocReport.Analysis) :
  Forall (fun p => DocReport.wellLabelled p /\ DocReport.p_file p = relativePath)
         (DocReport.docPriorities isoString relativePath e a).
Proof.
  unfold DocReport.docPriorities. apply Forall_app. split.
  - destruct (negb _); [|constructor]. constructor; [|constructor].
    split; [|reflexivity]. unfold DocReport.wellLabelled. simpl.
    destruct (DocReport.isPoor a); auto.
  - destruct (DocState.staleRisk e) eqn:R; try (constructor; fail);
      (constructor; [|constructor]); (split; [|reflexivity]);
      unfold DocReport.wellLabelled; simpl; auto.
Qed.

Lemma visitDoc_step getFileModTime readDoc isoString (codePointers : json)
  (st : DocReport.State) (f : string) :
  let st' := DocReport.visitDoc getFileModTime readDoc isoString codePointers
               st f in
  let a := DocReport.analyzeMarkdownFile (readDoc f) in
  let e := DocState.analyzeDoc getFileModTime codePointers f
             (getFileModTime ("context_for_llms/" ++ f)) in
  DocReport.total_docs (DocReport.metrics st')
  = DocReport.total_docs (DocReport.metrics st)
  /\ DocReport.complete_docs (DocReport.metrics st')
     = DocReport.complete_docs (DocReport.metrics st)
       + (if DocReport.isComplete a then 1 else 0)
  /\ DocReport.incomplete_docs (DocReport.metrics st')
     = DocReport.incomplete_docs (DocReport.metrics st)
       + (if DocReport.isComplete a then 0 else 1)
  /\ DocReport.stale_docs (DocReport.metrics st')
     = DocReport.stale_docs (DocReport.metrics st)
       + (if DocState.isStale (DocState.status e) then 1 else 0)
  /\ DocReport.priorities st'
     = (DocReport.priorities st
        ++ DocReport.docPriorities isoString ("context_for_llms/" ++ f) e a)%list.
Proof.
  intros st' a e. subst st'. unfold DocReport.visitDoc.
  fold a. fold e. cbn [DocReport.metrics DocReport.priorities].
  destruct (DocReport.isComplete a);
  destruct (DocState.isStale (DocState.status e));
  cbn [DocReport.total_docs DocReport.complete_docs
       DocReport.incomplete_docs DocReport.stale_docs];
  repeat split; lia.
Qed.

Lemma fold_visitDoc getFileModTime readDoc isoString (codePointers : json)
  (docs : list string) :
  forall st : DocReport.State,
    let r := fold_left (DocReport.visitDoc getFileModTime readDoc isoString
                          codePointers) docs st in
    let analysisOf := fun f => DocReport.analyzeMarkdownFile (readDoc f) in
    let entryOf := fun f =>
      DocState.analyzeDoc getFileModTime codePointers f
        (getFileModTime ("context_for_llms/" ++ f)) in
    DocReport.total_docs (DocReport.metrics r)
    = DocReport.total_docs (DocReport.metrics st)
    /\ DocReport.complete_docs (DocReport.metrics r)
       = DocReport.complete_docs (DocReport.metrics st)
         + Z.of_nat (List.length
             (filter (fun f => DocReport.isComplete (analysisOf f)) docs))
    /\ DocReport.incomplete_docs (DocReport.metrics r)
       = DocReport.incomplete_docs (DocReport.metrics st)
         + Z.of_nat (List.length
             (filter (fun f => negb (DocReport.isComplete (analysisOf f))) docs))
    /\ DocReport.stale_docs (DocReport.metrics r)
       = DocReport.stale_docs (DocReport.metrics st)
         + Z.of_nat (List.length
             (filter (fun f => DocState.isStale (DocState.status (entryOf f)))
                     docs))
    /\ DocReport.priorities r
       = (DocReport.priorities st
          ++ flat_map (fun f =>
               DocReport.docPriorities isoString
                 ("context_for_llms/" ++ f) (entryOf f) (analysisOf f)) docs)%list.
Proof.
  induction docs as [|f docs IH]; intros st.
  - cbn [fold_left filter flat_map List.length].
    rewrite !Z.add_0_r, app_nil_r. now repeat split.
  - cbn [fold_left filter flat_map].
    destruct (IH (DocReport.visitDoc getFileModTime readDoc isoString
                    codePointers st f)) as (T & C & I & S & P).
    destruct (visitDoc_step getFileModTime readDoc isoString codePointers st f)
      as (T' & C' & I' & S' & P').
    cbv zeta in *. rewrite T, C, I, S, P, T', C', I', S', P'.
    clear T C I S P T' C' I' S' P' IH.
    destruct (DocReport.isComplete
                (DocReport.analyzeMarkdownFile (readDoc f)));
    destruct (DocState.isStale (DocState.status
                (DocState.analyzeDoc getFileModTime codePointers f
                   (getFileModTime ("context_for_llms/" ++ f)))));
    cbn [negb List.length]; rewrite <- ?app_assoc; repeat split; lia.
Qed.

Lemma filter_length_le_all {A : Type} (p : A -> bool) (l : list A) :
  (List.length (filter p l) <= List.length l)%nat.
Proof.
  induction l as [|x l IH]; simpl; [lia|]. destruct (p x); simpl; lia.
Qed.

Lemma compareImpact_rank (a b : DocReport.Priority) :
  DocReport.wellLabelled a -> DocReport.wellLabelled b ->
  DocReport.compareImpact a b = DocReport.rankOf a - DocReport.rankOf b.
Proof.
  unfold DocReport.wellLabelled, DocReport.compareImpact, DocReport.rankOf.
  destruct (DocReport.action a), (DocReport.action b);
    intros [-> | ->] [-> | ->]; reflexivity.
Qed.

(** X16. The metrics and the priorities of the document state: every
    markdown file of the directory is counted once, as complete or as
    incomplete; the stale count is the number of documents whose status is
    stale and cannot exceed the total; the priority list is ordered critical,
    high, medium, every entry of it names a document of the directory, an
    enhance entry has impact high or medium and an update entry critical or
    high. *)
Theorem doc_state_metrics getFileModTime readDoc isoString
  (codePointers : json) (dirEntries : list string) :
  let st := DocReport.analyzeDocState getFileModTime readDoc isoString
              codePointers dirEntries in
  let m := DocReport.metrics st in
  let docs := filter isMarkdown dirEntries in
  DocReport.total_docs m = Z.of_nat (List.length docs)
  /\ DocReport.complete_docs m + DocReport.incomplete_docs m
     = DocReport.total_docs m
  /\ DocReport.stale_docs m
     = Z.of_nat (List.length (filter (fun f =>
         DocState.isStale (DocState.status
           (DocState.analyzeDoc getFileModTime codePointers f
              (getFileModTime ("context_for_llms/" ++ f))))) docs))
  /\ DocReport.stale_docs m <= DocReport.total_docs m
  /\ StronglySorted DocReport.byRank (DocReport.priorities st)
  /\ Forall (fun p => DocReport.wellLabelled p
                      /\ In (DocReport.p_file p)
                            (map (fun f => "context_for_llms/" ++ f) docs))
            (DocReport.priorities st).
Proof.
  intros st m docs. subst m st. unfold DocReport.analyzeDocState. fold docs.
  cbn [DocReport.metrics DocReport.priorities].
  destruct (fold_visitDoc getFileModTime readDoc isoString codePointers docs
              (DocReport.mkState []
                 (DocReport.mkMetrics (Z.of_nat (List.length docs)) 0 0 0) []))
    as (T & C & I & S & P).
  cbv zeta in T, C, I, S, P.
  cbn [DocReport.metrics DocReport.priorities DocReport.total_docs
       DocReport.complete_docs DocReport.incomplete_docs DocReport.stale_docs
       app] in T, C, I, S, P.
  rewrite T, C, I, S, P. clear T C I S P.
  set (ps := flat_map _ docs).
  assert (L : Forall (fun p => DocReport.wellLabelled p
                               /\ In (DocReport.p_file p)
                                     (map (fun f => "context_for_llms/" ++ f) docs))
                     ps).
  { subst ps. apply Forall_forall. intros p Hp.
    apply in_flat_map in Hp as [f [Hf Hp]].
    pose proof (docPriorities_labelled isoString ("context_for_llms/" ++ f)
                  (DocState.analyzeDoc getFileModTime codePointers f
                     (getFileModTime ("context_for_llms/" ++ f)))
                  (DocReport.analyzeMarkdownFile (readDoc f))) as G.
    rewrite Forall_forall in G. destruct (G p Hp) as [G1 G2].
    split; [exact G1|]. rewrite G2. apply in_map_iff.
    exists f. split; [reflexivity | exact Hf]. }
  pose proof (filter_split_length
                (fun f => DocReport.isComplete
                            (DocReport.analyzeMarkdownFile (readDoc f))) docs)
    as Hsplit.
  split; [reflexivity|]. split; [lia|]. split; [lia|]. split.
  { rewrite Z.add_0_l. apply inj_le. apply filter_length_le_all. }
  assert (E : Js.sortWith DocReport.compareImpact ps
              = Js.sortWith (fun a b => DocReport.rankOf a - DocReport.rankOf b)
                            ps).
  { apply sortWith_ext_in. intros a b Ha Hb. rewrite Forall_forall in L.
    apply compareImpact_rank; now apply L. }
  rewrite E. split.
  - eapply StronglySorted_impl_in; [|apply sortWith_sorted].
    + intros a b _ _ H. unfold Order.before in H. unfold DocReport.byRank. lia.
    + intros a b. lia.
    + intros a b c. lia.
  - eapply Permutation_Forall; [symmetry; apply sortWith_perm | exact L].
Qed.

(** *** Every result of the matcher is a match *)

Lemma run_sound (r : regex) :
  forall (st : state) (k : state -> option state) (e : state),
    run r st k = Some e ->
    exists st1, RegexSem.Matches r st st1 /\ k st1 = Some e.
Proof.
  induction r as [p| |a IHa b IHb|a IHa b IHb|g a IHa|n a IHa| |];
    intros st k e H.
  - cbn [run] in H. destruct (rest st) as [|c t] eqn:R; [discriminate|].
    destruct (p c) eqn:P; [|discriminate].
    exists (Regex.mkState (Some c) t (S (pos st)) (caps st)).
    split; [apply RegexSem.MChr; assumption | exact H].
  - exists st. split; [constructor | exact H].
  - cbn [run] in H. apply IHa in H as (st1 & M1 & H).
    apply IHb in H as (st2 & M2 & H).
    exists st2. split; [econstructor; eassumption | exact H].
  - cbn [run] in H. destruct (run a st k) as [e'|] eqn:E.
    + injection H as ->. apply IHa in E as (st1 & M & E).
      exists st1. split; [now apply RegexSem.MAltL | exact E].
    + apply IHb in H as (st1 & M & H).
      exists st1. split; [now apply RegexSem.MAltR | exact H].
  - pose (iter :=
      fix iter (n : nat) (st0 : state) {struct n} : option state :=
        match n with
        | O => k st0
        | S n' =>
            let again (_ : unit) :=
              run a st0 (fun st1 => if (pos st0 <? pos st1)%nat
                                    then iter n' st1 else None) in
            if g then
              match again tt with
              | Some e => Some e
              | None => k st0
              end
            else
              match k st0 with
              | Some e => Some e
              | None => again tt
              end
        end).
    change (run (Star g a) st k)
      with (iter (S (List.length (rest st))) st) in H.
    revert H. generalize (S (List.length (rest st))) as n. intros n.
    revert st e. induction n as [|n IHn]; intros st e H.
    + exists st. split; [constructor | exact H].
    + assert (Again : forall e',
        run a st (fun st1 => if (pos st <? pos st1)%nat
                             then iter n st1 else None) = Some e' ->
        exists st2, RegexSem.Matches (Star g a) st st2 /\ k st2 = Some e').
      { intros e' E. apply IHa in E as (st1 & M1 & E).
        destruct (Nat.ltb_spec (pos st) (pos st1)) as [L|]; [|discriminate].
        apply IHn in E as (st2 & M2 & E).
        exists st2. split; [econstructor; eassumption | exact E]. }
      change (iter (S n) st)
        with (if g then
                match run a st (fun st1 => if (pos st <? pos st1)%nat
                                           then iter n st1 else None) with
                | Some e => Some e
                | None => k st
                end
              else
                match k st with
                | Some e => Some e
                | None => run a st (fun st1 => if (pos st <? pos st1)%nat
                                               then iter n st1 else None)
                end) in H.
      destruct g.
      * destruct (run a st _) as [e'|] eqn:E.
        -- injection H as ->. now apply Again.
        -- exists st. split; [constructor | exact H].
      * destruct (k st) as [e'|] eqn:K.
        -- injection H as ->. exists st. split; [constructor | exact K].
        -- now apply Again.
  - cbn [run] in H. apply IHa in H as (st1 & M & H).
    eexists. split; [apply RegexSem.MGroup; exact M | exact H].
  - cbn [run] in H.
    destruct (xorb _ _) eqn:X; [|discriminate].
    exists st. split; [now constructor | exact H].
  - cbn [run] in H. exists st. destruct (prev st) as [c|] eqn:P.
    + destruct (isLineTerminator c) eqn:L; [|discriminate].
      split; [constructor; now rewrite P | exact H].
    + split; [constructor; now rewrite P | exact H].
Qed.

Lemma matches_consumes (r : regex) (st st1 : state) :
  RegexSem.Matches r st st1 -> exists w, RegexSem.consumes st st1 w.
Proof.
  unfold RegexSem.consumes.
  induction 1 as [p st c t R P|st|a b st st1 st2 M1 IH1 M2 IH2
                 |a b st st1 M IH|a b st st1 M IH|g a st
                 |g a st st1 st2 M1 IH1 L M2 IH2|n a st st1 M IH|st X|st X].
  - exists [c]. simpl. split; [exact R | lia].
  - exists []. simpl. split; [reflexivity | lia].
  - destruct IH1 as (w1 & R1 & P1), IH2 as (w2 & R2 & P2).
    exists (w1 ++ w2)%list. rewrite <- app_assoc, <- R2, length_app.
    split; [exact R1 | lia].
  - exact IH.
  - exact IH.
  - exists []. simpl. split; [reflexivity | lia].
  - destruct IH1 as (w1 & R1 & P1), IH2 as (w2 & R2 & P2).
    exists (w1 ++ w2)%list. rewrite <- app_assoc, <- R2, length_app.
    split; [exact R1 | lia].
  - exact IH.
  - exists []. simpl. split; [reflexivity | lia].
  - exists []. simpl. split; [reflexivity | lia].
Qed.

Lemma consumes_firstn (st st1 : state) (w : list ascii) :
  RegexSem.consumes st st1 w -> firstn (pos st1 - pos st) (rest st) = w.
Proof.
  intros [R P]. rewrite R, P.
  replace (pos st + List.length w - pos st)%nat with (List.length w + 0)%nat
    by lia.
  rewrite firstn_app_2. simpl. apply app_nil_r.
Qed.

Lemma matches_star_chr (g : bool) (p : ascii -> bool) (st st1 : state) :
  RegexSem.Matches (Star g (Chr p)) st st1 ->
  exists w, RegexSem.consumes st st1 w
            /\ Forall (fun c => p c = true) w
            /\ caps st1 = caps st.
Proof.
  intros H. remember (Star g (Chr p)) as r eqn:E.
  induction H as [| | | | |g' a st|g' a st st1 st2 M1 _ L M2 IH| | |];
    try discriminate.
  - exists []. unfold RegexSem.consumes. simpl. repeat split; auto.
  - injection E as -> ->. specialize (IH eq_refl).
    destruct IH as (w & [R P] & F & C).
    inversion M1 as [p' st' c t Rc Pc| | | | | | | | |]; subst.
    exists (c :: w). unfold RegexSem.consumes in *. simpl in *.
    repeat split.
    + now rewrite Rc, R.
    + lia.
    + now constructor.
    + exact C.
Qed.

Lemma matches_plus_chr (p : ascii -> bool) (st st1 : state) :
  RegexSem.Matches (plus (Chr p)) st st1 ->
  exists w, RegexSem.consumes st st1 w
            /\ Forall (fun c => p c = true) w
            /\ w <> []
            /\ caps st1 = caps st.
Proof.
  unfold plus. intros H.
  inversion H as [| |a b st' m st1' M1 M2| | | | | | |]; subst.
  inversion M1 as [p' st' c t Rc Pc| | | | | | | | |]; subst.
  apply matches_star_chr in M2 as (w & [R P] & F & C).
  exists (c :: w). unfold RegexSem.consumes. simpl in *. repeat split.
  - now rewrite Rc, R.
  - lia.
  - now constructor.
  - discriminate.
  - exact C.
Qed.

(** A group around a repeated character class captures what it consumed. *)
Lemma matches_group_plus (n : nat) (p : ascii -> bool) (st e : state) :
  RegexSem.Matches (Group n (plus (Chr p))) st e ->
  exists w, caps e = (n, w) :: caps st
            /\ Forall (fun c => p c = true) w
            /\ w <> [].
Proof.
  intros H. inversion H as [| | | | | | |n' a st' st1 M| |]; subst.
  apply matches_plus_chr in M as (w & Cw & F & N & C).
  exists w. simpl. rewrite (consumes_firstn Cw), C. now repeat split.
Qed.

Lemma search_result (r : regex) (s : list ascii) :
  forall (p : option ascii) (i : nat) (st e : state),
    search r p s i = Some (st, e) ->
    run r st Some = Some e /\ caps st = [].
Proof.
  induction s as [|c s IH]; intros p i st e H; cbn [search] in H.
  - destruct (run r _ Some) as [e'|] eqn:E; [|discriminate].
    injection H as <- <-. now split.
  - destruct (run r _ Some) as [e'|] eqn:E.
    + injection H as <- <-. now split.
    + now apply IH in H.
Qed.

Lemma execLoop_results (r : regex) (fuel : nat) :
  forall (p : option ascii) (s : list ascii) (i : nat) (m : result),
    In m (execLoop fuel r p s i) ->
    exists st e, run r st Some = Some e /\ caps st = []
                 /\ m = resultOf (st, e).
Proof.
  induction fuel as [|fuel IH]; intros p s i m H; cbn [execLoop] in H;
    [destruct H|].
  destruct (search r p s i) as [[st e]|] eqn:S; [|destruct H].
  destruct H as [<-|H].
  - apply search_result in S as [S1 S2]. now exists st, e.
  - destruct (_ <? _)%nat; [|destruct H]. now apply IH in H.
Qed.

(** Every result of a global search is a match of the pattern. *)
Lemma execAll_matches (r : regex) (s : string) (m : result) :
  In m (execAll r s) ->
  exists st e, RegexSem.Matches r st e /\ caps st = [] /\ groups m = caps e.
Proof.
  intros H. apply execLoop_results in H as (st & e & R & C & ->).
  apply run_sound in R as (st1 & M & [= <-]).
  exists st, st1. now repeat split.
Qed.

Lemma matches_seq_inv (a b : regex) (st e : state) :
  RegexSem.Matches (Seq a b) st e ->
  exists m, RegexSem.Matches a st m /\ RegexSem.Matches b m e.
Proof.
  intros H. inversion H as [| |a' b' st' m e' M1 M2| | | | | | |]; subst.
  now exists m.
Qed.

Lemma matches_chr_caps (p : ascii -> bool) (st e : state) :
  RegexSem.Matches (Chr p) st e -> caps e = caps st.
Proof.
  intros H. inversion H as [p' st' c t Rc Pc| | | | | | | | |]; subst.
  reflexivity.
Qed.

Lemma lookup_head (n : nat) (w : list ascii) (l : list (nat * list ascii)) :
  Regex.lookup n ((n, w) :: l) = Some (string_of_list_ascii w).
Proof. simpl. now rewrite Nat.eqb_refl. Qed.

Lemma consumes_trans (st m e : state) (w1 w2 : list ascii) :
  RegexSem.consumes st m w1 -> RegexSem.consumes m e w2 ->
  RegexSem.consumes st e (w1 ++ w2).
Proof.
  unfold RegexSem.consumes. intros [R1 P1] [R2 P2].
  rewrite <- app_assoc, <- R2, length_app. split; [exact R1 | lia].
Qed.

Lemma matches_chr_consumes (p : ascii -> bool) (st e : state) :
  RegexSem.Matches (Chr p) st e ->
  exists c, RegexSem.consumes st e [c] /\ p c = true /\ caps e = caps st.
Proof.
  intros H. inversion H as [p' st' c t Rc Pc| | | | | | | | |]; subst.
  exists c. unfold RegexSem.consumes. cbn. repeat split; [exact Rc | lia | exact Pc].
Qed.

Lemma matches_lit (str : string) :
  forall st e, RegexSem.Matches (lit str) st e ->
    RegexSem.consumes st e (list_ascii_of_string str) /\ caps e = caps st.
Proof.
  induction str as [|c str IH]; intros st e H; cbn [lit] in H.
  - inversion H; subst. unfold RegexSem.consumes. cbn.
    repeat split; lia.
  - apply matches_seq_inv in H as (m & M1 & M2).
    apply matches_chr_consumes in M1 as (c' & C1 & E & K1).
    apply Ascii.eqb_eq in E. subst c'.
    apply IH in M2 as [C2 K2]. split; [|congruence].
    exact (consumes_trans C1 C2).
Qed.

(** The value of a reference of a pattern "keyword, white space, name". *)
Lemma keyword_name_value (keyword : regex) (p : ascii -> bool) (s : string)
  (m : result) :
  In m (execAll (Seq keyword (Seq (plus space) (Group 1 (plus (Chr p))))) s) ->
  exists w, group1 m = string_of_list_ascii w
            /\ Forall (fun c => p c = true) w /\ w <> [].
Proof.
  intros H. apply execAll_matches in H as (st & e & M & _ & G).
  apply matches_seq_inv in M as (s1 & _ & M).
  apply matches_seq_inv in M as (s2 & _ & M).
  apply matches_group_plus in M as (w & C & F & N).
  exists w. unfold group1, group. rewrite G, C, lookup_head. now repeat split.
Qed.

(** The value of an import: what stands between the two quote characters. *)
Lemma quoted_value (keyword : regex) (p q : ascii -> bool) (s : string)
  (m : result) :
  In m (execAll (Seq keyword (Seq (plus space)
                   (Seq (Chr q) (Seq (Group 1 (plus (Chr p))) (Chr q))))) s) ->
  exists w, group1 m = string_of_list_ascii w
            /\ Forall (fun c => p c = true) w /\ w <> [].
Proof.
  intros H. apply execAll_matches in H as (st & e & M & _ & G).
  apply matches_seq_inv in M as (s1 & _ & M).
  apply matches_seq_inv in M as (s2 & _ & M).
  apply matches_seq_inv in M as (s3 & _ & M).
  apply matches_seq_inv in M as (s4 & M & Q).
  apply matches_chr_caps in Q.
  apply matches_group_plus in M as (w & C & F & N).
  exists w. unfold group1, group. rewrite G, Q, C, lookup_head.
  now repeat split.
Qed.

Lemma wellFormed_of_chars (t : RefType) (w : list ascii) :
  w <> [] ->
  match t with
  | import => Forall (fun c => RefShape.isQuote c = false) w
  | class | function => Forall (fun c => isWord c = true) w
  end ->
  RefShape.wellFormed (mkReference t (string_of_list_ascii w)).
Proof.
  intros N F. unfold RefShape.wellFormed. cbn [value type].
  rewrite list_ascii_of_string_of_list_ascii. now split.
Qed.

(** X17. Every extracted reference has a value that is not empty; the
    value of an import contains no quote character, and the value of a class
    or function reference consists of word characters only, so that it
    stands for itself in the pattern the resolver builds from it. *)
Theorem reference_values_well_formed (content : string) :
  Forall RefShape.wellFormed (extractCodeReferences content).
Proof.
  apply Forall_forall. intros ref H. unfold extractCodeReferences in H.
  apply in_flat_map in H as [b [_ H]]. unfold blockReferences in H.
  apply in_app_or in H as [H|H]; [|apply in_app_or in H as [H|H]];
    apply in_map_iff in H as [m [<- H]].
  - apply quoted_value in H as (w & -> & F & N).
    apply wellFormed_of_chars; [exact N|].
    eapply Forall_impl; [|exact F]. intros c Hc. cbv beta in Hc.
    unfold RefShape.isQuote. now apply negb_true_iff in Hc.
  - apply keyword_name_value in H as (w & -> & F & N).
    now apply wellFormed_of_chars.
  - apply keyword_name_value in H as (w & -> & F & N).
    now apply wellFormed_of_chars.
Qed.

(** *** Where the references come from *)

Lemma string_of_list_ascii_app (a b : list ascii) :
  string_of_list_ascii (a ++ b)
  = string_of_list_ascii a ++ string_of_list_ascii b.
Proof. induction a as [|c a IH]; simpl; [reflexivity | now rewrite IH]. Qed.

(** A search starts its match somewhere in the input. *)
Lemma search_suffix (r : regex) (s : list ascii) :
  forall (p : option ascii) (i : nat) (st e : state),
    search r p s i = Some (st, e) -> exists pre, s = (pre ++ rest st)%list.
Proof.
  induction s as [|c s IH]; intros p i st e H; cbn [search] in H.
  - destruct (run r _ Some) as [e'|] eqn:E; [|discriminate].
    injection H as <- <-. now exists [].
  - destruct (run r _ Some) as [e'|] eqn:E.
    + injection H as <- <-. now exists [].
    + apply IH in H as [pre H]. exists (c :: pre). cbn. now rewrite <- H.
Qed.

Lemma execLoop_suffix (r : regex) (fuel : nat) :
  forall (p : option ascii) (s : list ascii) (i : nat) (m : result),
    In m (execLoop fuel r p s i) ->
    exists st e pre,
      RegexSem.Matches r st e /\ caps st = [] /\ groups m = caps e
      /\ s = (pre ++ rest st)%list.
Proof.
  induction fuel as [|fuel IH]; intros p s i m H; cbn [execLoop] in H;
    [destruct H|].
  destruct (search r p s i) as [[st e]|] eqn:S; [|destruct H].
  pose proof (search_suffix _ _ _ _ S) as [pre Hpre].
  apply search_result in S as [S1 S2].
  apply run_sound in S1 as (st1 & M & [= <-]).
  destruct H as [<-|H].
  - exists st, st1, pre. now repeat split.
  - destruct (_ <? _)%nat; [|destruct H].
    apply IH in H as (st' & e' & pre' & M' & C' & G' & R').
    apply matches_consumes in M as [w [Rw _]].
    exists st', e', (pre ++ w ++ pre')%list.
    split; [exact M'|]. split; [exact C'|]. split; [exact G'|].
    now rewrite Hpre, Rw, R', <- !app_assoc.
Qed.

(** What a match of the fence pattern consumes and captures. *)
Lemma matches_codeBlock (st e : state) :
  RegexSem.Matches codeBlockPattern st e ->
  exists lang body,
    rest st = (list_ascii_of_string "```" ++ lang ++ [newline] ++ body
               ++ list_ascii_of_string "```" ++ rest e)%list
    /\ Forall (fun c => isWord c = true) lang
    /\ caps e = (1%nat, body) :: caps st.
Proof.
  unfold codeBlockPattern. cbn [seqs]. intros M.
  apply matches_seq_inv in M as (s1 & M1 & M).
  apply matches_seq_inv in M as (s2 & M2 & M).
  apply matches_seq_inv in M as (s3 & M3 & M).
  apply matches_seq_inv in M as (s4 & M4 & M5).
  apply matches_lit in M1 as [[R1 _] C1].
  apply matches_star_chr in M2 as (lang & [R2 _] & F2 & C2).
  apply matches_chr_consumes in M3 as (c & [R3 _] & E3 & C3).
  apply Ascii.eqb_eq in E3. subst c.
  inversion M4 as [| | | | | | |n' a st' s4' M4'| |]; subst.
  apply matches_star_chr in M4' as (body & Cb & _ & C4).
  apply matches_lit in M5 as [[R5 _] C5]. cbn [rest caps] in R5, C5.
  exists lang, body. split; [|split].
  - rewrite R1, R2, R3. cbn [app]. destruct Cb as [R4 _].
    now rewrite R4, R5.
  - exact F2.
  - rewrite C5, (consumes_firstn Cb), C4, C3, C2, C1. reflexivity.
Qed.

(** C3 (as amended). Inline code spans are not scanned: a document without
    three backticks in a row, whatever it mentions in inline code spans,
    yields no reference, hence no pointer.  Every reference comes from a
    match of the fence pattern in the document, that is three backticks,
    word characters (possibly none), a line break, a text and three
    backticks again: it is one of the references found in that text. *)
Theorem references_come_from_fences readFile (content : string)
  (sourceFiles : list string) :
  (JsString.includes content "```" = false ->
   extractCodeReferences content = []
   /\ matchReferencesToFiles readFile (extractCodeReferences content)
        sourceFiles = [])
  /\ (forall ref,
        In ref (extractCodeReferences content) ->
        exists before lang body after,
          content = before ++ "```" ++ lang ++ lf ++ body ++ "```" ++ after
          /\ Forall (fun c => isWord c = true) (list_ascii_of_string lang)
          /\ In ref (blockReferences body)).
Proof.
  split.
  - intros H. unfold extractCodeReferences.
    rewrite no_fence_no_block by exact H. split; reflexivity.
  - intros ref H. unfold extractCodeReferences in H.
    apply in_flat_map in H as [m [Hm Hr]].
    apply execLoop_suffix in Hm as (st & e & pre & M & C & G & R).
    apply matches_codeBlock in M as (lang & body & Rs & F & Ce).
    exists (string_of_list_ascii pre), (string_of_list_ascii lang),
      (string_of_list_ascii body), (string_of_list_ascii (rest e)).
    split; [|split].
    + rewrite <- (string_of_list_ascii_of_string content), R, Rs.
      rewrite !string_of_list_ascii_app. reflexivity.
    + now rewrite list_ascii_of_string_of_list_ascii.
    + unfold group1, group in Hr. rewrite G, Ce, lookup_head in Hr.
      exact Hr.
Qed.

Lemma references_come_from_fences_witness :
  JsString.includes "`src/foo.ts`" "```" = false
  /\ extractCodeReferences "`src/foo.ts`" = []
  /\ matchReferencesToFiles (fun _ => Some "export function foo() {}")
       (extractCodeReferences "`src/foo.ts`") ["src/foo.ts"] = [].
Proof.
  split; [reflexivity|].
  apply (proj1 (@references_come_from_fences
                  (fun _ => Some "export function foo() {}")
                  "`src/foo.ts`" ["src/foo.ts"])).
  reflexivity.
Defined.

(** C3, as stated, fails: the document of the scenario mentions
    [src/foo.ts] in an inline code span, the file is in the source set, and
    no pointer to it comes out. *)
Lemma inline_span_gives_no_pointer :
  ~ exists reason,
      In (mkPointer "src/foo.ts" reason)
         (matchReferencesToFiles (fun _ => Some "export function foo() {}")
            (extractCodeReferences "`src/foo.ts`") ["src/foo.ts"]).
Proof.
  intros [reason H]. vm_compute in H. exact H.
Qed.

(** *** The section index *)

Lemma length_string_of_list_ascii (w : list ascii) :
  String.length (string_of_list_ascii w) = List.length w.
Proof. induction w as [|c w IH]; simpl; [reflexivity | now rewrite IH]. Qed.

Lemma matches_upTo_chr (p : ascii -> bool) (n : nat) :
  forall st st1,
    RegexSem.Matches (SectionIndex.upTo n (Chr p)) st st1 ->
    exists w, RegexSem.consumes st st1 w
              /\ (List.length w <= n)%nat /\ caps st1 = caps st.
Proof.
  induction n as [|n IH]; intros st st1 H; cbn [SectionIndex.upTo] in H.
  - inversion H; subst. exists []. unfold RegexSem.consumes. simpl.
    repeat split; auto.
  - unfold opt in H.
    inversion H as [| | |a b st' st1' M|a b st' st1' M| | | | |]; subst.
    + apply matches_seq_inv in M as (m & M1 & M2).
      apply IH in M2 as (w & [R P] & L & C).
      inversion M1 as [p' st' c t Rc Pc| | | | | | | | |]; subst.
      exists (c :: w). unfold RegexSem.consumes. simpl in *. repeat split.
      * now rewrite Rc, R.
      * lia.
      * lia.
      * exact C.
    + inversion M; subst. exists []. unfold RegexSem.consumes. simpl.
      repeat split; auto. lia.
Qed.

Lemma headingOf_level (l : string) (lvl : nat) (title : string) :
  SectionIndex.headingOf l = Some (lvl, title) -> (1 <= lvl <= 6)%nat.
Proof.
  unfold SectionIndex.headingOf, SectionIndex.matchAtStart.
  destruct (run SectionIndex.headingPattern _ Some) as [e|] eqn:R;
    [|discriminate].
  cbn [option_map]. intros [= <- _].
  apply run_sound in R as (e' & M & [= ->]).
  unfold SectionIndex.headingPattern in M. cbn [seqs] in M.
  apply matches_seq_inv in M as (s1 & M1 & M).
  apply matches_seq_inv in M as (s2 & M2 & M3).
  apply matches_plus_chr in M2 as (w2 & _ & _ & _ & C2).
  apply matches_group_plus in M3 as (w3 & C3 & _ & _).
  inversion M1 as [| | | | | | |n a st' s1' Mh| |]; subst.
  apply matches_seq_inv in Mh as (m & Mc & Mu).
  apply (@matches_upTo_chr (Ascii.eqb "#") 5) in Mu as (w & [Rw Pw] & Lw & Cw).
  inversion Mc as [p' st' c t Rc Pc| | | | | | | | |]; subst.
  cbn [caps pos rest] in *.
  unfold SectionIndex.groupText, group, resultOf. cbn [groups].
  rewrite C3, C2. cbn [Regex.lookup Nat.eqb].
  rewrite length_string_of_list_ascii, Rc, Rw, Pw.
  rewrite length_firstn. cbn [List.length]. rewrite length_app. lia.
Qed.

Lemma StronglySorted_snoc {A : Type} (R : A -> A -> Prop) (l : list A) (y : A) :
  StronglySorted R l -> Forall (fun x => R x y) l ->
  StronglySorted R (l ++ [y]).
Proof.
  induction 1 as [|x l Hl IH Hx]; intros F; simpl.
  - repeat constructor.
  - inversion F as [|? ? Fx Fl]; subst. constructor; [now apply IH|].
    apply Forall_app. split; [exact Hx | now constructor].
Qed.

Lemma list_sum_snoc (l : list nat) (n : nat) :
  list_sum (l ++ [n]) = (list_sum l + n)%nat.
Proof. rewrite list_sum_app. simpl. lia. Qed.

Lemma save_spec (filename : string) (all : list string) (i : nat)
  (current : option SectionIndex.Current)
  (sections : list SectionIndex.Section_) :
  (i <= List.length all)%nat ->
  Forall (SectionIndex.wellFormed filename all) sections ->
  SectionIndex.currentOk all i current ->
  StronglySorted SectionIndex.earlier sections ->
  SectionIndex.savedBelow i current sections ->
  let r := SectionIndex.save filename current sections in
  Forall (SectionIndex.wellFormed filename all) r
  /\ StronglySorted SectionIndex.earlier r
  /\ Forall (fun s => (SectionIndex.line s <= i)%nat) r
  /\ List.length r
     = (List.length sections + SectionIndex.pending current)%nat
  /\ list_sum (map SectionIndex.lines r)
     = (list_sum (map SectionIndex.lines sections)
        + SectionIndex.gathered current)%nat.
Proof.
  intros Hi Hwf Hcur Hsort Hbelow r. subst r.
  destruct current as [[[[title lvl] ln] cc]|]; cbn [SectionIndex.save].
  - cbn [SectionIndex.currentOk SectionIndex.savedBelow SectionIndex.gathered]
      in *.
    destruct Hcur as (Hl & Hn & Hnth & Hc).
    repeat split.
    + apply Forall_app. split; [exact Hwf|]. constructor; [|constructor].
      unfold SectionIndex.wellFormed. cbn. repeat split; try lia. exact Hnth.
    + apply StronglySorted_snoc; [exact Hsort|]. exact Hbelow.
    + apply Forall_app. split.
      * eapply Forall_impl; [|exact Hbelow]. cbv beta. intros s Hs. lia.
      * constructor; [|constructor]. cbn. lia.
    + rewrite length_app. reflexivity.
    + rewrite map_app, list_sum_app. cbn. lia.
  - cbn [SectionIndex.savedBelow SectionIndex.gathered] in *.
    repeat split; auto; lia.
Qed.

Lemma scan_spec (filename : string) (all : list string) :
  forall (ls pre : list string) (current : option SectionIndex.Current)
         (sections : list SectionIndex.Section_),
    all = (pre ++ ls)%list ->
    Forall (SectionIndex.wellFormed filename all) sections ->
    SectionIndex.currentOk all (List.length pre) current ->
    StronglySorted SectionIndex.earlier sections ->
    SectionIndex.savedBelow (List.length pre) current sections ->
    let r := SectionIndex.scan filename ls (List.length pre) current sections in
    Forall (SectionIndex.wellFormed filename all) r
    /\ StronglySorted SectionIndex.earlier r
    /\ List.length r
       = (List.length sections + SectionIndex.pending current
          + List.length (filter SectionIndex.isHeading ls))%nat
    /\ (list_sum (map SectionIndex.lines r) + SectionIndex.dropped current ls
        = list_sum (map SectionIndex.lines sections)
          + SectionIndex.gathered current + List.length ls)%nat.
Proof.
  induction ls as [|l rest IH]; intros pre current sections Hall Hwf Hcur Hsort Hbelow.
  - cbn [SectionIndex.scan]. cbv zeta.
    destruct (@save_spec filename all (List.length pre) current sections)
      as (S1 & S2 & _ & S4 & S5); auto.
    { rewrite Hall, length_app. lia. }
    repeat split; auto.
    + cbn [filter List.length]. lia.
    + destruct current; cbn [SectionIndex.dropped SectionIndex.preamble
                             List.length]; lia.
  - assert (Hall' : all = ((pre ++ [l]) ++ rest)%list)
      by (now rewrite <- app_assoc).
    assert (Hlen : List.length (pre ++ [l]) = S (List.length pre))
      by (rewrite length_app; simpl; lia).
    assert (Hnth : nth_error all (List.length pre) = Some l).
    { rewrite Hall, nth_error_app2 by lia. now rewrite Nat.sub_diag. }
    cbn [SectionIndex.scan filter]. cbv zeta. rewrite <- Hlen.
    assert (Hb : SectionIndex.isHeading l
                 = match SectionIndex.headingOf l with
                   | Some _ => true
                   | None => false
                   end) by reflexivity.
    rewrite Hb. clear Hb.
    destruct (SectionIndex.headingOf l) as [[lvl title]|] eqn:Hh.
    + destruct (@save_spec filename all (List.length pre) current sections)
        as (S1 & S2 & S3 & S4 & S5); auto.
      { rewrite Hall, length_app. lia. }
      destruct (IH (pre ++ [l])%list
                   (Some (title, lvl, List.length (pre ++ [l]), [l]))
                   (SectionIndex.save filename current sections))
        as (R1 & R2 & R3 & R4); auto.
      * cbn [SectionIndex.currentOk]. rewrite Hlen.
        pose proof (headingOf_level _ Hh) as Hlvl.
        split; [lia|]. split; [lia|]. split; [|cbn [List.length]; lia].
        exists l. split; [|exact Hh].
        now replace (S (List.length pre) - 1)%nat with (List.length pre)
          by lia.
      * cbn [SectionIndex.savedBelow]. rewrite Hlen.
        eapply Forall_impl; [|exact S3]. cbv beta. intros s Hs. lia.
      * cbv zeta in R1, R2, R3, R4. repeat split; auto.
        -- rewrite R3, S4. cbn [SectionIndex.pending List.length]. lia.
        -- cbn [SectionIndex.dropped SectionIndex.gathered List.length] in R4.
           assert (D : SectionIndex.dropped current (l :: rest) = 0%nat).
           { destruct current; cbn [SectionIndex.dropped SectionIndex.preamble];
               [reflexivity|].
             unfold SectionIndex.isHeading. now rewrite Hh. }
           rewrite D. cbn [List.length]. lia.
    + destruct (IH (pre ++ [l])%list
                   (option_map (SectionIndex.pushLine l) current) sections)
        as (R1 & R2 & R3 & R4); auto.
      * destruct current as [[[[title lvl] ln] cc]|];
          cbn [option_map SectionIndex.pushLine SectionIndex.currentOk] in *;
          [|exact I].
        destruct Hcur as (H1 & H2 & H3 & H4). rewrite Hlen, length_app.
        repeat split; try lia. exact H3.
      * destruct current as [[[[title lvl] ln] cc]|];
          cbn [option_map SectionIndex.pushLine SectionIndex.savedBelow] in *.
        -- exact Hbelow.
        -- rewrite Hlen. eapply Forall_impl; [|exact Hbelow]. cbv beta.
           intros s Hs. lia.
      * cbv zeta in R1, R2, R3, R4. repeat split; auto.
        -- rewrite R3. destruct current as [[[[title lvl] ln] cc]|];
             reflexivity.
        -- destruct current as [[[[title lvl] ln] cc]|];
             cbn [option_map SectionIndex.pushLine SectionIndex.dropped
                  SectionIndex.gathered SectionIndex.preamble List.length]
               in *.
           ++ rewrite (length_app cc) in R4. cbn [List.length] in R4. lia.
           ++ unfold SectionIndex.isHeading. rewrite Hh. lia.
Qed.

(** X18. The sections of a document: there is one per heading line, in the
    order of the text with strictly increasing line numbers; the line number
    of a section points at its heading line, whose level is between 1 and 6;
    every section has at least one line and a token estimate of a quarter of
    its length, rounded up; and the lines of the sections are all the lines
    of the document except those before the first heading, which belong to
    no section. *)
Theorem sections_well_formed (content filename : string) :
  let ls := Tracker.splitOn newline content in
  let sections := SectionIndex.extractSections content filename in
  Forall (SectionIndex.wellFormed filename ls) sections
  /\ StronglySorted SectionIndex.earlier sections
  /\ List.length sections = List.length (filter SectionIndex.isHeading ls)
  /\ (list_sum (map SectionIndex.lines sections) + SectionIndex.preamble ls
      = List.length ls)%nat.
Proof.
  intros ls sections. subst sections. unfold SectionIndex.extractSections.
  fold ls.
  assert (Hnil : Forall (SectionIndex.wellFormed filename ls) [])
    by constructor.
  assert (Hsorted : StronglySorted SectionIndex.earlier []) by constructor.
  assert (Hbelow : SectionIndex.savedBelow (List.length (@nil string)) None [])
    by constructor.
  destruct (@scan_spec filename ls ls [] None [] eq_refl Hnil I Hsorted Hbelow)
    as (R1 & R2 & R3 & R4).
  cbv zeta in R1, R2, R3, R4.
  cbn [List.length SectionIndex.pending SectionIndex.dropped
       SectionIndex.gathered map list_sum] in R1, R2, R3, R4.
  split; [exact R1|]. split; [exact R2|].
  change (list_sum []) with 0%nat in R4. split; lia.
Qed.

(* ------------------------------------------------------------------ *)
(** ** autofix-linting *)

(** *** Splitting into lines and joining them *)

Lemma list_ascii_of_string_app (a b : string) :
  list_ascii_of_string (a ++ b)
  = (list_ascii_of_string a ++ list_ascii_of_string b)%list.
Proof. induction a as [|c a IH]; simpl; [reflexivity | now rewrite IH]. Qed.

Lemma splitOn_not_nil (sep : ascii) (s : string) :
  Tracker.splitOn sep s <> [].
Proof.
  destruct s as [|c s]; simpl; [discriminate|].
  destruct (Ascii.eqb c sep); [discriminate|].
  destruct (Tracker.splitOn sep s); discriminate.
Qed.

Lemma splitOn_pieces (sep : ascii) (s : string) :
  Forall (fun p => ~ In sep (list_ascii_of_string p)) (Tracker.splitOn sep s).
Proof.
  induction s as [|c s IH]; simpl.
  - constructor; [intros []|constructor].
  - destruct (Ascii.eqb_spec c sep) as [->|N].
    + constructor; [intros []|exact IH].
    + destruct (Tracker.splitOn sep s) as [|piece pieces].
      * constructor; [|constructor]. simpl. intros [E|[]]. now apply N.
      * inversion IH as [|? ? Hp Hps]; subst. constructor; [|exact Hps].
        simpl. intros [E|I]; [now apply N | now apply Hp].
Qed.

Lemma splitOn_one_piece (sep : ascii) (p : string) :
  ~ In sep (list_ascii_of_string p) -> Tracker.splitOn sep p = [p].
Proof.
  induction p as [|c p IH]; simpl; intros H; [reflexivity|].
  destruct (Ascii.eqb_spec c sep) as [->|N]; [exfalso; apply H; now left|].
  rewrite IH; [reflexivity|]. intros I. apply H. now right.
Qed.

Lemma splitOn_first_piece (sep : ascii) (p s : string) :
  ~ In sep (list_ascii_of_string p) ->
  Tracker.splitOn sep (p ++ String sep s) = p :: Tracker.splitOn sep s.
Proof.
  induction p as [|c p IH]; simpl; intros H.
  - now rewrite Ascii.eqb_refl.
  - destruct (Ascii.eqb_spec c sep) as [->|N]; [exfalso; apply H; now left|].
    rewrite IH; [reflexivity|]. intros I. apply H. now right.
Qed.

Lemma splitOn_join (sep : ascii) (parts : list string) :
  parts <> [] ->
  Forall (fun p => ~ In sep (list_ascii_of_string p)) parts ->
  Tracker.splitOn sep (Tracker.join (String sep "") parts) = parts.
Proof.
  induction parts as [|p parts IH]; intros N F; [now elim N|].
  inversion F as [|? ? Hp Hps]; subst.
  destruct parts as [|q parts].
  - cbn [Tracker.join]. now apply splitOn_one_piece.
  - change (Tracker.join (String sep "") (p :: q :: parts))
      with (p ++ String sep (Tracker.join (String sep "") (q :: parts))).
    rewrite splitOn_first_piece by exact Hp.
    rewrite IH; [reflexivity | discriminate | exact Hps].
Qed.

(** *** The heading pattern *)

Lemma headingPattern_groups (st e : state) (k : state -> option state) :
  run SectionIndex.headingPattern st k = Some e ->
  caps st = [] ->
  exists (e' : state) (w1 w2 : list ascii),
    k e' = Some e
    /\ Regex.lookup 1 (caps e') = Some (string_of_list_ascii w1)
    /\ (1 <= List.length w1 <= 6)%nat
    /\ Regex.lookup 2 (caps e') = Some (string_of_list_ascii w2)
    /\ Forall (fun c => isLineTerminator c = false) w2.
Proof.
  intros R C0.
  apply run_sound in R as (e' & M & K).
  unfold SectionIndex.headingPattern in M. cbn [seqs] in M.
  apply matches_seq_inv in M as (s1 & M1 & M).
  apply matches_seq_inv in M as (s2 & M2 & M3).
  apply matches_plus_chr in M2 as (w2 & _ & _ & _ & C2).
  apply matches_group_plus in M3 as (w3 & C3 & F3 & _).
  inversion M1 as [| | | | | | |n a st' s1' Mh| |]; subst.
  apply matches_seq_inv in Mh as (m & Mc & Mu).
  apply (@matches_upTo_chr (Ascii.eqb "#") 5) in Mu as (w & [Rw Pw] & Lw & Cw).
  inversion Mc as [p' st' c t Rc Pc| | | | | | | | |]; subst.
  cbn [caps pos rest] in *.
  exists e', (firstn (pos s1' - pos st) (rest st)), w3.
  split; [exact K|]. rewrite C3, C2. cbn [Regex.lookup Nat.eqb].
  split; [reflexivity|]. split.
  - rewrite Rc, Rw, Pw. rewrite length_firstn. cbn [List.length].
    rewrite length_app. lia.
  - split; [reflexivity|].
    eapply Forall_impl; [|exact F3]. cbv beta. intros c0 H0.
    now apply negb_true_iff in H0.
Qed.

Lemma headingMatch_shape (l : string) (level : nat) (text : string) :
  Autofix.headingMatch l = Some (level, text) ->
  (1 <= level <= 6)%nat
  /\ Forall (fun c => isLineTerminator c = false) (list_ascii_of_string text).
Proof.
  unfold Autofix.headingMatch, Autofix.matchWhole.
  destruct (run SectionIndex.headingPattern _ Autofix.atEnd) as [e|] eqn:R;
    [|discriminate].
  cbn [option_map]. intros [= <- <-].
  apply headingPattern_groups in R as (e' & w1 & w2 & K & L1 & N1 & L2 & F2);
    [|reflexivity].
  assert (E : e' = e).
  { unfold Autofix.atEnd in K. destruct (rest e'); congruence. }
  subst e'.
  unfold SectionIndex.groupText, group, resultOf. cbn [groups].
  rewrite L1, L2. rewrite length_string_of_list_ascii.
  split; [exact N1|]. now rewrite list_ascii_of_string_of_list_ascii.
Qed.

(** *** The heading structure *)

Lemma OnlyInserts_refl (l : list string) : Autofix.OnlyInserts l l.
Proof. induction l; constructor; assumption. Qed.

Lemma OnlyInserts_app (a a' b b' : list string) :
  Autofix.OnlyInserts a a' -> Autofix.OnlyInserts b b' ->
  Autofix.OnlyInserts (a ++ b) (a' ++ b').
Proof.
  intros Ha Hb. induction Ha; simpl; [exact Hb | |]; constructor; assumption.
Qed.

Lemma hashes_chars (n : nat) (c : ascii) :
  In c (list_ascii_of_string (Autofix.hashes n)) -> c = "#"%char.
Proof.
  induction n as [|n IH]; simpl; [intros []|]. intros [E|I]; [now subst | auto].
Qed.

Lemma intermediateLine_one_line (lastLevel : nat) (text : string) :
  Forall (fun c => isLineTerminator c = false) (list_ascii_of_string text) ->
  ~ In newline (list_ascii_of_string (Autofix.intermediateLine lastLevel text)).
Proof.
  intros F. unfold Autofix.intermediateLine.
  rewrite !list_ascii_of_string_app. rewrite !in_app_iff.
  intros [H|[H|[H|H]]].
  - apply hashes_chars in H. discriminate.
  - vm_compute in H. destruct H as [H|[]]. discriminate.
  - rewrite Forall_forall in F. apply F in H. vm_compute in H. discriminate.
  - vm_compute in H. repeat (destruct H as [H|H]; [discriminate|]). exact H.
Qed.

Lemma fixLoop_spec (all : list string) :
  Forall (fun p => ~ In newline (list_ascii_of_string p)) all ->
  forall (ls pre : list string) (lastLevel : nat) (fixedLines : list string)
         (details : list Autofix.FixDetail) (madeChanges : bool),
    all = (pre ++ ls)%list ->
    Autofix.OnlyInserts pre fixedLines ->
    List.length fixedLines = (List.length pre + List.length details)%nat ->
    Forall (Autofix.goodDetail all) details ->
    (madeChanges = true <-> details <> []) ->
    Forall (fun p => ~ In newline (list_ascii_of_string p)) fixedLines ->
    exists f d m,
      Autofix.fixLoop ls (List.length pre) lastLevel fixedLines details
        madeChanges = (f, d, m)
      /\ Autofix.OnlyInserts all f
      /\ List.length f = (List.length all + List.length d)%nat
      /\ Forall (Autofix.goodDetail all) d
      /\ (m = true <-> d <> [])
      /\ Forall (fun p => ~ In newline (list_ascii_of_string p)) f.
Proof.
  intros Hall ls.
  induction ls as [|l ls IH];
    intros pre lastLevel fixedLines details madeChanges E Hins Hlen Hd Hm Hf.
  - rewrite app_nil_r in E. subst pre. cbn [Autofix.fixLoop].
    exists fixedLines, details, madeChanges. repeat split; auto; apply Hm.
  - assert (E' : all = ((pre ++ [l]) ++ ls)%list)
      by (now rewrite <- app_assoc).
    assert (Hl : List.length (pre ++ [l]) = S (List.length pre))
      by (rewrite length_app; simpl; lia).
    assert (Hnth : nth_error all (List.length pre) = Some l).
    { rewrite E, nth_error_app2 by lia. now rewrite Nat.sub_diag. }
    assert (Hone : ~ In newline (list_ascii_of_string l)).
    { rewrite Forall_forall in Hall. apply Hall. rewrite E.
      apply in_or_app. right. now left. }
    assert (Hkeep : Autofix.OnlyInserts (pre ++ [l]) (fixedLines ++ [l])).
    { apply OnlyInserts_app; [exact Hins | apply OnlyInserts_refl]. }
    assert (Hkeepf : Forall (fun p => ~ In newline (list_ascii_of_string p))
                       (fixedLines ++ [l])).
    { apply Forall_app. split; [exact Hf | now constructor]. }
    cbn [Autofix.fixLoop]. rewrite <- Hl.
    destruct (Autofix.headingMatch l) as [[level text]|] eqn:Hh.
    + destruct ((lastLevel + 1 <? level)%nat && (0 <? lastLevel)%nat) eqn:Hs.
      * apply andb_true_iff in Hs as [Hs1 Hs2].
        apply Nat.ltb_lt in Hs1. apply Nat.ltb_lt in Hs2.
        destruct (headingMatch_shape _ Hh) as [Hlv Htext].
        apply IH; auto.
        -- apply OnlyInserts_app; [exact Hins|].
           cbn [app]. apply Autofix.OnlyInserts_insert. apply OnlyInserts_refl.
        -- rewrite !length_app. cbn [List.length]. lia.
        -- apply Forall_app. split; [exact Hd|]. constructor; [|constructor].
           unfold Autofix.goodDetail.
           cbn [Autofix.ftype Autofix.line Autofix.before Autofix.after].
           split; [reflexivity|]. split.
           { rewrite E, length_app. cbn [List.length]. lia. }
           split.
           { now replace (List.length pre + 1 - 1)%nat with (List.length pre)
               by lia. }
           exists level, text, lastLevel. repeat split; auto; lia.
        -- split; [intros _|reflexivity]. now destruct details.
        -- apply Forall_app. split; [exact Hf|]. cbn [app].
           constructor; [now apply intermediateLine_one_line|].
           now constructor.
      * apply IH; auto. rewrite length_app. cbn [List.length]. lia.
    + apply IH; auto. rewrite length_app. cbn [List.length]. lia.
Qed.

Lemma fixLoop_made (ls : list string) :
  forall (i lastLevel : nat) (fixedLines : list string)
         (details : list Autofix.FixDetail) (madeChanges : bool),
    snd (Autofix.fixLoop ls i lastLevel fixedLines details madeChanges)
    = madeChanges || Autofix.skips lastLevel (Autofix.levels ls).
Proof.
  induction ls as [|l ls IH]; intros i lastLevel fixedLines details made.
  - cbn. now rewrite orb_false_r.
  - cbn [Autofix.fixLoop Autofix.levels flat_map].
    fold (Autofix.levels ls).
    destruct (Autofix.headingMatch l) as [[level text]|] eqn:Hh.
    + cbn [app Autofix.skips].
      destruct ((lastLevel + 1 <? level)%nat && (0 <? lastLevel)%nat).
      * rewrite IH. cbn [orb]. now rewrite orb_true_r.
      * rewrite IH. reflexivity.
    + cbn [app]. apply IH.
Qed.

Lemma levels_positive (ls : list string) :
  Forall (fun a => (1 <= a)%nat) (Autofix.levels ls).
Proof.
  induction ls as [|l ls IH]; [constructor|].
  cbn [Autofix.levels flat_map]. fold (Autofix.levels ls).
  destruct (Autofix.headingMatch l) as [[level text]|] eqn:Hh; [|exact IH].
  constructor; [|exact IH]. apply headingMatch_shape in Hh. lia.
Qed.

Lemma skips_false_iff (lv : list nat) :
  Forall (fun a => (1 <= a)%nat) lv ->
  forall lastLevel,
    Autofix.skips lastLevel lv = false
    <-> (forall b, hd_error lv = Some b ->
                   (lastLevel = 0 \/ b <= lastLevel + 1)%nat)
        /\ (forall i a b, nth_error lv i = Some a ->
                          nth_error lv (S i) = Some b -> (b <= a + 1)%nat).
Proof.
  induction 1 as [|level lv Hpos F IH]; intros lastLevel.
  - cbn. split; [intros _|reflexivity]. split.
    + discriminate.
    + intros [|i] a b; discriminate.
  - cbn [Autofix.skips]. rewrite orb_false_iff, IH. clear IH.
    rewrite andb_false_iff, Nat.ltb_ge, Nat.ltb_ge. split.
    + intros [H1 [H2 H3]]. split.
      * intros b [= <-]. lia.
      * intros [|i] a b Ha Hb.
        -- cbn in Ha. injection Ha as <-.
           destruct lv as [|c lv]; [discriminate|]. cbn in Hb.
           injection Hb as <-. destruct (H2 c eq_refl); lia.
        -- exact (H3 i a b Ha Hb).
    + intros [H1 H2]. split; [|split].
      * destruct (H1 level eq_refl); lia.
      * intros b Hb. right. apply (H2 O level b); [reflexivity|].
        destruct lv; [discriminate|]. exact Hb.
      * intros i a b Ha Hb. exact (H2 (S i) a b Ha Hb).
Qed.

Lemma OnlyInserts_length (l l' : list string) :
  Autofix.OnlyInserts l l' -> (List.length l <= List.length l')%nat.
Proof. induction 1; simpl; lia. Qed.

Lemma fixHeadingStructure_parts (content : string) :
  let ls := Tracker.splitOn newline content in
  let out := fst (Autofix.fixHeadingStructure content) in
  let details := snd (Autofix.fixHeadingStructure content) in
  Autofix.OnlyInserts ls (Tracker.splitOn newline out)
  /\ List.length (Tracker.splitOn newline out)
     = (List.length ls + List.length details)%nat
  /\ Forall (Autofix.goodDetail ls) details
  /\ (out = content <-> details = [])
  /\ (details = []
      <-> Autofix.skips 0 (Autofix.levels ls) = false).
Proof.
  intros ls out details. subst out details.
  unfold Autofix.fixHeadingStructure. fold ls.
  pose proof (fixLoop_made ls 0 0 [] [] false) as Hmade.
  destruct (@fixLoop_spec ls (splitOn_pieces newline content) ls [] 0 [] []
              false eq_refl Autofix.OnlyInserts_nil eq_refl
              (Forall_nil _))
    as (f & d & m & E & Hins & Hlen & Hd & Hm & Hf).
  { split; [discriminate | intros N; now elim N]. }
  { constructor. }
  cbn [List.length] in E. rewrite E in Hmade |- *.
  cbn [fst snd orb] in Hmade |- *.
  assert (Hsplit : Tracker.splitOn newline (Tracker.join lf f) = f).
  { apply splitOn_join; [|exact Hf].
    intros ->. apply OnlyInserts_length in Hins.
    pose proof (@splitOn_not_nil newline content) as N. fold ls in N.
    destruct ls; [now elim N | cbn in Hins; lia]. }
  destruct m.
  - rewrite Hsplit.
    assert (Nd : d <> []) by now apply Hm.
    split; [exact Hins|]. split; [exact Hlen|]. split; [exact Hd|]. split.
    + split; [|intros ->; now elim Nd].
      intros Eq. exfalso.
      assert (Ef : f = ls).
      { rewrite <- Hsplit. unfold ls. now rewrite Eq. }
      rewrite Ef in Hlen. destruct d; [now elim Nd | cbn in Hlen; lia].
    + rewrite <- Hmade. split; [intros ->; now elim Nd | discriminate].
  - assert (Ed : d = []).
    { destruct d; [reflexivity|].
      assert (X : false = true) by (apply Hm; discriminate). discriminate. }
    subst d. fold ls. cbn [List.length].
    split; [apply OnlyInserts_refl|]. split; [lia|]. split; [constructor|].
    split; [now split|]. rewrite <- Hmade. now split.
Qed.

(** X19. The heading repair only adds lines: the lines of the result are
    the lines of the text, in their order, with one line added for every fix
    it records, so that the result is the text itself exactly when no fix is
    recorded; every recorded fix names a heading line of the text by its
    number and content, a heading more than one level below the heading
    before it, and the two lines that replace it. *)
Theorem heading_fix_only_inserts (content : string) :
  let ls := Tracker.splitOn newline content in
  let out := fst (Autofix.fixHeadingStructure content) in
  let details := snd (Autofix.fixHeadingStructure content) in
  Autofix.OnlyInserts ls (Tracker.splitOn newline out)
  /\ List.length (Tracker.splitOn newline out)
     = (List.length ls + List.length details)%nat
  /\ Forall (Autofix.goodDetail ls) details
  /\ (out = content <-> details = []).
Proof.
  intros ls out details.
  destruct (fixHeadingStructure_parts content) as (H1 & H2 & H3 & H4 & _).
  repeat split; auto; apply H4.
Qed.

(** X20. The heading repair returns the text as it is exactly when no
    heading is more than one level below the heading before it; the first
    heading may have any level. *)
Theorem heading_fix_iff_level_skipped (content : string) :
  let lv := Autofix.levels (Tracker.splitOn newline content) in
  fst (Autofix.fixHeadingStructure content) = content
  <-> (forall i a b, nth_error lv i = Some a ->
                     nth_error lv (S i) = Some b -> (b <= a + 1)%nat).
Proof.
  intros lv.
  destruct (fixHeadingStructure_parts content) as (_ & _ & _ & H4 & H5).
  cbv zeta in H4, H5.
  pose proof (skips_false_iff
                (levels_positive (Tracker.splitOn newline content)) 0) as H6.
  fold lv in H5, H6. split.
  - intros H. apply H4, H5, H6 in H. exact (proj2 H).
  - intros H. apply H4, H5, H6. split; [|exact H]. intros b _. now left.
Qed.

(** *** Trailing white space *)

Lemma run_seq (a b : regex) (st : state) (k : state -> option state) :
  run (Seq a b) st k = run a st (fun st1 => run b st1 k).
Proof. reflexivity. Qed.

Lemma run_chr (q : ascii -> bool) (st : state) (k : state -> option state) :
  run (Chr q) st k
  = match rest st with
    | c :: t => if q c then k (Regex.mkState (Some c) t (S (pos st)) (caps st))
                else None
    | [] => None
    end.
Proof. reflexivity. Qed.

Lemma run_star_chr_nil (q : ascii -> bool) (p : option ascii) (i : nat)
  (cs : list (nat * list ascii)) (k : state -> option state) :
  run (Star true (Chr q)) (Regex.mkState p [] i cs) k
  = k (Regex.mkState p [] i cs).
Proof. reflexivity. Qed.

Lemma run_star_chr_cons (q : ascii -> bool) (p : option ascii) (c : ascii)
  (t : list ascii) (i : nat) (cs : list (nat * list ascii))
  (k : state -> option state) :
  run (Star true (Chr q)) (Regex.mkState p (c :: t) i cs) k
  = if q c
    then match run (Star true (Chr q)) (Regex.mkState (Some c) t (S i) cs) k
         with
         | Some e => Some e
         | None => k (Regex.mkState p (c :: t) i cs)
         end
    else k (Regex.mkState p (c :: t) i cs).
Proof.
  cbn [run rest pos caps List.length]. destruct (q c); [|reflexivity].
  rewrite (proj2 (Nat.ltb_lt i (S i))) by lia. reflexivity.
Qed.

Lemma blank_not_terminator (c : ascii) :
  Autofix.isBlank c = true -> isLineTerminator c = false.
Proof.
  unfold Autofix.isBlank. cbn [existsb]. rewrite !orb_true_iff.
  intros [H|[H|H]]; [| |discriminate]; apply Ascii.eqb_eq in H; now subst.
Qed.

Lemma strip_cons_kept (c : ascii) (t : list ascii) :
  Autofix.isBlank c = false \/ Autofix.lineEnd (Autofix.strip t) = false ->
  Autofix.strip (c :: t) = c :: Autofix.strip t.
Proof.
  intros H. cbn [Autofix.strip].
  destruct H as [-> | ->]; [reflexivity | now rewrite andb_false_r].
Qed.

Lemma strip_lineEnd (r : list ascii) :
  Autofix.lineEnd r = true -> Autofix.lineEnd (Autofix.strip r) = true.
Proof.
  destruct r as [|c r]; [reflexivity|]. cbn [Autofix.lineEnd]. intros H.
  rewrite strip_cons_kept; [exact H|]. left.
  destruct (Autofix.isBlank c) eqn:B; [|reflexivity].
  apply blank_not_terminator in B. congruence.
Qed.

Lemma strip_blanks (b r : list ascii) :
  Forall (fun c => Autofix.isBlank c = true) b ->
  Autofix.lineEnd r = true ->
  Autofix.strip (b ++ r) = Autofix.strip r.
Proof.
  intros F L. induction F as [|c b Hc F IH]; [reflexivity|].
  cbn [app Autofix.strip]. rewrite IH, Hc, (strip_lineEnd _ L). reflexivity.
Qed.

Lemma star_blank_end (t : list ascii) :
  forall (p : option ascii) (i : nat) (cs : list (nat * list ascii)),
    match run (Star true (oneOf [" "; "009"]%char)) (Regex.mkState p t i cs)
            Autofix.atLineEnd with
    | Some e =>
        exists b, t = (b ++ rest e)%list
                  /\ Forall (fun c => Autofix.isBlank c = true) b
                  /\ pos e = (i + List.length b)%nat
                  /\ Autofix.lineEnd (rest e) = true
    | None => Autofix.lineEnd (Autofix.strip t) = false
    end.
Proof.
  unfold oneOf. fold Autofix.isBlank.
  induction t as [|c t IH]; intros p i cs.
  - rewrite run_star_chr_nil. cbn. exists []. cbn. repeat split; auto.
  - rewrite run_star_chr_cons.
    change (existsb (Ascii.eqb c) [" "; "009"]%char) with (Autofix.isBlank c).
    destruct (Autofix.isBlank c) eqn:B.
    + specialize (IH (Some c) (S i) cs).
      destruct (run _ (Regex.mkState (Some c) t (S i) cs) _) as [e|].
      * destruct IH as (b & E & F & P & L). exists (c :: b). cbn.
        repeat split; auto; [now rewrite E | lia].
      * unfold Autofix.atLineEnd. cbn [rest].
        rewrite (blank_not_terminator _ B).
        rewrite strip_cons_kept by now right.
        cbn [Autofix.lineEnd]. now apply blank_not_terminator.
    + unfold Autofix.atLineEnd. cbn [rest].
      rewrite strip_cons_kept by now left. cbn [Autofix.lineEnd].
      destruct (isLineTerminator c) eqn:T; [|reflexivity].
      exists []. cbn. repeat split; auto.
Qed.

Lemma trailing_run (s : list ascii) (p : option ascii) (i : nat) :
  match run Autofix.trailingPattern (Regex.mkState p s i [])
          Autofix.atLineEnd with
  | Some e =>
      exists b, s = (b ++ rest e)%list /\ b <> []
                /\ Forall (fun c => Autofix.isBlank c = true) b
                /\ pos e = (i + List.length b)%nat
                /\ Autofix.lineEnd (rest e) = true
  | None =>
      match s with
      | [] => True
      | c :: t => Autofix.isBlank c = false
                  \/ Autofix.lineEnd (Autofix.strip t) = false
      end
  end.
Proof.
  unfold Autofix.trailingPattern, plus. rewrite run_seq.
  unfold oneOf at 1. rewrite run_chr. cbn [rest pos caps].
  destruct s as [|c t]; [exact I|].
  change (existsb (Ascii.eqb c) [" "; "009"]%char) with (Autofix.isBlank c).
  destruct (Autofix.isBlank c) eqn:B; [|now left].
  pose proof (star_blank_end t (Some c) (S i) []) as H.
  destruct (run _ (Regex.mkState (Some c) t (S i) []) _) as [e|].
  - destruct H as (b & E & F & P & L). exists (c :: b). cbn.
    repeat split; auto; [now rewrite E | discriminate | lia].
  - now right.
Qed.

Lemma searchEnd_trailing (s : list ascii) :
  forall (p : option ascii) (i : nat),
    match Autofix.searchEnd Autofix.trailingPattern Autofix.atLineEnd p s i
    with
    | Some (st, e) =>
        exists pre b,
          s = (pre ++ b ++ rest e)%list
          /\ pos st = (i + List.length pre)%nat
          /\ pos e = (pos st + List.length b)%nat
          /\ b <> []
          /\ Autofix.strip s = (pre ++ Autofix.strip (rest e))%list
    | None => Autofix.strip s = s
    end.
Proof.
  induction s as [|c t IH]; intros p i; cbn [Autofix.searchEnd].
  - pose proof (trailing_run [] p i) as H.
    destruct (run _ (Regex.mkState p [] i []) _) as [e|]; [|reflexivity].
    destruct H as (b & E & N & _). destruct b; [now elim N | discriminate].
  - pose proof (trailing_run (c :: t) p i) as H.
    destruct (run _ (Regex.mkState p (c :: t) i []) _) as [e|].
    + destruct H as (b & E & N & F & P & L). exists [], b.
      cbn [app pos List.length].
      split; [exact E|]. split; [lia|]. split; [exact P|].
      split; [exact N|]. rewrite E. now apply strip_blanks.
    + specialize (IH (Some c) (S i)).
      destruct (Autofix.searchEnd _ _ (Some c) t (S i)) as [[st e]|].
      * destruct IH as (pre & b & E & Ps & Pe & N & S).
        exists (c :: pre), b. cbn [app List.length].
        split; [now rewrite E|]. split; [lia|]. split; [exact Pe|].
        split; [exact N|].
        rewrite strip_cons_kept by exact H. now rewrite S.
      * rewrite strip_cons_kept by exact H. now rewrite IH.
Qed.

Lemma removeLoop_strip (fuel : nat) :
  forall (s : list ascii) (p : option ascii) (i : nat),
    (List.length s < fuel)%nat ->
    Autofix.removeLoop fuel Autofix.trailingPattern Autofix.atLineEnd p s i
    = Autofix.strip s.
Proof.
  induction fuel as [|fuel IH]; intros s p i L; [lia|].
  cbn [Autofix.removeLoop].
  pose proof (searchEnd_trailing s p i) as H.
  destruct (Autofix.searchEnd _ _ p s i) as [[st e]|]; [|now rewrite H].
  destruct H as (pre & b & E & Ps & Pe & N & S).
  assert (Lb : (1 <= List.length b)%nat).
  { destruct b; [now elim N | cbn; lia]. }
  rewrite (proj2 (Nat.ltb_lt (pos st) (pos e))) by lia.
  rewrite IH.
  - rewrite S. f_equal. rewrite Ps, E.
    replace (i + List.length pre - i)%nat with (List.length pre + 0)%nat
      by lia.
    rewrite firstn_app_2. cbn [firstn]. apply app_nil_r.
  - rewrite E, !length_app in L. lia.
Qed.

Lemma strip_clean (s : list ascii) : Autofix.clean (Autofix.strip s) = true.
Proof.
  induction s as [|c t IH]; [reflexivity|]. cbn [Autofix.strip].
  destruct (Autofix.isBlank c && Autofix.lineEnd (Autofix.strip t)) eqn:B;
    [exact IH|].
  cbn [Autofix.clean]. now rewrite B, IH.
Qed.

Lemma clean_strip (s : list ascii) :
  Autofix.clean s = true -> Autofix.strip s = s.
Proof.
  induction s as [|c t IH]; [reflexivity|]. cbn [Autofix.clean Autofix.strip].
  intros H. apply andb_true_iff in H as [H1 H2]. rewrite (IH H2).
  apply negb_true_iff in H1. now rewrite H1.
Qed.

Lemma strip_keeps_text (s : list ascii) :
  filter (fun c => negb (Autofix.isBlank c)) (Autofix.strip s)
  = filter (fun c => negb (Autofix.isBlank c)) s.
Proof.
  induction s as [|c t IH]; [reflexivity|]. cbn [Autofix.strip].
  destruct (Autofix.isBlank c) eqn:B; cbn [andb].
  - destruct (Autofix.lineEnd (Autofix.strip t)); cbn [filter];
      rewrite B; cbn [negb]; exact IH.
  - cbn [filter]. rewrite B. cbn [negb]. now rewrite IH.
Qed.

Lemma fixTrailingWhitespace_strip (content : string) :
  Autofix.fixTrailingWhitespace content
  = string_of_list_ascii (Autofix.strip (list_ascii_of_string content)).
Proof.
  unfold Autofix.fixTrailingWhitespace, Autofix.removeAll.
  rewrite removeLoop_strip by lia.
  destruct (String.eqb_spec
              (string_of_list_ascii
                 (Autofix.strip (list_ascii_of_string content))) content)
    as [E|N]; cbn [negb]; [now rewrite E | reflexivity].
Qed.

Lemma fixTrailingWhitespace_fixpoint (content : string) :
  Autofix.fixTrailingWhitespace content = content
  <-> Autofix.clean (list_ascii_of_string content) = true.
Proof.
  rewrite fixTrailingWhitespace_strip. split.
  - intros E. rewrite <- E at 1.
    rewrite list_ascii_of_string_of_list_ascii. apply strip_clean.
  - intros C. rewrite (clean_strip _ C).
    apply string_of_list_ascii_of_string.
Qed.

(** X21. Removing trailing white space deletes the spaces and tabs that
    end a line, a line ending at the end of the text or before a line feed
    or a carriage return, and nothing else: the result has no blank before
    the end of a line, its other characters are those of the text, a text
    without trailing blanks is returned as it is, and a second pass changes
    nothing. *)
Theorem trailing_blanks_removed (content : string) :
  let s := list_ascii_of_string content in
  let out := list_ascii_of_string (Autofix.fixTrailingWhitespace content) in
  out = Autofix.strip s
  /\ Autofix.clean out = true
  /\ filter (fun c => negb (Autofix.isBlank c)) out
     = filter (fun c => negb (Autofix.isBlank c)) s
  /\ (Autofix.fixTrailingWhitespace content = content
      <-> Autofix.clean s = true)
  /\ Autofix.fixTrailingWhitespace (Autofix.fixTrailingWhitespace content)
     = Autofix.fixTrailingWhitespace content.
Proof.
  intros s out.
  assert (E : out = Autofix.strip s).
  { subst out. rewrite fixTrailingWhitespace_strip.
    apply list_ascii_of_string_of_list_ascii. }
  split; [exact E|]. split; [rewrite E; apply strip_clean|].
  split; [rewrite E; apply strip_keeps_text|].
  split; [apply fixTrailingWhitespace_fixpoint|].
  apply fixTrailingWhitespace_fixpoint. fold out. rewrite E.
  apply strip_clean.
Qed.

(** *** Heading spacing *)

Lemma search_prefix (r : regex) (s : list ascii) :
  forall (p : option ascii) (i : nat) (st e : state),
    search r p s i = Some (st, e) ->
    exists pre, s = (pre ++ rest st)%list
                /\ pos st = (i + List.length pre)%nat
                /\ caps st = []
                /\ run r st Some = Some e.
Proof.
  induction s as [|c s IH]; intros p i st e H; cbn [search] in H.
  - destruct (run r _ Some) as [e'|] eqn:E; [|discriminate].
    injection H as <- <-. exists []. cbn. repeat split; auto.
  - destruct (run r _ Some) as [e'|] eqn:E.
    + injection H as <- <-. exists []. cbn. repeat split; auto.
    + apply IH in H as (pre & E1 & E2 & E3 & E4). exists (c :: pre). cbn.
      repeat split; auto; [now rewrite E1 | lia].
Qed.

Lemma squeeze_hd (a : list ascii) :
  hd_error (Autofix.squeeze a) = hd_error a.
Proof.
  induction a as [|c a IH]; [reflexivity|]. cbn [Autofix.squeeze].
  destruct a as [|d a]; [reflexivity|].
  destruct (Ascii.eqb_spec c newline) as [->|N]; cbn [andb]; [|reflexivity].
  destruct (Ascii.eqb_spec d newline) as [->|N']; [|reflexivity].
  rewrite IH. reflexivity.
Qed.

Lemma squeeze_cons (c : ascii) (a b : list ascii) :
  hd_error a = hd_error b -> Autofix.squeeze a = Autofix.squeeze b ->
  Autofix.squeeze (c :: a) = Autofix.squeeze (c :: b).
Proof.
  intros H E. cbn [Autofix.squeeze].
  destruct a as [|x a], b as [|y b]; try discriminate; [reflexivity|].
  injection H as <-. now rewrite E.
Qed.

Lemma squeeze_app_r (x a b : list ascii) :
  hd_error a = hd_error b -> Autofix.squeeze a = Autofix.squeeze b ->
  Autofix.squeeze (x ++ a) = Autofix.squeeze (x ++ b).
Proof.
  intros H E. induction x as [|c x IH]; [exact E|]. cbn [app].
  apply squeeze_cons; [|exact IH].
  destruct x; [exact H | reflexivity].
Qed.

Lemma squeeze_blank_line (c : ascii) (a : list ascii) :
  Autofix.squeeze (c :: newline :: newline :: a)
  = Autofix.squeeze (c :: newline :: a).
Proof.
  assert (E : Autofix.squeeze (newline :: newline :: a)
              = Autofix.squeeze (newline :: a)) by reflexivity.
  apply squeeze_cons; [reflexivity | exact E].
Qed.

(** What the pattern matches and what its groups hold. *)
Lemma headingSpacing_match (st e : state) :
  run Autofix.headingSpacingPattern st Some = Some e ->
  exists (c : ascii) (w : list ascii),
    rest st = (c :: newline :: w ++ rest e)%list
    /\ pos e = (pos st + S (S (List.length w)))%nat
    /\ Autofix.blankLineTemplate (resultOf (st, e))
       = (c :: newline :: newline :: w)%list.
Proof.
  intros R. apply run_sound in R as (e' & M & [= ->]).
  unfold Autofix.headingSpacingPattern in M. cbn [seqs] in M.
  apply matches_seq_inv in M as (s1 & M1 & M).
  apply matches_seq_inv in M as (s2 & M2 & M3).
  inversion M1 as [| | | | | | |n1 a1 st1 s1' Mc| |]; subst.
  inversion Mc as [p' st' c t Rc Pc| | | | | | | | |]; subst.
  inversion M2 as [p' st' d t' Rd Pd| | | | | | | | |]; subst.
  cbn [rest pos caps prev] in *. apply Ascii.eqb_eq in Pd. subst d.
  subst t.
  inversion M3 as [| | | | | | |n2 a2 st2 s3 Mg| |]; subst.
  pose proof (matches_consumes Mg) as (w & Cw).
  pose proof (consumes_firstn Cw) as Fw. destruct Cw as [Rw Pw].
  cbn [rest pos caps prev] in *.
  apply matches_seq_inv in Mg as (s4 & Mh & Ms).
  apply matches_seq_inv in Mh as (s5 & Mh1 & Mh2).
  apply matches_chr_caps in Mh1.
  apply (@matches_upTo_chr (Ascii.eqb "#") 5) in Mh2 as (w5 & _ & _ & C5).
  apply matches_plus_chr in Ms as (w6 & _ & _ & _ & C6).
  cbn [caps] in *.
  exists c, w. split; [now rewrite Rc, Rw|]. split; [lia|].
  unfold Autofix.blankLineTemplate, SectionIndex.groupText, group, resultOf.
  cbn [groups]. rewrite Fw, C6, C5, Mh1.
  cbn [caps Regex.lookup Nat.eqb].
  rewrite !list_ascii_of_string_of_list_ascii.
  rewrite Rc. replace (S (pos st) - pos st)%nat with 1%nat by lia.
  reflexivity.
Qed.

Lemma replaceLoop_headingSpacing (fuel : nat) :
  forall (s : list ascii) (p : option ascii) (i : nat),
    let out := Autofix.replaceLoop fuel Autofix.headingSpacingPattern
                 Autofix.blankLineTemplate p s i in
    Autofix.squeeze out = Autofix.squeeze s
    /\ hd_error out = hd_error s
    /\ filter (fun c => negb (Ascii.eqb c newline)) out
       = filter (fun c => negb (Ascii.eqb c newline)) s
    /\ (List.length s <= List.length out)%nat.
Proof.
  induction fuel as [|fuel IH]; intros s p i; cbv zeta;
    cbn [Autofix.replaceLoop]; [now repeat split|].
  destruct (search _ p s i) as [[st e]|] eqn:S; [|now repeat split].
  apply search_prefix in S as (pre & E & Ps & _ & R).
  apply headingSpacing_match in R as (c & w & Rs & Pe & T).
  rewrite T. rewrite (proj2 (Nat.ltb_lt (pos st) (pos e))) by lia.
  specialize (IH (rest e) (prev e) (pos e)). cbv zeta in IH.
  destruct IH as (I1 & I2 & I3 & I4).
  set (tail := Autofix.replaceLoop fuel _ _ (prev e) (rest e) (pos e)) in *.
  rewrite Ps.
  replace (i + List.length pre - i)%nat with (List.length pre + 0)%nat
    by lia.
  rewrite E, Rs. rewrite !firstn_app_2. cbn [firstn]. rewrite !app_nil_r.
  repeat split.
  - apply squeeze_app_r; [reflexivity|]. cbn [app].
    rewrite squeeze_blank_line.
    change (c :: newline :: w ++ tail)%list
      with ((c :: newline :: w) ++ tail)%list.
    change (c :: newline :: w ++ rest e)%list
      with ((c :: newline :: w) ++ rest e)%list.
    apply squeeze_app_r; assumption.
  - destruct pre; reflexivity.
  - rewrite !filter_app. f_equal. cbn [app filter].
    rewrite Ascii.eqb_refl. cbn [negb].
    destruct (negb (Ascii.eqb c newline)); rewrite !filter_app; now rewrite I3.
  - rewrite !length_app. cbn [List.length app]. rewrite !length_app. lia.
Qed.

(** X22. The heading spacing fix only adds blank lines: the result has
    at least the length of the text, its characters other than line feeds
    are those of the text, in their order, and the two are the same text once
    every run of line feeds is cut down to one. *)
Theorem heading_spacing_only_adds_blank_lines (content : string) :
  let s := list_ascii_of_string content in
  let out := list_ascii_of_string (Autofix.fixHeadingSpacing content) in
  Autofix.squeeze out = Autofix.squeeze s
  /\ filter (fun c => negb (Ascii.eqb c newline)) out
     = filter (fun c => negb (Ascii.eqb c newline)) s
  /\ (List.length s <= List.length out)%nat.
Proof.
  intros s out. subst out.
  unfold Autofix.fixHeadingSpacing.
  destruct (String.eqb_spec
              (Autofix.replaceAll Autofix.headingSpacingPattern
                 Autofix.blankLineTemplate content) content) as [E|N];
    cbn [negb]; [fold s; now repeat split|].
  unfold Autofix.replaceAll. rewrite list_ascii_of_string_of_list_ascii.
  fold s.
  destruct (replaceLoop_headingSpacing (S (List.length s)) s None 0)
    as (H1 & _ & H3 & H4).
  now repeat split.
Qed.

(* ------------------------------------------------------------------ *)
(** ** The directory walks *)

Lemma node_induction (P : FileTree.node -> Prop) :
  (forall entries, Forall (fun e => P (snd e)) entries ->
                   P (FileTree.Dir entries)) ->
  (forall isFile, P (FileTree.NotDir isFile)) ->
  forall n, P n.
Proof.
  intros HD HN. fix IH 1. intros [entries|isFile]; [|apply HN].
  apply HD. induction entries as [|[name child] entries IHe].
  - constructor.
  - constructor; [apply IH | exact IHe].
Qed.

Lemma at_NotDir (isFile : bool) (path : list string) (m : FileTree.node) :
  FileTree.at_ (FileTree.NotDir isFile) path m ->
  path = [] /\ m = FileTree.NotDir isFile.
Proof. intros H. inversion H; subst. now split. Qed.

Lemma at_Dir_cons (entries : list (string * FileTree.node)) (name : string)
  (rest : list string) (m : FileTree.node) :
  FileTree.at_ (FileTree.Dir entries) (name :: rest) m
  <-> exists child, In (name, child) entries /\ FileTree.at_ child rest m.
Proof.
  split.
  - intros H. inversion H; subst. now exists child.
  - intros (child & I & A). now apply FileTree.at_below with child.
Qed.

(** The files below [n] that the scan of add-code-pointers keeps; [dir] is
    the path of [n]. *)
Lemma scan_found_Dir (ok : string -> bool) (dir : list string)
  (entries : list (string * FileTree.node)) (p : string) (want : bool)
  (keep : string -> bool) (checkName : bool) :
  (exists dirs name b,
     p = FileTree.relative (dir ++ dirs ++ [name])
     /\ FileTree.at_ (FileTree.Dir entries) (dirs ++ [name])
          (FileTree.NotDir b)
     /\ (want = true -> b = true)
     /\ Forall (fun c => ok c = true) dirs
     /\ (checkName = true -> ok name = true)
     /\ keep name = true)
  <-> exists nm child,
        In (nm, child) entries
        /\ match child with
           | FileTree.Dir _ =>
               ok nm = true
               /\ exists dirs name b,
                    p = FileTree.relative ((dir ++ [nm]) ++ dirs ++ [name])
                    /\ FileTree.at_ child (dirs ++ [name]) (FileTree.NotDir b)
                    /\ (want = true -> b = true)
                    /\ Forall (fun c => ok c = true) dirs
                    /\ (checkName = true -> ok name = true)
                    /\ keep name = true
           | FileTree.NotDir b =>
               (want = true -> b = true)
               /\ (checkName = true -> ok nm = true)
               /\ keep nm = true
               /\ p = FileTree.relative (dir ++ [nm])
           end.
Proof.
  split.
  - intros (dirs & name & b & E & A & W & F & C & K).
    destruct dirs as [|d dirs]; cbn [app] in A.
    + apply at_Dir_cons in A as (child & I & A).
      inversion A; subst. exists name, (FileTree.NotDir b). split; [exact I|].
      now repeat split.
    + apply at_Dir_cons in A as (child & I & A).
      exists d, child. split; [exact I|].
      inversion F as [|? ? Fd Fdirs]; subst.
      destruct child as [es|b'].
      * split; [exact Fd|]. exists dirs, name, b.
        rewrite <- app_assoc. cbn [app]. now repeat split.
      * apply at_NotDir in A as [A _]. destruct dirs; discriminate.
  - intros (nm & child & I & H). destruct child as [es|b].
    + destruct H as (Fd & dirs & name & b & E & A & W & F & C & K).
      exists (nm :: dirs), name, b. rewrite <- app_assoc in E. cbn [app] in *.
      split; [exact E|]. split.
      { apply at_Dir_cons. now exists (FileTree.Dir es). }
      split; [exact W|]. split; [now constructor|]. now split.
    + destruct H as (W & C & K & E). exists [], nm, b. cbn [app].
      split; [exact E|]. split.
      { apply at_Dir_cons. exists (FileTree.NotDir b). split; [exact I|].
        constructor. }
      split; [exact W|]. split; [constructor|]. now split.
Qed.

Lemma scan_In (n : FileTree.node) :
  forall (dir files : list string) (p : string),
    In p (FileTree.scan dir n files)
    <-> In p files
        \/ exists dirs name b,
             p = FileTree.relative (dir ++ dirs ++ [name])
             /\ FileTree.at_ n (dirs ++ [name]) (FileTree.NotDir b)
             /\ (false = true -> b = true)
             /\ Forall (fun c => negb (Js.mem c FileTree.excludeDirs) = true)
                       dirs
             /\ (true = true -> negb (Js.mem name FileTree.excludeDirs) = true)
             /\ hasSourceExtension name = true.
Proof.
  induction n as [entries IH|isFile] using node_induction; intros dir files p.
  - rewrite (scan_found_Dir (fun c => negb (Js.mem c FileTree.excludeDirs))
               dir entries p false hasSourceExtension true).
    cbn [FileTree.scan]. revert files.
    induction IH as [|[nm child] es Hchild _ IHes]; intros files.
    + cbn [fold_left]. split; [now left|].
      intros [H|(nm & child & [] & _)]. exact H.
    + cbn [fold_left]. rewrite IHes. clear IHes. cbn [snd] in Hchild.
      assert (Hhead :
        In p (if Js.mem nm FileTree.excludeDirs then files
              else match child with
                   | FileTree.Dir _ => FileTree.scan (dir ++ [nm]) child files
                   | FileTree.NotDir _ =>
                       if hasSourceExtension nm
                       then (files ++ [FileTree.relative (dir ++ [nm])])%list
                       else files
                   end)
        <-> In p files
            \/ match child with
               | FileTree.Dir _ =>
                   negb (Js.mem nm FileTree.excludeDirs) = true
                   /\ exists dirs name b,
                        p = FileTree.relative ((dir ++ [nm]) ++ dirs ++ [name])
                        /\ FileTree.at_ child (dirs ++ [name])
                             (FileTree.NotDir b)
                        /\ (false = true -> b = true)
                        /\ Forall (fun c =>
                             negb (Js.mem c FileTree.excludeDirs) = true) dirs
                        /\ (true = true ->
                            negb (Js.mem name FileTree.excludeDirs) = true)
                        /\ hasSourceExtension name = true
               | FileTree.NotDir b =>
                   (false = true -> b = true)
                   /\ (true = true ->
                       negb (Js.mem nm FileTree.excludeDirs) = true)
                   /\ hasSourceExtension nm = true
                   /\ p = FileTree.relative (dir ++ [nm])
               end).
      { destruct (Js.mem nm FileTree.excludeDirs) eqn:X; cbn [negb].
        - split; [now left|]. intros [H|H]; [exact H|].
          destruct child as [es'|b].
          + destruct H as [H _]. discriminate.
          + destruct H as (_ & H & _). specialize (H eq_refl). discriminate.
        - destruct child as [es'|b].
          + rewrite Hchild. split.
            * intros [H|H]; [now left | right; now split].
            * intros [H|[_ H]]; [now left | now right].
          + destruct (hasSourceExtension nm) eqn:K.
            * rewrite in_app_iff. cbn [In]. split.
              -- intros [H|[H|[]]]; [now left|]. right.
                 repeat split; auto. discriminate.
              -- intros [H|(_ & _ & _ & H)]; [now left|]. right. now left.
            * split; [now left|]. intros [H|(_ & _ & H & _)]; [exact H|].
              discriminate. }
      rewrite Hhead. clear Hhead. split.
      * intros [[H|H]|(nm' & child' & I & H)].
        -- now left.
        -- right. exists nm, child. split; [now left | exact H].
        -- right. exists nm', child'. split; [now right | exact H].
      * intros [H|(nm' & child' & [I|I] & H)].
        -- left. now left.
        -- injection I as <- <-. left. now right.
        -- right. exists nm', child'. now split.
  - cbn [FileTree.scan]. split; [now left|].
    intros [H|(dirs & name & b & _ & A & _)]; [exact H|].
    apply at_NotDir in A as [A _]. destruct dirs; discriminate.
Qed.

Lemma string_app_assoc (a b c : string) : (a ++ b) ++ c = a ++ (b ++ c).
Proof. induction a as [|x a IH]; cbn [append]; [reflexivity | now rewrite IH]. Qed.

Lemma string_app_nil_r (a : string) : a ++ "" = a.
Proof. induction a as [|x a IH]; cbn [append]; [reflexivity | now rewrite IH]. Qed.

Lemma rev_string_acc (s acc : string) :
  JsString.rev_string s acc = JsString.rev_string s "" ++ acc.
Proof.
  revert acc. induction s as [|c s IH]; intros acc; cbn [JsString.rev_string].
  - reflexivity.
  - rewrite IH, (IH (String c "")). rewrite string_app_assoc.
    reflexivity.
Qed.

Lemma rev_string_app (a b : string) :
  JsString.rev_string (a ++ b) ""
  = JsString.rev_string b "" ++ JsString.rev_string a "".
Proof.
  induction a as [|c a IH]; cbn [append JsString.rev_string].
  - now rewrite string_app_nil_r.
  - rewrite rev_string_acc, IH, (rev_string_acc a (String c "")).
    now rewrite string_app_assoc.
Qed.

Lemma prefix_app (p x y : string) :
  String.prefix p x = true -> String.prefix p (x ++ y) = true.
Proof.
  revert x. induction p as [|c p IH]; intros x H;
    [destruct (x ++ y); reflexivity|].
  destruct x as [|d x]; [discriminate|]. cbn [append String.prefix] in *.
  destruct (ascii_dec c d); [now apply IH | discriminate].
Qed.

Lemma endsWith_app (a b suf : string) :
  JsString.endsWith b suf = true -> JsString.endsWith (a ++ b) suf = true.
Proof.
  unfold JsString.endsWith. intros H. rewrite rev_string_app.
  now apply prefix_app.
Qed.

Lemma join_last (sep : string) (l : list string) (x : string) :
  exists pre, Tracker.join sep (l ++ [x]) = pre ++ x.
Proof.
  induction l as [|y l [pre IH]]; [now exists ""|].
  cbn [app]. destruct (l ++ [x])%list as [|z r] eqn:E.
  - destruct l; discriminate.
  - change (Tracker.join sep (y :: z :: r))
      with (y ++ sep ++ Tracker.join sep (z :: r)).
    rewrite IH. exists (y ++ sep ++ pre).
    now rewrite !string_app_assoc.
Qed.

Lemma hasSourceExtension_relative (dir : list string) (name : string) :
  hasSourceExtension name = true ->
  hasSourceExtension (FileTree.relative (dir ++ [name])) = true.
Proof.
  unfold hasSourceExtension, FileTree.relative. rewrite !existsb_exists.
  intros (ext & I & E). exists ext. split; [exact I|].
  destruct (join_last "/" dir name) as [pre ->]. now apply endsWith_app.
Qed.

(** X23. The directory scan of add-code-pointers returns exactly the
    entries below the working directory that are not directories, whose name
    ends with a source extension and on whose path no name, their own
    included, is an excluded directory name.  Every path it returns ends
    with a source extension, so that the scan is what [findSourceFiles]
    returns when git lists no source file. *)
Theorem scan_finds_source_files (gitLines : list string)
  (entries : list (string * FileTree.node)) :
  let files := FileTree.scan [] (FileTree.Dir entries) [] in
  (forall p,
     In p files
     <-> exists dirs name b,
           p = FileTree.relative (dirs ++ [name])
           /\ FileTree.at_ (FileTree.Dir entries) (dirs ++ [name])
                (FileTree.NotDir b)
           /\ Forall (fun c => Js.mem c FileTree.excludeDirs = false)
                     (dirs ++ [name])
           /\ hasSourceExtension name = true)
  /\ Forall (fun p => hasSourceExtension p = true) files
  /\ FileTree.findSourceFilesIn gitLines (FileTree.Dir entries)
     = findSourceFiles gitLines files.
Proof.
  intros files.
  assert (H1 : forall p,
     In p files
     <-> exists dirs name b,
           p = FileTree.relative (dirs ++ [name])
           /\ FileTree.at_ (FileTree.Dir entries) (dirs ++ [name])
                (FileTree.NotDir b)
           /\ Forall (fun c => Js.mem c FileTree.excludeDirs = false)
                     (dirs ++ [name])
           /\ hasSourceExtension name = true).
  { intros p. unfold files. rewrite scan_In. cbn [app In]. split.
    - intros [[]|(dirs & name & b & E & A & _ & F & C & K)].
      exists dirs, name, b. repeat split; auto.
      apply Forall_app. split.
      + eapply Forall_impl; [|exact F]. cbv beta. intros c Hc.
        now apply negb_true_iff.
      + constructor; [|constructor]. apply negb_true_iff. now apply C.
    - intros (dirs & name & b & E & A & F & K). right.
      apply Forall_app in F as [F C]. apply Forall_inv in C as Cn.
      exists dirs, name, b. split; [exact E|]. split; [exact A|].
      split; [discriminate|]. split; [|split; [|exact K]].
      + eapply Forall_impl; [|exact F]. cbv beta. intros c Hc.
        now apply negb_true_iff.
      + intros _. now apply negb_true_iff. }
  assert (H2 : Forall (fun p => hasSourceExtension p = true) files).
  { apply Forall_forall. intros p Hp.
    apply H1 in Hp as (dirs & name & b & -> & _ & _ & K).
    now apply hasSourceExtension_relative. }
  split; [exact H1|]. split; [exact H2|].
  unfold FileTree.findSourceFilesIn, findSourceFiles. fold files.
  now rewrite (filter_all _ H2).
Qed.

Lemma filesBelow_In (n : FileTree.node) :
  forall (dir fileList : list string) (p : string),
    In p (FileTree.filesBelow dir n fileList)
    <-> In p fileList
        \/ exists dirs name b,
             p = FileTree.relative (dir ++ dirs ++ [name])
             /\ FileTree.at_ n (dirs ++ [name]) (FileTree.NotDir b)
             /\ (true = true -> b = true)
             /\ Forall (fun c => negb (Js.mem c FileTree.skippedDirs) = true)
                       dirs
             /\ (false = true ->
                 negb (Js.mem name FileTree.skippedDirs) = true)
             /\ true = true.
Proof.
  induction n as [entries IH|isFile] using node_induction;
    intros dir fileList p.
  - rewrite (scan_found_Dir (fun c => negb (Js.mem c FileTree.skippedDirs))
               dir entries p true (fun _ => true) false).
    cbn [FileTree.filesBelow]. revert fileList.
    induction IH as [|[nm child] es Hchild _ IHes]; intros fileList.
    + cbn [fold_left]. split; [now left|].
      intros [H|(nm & child & [] & _)]. exact H.
    + cbn [fold_left]. rewrite IHes. clear IHes. cbn [snd] in Hchild.
      assert (Hhead :
        In p (match child with
              | FileTree.Dir _ =>
                  if negb (Js.mem nm FileTree.skippedDirs)
                  then FileTree.filesBelow (dir ++ [nm]) child fileList
                  else fileList
              | FileTree.NotDir true =>
                  (fileList ++ [FileTree.relative (dir ++ [nm])])%list
              | FileTree.NotDir false => fileList
              end)
        <-> In p fileList
            \/ match child with
               | FileTree.Dir _ =>
                   negb (Js.mem nm FileTree.skippedDirs) = true
                   /\ exists dirs name b,
                        p = FileTree.relative ((dir ++ [nm]) ++ dirs ++ [name])
                        /\ FileTree.at_ child (dirs ++ [name])
                             (FileTree.NotDir b)
                        /\ (true = true -> b = true)
                        /\ Forall (fun c =>
                             negb (Js.mem c FileTree.skippedDirs) = true) dirs
                        /\ (false = true ->
                            negb (Js.mem name FileTree.skippedDirs) = true)
                        /\ true = true
               | FileTree.NotDir b =>
                   (true = true -> b = true)
                   /\ (false = true ->
                       negb (Js.mem nm FileTree.skippedDirs) = true)
                   /\ true = true
                   /\ p = FileTree.relative (dir ++ [nm])
               end).
      { destruct child as [es'|[|]].
        - destruct (negb (Js.mem nm FileTree.skippedDirs)) eqn:X.
          + rewrite Hchild. split.
            * intros [H|H]; [now left | right; now split].
            * intros [H|[_ H]]; [now left | now right].
          + split; [now left|]. intros [H|[H _]]; [exact H | discriminate].
        - rewrite in_app_iff. cbn [In]. split.
          + intros [H|[H|[]]]; [now left|]. right.
            repeat split; auto. discriminate.
          + intros [H|(_ & _ & _ & H)]; [now left|]. right. now left.
        - split; [now left|]. intros [H|(H & _)]; [exact H|].
          specialize (H eq_refl). discriminate. }
      rewrite Hhead. clear Hhead. split.
      * intros [[H|H]|(nm' & child' & I & H)].
        -- now left.
        -- right. exists nm, child. split; [now left | exact H].
        -- right. exists nm', child'. split; [now right | exact H].
      * intros [H|(nm' & child' & [I|I] & H)].
        -- left. now left.
        -- injection I as <- <-. left. now right.
        -- right. exists nm', child'. now split.
  - cbn [FileTree.filesBelow]. split; [now left|].
    intros [H|(dirs & name & b & _ & A & _)]; [exact H|].
    apply at_NotDir in A as [A _]. destruct dirs; discriminate.
Qed.

Section WalkFailures.

Variable statFails : list string -> bool.
Variable readdirFails : list string -> bool.

(** The walk throws, or collects what a walk without failures collects. *)
Lemma getFilesRecursive_spec (n : FileTree.node) :
  forall dir fileList : list string,
    FileTree.getFilesRecursive statFails readdirFails dir n fileList
    = if FileTree.throwsBelow statFails readdirFails dir n then None
      else Some (FileTree.filesBelow dir n fileList).
Proof.
  induction n as [entries IH|isFile] using node_induction;
    intros dir fileList; [|reflexivity].
  cbn [FileTree.getFilesRecursive FileTree.throwsBelow FileTree.filesBelow].
  destruct (readdirFails dir); [reflexivity|]. cbn [orb].
  revert fileList.
  induction IH as [|[nm child] es Hchild _ IHes]; intros fileList;
    [reflexivity|].
  cbn [fold_left existsb]. cbn [snd] in Hchild.
  destruct (statFails (dir ++ [nm])).
  - cbn [orb]. clear. induction es as [|e es IHe]; [reflexivity | exact IHe].
  - cbn [orb]. destruct child as [es'|[|]].
    + destruct (negb (Js.mem nm FileTree.skippedDirs)).
      * rewrite Hchild. cbn [andb].
        destruct (FileTree.throwsBelow statFails readdirFails (dir ++ [nm])
                    (FileTree.Dir es')).
        -- cbn [orb]. clear.
           induction es as [|e es IHe]; [reflexivity | exact IHe].
        -- cbn [orb]. apply IHes.
      * cbn [andb orb]. apply IHes.
    + cbn [orb]. apply IHes.
    + cbn [orb]. apply IHes.
Qed.

(** The walk throws exactly when one of its calls throws. *)
Lemma throwsBelow_walkFails (n : FileTree.node) :
  forall dir : list string,
    FileTree.throwsBelow statFails readdirFails dir n = true
    <-> FileTree.walkFails statFails readdirFails dir n.
Proof.
  induction n as [entries IH|isFile] using node_induction; intros dir.
  - cbn [FileTree.throwsBelow]. rewrite orb_true_iff, existsb_exists.
    unfold FileTree.walkFails. split.
    + intros [R|[[nm child] [I H]]].
      * right. exists [], entries. split; [constructor|].
        split; [constructor|]. left. now rewrite app_nil_r.
      * apply orb_true_iff in H as [H|H].
        -- right. exists [], entries. split; [constructor|].
           split; [constructor|]. right. now exists nm, child.
        -- destruct child as [es'|b]; [|discriminate].
           apply andb_true_iff in H as [K H].
           apply negb_true_iff in K.
           rewrite Forall_forall in IH.
           apply (IH _ I) in H. cbn [snd] in H.
           destruct H as [[b E]|(dirs & es & A & F & H)]; [discriminate|].
           right. exists (nm :: dirs), es.
           split; [now apply FileTree.at_below with (FileTree.Dir es')|].
           split; [now constructor|].
           destruct H as [H|(name & child & I' & H)].
           ++ left. rewrite <- app_assoc in H. exact H.
           ++ right. exists name, child. split; [exact I'|].
              rewrite <- app_assoc in H. exact H.
    + intros [[b E]|(dirs & es & A & F & H)]; [discriminate|].
      destruct dirs as [|nm dirs].
      * inversion A; subst.
        rewrite app_nil_r in H. destruct H as [H|(name & child & I & H)];
          [now left|].
        right. exists (name, child). split; [exact I|].
        cbn [app] in H. now rewrite H.
      * apply at_Dir_cons in A as (child & I & A).
        apply Forall_cons_iff in F as [K F].
        right. exists (nm, child). split; [exact I|].
        apply orb_true_iff. right.
        destruct child as [es'|b];
          [|apply at_NotDir in A as [_ A]; discriminate].
        rewrite K. cbn [negb andb].
        rewrite Forall_forall in IH. apply (IH _ I). cbn [snd].
        right. exists dirs, es. split; [exact A|]. split; [exact F|].
        destruct H as [H|(name & child' & I' & H)].
        -- left. rewrite <- app_assoc. exact H.
        -- right. exists name, child'. split; [exact I'|].
           rewrite <- app_assoc. exact H.
  - cbn [FileTree.throwsBelow]. split; [|reflexivity].
    intros _. left. now exists isFile.
Qed.

Lemma scanSourceDirs_fold (cwdEntries : list (string * FileTree.node))
  (ds : list string) :
  forall acc : list string,
    match fold_left (fun allFiles dir =>
            match allFiles with
            | None => None
            | Some fileList =>
                match Js.assoc dir cwdEntries with
                | None => Some fileList
                | Some n =>
                    if statFails [dir] then Some fileList
                    else FileTree.getFilesRecursive statFails readdirFails
                           [dir] n fileList
                end
            end) ds (Some acc) with
    | Some files =>
        (forall top n,
           In top ds -> Js.assoc top cwdEntries = Some n ->
           statFails [top] = false ->
           ~ FileTree.walkFails statFails readdirFails [top] n)
        /\ forall p,
             In p files
             <-> In p acc
                 \/ exists top es dirs name,
                      In top ds
                      /\ Js.assoc top cwdEntries = Some (FileTree.Dir es)
                      /\ statFails [top] = false
                      /\ p = FileTree.relative (top :: dirs ++ [name])
                      /\ FileTree.at_ (FileTree.Dir es) (dirs ++ [name])
                           (FileTree.NotDir true)
                      /\ Forall (fun c => Js.mem c FileTree.skippedDirs = false)
                                dirs
    | None =>
        exists top n,
          In top ds /\ Js.assoc top cwdEntries = Some n
          /\ statFails [top] = false
          /\ FileTree.walkFails statFails readdirFails [top] n
    end.
Proof.
  set (step := fun (allFiles : option (list string)) (dir : string) =>
            match allFiles with
            | None => None
            | Some fileList =>
                match Js.assoc dir cwdEntries with
                | None => Some fileList
                | Some n =>
                    if statFails [dir] then Some fileList
                    else FileTree.getFilesRecursive statFails readdirFails
                           [dir] n fileList
                end
            end).
  assert (StepNone : forall l, fold_left step l None = None).
  { induction l as [|x l IHl]; [reflexivity | exact IHl]. }
  induction ds as [|d ds IH]; intros acc; cbn [fold_left].
  - split; [intros top n []|]. intros p. split; [now left|].
    intros [H|(top & es & dirs & name & [] & _)]. exact H.
  - assert (Skip : step (Some acc) d = Some acc ->
              (forall n, Js.assoc d cwdEntries = Some n ->
                         statFails [d] = false -> False) ->
              match fold_left step ds (step (Some acc) d) with
              | Some files =>
                  (forall top n,
                     In top (d :: ds) -> Js.assoc top cwdEntries = Some n ->
                     statFails [top] = false ->
                     ~ FileTree.walkFails statFails readdirFails [top] n)
                  /\ forall p,
                       In p files
                       <-> In p acc
                           \/ exists top es dirs name,
                                In top (d :: ds)
                                /\ Js.assoc top cwdEntries
                                   = Some (FileTree.Dir es)
                                /\ statFails [top] = false
                                /\ p = FileTree.relative (top :: dirs ++ [name])
                                /\ FileTree.at_ (FileTree.Dir es)
                                     (dirs ++ [name]) (FileTree.NotDir true)
                                /\ Forall (fun c =>
                                     Js.mem c FileTree.skippedDirs = false) dirs
              | None =>
                  exists top n,
                    In top (d :: ds) /\ Js.assoc top cwdEntries = Some n
                    /\ statFails [top] = false
                    /\ FileTree.walkFails statFails readdirFails [top] n
              end).
    { intros E No. rewrite E. specialize (IH acc).
      destruct (fold_left step ds (Some acc)) as [files|].
      - destruct IH as [N IH]. split.
        + intros top n [<-|I] A S; [exfalso; now apply (No n) | now apply N].
        + intros p. rewrite IH. split.
          * intros [H|(top & es' & dirs & name & I & H)]; [now left|].
            right. exists top, es', dirs, name. split; [now right | exact H].
          * intros [H|(top & es' & dirs & name & [<-|I] & A' & S' & H)].
            -- now left.
            -- exfalso. now apply (No _ A').
            -- right. exists top, es', dirs, name. now repeat split.
      - destruct IH as (top & n & I & H). exists top, n.
        split; [now right | exact H]. }
    destruct (Js.assoc d cwdEntries) as [n|] eqn:A.
    + destruct (statFails [d]) eqn:S.
      * apply Skip.
        -- unfold step. now rewrite A, S.
        -- intros n' _ S'. discriminate.
      * assert (E : step (Some acc) d
                    = FileTree.getFilesRecursive statFails readdirFails [d] n
                        acc) by (unfold step; now rewrite A, S).
        rewrite E, getFilesRecursive_spec.
        destruct (FileTree.throwsBelow statFails readdirFails [d] n) eqn:T.
        -- rewrite StepNone. exists d, n. split; [now left|].
           split; [exact A|]. split; [exact S|].
           now apply throwsBelow_walkFails.
        -- specialize (IH (FileTree.filesBelow [d] n acc)).
           destruct (fold_left step ds (Some (FileTree.filesBelow [d] n acc)))
             as [files|].
           ++ destruct IH as [N IH]. split.
              ** intros top n' [<-|I] A' S'; [|now apply N].
                 rewrite A in A'. injection A' as <-.
                 intros W. apply throwsBelow_walkFails in W. congruence.
              ** intros p. rewrite IH, filesBelow_In. cbn [app]. split.
                 --- intros [[H|H]|H].
                     +++ now left.
                     +++ destruct H as (dirs & name & b & E' & At & W & F & _).
                         specialize (W eq_refl). subst b. right.
                         destruct n as [es|b'];
                           [|apply at_NotDir in At as [At _];
                             destruct dirs; discriminate].
                         exists d, es, dirs, name.
                         split; [now left|]. split; [exact A|].
                         split; [exact S|]. split; [exact E'|].
                         split; [exact At|].
                         eapply Forall_impl; [|exact F]. cbv beta.
                         intros c Hc. now apply negb_true_iff.
                     +++ destruct H as (top & es' & dirs & name & I & H).
                         right. exists top, es', dirs, name.
                         split; [now right | exact H].
                 --- intros [H|(top & es' & dirs & name & [<-|I] & A' & S'
                                & E' & At & F)].
                     +++ left. now left.
                     +++ rewrite A in A'. injection A' as ->. left. right.
                         exists dirs, name, true. split; [exact E'|].
                         split; [exact At|]. split; [reflexivity|].
                         split; [|split; [discriminate | reflexivity]].
                         eapply Forall_impl; [|exact F]. cbv beta.
                         intros c Hc. now apply negb_true_iff.
                     +++ right. exists top, es', dirs, name.
                         now repeat split.
           ++ destruct IH as (top & n' & I & H). exists top, n'.
              split; [now right | exact H].
    + apply Skip.
      * unfold step. now rewrite A.
      * intros n' A' _. discriminate.
Qed.

(** X24. The fallback scan of analyze-coverage walks the source directories
    src, lib, app and packages that exist.  When no call throws it returns
    exactly the regular files below them on whose path no directory below
    the source directory has a skipped name; the name of the file itself is
    not looked at.  It throws exactly when a source directory that exists is
    not a directory, or when, in a directory that the walk reaches, the
    listing or the [statSync] of an entry throws. *)
Theorem coverage_scan_finds_files
  (cwdEntries : list (string * FileTree.node)) :
  match FileTree.scanSourceDirs statFails readdirFails cwdEntries with
  | Some files =>
      (forall top n,
         FileTree.walked statFails cwdEntries top n ->
         ~ FileTree.walkFails statFails readdirFails [top] n)
      /\ forall p,
           In p files
           <-> exists top es dirs name,
                 FileTree.walked statFails cwdEntries top (FileTree.Dir es)
                 /\ p = FileTree.relative (top :: dirs ++ [name])
                 /\ FileTree.at_ (FileTree.Dir es) (dirs ++ [name])
                      (FileTree.NotDir true)
                 /\ Forall (fun c => Js.mem c FileTree.skippedDirs = false)
                           dirs
  | None =>
      exists top n,
        FileTree.walked statFails cwdEntries top n
        /\ FileTree.walkFails statFails readdirFails [top] n
  end.
Proof.
  unfold FileTree.scanSourceDirs, FileTree.walked.
  pose proof (scanSourceDirs_fold cwdEntries FileTree.SOURCE_DIRS []) as H.
  match goal with
  | |- match ?x with _ => _ end => destruct x as [files|]
  end.
  - destruct H as [N H]. split.
    + intros top n (I & A & S). now apply N.
    + intros p. rewrite H. cbn [In]. split.
      * intros [[]|(top & es & dirs & name & I & A & S & X)].
        exists top, es, dirs, name. now repeat split.
      * intros (top & es & dirs & name & (I & A & S) & X). right.
        exists top, es, dirs, name. now repeat split.
  - destruct H as (top & n & I & A & S & W). exists top, n. now repeat split.
Qed.

End WalkFailures.

(* ------------------------------------------------------------------ *)
(** ** render-relationships *)











(* ------------------------------------------------------------------ *)
(** ** lint-documentation *)















(** *** The linter and the repair see the same headings *)

(** The result of the matcher depends on its continuation only at the
    states that lie further on in the input. *)
Lemma run_ext (r : regex) :
  forall (st : state) (k k' : state -> option state),
    (forall s, (exists w, rest st = (w ++ rest s)%list) -> k s = k' s) ->
    run r st k = run r st k'.
Proof.
  induction r as [p| |a IHa b IHb|a IHa b IHb|g a IHa|n a IHa| |];
    intros st k k' H.
  - rewrite !run_chr. destruct (rest st) as [|c t] eqn:R; [reflexivity|].
    destruct (p c); [|reflexivity]. apply H. exists [c]. reflexivity.
  - cbn [run]. apply H. now exists [].
  - rewrite !run_seq. apply IHa. intros s1 [w1 E1]. apply IHb.
    intros s [w E]. apply H. exists (w1 ++ w)%list.
    now rewrite E1, E, app_assoc.
  - cbn [run]. rewrite (IHa st k k' H), (IHb st k k' H). reflexivity.
  - pose (iter := fun (k0 : state -> option state) =>
      fix iter (n : nat) (st0 : state) {struct n} : option state :=
        match n with
        | O => k0 st0
        | S n' =>
            let again (_ : unit) :=
              run a st0 (fun st1 => if (pos st0 <? pos st1)%nat
                                    then iter n' st1 else None) in
            if g then
              match again tt with
              | Some e => Some e
              | None => k0 st0
              end
            else
              match k0 st0 with
              | Some e => Some e
              | None => again tt
              end
        end).
    change (run (Star g a) st k) with (iter k (S (List.length (rest st))) st).
    change (run (Star g a) st k') with (iter k' (S (List.length (rest st))) st).
    assert (G : forall n st0,
      (exists w, rest st = (w ++ rest st0)%list) ->
      iter k n st0 = iter k' n st0).
    { induction n as [|n IHn]; intros st0 [w0 E0].
      - cbn [iter]. apply H. now exists w0.
      - change (iter k (S n) st0)
          with (if g then
                  match run a st0 (fun st1 => if (pos st0 <? pos st1)%nat
                                              then iter k n st1 else None) with
                  | Some e => Some e
                  | None => k st0
                  end
                else
                  match k st0 with
                  | Some e => Some e
                  | None =>
                      run a st0 (fun st1 => if (pos st0 <? pos st1)%nat
                                            then iter k n st1 else None)
                  end).
        change (iter k' (S n) st0)
          with (if g then
                  match run a st0 (fun st1 => if (pos st0 <? pos st1)%nat
                                              then iter k' n st1 else None) with
                  | Some e => Some e
                  | None => k' st0
                  end
                else
                  match k' st0 with
                  | Some e => Some e
                  | None =>
                      run a st0 (fun st1 => if (pos st0 <? pos st1)%nat
                                            then iter k' n st1 else None)
                  end).
        assert (Ea : run a st0 (fun st1 => if (pos st0 <? pos st1)%nat
                                           then iter k n st1 else None)
                     = run a st0 (fun st1 => if (pos st0 <? pos st1)%nat
                                             then iter k' n st1 else None)).
        { apply IHa. intros s1 [w1 E1].
          destruct (pos st0 <? pos s1)%nat; [|reflexivity].
          apply IHn. exists (w0 ++ w1)%list. now rewrite E0, E1, app_assoc. }
        rewrite Ea. rewrite (H st0) by now exists w0. reflexivity. }
    apply G. now exists [].
  - cbn [run]. apply IHa. intros s1 [w1 E1]. apply H. exists w1. exact E1.
  - cbn [run]. destruct (xorb _ _); [|reflexivity]. apply H. now exists [].
  - cbn [run]. destruct (prev st) as [c|].
    + destruct (isLineTerminator c); [|reflexivity]. apply H. now exists [].
    + apply H. now exists [].
Qed.

(** A greedy repetition of a class over an input made of the class runs
    to the end of the input first. *)
Lemma star_all (p : ascii -> bool) (t : list ascii) :
  Forall (fun c => p c = true) t ->
  forall (pr : option ascii) (i : nat) (cs : list (nat * list ascii)),
  exists s_end,
    rest s_end = [] /\ caps s_end = cs
    /\ pos s_end = (i + List.length t)%nat
    /\ forall (K : state -> option state) (e : state),
         K s_end = Some e ->
         run (Star true (Chr p)) (Regex.mkState pr t i cs) K = Some e.
Proof.
  induction 1 as [|c t Hc _ IH]; intros pr i cs.
  - exists (Regex.mkState pr [] i cs). cbn [rest caps pos List.length].
    repeat split; [lia|]. intros K e HK. now rewrite run_star_chr_nil.
  - destruct (IH (Some c) (S i) cs) as (s_end & R & C & P & HK).
    exists s_end. repeat split; auto; [cbn [List.length]; lia|].
    intros K e HKe. rewrite run_star_chr_cons, Hc.
    now rewrite (HK K e HKe).
Qed.

Lemma heading_text_to_the_end (s2 : state) :
  Forall (fun c => isLineTerminator c = false) (rest s2) ->
  run (Group 2 (plus dot)) s2 Autofix.atEnd = run (Group 2 (plus dot)) s2 Some.
Proof.
  intros F. cbn [run]. unfold plus, dot. rewrite !run_seq, !run_chr.
  destruct (rest s2) as [|c t] eqn:R; [reflexivity|].
  inversion F as [|? ? Hc Ft]; subst. rewrite Hc. cbn [negb].
  assert (Ft' : Forall (fun c => negb (isLineTerminator c) = true) t).
  { eapply Forall_impl; [|exact Ft]. cbv beta. intros x ->. reflexivity. }
  destruct (star_all _ Ft' (Some c) (S (pos s2)) (caps s2))
    as (s_end & Re & Ce & Pe & HK).
  set (upd := fun st1 : state =>
         Regex.mkState (prev st1) (rest st1) (pos st1)
           ((2%nat, firstn (pos st1 - pos s2) (c :: t)) :: caps st1)).
  transitivity (Some (upd s_end)); [|symmetry].
  - apply (HK (fun st1 => Autofix.atEnd (upd st1)) (upd s_end)).
    unfold Autofix.atEnd, upd. cbn [rest]. now rewrite Re.
  - now apply (HK (fun st1 => Some (upd st1)) (upd s_end)).
Qed.

Lemma heading_matches_agree (l : string) :
  Forall (fun c => isLineTerminator c = false) (list_ascii_of_string l) ->
  Autofix.headingMatch l = Lint.headingMatch l.
Proof.
  intros F. unfold Autofix.headingMatch, Lint.headingMatch,
    Autofix.matchWhole, SectionIndex.matchAtStart.
  assert (E : run SectionIndex.headingPattern
                (Regex.mkState None (list_ascii_of_string l) 0 [])
                Autofix.atEnd
              = run SectionIndex.headingPattern
                  (Regex.mkState None (list_ascii_of_string l) 0 []) Some).
  { unfold SectionIndex.headingPattern. cbn [seqs]. rewrite !run_seq.
    apply run_ext. intros s1 [w1 E1]. rewrite 2 run_seq.
    apply run_ext. intros s2 [w2 E2].
    apply heading_text_to_the_end. cbn [rest] in E1.
    rewrite E1, E2 in F. apply Forall_app in F as [_ F].
    now apply Forall_app in F as [_ F]. }
  now rewrite E.
Qed.

Lemma lastHeading_snoc (headings : list (nat * string * nat))
  (h : nat * string * nat) :
  Lint.lastHeading (headings ++ [h]) = Some h.
Proof.
  unfold Lint.lastHeading. rewrite length_app. cbn [List.length].
  rewrite nth_error_app2 by lia.
  replace (List.length headings + 1 - 1 - List.length headings)%nat
    with 0%nat by lia.
  reflexivity.
Qed.

Lemma heading_loops_agree (ls : list string) :
  Forall (fun l => Forall (fun c => isLineTerminator c = false)
                          (list_ascii_of_string l)) ls ->
  forall (i lastLevel : nat) (headings : list (nat * string * nat))
         (issues : list Lint.Issue) (fixedLines : list string)
         (details : list Autofix.FixDetail) (madeChanges : bool),
    match Lint.lastHeading headings with
    | Some (prevLevel, _, _) => lastLevel = prevLevel /\ (1 <= prevLevel)%nat
    | None => lastLevel = 0%nat
    end ->
    map Lint.line issues = map Autofix.line details ->
    map Lint.line (Lint.headingStructureLoop ls i headings issues)
    = map Autofix.line
        (snd (fst (Autofix.fixLoop ls i lastLevel fixedLines details
                     madeChanges))).
Proof.
  induction 1 as [|l ls Hl _ IH];
    intros i lastLevel headings issues fixedLines details madeChanges Hlast E.
  - exact E.
  - cbn [Lint.headingStructureLoop Autofix.fixLoop].
    rewrite (@heading_matches_agree l Hl).
    destruct (Lint.headingMatch l) as [[level text]|] eqn:Hm.
    + assert (Hlevel : (1 <= level)%nat).
      { rewrite <- (@heading_matches_agree l Hl) in Hm.
        apply headingMatch_shape in Hm. lia. }
      assert (Hnext : match Lint.lastHeading
                              (headings ++ [(level, text, (i + 1)%nat)]) with
                      | Some (prevLevel, _, _) =>
                          level = prevLevel /\ (1 <= prevLevel)%nat
                      | None => level = 0%nat
                      end).
      { rewrite lastHeading_snoc. now split. }
      destruct (Lint.lastHeading headings) as [[[prevLevel ?] ?]|].
      * destruct Hlast as [-> Hp].
        rewrite (proj2 (Nat.ltb_lt 0 prevLevel)) by lia. rewrite andb_true_r.
        destruct (prevLevel + 1 <? level)%nat.
        -- apply IH; [exact Hnext|]. rewrite !map_app, E. reflexivity.
        -- now apply IH.
      * subst lastLevel. rewrite andb_false_r. now apply IH.
    + now apply IH.
Qed.

Lemma splitOn_chars (sep : ascii) (s : string) :
  Forall (fun p => forall c, In c (list_ascii_of_string p) ->
                             In c (list_ascii_of_string s))
         (Tracker.splitOn sep s).
Proof.
  induction s as [|c s IH]; cbn [Tracker.splitOn].
  - constructor; [intros c []|constructor].
  - destruct (Ascii.eqb c sep).
    + constructor; [intros x []|].
      eapply Forall_impl; [|exact IH]. cbv beta. intros p Hp x Hx.
      right. now apply Hp.
    + destruct (Tracker.splitOn sep s) as [|piece pieces].
      * constructor; [|constructor]. intros x [<-|[]]. now left.
      * inversion IH as [|? ? Hp Hps]; subst. constructor.
        -- intros x [<-|Hx]; [now left | right; now apply Hp].
        -- eapply Forall_impl; [|exact Hps]. cbv beta. intros p Hq x Hx.
           right. now apply Hq.
Qed.

(** X27. On a text without carriage returns the linter and the repair
    agree on the heading structure: the rule heading-structure reports the
    very lines that [fixHeadingStructure] records a fix for, so that the rule
    is silent exactly when the repair returns the text as it is. *)
Theorem lint_and_fix_agree_on_headings (content : string) :
  ~ In "013"%char (list_ascii_of_string content) ->
  map Lint.line (Lint.headingStructure content)
  = map Autofix.line (snd (Autofix.fixHeadingStructure content))
  /\ (Lint.headingStructure content = []
      <-> fst (Autofix.fixHeadingStructure content) = content).
Proof.
  intros N.
  assert (F : Forall (fun l => Forall (fun c => isLineTerminator c = false)
                                      (list_ascii_of_string l))
                     (Tracker.splitOn newline content)).
  { pose proof (splitOn_pieces newline content) as P.
    pose proof (splitOn_chars newline content) as Q.
    rewrite Forall_forall in P, Q |- *. intros l Hl.
    apply Forall_forall. intros c Hc.
    destruct (isLineTerminator c) eqn:T; [|reflexivity]. exfalso.
    unfold isLineTerminator in T. cbv zeta in T.
    apply orb_true_iff in T as [T|T]; apply Nat.eqb_eq in T.
    - apply (P l Hl). replace newline with c; [exact Hc|].
      rewrite <- (ascii_nat_embedding c), T. reflexivity.
    - apply N. replace "013"%char with c; [now apply (Q l Hl)|].
      rewrite <- (ascii_nat_embedding c), T. reflexivity. }
  assert (E : map Lint.line (Lint.headingStructure content)
              = map Autofix.line (snd (Autofix.fixHeadingStructure content))).
  { unfold Lint.headingStructure, Autofix.fixHeadingStructure.
    rewrite (@heading_loops_agree _ F 0 0 [] [] [] [] false);
      [|reflexivity|reflexivity].
    destruct (Autofix.fixLoop _ 0 0 [] [] false) as [[f d] m]. reflexivity. }
  split; [exact E|].
  destruct (fixHeadingStructure_parts content) as (_ & _ & _ & H4 & _).
  cbv zeta in H4. rewrite H4. split; intros Z; rewrite Z in E.
  - destruct (snd (Autofix.fixHeadingStructure content));
      [reflexivity | discriminate].
  - destruct (Lint.headingStructure content); [reflexivity | discriminate].
Qed.

Lemma lint_and_fix_agree_on_headings_witness :
  let content := String "#" (String " " (String "A" (String newline
                   (String "#" (String "#" (String "#" (String " "
                     (String "B" ""))))))))  in
  ~ In "013"%char (list_ascii_of_string content)
  /\ map Lint.line (Lint.headingStructure content) = [2%nat]
  /\ map Lint.line (Lint.headingStructure content)
     = map Autofix.line (snd (Autofix.fixHeadingStructure content)).
Proof.
  cbv zeta.
  assert (N : ~ In "013"%char
                (list_ascii_of_string
                   (String "#" (String " " (String "A" (String newline
                     (String "#" (String "#" (String "#" (String " "
                       (String "B" ""))))))))))).
  { intros H. vm_compute in H.
    repeat (destruct H as [H|H]; [discriminate|]). exact H. }
  split; [exact N|]. split; [vm_compute; reflexivity|].
  exact (proj1 (lint_and_fix_agree_on_headings _ N)).
Defined.

(** *** Duplicate headings *)

Lemma assoc_snoc {A : Type} (t k : string) (v : A) (l : list (string * A)) :
  Js.assoc t (l ++ [(k, v)])
  = match Js.assoc t l with
    | Some n => Some n
    | None => if String.eqb t k then Some v else None
    end.
Proof.
  induction l as [|[k' v'] l IH]; cbn [app Js.assoc]; [reflexivity|].
  destruct (String.eqb t k'); [reflexivity | exact IH].
Qed.

Lemma headingTexts_app (a b : list string) :
  Lint.headingTexts (a ++ b)
  = (Lint.headingTexts a ++ Lint.headingTexts b)%list.
Proof. unfold Lint.headingTexts. apply flat_map_app. Qed.

Lemma textAt_prefix (pre ls : list string) (k : nat) (t : string) :
  (k < List.length pre)%nat -> Lint.textAt (pre ++ ls) k t ->
  In t (Lint.headingTexts pre).
Proof.
  intros L (l & m & N & H & E). rewrite nth_error_app1 in N by exact L.
  apply nth_error_In in N. unfold Lint.headingTexts.
  apply in_flat_map. exists l. split; [exact N|]. rewrite H. now left.
Qed.

Lemma nodup_length_NoDup (l : list string) :
  List.length (nodup string_dec l) = List.length l <-> NoDup l.
Proof.
  split.
  - induction l as [|x l IH]; [constructor|]. cbn [nodup].
    pose proof (nodup_incl string_dec l l) as _.
    assert (Le : (List.length (nodup string_dec l) <= List.length l)%nat).
    { clear. induction l as [|y l IH]; [reflexivity|]. cbn [nodup].
      destruct (in_dec string_dec y l); cbn [List.length]; lia. }
    destruct (in_dec string_dec x l) as [I|N]; cbn [List.length]; intros E.
    + lia.
    + constructor; [exact N|]. apply IH. lia.
  - intros H. now rewrite nodup_fixed_point.
Qed.

Lemma duplicateLoop_spec (all : list string) :
  forall (ls pre : list string) (headings : list (string * nat))
         (issues : list Lint.Issue),
    all = (pre ++ ls)%list ->
    NoDup (map fst headings) ->
    (forall t, In t (map fst headings) <-> In t (Lint.headingTexts pre)) ->
    (forall t n, Js.assoc t headings = Some n ->
       exists j, n = (j + 1)%nat /\ (j < List.length pre)%nat
                 /\ Lint.textAt all j t
                 /\ forall k, (k < j)%nat -> ~ Lint.textAt all k t) ->
    (List.length issues + List.length headings
     = List.length (Lint.headingTexts pre))%nat ->
    Forall (Lint.duplicateOf all) issues ->
    let r := Lint.duplicateLoop ls (List.length pre) headings issues in
    Forall (Lint.duplicateOf all) r
    /\ exists keys,
         NoDup keys
         /\ (forall t, In t keys <-> In t (Lint.headingTexts all))
         /\ (List.length r + List.length keys
             = List.length (Lint.headingTexts all))%nat.
Proof.
  induction ls as [|l ls IH]; intros pre headings issues E I1 I2 I3 I4 I5;
    cbv zeta.
  - rewrite app_nil_r in E. subst pre. cbn [Lint.duplicateLoop].
    split; [exact I5|]. exists (map fst headings).
    rewrite length_map. split; [exact I1|]. split; [exact I2 | exact I4].
  - assert (E' : all = ((pre ++ [l]) ++ ls)%list)
      by (now rewrite <- app_assoc).
    assert (Hl : List.length (pre ++ [l]) = S (List.length pre))
      by (rewrite length_app; cbn; lia).
    assert (Hnth : nth_error all (List.length pre) = Some l).
    { rewrite E, nth_error_app2 by lia. now rewrite Nat.sub_diag. }
    cbn [Lint.duplicateLoop]. rewrite <- Hl.
    destruct (Lint.headingText l) as [match1|] eqn:Hh.
    + cbv zeta.
      assert (Ht : Lint.headingTexts (pre ++ [l])
                   = (Lint.headingTexts pre ++ [Lint.normalized match1])%list).
      { rewrite headingTexts_app. unfold Lint.headingTexts at 2.
        cbn [flat_map]. now rewrite Hh. }
      assert (Hat : Lint.textAt all (List.length pre)
                      (Lint.normalized match1)).
      { now exists l, match1. }
      destruct (Js.assoc (Lint.normalized match1) headings) as [first|] eqn:A.
      * destruct (I3 _ _ A) as (j & -> & Lj & Tj & Fj).
        apply (IH (pre ++ [l])%list); auto.
        -- intros t. rewrite Ht, in_app_iff, <- I2. split; [now left|].
           intros [H|[<-|[]]]; [exact H|].
           apply assoc_In in A. now apply (in_map fst) in A.
        -- intros t n Hn. destruct (I3 t n Hn) as (j' & -> & L' & T' & F').
           exists j'. repeat split; auto. lia.
        -- rewrite Ht, !length_app. cbn [List.length]. lia.
        -- apply Forall_app. split; [exact I5|]. constructor; [|constructor].
           exists (List.length pre), j, l, match1.
           cbn [Lint.line Lint.message]. now repeat split.
      * assert (Nin : ~ In (Lint.normalized match1) (map fst headings)).
        { apply mem_false. now apply assoc_none_iff. }
        apply (IH (pre ++ [l])%list); auto.
        -- rewrite map_app. cbn [map fst].
           apply NoDup_app; [exact I1 | repeat constructor; intros [] |].
           intros x Hx [<-|[]]. now apply Nin.
        -- intros t. rewrite map_app, Ht, !in_app_iff, I2. reflexivity.
        -- intros t n Hn. rewrite assoc_snoc in Hn.
           destruct (Js.assoc t headings) as [n'|] eqn:A'.
           ++ injection Hn as <-.
              destruct (I3 t n' A') as (j' & -> & L' & T' & F').
              exists j'. repeat split; auto. lia.
           ++ destruct (String.eqb_spec t (Lint.normalized match1))
                as [->|]; [|discriminate].
              injection Hn as <-. exists (List.length pre).
              repeat split; auto; [lia|].
              intros k Lk Tk. apply Nin. apply I2.
              rewrite E in Tk. now apply textAt_prefix in Tk.
        -- rewrite Ht, !length_app. cbn [List.length]. lia.
    + assert (Ht : Lint.headingTexts (pre ++ [l]) = Lint.headingTexts pre).
      { rewrite headingTexts_app. unfold Lint.headingTexts at 2.
        cbn [flat_map]. rewrite Hh. now rewrite app_nil_r. }
      apply (IH (pre ++ [l])%list); auto.
      * intros t. now rewrite Ht.
      * intros t n Hn. destruct (I3 t n Hn) as (j' & -> & L' & T' & F').
        exists j'. repeat split; auto. lia.
      * now rewrite Ht.
Qed.

(** X28. The rule duplicate-headings reports a heading exactly when an
    earlier heading has the same text up to case and surrounding white
    space: every issue is about such a heading and names the first line with
    that text, the number of issues is the number of headings minus the
    number of different texts, and there is no issue exactly when the texts
    of the headings are pairwise different. *)
Theorem duplicate_headings_reported (content : string) :
  let ls := Tracker.splitOn newline content in
  let issues := Lint.duplicateHeadings content in
  Forall (Lint.duplicateOf ls) issues
  /\ (List.length issues
      + List.length (nodup string_dec (Lint.headingTexts ls))
      = List.length (Lint.headingTexts ls))%nat
  /\ (issues = [] <-> NoDup (Lint.headingTexts ls)).
Proof.
  intros ls issues. subst issues. unfold Lint.duplicateHeadings. fold ls.
  destruct (@duplicateLoop_spec ls ls [] [] [] eq_refl) as (F & keys & K1 & K2 & K3);
    try (now constructor).
  - intros t n [=].
  - cbv zeta in F, K3. cbn [List.length] in F, K3.
    set (r := Lint.duplicateLoop ls 0 [] []) in *.
    assert (P : List.length keys
                = List.length (nodup string_dec (Lint.headingTexts ls))).
    { apply Permutation_length. apply NoDup_Permutation;
        [exact K1 | apply NoDup_nodup|].
      intros t. rewrite K2. symmetry. apply nodup_In. }
    split; [exact F|]. split; [lia|].
    rewrite <- nodup_length_NoDup. split.
    + intros Z. rewrite Z in K3. cbn [List.length] in K3. lia.
    + intros Z. destruct r; [reflexivity | cbn [List.length] in K3; lia].
Qed.

(* ------------------------------------------------------------------ *)
(** ** update-timestamps *)

(** A greedy repetition of a class before a continuation that cannot fail
    takes all the characters of the class that come first. *)
Lemma star_total (p : ascii -> bool) (K : state -> option state) :
  (forall s, K s <> None) ->
  forall (t : list ascii) (pr : option ascii) (i : nat)
         (cs : list (nat * list ascii)),
  exists pr' i',
    run (Star true (Chr p)) (Regex.mkState pr t i cs) K
    = K (Regex.mkState pr' (Timestamps.dropWhile p t) i' cs).
Proof.
  intros HK. induction t as [|c t IH]; intros pr i cs.
  - exists pr, i. now rewrite run_star_chr_nil.
  - rewrite run_star_chr_cons. cbn [Timestamps.dropWhile].
    destruct (p c).
    + destruct (IH (Some c) (S i) cs) as (pr' & i' & E). exists pr', i'.
      rewrite E.
      destruct (K (Regex.mkState pr' (Timestamps.dropWhile p t) i' cs))
        eqn:X; [reflexivity|]. now apply HK in X.
    + now exists pr, i.
Qed.

Lemma timestamp_tail (s2 : state) :
  exists e,
    rest e = Timestamps.dropWhile (fun c => negb (isLineTerminator c))
               (Timestamps.dropWhile JsString.isSpace (rest s2))
    /\ run (Star true space) s2 (fun s3 => run (Star true dot) s3 Some)
       = Some e.
Proof.
  assert (D : forall s3, exists e,
    rest e = Timestamps.dropWhile (fun c => negb (isLineTerminator c))
               (rest s3)
    /\ run (Star true dot) s3 Some = Some e).
  { intros [pr t i cs]. unfold dot.
    destruct (@star_total (fun c => negb (isLineTerminator c)) Some
                ltac:(discriminate) t pr i cs) as (pr' & i' & E).
    rewrite E. eexists. split; [|reflexivity]. reflexivity. }
  destruct s2 as [pr t i cs]. unfold space.
  destruct (@star_total JsString.isSpace
              (fun s3 => run (Star true dot) s3 Some)
              ltac:(intros s3; destruct (D s3) as (e & _ & ->); discriminate)
              t pr i cs) as (pr' & i' & E).
  rewrite E.
  destruct (D (Regex.mkState pr' (Timestamps.dropWhile JsString.isSpace t)
                 i' cs)) as (e & R & X).
  exists e. split; [exact R | exact X].
Qed.

Lemma run_lit_spec (str : string) :
  forall (s : list ascii) (pr : option ascii) (i : nat)
         (cs : list (nat * list ascii)) (K : state -> option state),
    if Timestamps.startsWithL (list_ascii_of_string str) s
    then exists pr' i',
           run (lit str) (Regex.mkState pr s i cs) K
           = K (Regex.mkState pr'
                  (skipn (List.length (list_ascii_of_string str)) s) i' cs)
    else run (lit str) (Regex.mkState pr s i cs) K = None.
Proof.
  induction str as [|c str IH]; intros s pr i cs K.
  - cbn [list_ascii_of_string Timestamps.startsWithL lit run List.length skipn].
    now exists pr, i.
  - cbn [list_ascii_of_string lit List.length]. rewrite !run_seq.
    unfold chr. rewrite !run_chr. cbn [rest pos caps].
    destruct s as [|d s]; cbn [Timestamps.startsWithL skipn]; [reflexivity|].
    destruct (Ascii.eqb c d); cbn [andb]; [|reflexivity].
    apply IH.
Qed.

Lemma startsWithL_snoc (a : list ascii) (c : ascii) (s : list ascii) :
  Timestamps.startsWithL (a ++ [c]) s
  = Timestamps.startsWithL a s
    && match skipn (List.length a) s with
       | d :: _ => Ascii.eqb c d
       | [] => false
       end.
Proof.
  revert s. induction a as [|x a IH]; intros s.
  - cbn [app Timestamps.startsWithL List.length skipn].
    destruct s as [|d s]; [reflexivity|]. now rewrite andb_true_r.
  - destruct s as [|d s]; [reflexivity|].
    cbn [app Timestamps.startsWithL List.length skipn]. rewrite IH.
    now rewrite andb_assoc.
Qed.

Lemma skipn_S_tail (n : nat) (s : list ascii) :
  skipn (S n) s = match skipn n s with
                  | _ :: t => t
                  | [] => []
                  end.
Proof.
  revert s. induction n as [|n IH]; intros s.
  - destruct s; reflexivity.
  - destruct s as [|c s]; [reflexivity|]. cbn [skipn] in *. apply IH.
Qed.

(** The matcher on the pattern of the timestamp line. *)
Lemma run_timestamp (p : option ascii) (s : list ascii) (i : nat) :
  match run Timestamps.TIMESTAMP_PATTERN (Regex.mkState p s i []) Some with
  | Some e => Timestamps.headOK p s = true /\ rest e = Timestamps.tailOf s
  | None => Timestamps.headOK p s = false
  end.
Proof.
  unfold Timestamps.TIMESTAMP_PATTERN. cbn [seqs alts]. rewrite run_seq.
  unfold Timestamps.headOK.
  assert (LS : forall k,
    run LineStart (Regex.mkState p s i []) k
    = if Timestamps.lineStartOK p then k (Regex.mkState p s i []) else None).
  { intros k. cbn [run prev Timestamps.lineStartOK]. now destruct p. }
  rewrite LS. clear LS.
  destruct (Timestamps.lineStartOK p); cbn [andb]; [|reflexivity].
  rewrite run_seq.
  set (K := fun s2 : state =>
              run (Seq (chr ":") (Seq (Star true space) (Star true dot)))
                  s2 Some).
  assert (HK : forall (t : list ascii) pr' i' cs',
    match t with
    | d :: t' =>
        if Ascii.eqb ":" d
        then exists e,
               rest e = Timestamps.dropWhile
                          (fun c => negb (isLineTerminator c))
                          (Timestamps.dropWhile JsString.isSpace t')
               /\ K (Regex.mkState pr' t i' cs') = Some e
        else K (Regex.mkState pr' t i' cs') = None
    | [] => K (Regex.mkState pr' t i' cs') = None
    end).
  { intros t pr' i' cs'. unfold K. rewrite run_seq. unfold chr.
    rewrite run_chr. cbn [rest pos caps].
    destruct t as [|d t']; [reflexivity|].
    destruct (Ascii.eqb ":" d); [|reflexivity].
    rewrite run_seq.
    destruct (timestamp_tail (Regex.mkState (Some d) t' (S i') cs'))
      as (e & R & X).
    exists e. split; [exact R | exact X]. }
  change (run (Group 1 (Alt (lit "Last Updated") (lit "Updated")))
              (Regex.mkState p s i []) K)
    with (match run (lit "Last Updated") (Regex.mkState p s i [])
                  (fun st1 => K (Regex.mkState (prev st1) (rest st1) (pos st1)
                     ((1%nat, firstn (pos st1 - i) s) :: caps st1))) with
          | Some e => Some e
          | None =>
              run (lit "Updated") (Regex.mkState p s i [])
                (fun st1 => K (Regex.mkState (prev st1) (rest st1) (pos st1)
                   ((1%nat, firstn (pos st1 - i) s) :: caps st1)))
          end).
  change Timestamps.longHead
    with (list_ascii_of_string "Last Updated" ++ [":"%char])%list.
  change Timestamps.shortHead
    with (list_ascii_of_string "Updated" ++ [":"%char])%list.
  rewrite !startsWithL_snoc.
  unfold Timestamps.tailOf.
  change Timestamps.longHead
    with (list_ascii_of_string "Last Updated" ++ [":"%char])%list.
  change Timestamps.shortHead
    with (list_ascii_of_string "Updated" ++ [":"%char])%list.
  rewrite !startsWithL_snoc. rewrite !length_app.
  cbn [List.length]. rewrite !Nat.add_1_r.
  pose proof (run_lit_spec "Last Updated" s p i []
    (fun st1 => K (Regex.mkState (prev st1) (rest st1) (pos st1)
                     ((1%nat, firstn (pos st1 - i) s) :: caps st1)))) as HA.
  pose proof (run_lit_spec "Updated" s p i []
    (fun st1 => K (Regex.mkState (prev st1) (rest st1) (pos st1)
                     ((1%nat, firstn (pos st1 - i) s) :: caps st1)))) as HB.
  assert (Excl : Timestamps.startsWithL (list_ascii_of_string "Last Updated") s
                 = true ->
                 Timestamps.startsWithL (list_ascii_of_string "Updated") s
                 = false).
  { destruct s as [|d s]; [discriminate|].
    cbn [list_ascii_of_string Timestamps.startsWithL].
    destruct (Ascii.eqb_spec "L" d) as [<-|]; [reflexivity | discriminate]. }
  destruct (Timestamps.startsWithL (list_ascii_of_string "Last Updated") s)
    eqn:SA.
  - rewrite (Excl eq_refl) in HB |- *. rewrite HB. cbn [andb orb].
    destruct HA as (pr' & i' & ->). cbn [rest pos caps prev].
    rewrite orb_false_r.
    pose proof (HK (skipn (List.length (list_ascii_of_string "Last Updated")) s)
                   pr' i'
                   [(1%nat, firstn (i' - i) s)]) as H.
    rewrite (skipn_S_tail (List.length (list_ascii_of_string "Last Updated")) s).
    destruct (skipn (List.length (list_ascii_of_string "Last Updated")) s)
      as [|d t']; [now rewrite H|].
    destruct (Ascii.eqb ":" d).
    + destruct H as (e & R & ->). now split.
    + now rewrite H.
  - rewrite HA. cbn [andb orb].
    destruct (Timestamps.startsWithL (list_ascii_of_string "Updated") s)
      eqn:SB; cbn [andb].
    + destruct HB as (pr' & i' & ->). cbn [rest pos caps prev].
      pose proof (HK (skipn (List.length (list_ascii_of_string "Updated")) s)
                     pr' i' [(1%nat, firstn (i' - i) s)]) as H.
      rewrite (skipn_S_tail (List.length (list_ascii_of_string "Updated")) s).
      destruct (skipn (List.length (list_ascii_of_string "Updated")) s)
        as [|d t']; [now rewrite H|].
      destruct (Ascii.eqb ":" d).
      * destruct H as (e & R & ->). now split.
      * now rewrite H.
    + now rewrite HB.
Qed.

Lemma search_locate (s : list ascii) :
  forall (p : option ascii) (i : nat),
    match search Timestamps.TIMESTAMP_PATTERN p s i, Timestamps.locate p s with
    | Some (st, e), Some (pre, post) =>
        pos st = (i + List.length pre)%nat /\ rest e = post
        /\ firstn (List.length pre) s = pre
    | None, None => True
    | _, _ => False
    end.
Proof.
  induction s as [|c t IH]; intros p i.
  - cbn [search Timestamps.locate].
    pose proof (run_timestamp p [] i) as H.
    destruct (run _ (Regex.mkState p [] i []) Some) as [e|].
    + destruct H as [-> R]. cbn [pos List.length firstn].
      repeat split; auto; try lia.
    + now rewrite H.
  - cbn [search Timestamps.locate].
    pose proof (run_timestamp p (c :: t) i) as H.
    destruct (run _ (Regex.mkState p (c :: t) i []) Some) as [e|].
    + destruct H as [-> R]. cbn [pos List.length firstn].
      repeat split; auto; try lia.
    + rewrite H. specialize (IH (Some c) (S i)).
      destruct (search _ (Some c) t (S i)) as [[st e]|];
        destruct (Timestamps.locate (Some c) t) as [[pre post]|]; auto.
      destruct IH as (P & R & F). cbn [List.length firstn].
      split; [lia|]. split; [exact R | now rewrite F].
Qed.

Lemma test_locate (content : string) :
  Regex.test Timestamps.TIMESTAMP_PATTERN content
  = match Timestamps.locate None (list_ascii_of_string content) with
    | Some _ => true
    | None => false
    end.
Proof.
  unfold Regex.test, exec.
  pose proof (search_locate (list_ascii_of_string content) None 0) as H.
  destruct (search _ None _ 0) as [[st e]|];
    destruct (Timestamps.locate None _) as [[pre post]|];
    cbn [option_map]; tauto.
Qed.

Lemma replaceFirst_locate (replacement content : string) :
  Timestamps.replaceFirst Timestamps.TIMESTAMP_PATTERN replacement content
  = match Timestamps.locate None (list_ascii_of_string content) with
    | Some (pre, post) =>
        string_of_list_ascii
          (pre ++ list_ascii_of_string replacement ++ post)
    | None => content
    end.
Proof.
  unfold Timestamps.replaceFirst.
  pose proof (search_locate (list_ascii_of_string content) None 0) as H.
  destruct (search _ None _ 0) as [[st e]|];
    destruct (Timestamps.locate None _) as [[pre post]|];
    try tauto.
  destruct H as (P & R & F). cbn [Nat.add] in P. now rewrite P, R, F.
Qed.

(** *** Where a match can start *)

Lemma startsWithL_upto (L u : list ascii) (d : ascii) (y : list ascii) :
  Forall (fun c => isLineTerminator c = false) L ->
  isLineTerminator d = true ->
  Timestamps.startsWithL L (u ++ d :: y) = Timestamps.startsWithL L u.
Proof.
  intros F T. revert u. induction F as [|c L Hc _ IH]; intros u.
  - reflexivity.
  - destruct u as [|x u]; cbn [app Timestamps.startsWithL].
    + destruct (Ascii.eqb_spec c d) as [->|]; [congruence | reflexivity].
    + now rewrite IH.
Qed.

Lemma heads_one_line :
  Forall (fun c => isLineTerminator c = false) Timestamps.longHead
  /\ Forall (fun c => isLineTerminator c = false) Timestamps.shortHead.
Proof. split; repeat constructor. Qed.

Lemma headOK_upto (p : option ascii) (u : list ascii) (d : ascii)
  (y : list ascii) :
  isLineTerminator d = true ->
  Timestamps.headOK p (u ++ d :: y) = Timestamps.headOK p u.
Proof.
  intros T. unfold Timestamps.headOK.
  now rewrite !(@startsWithL_upto _ _ _ _ (proj1 heads_one_line) T),
              !(@startsWithL_upto _ _ _ _ (proj2 heads_one_line) T).
Qed.

Lemma headOK_nil (p : option ascii) : Timestamps.headOK p [] = false.
Proof. unfold Timestamps.headOK. cbn. now rewrite andb_false_r. Qed.

Lemma headOK_lineStart (p : option ascii) (z : list ascii) :
  Timestamps.headOK p z = true -> Timestamps.lineStartOK p = true.
Proof. unfold Timestamps.headOK. intros H. now apply andb_true_iff in H. Qed.

Lemma locate_at_head (p : option ascii) (z : list ascii) :
  Timestamps.headOK p z = true ->
  Timestamps.locate p z = Some ([], Timestamps.tailOf z).
Proof. intros H. destruct z; cbn [Timestamps.locate]; now rewrite H. Qed.

Lemma locate_None_noHead (U : list ascii) :
  forall (p : option ascii) (W : list ascii),
    Timestamps.locate p (U ++ W) = None ->
    (W = [] \/ exists d y, W = d :: y /\ isLineTerminator d = true) ->
    Timestamps.noHead p U = true.
Proof.
  induction U as [|c U IH]; intros p W L HW; [reflexivity|].
  cbn [app Timestamps.locate] in L. cbn [Timestamps.noHead].
  destruct (Timestamps.headOK p (c :: U ++ W)) eqn:H; [discriminate|].
  destruct (Timestamps.locate (Some c) (U ++ W)) as [[pre post]|] eqn:L';
    [discriminate|].
  rewrite (IH (Some c) W L' HW), andb_true_r.
  destruct HW as [->|(d & y & -> & T)].
  - rewrite app_nil_r in H. now rewrite H.
  - change (c :: U ++ d :: y)%list with ((c :: U) ++ d :: y)%list in H.
    rewrite (@headOK_upto _ _ _ _ T) in H. now rewrite H.
Qed.

Lemma locate_Some_shape (s : list ascii) :
  forall (p : option ascii) (pre post : list ascii),
    Timestamps.locate p s = Some (pre, post) ->
    (pre = [] /\ Timestamps.headOK p s = true /\ post = Timestamps.tailOf s)
    \/ exists U d z,
         pre = (U ++ [d])%list /\ s = (U ++ d :: z)%list
         /\ isLineTerminator d = true /\ Timestamps.noHead p U = true
         /\ Timestamps.headOK (Some d) z = true
         /\ post = Timestamps.tailOf z.
Proof.
  induction s as [|c t IH]; intros p pre post L.
  - cbn [Timestamps.locate] in L. rewrite headOK_nil in L. discriminate.
  - cbn [Timestamps.locate] in L.
    destruct (Timestamps.headOK p (c :: t)) eqn:H.
    + injection L as <- <-. left. now repeat split.
    + destruct (Timestamps.locate (Some c) t) as [[pre' post']|] eqn:L';
        [|discriminate].
      injection L as <- <-. right.
      destruct (IH _ _ _ L') as [(-> & H' & ->)|(U & d & z & -> & -> & T & N & H' & ->)].
      * exists [], c, t. cbn [app]. repeat split; auto.
        now apply headOK_lineStart in H'.
      * exists (c :: U), d, z. cbn [app]. repeat split; auto.
        cbn [Timestamps.noHead]. rewrite N, andb_true_r.
        change (c :: U ++ d :: z)%list with ((c :: U) ++ d :: z)%list in H.
        rewrite (@headOK_upto _ _ _ _ T) in H. now rewrite H.
Qed.

Lemma headOK_terminator (p : option ascii) (d : ascii) (z : list ascii) :
  isLineTerminator d = true -> Timestamps.headOK p (d :: z) = false.
Proof.
  intros T. change (d :: z) with ([] ++ d :: z)%list.
  rewrite (@headOK_upto _ _ _ _ T). apply headOK_nil.
Qed.

Lemma locate_after (U : list ascii) :
  forall (p : option ascii) (d : ascii) (z : list ascii),
    Timestamps.noHead p U = true ->
    isLineTerminator d = true ->
    Timestamps.headOK (Some d) z = true ->
    Timestamps.locate p (U ++ d :: z)
    = Some ((U ++ [d])%list, Timestamps.tailOf z).
Proof.
  induction U as [|c U IH]; intros p d z N T H.
  - cbn [app Timestamps.locate]. rewrite (@headOK_terminator _ _ _ T).
    now rewrite (@locate_at_head _ _ H).
  - cbn [Timestamps.noHead] in N. apply andb_true_iff in N as [N1 N2].
    apply negb_true_iff in N1.
    cbn [app Timestamps.locate].
    change (c :: U ++ d :: z)%list with ((c :: U) ++ d :: z)%list.
    rewrite (@headOK_upto _ _ _ _ T), N1. now rewrite (IH _ _ _ N2 T H).
Qed.

(** *** The written line *)

Lemma dropWhile_stops (p : ascii -> bool) (l : list ascii) :
  match Timestamps.dropWhile p l with
  | [] => True
  | c :: _ => p c = false
  end.
Proof.
  induction l as [|c l IH]; [exact I|]. cbn [Timestamps.dropWhile].
  destruct (p c) eqn:P; [exact IH | exact P].
Qed.

Lemma dropWhile_all (p : ascii -> bool) (a post : list ascii) :
  Forall (fun c => p c = true) a ->
  match post with [] => True | c :: _ => p c = false end ->
  Timestamps.dropWhile p (a ++ post) = post.
Proof.
  intros F H. induction F as [|c a Hc _ IH]; cbn [app].
  - destruct post as [|c post]; [reflexivity|].
    cbn [Timestamps.dropWhile]. now rewrite H.
  - cbn [Timestamps.dropWhile]. now rewrite Hc.
Qed.

Lemma startsWithL_app (L x : list ascii) :
  Timestamps.startsWithL L (L ++ x) = true.
Proof.
  induction L as [|c L IH]; [reflexivity|]. cbn [app Timestamps.startsWithL].
  now rewrite Ascii.eqb_refl, IH.
Qed.

Lemma timestamp_chars (now : string) :
  list_ascii_of_string (Timestamps.timestamp now)
  = (Timestamps.longHead ++ " "%char :: list_ascii_of_string now)%list.
Proof.
  unfold Timestamps.timestamp. rewrite list_ascii_of_string_app. reflexivity.
Qed.

Lemma date_chars (now : string) :
  Timestamps.isDate now ->
  Forall (fun c => negb (isLineTerminator c) = true)
         (list_ascii_of_string now)
  /\ exists c t, list_ascii_of_string now = c :: t
                 /\ JsString.isSpace c = false.
Proof.
  intros [N F].
  assert (G : forall c, isDigit c || Ascii.eqb c "-" = true ->
                        isLineTerminator c = false
                        /\ JsString.isSpace c = false).
  { intros c H. apply orb_true_iff in H as [H|H].
    - unfold isDigit in H. cbv zeta in H. apply andb_true_iff in H as [H1 H2].
      apply Nat.leb_le in H1. apply Nat.leb_le in H2.
      unfold isLineTerminator, JsString.isSpace. cbv zeta. split.
      + destruct (Nat.eqb_spec (nat_of_ascii c) 10),
                 (Nat.eqb_spec (nat_of_ascii c) 13); try lia; reflexivity.
      + destruct (Nat.leb_spec 9 (nat_of_ascii c)),
                 (Nat.leb_spec (nat_of_ascii c) 13),
                 (Nat.eqb_spec (nat_of_ascii c) 32),
                 (Nat.eqb_spec (nat_of_ascii c) 160); try lia; reflexivity.
    - apply Ascii.eqb_eq in H. subst c. now split. }
  split.
  - eapply Forall_impl; [|exact F]. cbv beta. intros c Hc.
    apply G in Hc as [-> _]. reflexivity.
  - destruct now as [|c now]; [now elim N|]. cbn [list_ascii_of_string] in *.
    exists c, (list_ascii_of_string now). split; [reflexivity|].
    inversion F as [|? ? Hc _]; subst. now apply G in Hc.
Qed.

Lemma timestamp_match (now : string) (p : option ascii) (post : list ascii) :
  Timestamps.isDate now ->
  Timestamps.lineStartOK p = true ->
  match post with [] => True | c :: _ => isLineTerminator c = true end ->
  let z := (list_ascii_of_string (Timestamps.timestamp now) ++ post)%list in
  Timestamps.headOK p z = true /\ Timestamps.tailOf z = post.
Proof.
  intros D LS HP z. subst z. rewrite timestamp_chars, <- app_assoc.
  destruct (@date_chars _ D) as (F & c & t & E & S).
  split.
  - unfold Timestamps.headOK. now rewrite LS, startsWithL_app.
  - unfold Timestamps.tailOf. rewrite startsWithL_app.
    rewrite skipn_app, Nat.sub_diag, skipn_all. cbn [skipn app].
    cbn [Timestamps.dropWhile].
    change (JsString.isSpace " ") with true. cbv iota.
    rewrite E in F |- *. cbn [app Timestamps.dropWhile]. rewrite S.
    change (c :: t ++ post)%list with ((c :: t) ++ post)%list.
    apply dropWhile_all; [exact F|].
    destruct post as [|x post]; [exact I|]. now rewrite HP.
Qed.

Lemma tailOf_stops (z : list ascii) :
  match Timestamps.tailOf z with
  | [] => True
  | c :: _ => isLineTerminator c = true
  end.
Proof.
  unfold Timestamps.tailOf.
  match goal with
  | |- match Timestamps.dropWhile ?p ?l with _ => _ end =>
      pose proof (dropWhile_stops p l) as H;
      destruct (Timestamps.dropWhile p l) as [|c r]; [exact I|]
  end.
  now apply negb_false_iff in H.
Qed.

Lemma join_splitOn (s : string) :
  Tracker.join lf (Tracker.splitOn newline s) = s.
Proof.
  induction s as [|c s IH]; [reflexivity|]. cbn [Tracker.splitOn].
  pose proof (@splitOn_not_nil newline s) as N.
  destruct (Ascii.eqb_spec c newline) as [->|Nc].
  - destruct (Tracker.splitOn newline s) as [|q r] eqn:E; [now elim N|].
    change (Tracker.join lf ("" :: q :: r))
      with ("" ++ lf ++ Tracker.join lf (q :: r)).
    rewrite IH. reflexivity.
  - destruct (Tracker.splitOn newline s) as [|q r] eqn:E; [now elim N|].
    destruct r as [|q' r].
    + cbn [Tracker.join] in *. now rewrite IH.
    + change (Tracker.join lf (String c q :: q' :: r))
        with (String c (q ++ lf ++ Tracker.join lf (q' :: r))).
      change (Tracker.join lf (q :: q' :: r))
        with (q ++ lf ++ Tracker.join lf (q' :: r)) in IH.
      now rewrite IH.
Qed.

Lemma join_app_cons (sep : string) (l1 : list string) (x : string)
  (l2 : list string) :
  l1 <> [] ->
  Tracker.join sep (l1 ++ x :: l2)
  = Tracker.join sep l1 ++ sep ++ Tracker.join sep (x :: l2).
Proof.
  induction l1 as [|a l1 IH]; intros N; [now elim N|].
  destruct l1 as [|b l1].
  - reflexivity.
  - change (Tracker.join sep ((a :: b :: l1) ++ x :: l2))
      with (a ++ sep ++ Tracker.join sep ((b :: l1) ++ x :: l2)).
    rewrite IH by discriminate.
    change (Tracker.join sep (a :: b :: l1))
      with (a ++ sep ++ Tracker.join sep (b :: l1)).
    now rewrite !string_app_assoc.
Qed.

(** A content in which the first match is the written line is left as it
    is. *)
Lemma updateContent_fixed (now c1 : string) (pre post : list ascii) :
  list_ascii_of_string c1
  = (pre ++ list_ascii_of_string (Timestamps.timestamp now) ++ post)%list ->
  Timestamps.locate None (list_ascii_of_string c1) = Some (pre, post) ->
  Regex.test Timestamps.TIMESTAMP_PATTERN c1 = true
  /\ Timestamps.updateContent now c1 = c1.
Proof.
  intros E L. unfold Timestamps.updateContent.
  rewrite test_locate, replaceFirst_locate, L. split; [reflexivity|].
  rewrite <- E. apply string_of_list_ascii_of_string.
Qed.

Lemma locate_rewritten (now : string) (l pre post : list ascii) :
  Timestamps.isDate now ->
  Timestamps.locate None l = Some (pre, post) ->
  Timestamps.locate None
    (pre ++ list_ascii_of_string (Timestamps.timestamp now) ++ post)
  = Some (pre, post).
Proof.
  intros D L.
  destruct (@locate_Some_shape l None pre post L)
    as [(-> & H & ->)|(U & d & z & -> & -> & T & N & H & ->)].
  - destruct (@timestamp_match now None (Timestamps.tailOf l) D eq_refl
                (tailOf_stops l)) as [H1 H2].
    cbv zeta in H1, H2. cbn [app].
    rewrite (@locate_at_head _ _ H1). now rewrite H2.
  - destruct (@timestamp_match now (Some d) (Timestamps.tailOf z) D T
                (tailOf_stops z)) as [H1 H2].
    cbv zeta in H1, H2. rewrite <- app_assoc. cbn [app].
    rewrite (@locate_after U None d _ N T H1). now rewrite H2.
Qed.

Lemma timestamp_one_line (now : string) :
  Timestamps.isDate now ->
  ~ In newline (list_ascii_of_string (Timestamps.timestamp now)).
Proof.
  intros D. rewrite timestamp_chars. destruct (@date_chars _ D) as [F _].
  intros H. apply in_app_iff in H as [H|[H|H]].
  - vm_compute in H. repeat (destruct H as [H|H]; [discriminate|]). exact H.
  - discriminate.
  - rewrite Forall_forall in F. apply F in H. discriminate.
Qed.

Lemma findIndexFrom_bound (ls : list string) :
  forall i n, Timestamps.findIndexFrom ls i = Some n ->
              (n < i + List.length ls)%nat.
Proof.
  induction ls as [|l ls IH]; intros i n H; cbn [Timestamps.findIndexFrom] in H;
    [discriminate|].
  destruct (_ && _).
  - injection H as <-. cbn [List.length]. lia.
  - apply IH in H. cbn [List.length]. lia.
Qed.

Lemma insertIndex_bound (lines : list string) :
  (Timestamps.insertIndex lines <= List.length lines)%nat.
Proof.
  unfold Timestamps.insertIndex. destruct lines as [|first rest_]; [lia|].
  destruct (String.eqb first "---"); [|lia].
  destruct (Timestamps.findIndexFrom (first :: rest_) 0) as [n|] eqn:E; [|lia].
  apply findIndexFrom_bound in E. lia.
Qed.

(** The inserted timestamp. *)
Lemma inserted_timestamp (now content : string) (k : nat) :
  Timestamps.isDate now ->
  Timestamps.locate None (list_ascii_of_string content) = None ->
  let lines := Tracker.splitOn newline content in
  let c1 := Tracker.join lf
              (Timestamps.splice2 k (Timestamps.timestamp now) "" lines) in
  exists pre post,
    list_ascii_of_string c1
    = (pre ++ list_ascii_of_string (Timestamps.timestamp now) ++ post)%list
    /\ Timestamps.locate None (list_ascii_of_string c1) = Some (pre, post).
Proof.
  intros D L lines c1. subst c1. unfold Timestamps.splice2.
  pose proof (firstn_skipn k lines) as FS.
  pose proof (join_splitOn content) as J. fold lines in J.
  set (L1 := firstn k lines) in *. set (L2 := skipn k lines) in *.
  set (ts := Timestamps.timestamp now).
  set (V := Tracker.join lf ("" :: L2)).
  assert (Hpost : match list_ascii_of_string (lf ++ V) with
                  | [] => True
                  | c :: _ => isLineTerminator c = true
                  end) by reflexivity.
  destruct L1 as [|a L1'] eqn:E1.
  - cbn [app].
    change (Tracker.join lf (ts :: "" :: L2)) with (ts ++ lf ++ V).
    exists [], (list_ascii_of_string (lf ++ V)). cbn [app].
    rewrite list_ascii_of_string_app. split; [reflexivity|].
    destruct (@timestamp_match now None (list_ascii_of_string (lf ++ V))
                D eq_refl Hpost) as [H1 H2].
    cbv zeta in H1, H2. fold ts in H1, H2.
    rewrite (@locate_at_head _ _ H1). now rewrite H2.
  - rewrite <- E1 in *. assert (N1 : L1 <> []) by (rewrite E1; discriminate).
    cbn [app]. rewrite (join_app_cons lf ts ("" :: L2) N1).
    change (Tracker.join lf (ts :: "" :: L2)) with (ts ++ lf ++ V).
    set (U := list_ascii_of_string (Tracker.join lf L1)).
    exists (U ++ [newline])%list, (list_ascii_of_string (lf ++ V)).
    assert (Ec : list_ascii_of_string
                   (Tracker.join lf L1 ++ lf ++ ts ++ lf ++ V)
                 = (U ++ newline
                      :: (list_ascii_of_string ts
                          ++ list_ascii_of_string (lf ++ V)))%list).
    { rewrite !list_ascii_of_string_app. reflexivity. }
    rewrite Ec. split; [now rewrite <- app_assoc|].
    assert (N : Timestamps.noHead None U = true).
    { assert (Hc : exists W,
                list_ascii_of_string content = (U ++ W)%list
                /\ (W = [] \/ exists d y, W = d :: y
                                          /\ isLineTerminator d = true)).
      { rewrite <- J, <- FS. destruct L2 as [|x L2'].
        - rewrite app_nil_r. exists []. rewrite app_nil_r.
          split; [reflexivity | now left].
        - rewrite (join_app_cons lf x L2' N1).
          exists (list_ascii_of_string (lf ++ Tracker.join lf (x :: L2'))).
          rewrite list_ascii_of_string_app. split; [reflexivity|].
          right. rewrite list_ascii_of_string_app.
          exists newline,
            (list_ascii_of_string (Tracker.join lf (x :: L2'))).
          split; reflexivity. }
      destruct Hc as (W & EW & HW). rewrite EW in L.
      exact (@locate_None_noHead U None W L HW). }
    destruct (@timestamp_match now (Some newline)
                (list_ascii_of_string (lf ++ V)) D eq_refl Hpost)
      as [H1 H2].
    cbv zeta in H1, H2. fold ts in H1, H2.
    rewrite (@locate_after U None newline _ N eq_refl H1). now rewrite H2.
Qed.

(** X29. Updating the timestamp of a text is idempotent: whatever the
    text, the result has a timestamp line, and a second update with the same
    date changes nothing.  A text without a timestamp line only gains two
    lines, the timestamp and an empty line, after its front matter or at its
    top; none of its lines is changed or lost. *)
Theorem timestamp_update_idempotent (now content : string) :
  Timestamps.isDate now ->
  let lines := Tracker.splitOn newline content in
  let updated := Timestamps.updateContent now content in
  Regex.test Timestamps.TIMESTAMP_PATTERN updated = true
  /\ Timestamps.updateContent now updated = updated
  /\ (Regex.test Timestamps.TIMESTAMP_PATTERN content = false ->
      Tracker.splitOn newline updated
      = Timestamps.splice2 (Timestamps.insertIndex lines)
          (Timestamps.timestamp now) "" lines
      /\ Autofix.OnlyInserts lines (Tracker.splitOn newline updated)
      /\ nth_error (Tracker.splitOn newline updated)
                   (Timestamps.insertIndex lines)
         = Some (Timestamps.timestamp now)).
Proof.
  intros D lines updated. subst updated.
  assert (Fixed : Regex.test Timestamps.TIMESTAMP_PATTERN
                    (Timestamps.updateContent now content) = true
                  /\ Timestamps.updateContent now
                       (Timestamps.updateContent now content)
                     = Timestamps.updateContent now content).
  { assert (Hc : Timestamps.updateContent now content
                 = match Timestamps.locate None
                           (list_ascii_of_string content) with
                   | Some (pre, post) =>
                       string_of_list_ascii
                         (pre ++ list_ascii_of_string
                                   (Timestamps.timestamp now) ++ post)
                   | None =>
                       Tracker.join lf
                         (Timestamps.splice2
                            (Timestamps.insertIndex
                               (Tracker.splitOn newline content))
                            (Timestamps.timestamp now) ""
                            (Tracker.splitOn newline content))
                   end).
    { unfold Timestamps.updateContent.
      rewrite test_locate, replaceFirst_locate.
      now destruct (Timestamps.locate None (list_ascii_of_string content))
        as [[pre post]|]. }
    rewrite Hc. clear Hc.
    destruct (Timestamps.locate None (list_ascii_of_string content))
      as [[pre post]|] eqn:L.
    - apply (@updateContent_fixed now _ pre post).
      + apply list_ascii_of_string_of_list_ascii.
      + rewrite list_ascii_of_string_of_list_ascii.
        exact (@locate_rewritten now _ pre post D L).
    - destruct (@inserted_timestamp now content
                  (Timestamps.insertIndex (Tracker.splitOn newline content))
                  D L) as (pre & post & E & L').
      cbv zeta in E, L'. exact (@updateContent_fixed now _ pre post E L'). }
  split; [exact (proj1 Fixed)|]. split; [exact (proj2 Fixed)|].
  intros T. unfold Timestamps.updateContent. rewrite T. fold lines.
  assert (S : Tracker.splitOn newline
                (Tracker.join lf
                   (Timestamps.splice2 (Timestamps.insertIndex lines)
                      (Timestamps.timestamp now) "" lines))
              = Timestamps.splice2 (Timestamps.insertIndex lines)
                  (Timestamps.timestamp now) "" lines).
  { apply splitOn_join.
    - unfold Timestamps.splice2. intros H. apply app_eq_nil in H as [_ H].
      discriminate.
    - unfold Timestamps.splice2. pose proof (splitOn_pieces newline content) as P.
      fold lines in P. rewrite <- (firstn_skipn (Timestamps.insertIndex lines)
                                     lines) in P.
      apply Forall_app in P as [P1 P2].
      apply Forall_app. split; [exact P1|].
      constructor; [now apply timestamp_one_line|].
      constructor; [intros []|exact P2]. }
  rewrite S. split; [reflexivity|]. unfold Timestamps.splice2. split.
  - rewrite <- (firstn_skipn (Timestamps.insertIndex lines) lines) at 1.
    apply OnlyInserts_app; [apply OnlyInserts_refl|]. cbn [app].
    apply Autofix.OnlyInserts_insert. apply Autofix.OnlyInserts_insert.
    apply OnlyInserts_refl.
  - rewrite nth_error_app2; rewrite length_firstn;
      pose proof (insertIndex_bound lines); [|lia].
    replace (Timestamps.insertIndex lines
             - Nat.min (Timestamps.insertIndex lines) (List.length lines))%nat
      with 0%nat by lia.
    reflexivity.
Qed.

Lemma timestamp_update_idempotent_witness :
  Timestamps.isDate "2025-01-31"
  /\ Timestamps.updateContent "2025-01-31"
       (Timestamps.updateContent "2025-01-31" "# Title")
     = Timestamps.updateContent "2025-01-31" "# Title".
Proof.
  assert (D : Timestamps.isDate "2025-01-31").
  { split; [discriminate|]. repeat constructor. }
  split; [exact D|].
  exact (proj1 (proj2 (@timestamp_update_idempotent "2025-01-31" "# Title" D))).
Defined.

(** *** The link checker *)

Lemma matches_url (ends : ascii -> bool) (st e : state) :
  RegexSem.Matches (Links.urlPattern ends) st e ->
  exists w, RegexSem.consumes st e w /\ caps e = caps st
            /\ Links.absolute (string_of_list_ascii w) = true.
Proof.
  unfold Links.urlPattern. cbn [seqs]. intros H.
  apply matches_seq_inv in H as (m1 & M1 & H).
  apply matches_seq_inv in H as (m2 & M2 & H).
  apply matches_seq_inv in H as (m3 & M3 & M4).
  apply matches_lit in M1 as [C1 K1].
  apply matches_lit in M3 as [C3 K3].
  apply matches_plus_chr in M4 as (w & C4 & _ & N & K4).
  assert (T : exists c t, w = c :: t)
    by (destruct w as [|c t]; [congruence | now exists c, t]).
  destruct T as (c & t & ->).
  unfold opt in M2.
  inversion M2 as [| | |a b st' st1 M|a b st' st1 M| | | | |]; subst.
  - apply matches_chr_consumes in M as (c' & C2 & E & K2).
    apply Ascii.eqb_eq in E. subst c'.
    eexists. split; [|split].
    + exact (consumes_trans C1 (consumes_trans C2 (consumes_trans C3 C4))).
    + congruence.
    + reflexivity.
  - inversion M; subst.
    eexists. split; [|split].
    + exact (consumes_trans C1 (consumes_trans C3 C4)).
    + congruence.
    + reflexivity.
Qed.

Lemma matches_group_url (n : nat) (ends : ascii -> bool) (st e : state) :
  RegexSem.Matches (Group n (Links.urlPattern ends)) st e ->
  exists w, caps e = (n, w) :: caps st
            /\ Links.absolute (string_of_list_ascii w) = true.
Proof.
  intros H. inversion H as [| | | | | | |n' a st' st1 M| |]; subst.
  apply matches_url in M as (w & C & K & A).
  exists w. cbn [caps]. rewrite (consumes_firstn C), K. now split.
Qed.

Lemma searchFrom_result (mk : option ascii -> regex) (s : list ascii) :
  forall (p : option ascii) (i : nat) (st e : state),
    Links.searchFrom mk p s i = Some (st, e) ->
    run (mk (prev st)) st Some = Some e /\ caps st = [].
Proof.
  induction s as [|c s IH]; intros p i st e H; cbn [Links.searchFrom] in H.
  - destruct (run (mk p) _ Some) as [e'|] eqn:E; [|discriminate].
    injection H as <- <-. now split.
  - destruct (run (mk p) _ Some) as [e'|] eqn:E.
    + injection H as <- <-. now split.
    + now apply IH in H.
Qed.

Lemma execLoopFrom_results (mk : option ascii -> regex) (fuel : nat) :
  forall (p : option ascii) (s : list ascii) (i : nat) (m : result),
    In m (Links.execLoopFrom fuel mk p s i) ->
    exists st e, RegexSem.Matches (mk (prev st)) st e /\ caps st = []
                 /\ groups m = caps e.
Proof.
  induction fuel as [|fuel IH]; intros p s i m H;
    cbn [Links.execLoopFrom] in H; [destruct H|].
  destruct (Links.searchFrom mk p s i) as [[st e]|] eqn:S; [|destruct H].
  destruct H as [<-|H].
  - apply searchFrom_result in S as [S1 S2].
    apply run_sound in S1 as (st1 & M & [= <-]).
    now exists st, st1.
  - destruct (_ <? _)%nat; [|destruct H]. now apply IH in H.
Qed.

(** The addresses of a file: each one once, each with its scheme. *)
Lemma extractUrls_spec (content : string) :
  NoDup (Links.extractUrls content)
  /\ Forall (fun u => Links.absolute u = true) (Links.extractUrls content).
Proof.
  unfold Links.extractUrls. split.
  - apply fold_add_NoDup, fold_add_NoDup. constructor.
  - apply Forall_forall. intros u H.
    apply fold_add_In in H as [H|H]; [apply fold_add_In in H as [[]|H]|];
      apply in_map_iff in H as [m [<- H]].
    + apply execAll_matches in H as (st & e & M & _ & G).
      unfold Links.linkPattern in M. cbn [seqs] in M.
      apply matches_seq_inv in M as (s1 & _ & M).
      apply matches_seq_inv in M as (s2 & _ & M).
      apply matches_seq_inv in M as (s3 & _ & M).
      apply matches_seq_inv in M as (s4 & _ & M).
      apply matches_seq_inv in M as (s5 & M & Q).
      apply matches_chr_caps in Q.
      apply matches_group_url in M as (w & C & A).
      unfold SectionIndex.groupText, group. now rewrite G, Q, C, lookup_head.
    + apply execLoopFrom_results in H as (st & e & M & _ & G).
      unfold Links.bareUrlPattern in M.
      apply matches_seq_inv in M as (s1 & _ & M).
      apply matches_group_url in M as (w & C & A).
      unfold SectionIndex.groupText, group. now rewrite G, C, lookup_head.
Qed.

Lemma addUrl_assoc (file u x : string) (acc : list (string * list string)) :
  Js.assoc u (Links.addUrl file acc x)
  = if String.eqb u x
    then Some ((match Js.assoc x acc with Some fs => fs | None => [] end)
               ++ [file])%list
    else Js.assoc u acc.
Proof.
  unfold Links.addUrl. destruct (String.eqb_spec u x) as [->|N].
  - rewrite assoc_assign_same. now destruct (Js.assoc x acc).
  - now apply assoc_assign_other.
Qed.

Lemma addUrls_spec (file : string) (us : list string) :
  forall acc : list (string * list string),
    NoDup us -> NoDup (map fst acc) ->
    let acc' := fold_left (Links.addUrl file) us acc in
    NoDup (map fst acc')
    /\ (forall u, In u (map fst acc') <-> In u (map fst acc) \/ In u us)
    /\ (forall u, Js.assoc u acc'
                  = if Js.mem u us
                    then Some ((match Js.assoc u acc with
                                | Some fs => fs
                                | None => []
                                end) ++ [file])%list
                    else Js.assoc u acc).
Proof.
  induction us as [|x us IH]; intros acc Hus Hacc; cbn [fold_left].
  - split; [exact Hacc|]. split; [intros u; cbn; tauto | reflexivity].
  - apply NoDup_cons_iff in Hus as [Hx Hus].
    assert (H1 : NoDup (map fst (Links.addUrl file acc x)))
      by now apply assign_NoDup.
    destruct (IH _ Hus H1) as (I1 & I2 & I3).
    split; [exact I1|]. split.
    + intros u. rewrite I2. unfold Links.addUrl. rewrite keys_assign.
      destruct (Js.mem x (map fst acc)) eqn:E.
      * apply mem_In in E. cbn [In]. split; [tauto|].
        intros [H|[<-|H]]; tauto.
      * rewrite in_app_iff. cbn [In]. tauto.
    + intros u. rewrite I3, !addUrl_assoc. unfold Js.mem. cbn [existsb].
      destruct (String.eqb_spec u x) as [->|N]; cbn [orb]; [|reflexivity].
      replace (existsb (String.eqb x) us) with false; [reflexivity|].
      symmetry. now apply mem_false.
Qed.

Section LinkCheck.

Variable outcome : string -> Links.Outcome.
Variable readDoc : string -> string.

Lemma foundIn_app (u : string) (pre : list string) (file : string) :
  Links.foundIn readDoc u (pre ++ [file])
  = (Links.foundIn readDoc u pre
     ++ (if Js.mem u (Links.extractUrls (readDoc file)) then [file] else []))%list.
Proof. unfold Links.foundIn. now rewrite filter_app. Qed.

Lemma collect_step (pre : list string) (acc : list (string * list string))
  (file : string) :
  Links.collected readDoc pre acc ->
  Links.collected readDoc (pre ++ [file])
    (fold_left (Links.addUrl file) (Links.extractUrls (readDoc file)) acc).
Proof.
  intros (C1 & C2 & C3).
  destruct (@addUrls_spec file (Links.extractUrls (readDoc file)) acc
              (proj1 (extractUrls_spec (readDoc file))) C1) as (I1 & I2 & I3).
  split; [exact I1|]. split.
  - intros u. rewrite I2, C2. split.
    + intros [(f & Hf & Hu)|Hu].
      * exists f. split; [apply in_or_app; now left | exact Hu].
      * exists file. split; [apply in_or_app; right; now left | exact Hu].
    + intros (f & Hf & Hu). apply in_app_or in Hf as [Hf|[<-|[]]].
      * left. now exists f.
      * now right.
  - intros u. rewrite I3, foundIn_app, C3.
    destruct (Js.mem u (Links.extractUrls (readDoc file))).
    + destruct (Links.foundIn readDoc u pre); reflexivity.
    + rewrite app_nil_r. reflexivity.
Qed.

Lemma collect_loop (files : list string) :
  forall (pre : list string) (acc : list (string * list string)),
    Links.collected readDoc pre acc ->
    Links.collected readDoc (pre ++ files)
      (fold_left (fun allUrls file =>
                    fold_left (Links.addUrl file)
                      (Links.extractUrls (readDoc file)) allUrls)
                 files acc).
Proof.
  induction files as [|file files IH]; intros pre acc C; cbn [fold_left].
  - now rewrite app_nil_r.
  - replace (pre ++ file :: files)%list with ((pre ++ [file]) ++ files)%list
      by now rewrite <- app_assoc.
    apply IH. now apply collect_step.
Qed.

Lemma collectUrls_spec (files : list string) :
  Links.collected readDoc files (Links.collectUrls readDoc files).
Proof.
  unfold Links.collectUrls. apply (@collect_loop files [] []).
  split; [constructor|]. split.
  - intros u. cbn. split; [intros [] | intros (f & [] & _)].
  - reflexivity.
Qed.

(** The batches, one after the other, are the array. *)
Lemma batchLoop_spec (urls : list string) (fuel : nat) :
  forall (i : nat) (results : list Links.CheckResult),
    (List.length urls <= i + Links.MAX_CONCURRENT * fuel)%nat ->
    Links.batchLoop outcome fuel urls i results
    = (results ++ map (Links.checkUrl outcome) (skipn i urls))%list.
Proof.
  unfold Links.MAX_CONCURRENT.
  induction fuel as [|fuel IH]; intros i results H; cbn [Links.batchLoop].
  - rewrite skipn_all2 by lia. cbn. now rewrite app_nil_r.
  - destruct (Nat.ltb_spec i (List.length urls)) as [L|L].
    + unfold Links.MAX_CONCURRENT. rewrite IH by lia.
      rewrite <- app_assoc, <- map_app. f_equal. f_equal.
      rewrite (Nat.add_comm i 5), <- skipn_skipn. apply firstn_skipn.
    + rewrite skipn_all2 by lia. cbn. now rewrite app_nil_r.
Qed.

Lemma checkUrlsBatch_map (urls : list string) :
  Links.checkUrlsBatch outcome urls = map (Links.checkUrl outcome) urls.
Proof.
  unfold Links.checkUrlsBatch. rewrite batchLoop_spec.
  - reflexivity.
  - unfold Links.MAX_CONCURRENT. lia.
Qed.

Lemma classify_ok (statusCode : Z) :
  Links.classify statusCode = Links.ok <-> 200 <= statusCode < 400.
Proof.
  unfold Links.classify.
  destruct (200 <=? statusCode) eqn:A, (statusCode <? 400) eqn:B,
    (300 <=? statusCode) eqn:C; cbn [andb];
    rewrite ?Z.leb_le, ?Z.ltb_lt, ?Z.leb_gt, ?Z.ltb_ge in *;
    split; intros H; try discriminate; try lia; reflexivity.
Qed.

Lemma classify_not_redirect (statusCode : Z) :
  Links.classify statusCode <> Links.redirect.
Proof.
  unfold Links.classify.
  destruct (200 <=? statusCode) eqn:A, (statusCode <? 400) eqn:B,
    (300 <=? statusCode) eqn:C; cbn [andb];
    rewrite ?Z.leb_le, ?Z.ltb_lt, ?Z.leb_gt, ?Z.ltb_ge in *;
    try discriminate; lia.
Qed.

Lemma checkUrl_ok (u : string) :
  Links.status (Links.checkUrl outcome u) = Links.ok
  <-> Links.reachable outcome u.
Proof.
  unfold Links.checkUrl, Links.reachable.
  destruct (outcome u) as [c| |]; cbn [Links.status].
  - rewrite classify_ok. split.
    + intros H. now exists c.
    + now intros (c' & [= <-] & H).
  - split; [discriminate | now intros (c' & [=] & _)].
  - split; [discriminate | now intros (c' & [=] & _)].
Qed.

Lemma checkUrl_not_redirect (u : string) :
  Links.hasStatus Links.redirect (Links.checkUrl outcome u) = false.
Proof.
  unfold Links.hasStatus, Links.checkUrl.
  destruct (outcome u) as [c| |]; cbn [Links.status]; try reflexivity.
  pose proof (classify_not_redirect c) as N.
  now destruct (Links.classify c).
Qed.

Lemma results_counts (urls : list string) :
  let results := map (Links.checkUrl outcome) urls in
  filter (Links.hasStatus Links.redirect) results = []
  /\ (List.length (filter (Links.hasStatus Links.ok) results)
      + List.length (filter (Links.hasStatus Links.error) results)
      + List.length (filter (Links.hasStatus Links.timeout) results)
      = List.length urls)%nat
  /\ (List.length (filter (Links.hasStatus Links.error) results) = 0%nat
      /\ List.length (filter (Links.hasStatus Links.timeout) results) = 0%nat
      <-> forall u, In u urls -> Links.reachable outcome u).
Proof.
  induction urls as [|u urls (I1 & I2 & I3)]; cbn [map filter].
  - split; [reflexivity|]. split; [reflexivity|].
    split; [intros _ u [] | now split].
  - rewrite checkUrl_not_redirect. split; [exact I1|].
    pose proof (checkUrl_ok u) as K.
    pose proof (checkUrl_not_redirect u) as R.
    unfold Links.hasStatus in *.
    destruct (Links.status (Links.checkUrl outcome u)); cbn [List.length].
    + split; [lia|]. rewrite I3. split.
      * intros H v [<-|Hv]; [now apply K | now apply H].
      * intros H v Hv. apply H. now right.
    + discriminate.
    + split; [lia|]. split; [intros [H _]; discriminate|].
      intros H. assert (Hu : Links.ok = Links.ok -> False); [|now destruct Hu].
      intros _. specialize (H u (or_introl eq_refl)). apply K in H.
      discriminate.
    + split; [lia|]. split; [intros [_ H]; discriminate|].
      intros H. specialize (H u (or_introl eq_refl)). apply K in H.
      discriminate.
Qed.

(** X30. The link checker requests every address of the markdown files of
    the documentation directory exactly once: the addresses checked have no
    duplicate, each of them begins with the scheme http or https followed
    by at least one character, and an address is checked if and only if one
    of the markdown files contains it; the Map gives for each address the
    files that contain it, in the order of the directory listing and each
    once.  Without any address nothing is requested.  Otherwise the results
    are the outcomes of the addresses in their order, whatever the batches;
    no result ever has the status redirect, so that the counts of ok, error
    and timeout add up to the number of addresses; and the links are
    reported as valid exactly when every request was answered with a status
    code from 200 to 399. *)
Theorem link_check_covers_every_url (dirEntries : list string) :
  let files := filter isMarkdown dirEntries in
  let allUrls := Links.collectUrls readDoc files in
  let uniqueUrls := map fst allUrls in
  NoDup uniqueUrls
  /\ Forall (fun u => Links.absolute u = true) uniqueUrls
  /\ (forall u, In u uniqueUrls
                <-> exists file, In file dirEntries
                                 /\ isMarkdown file = true
                                 /\ In u (Links.extractUrls (readDoc file)))
  /\ (forall u, In u uniqueUrls ->
                Js.assoc u allUrls = Some (Links.foundIn readDoc u files)
                /\ Links.foundIn readDoc u files <> [])
  /\ match Links.checkExternalLinks outcome readDoc dirEntries with
     | None => uniqueUrls = []
     | Some s =>
         uniqueUrls <> []
         /\ Links.results s = map (Links.checkUrl outcome) uniqueUrls
         /\ Links.redirects s = []
         /\ (List.length (Links.okResults s) + List.length (Links.errors s)
             + List.length (Links.timeouts s) = List.length uniqueUrls)%nat
         /\ (Links.allValid s = true
             <-> forall u, In u uniqueUrls -> Links.reachable outcome u)
     end.
Proof.
  intros files allUrls uniqueUrls.
  destruct (collectUrls_spec files) as (C1 & C2 & C3).
  fold allUrls in C1, C2, C3. fold uniqueUrls in C1, C2.
  split; [exact C1|]. split; [|split; [|split]].
  - apply Forall_forall. intros u H. apply C2 in H as (f & _ & H).
    destruct (extractUrls_spec (readDoc f)) as [_ F].
    rewrite Forall_forall in F. now apply F.
  - intros u. rewrite C2. unfold files. split.
    + intros (f & Hf & Hu). apply filter_In in Hf as [Hf Hm]. now exists f.
    + intros (f & Hf & Hm & Hu). exists f. split; [|exact Hu].
      apply filter_In. now split.
  - intros u H. apply C2 in H as (f & Hf & Hu).
    assert (N : Links.foundIn readDoc u files <> []).
    { intros E. assert (I : In f (Links.foundIn readDoc u files)).
      { apply filter_In. split; [exact Hf | now apply mem_In]. }
      rewrite E in I. destruct I. }
    split; [|exact N]. rewrite C3.
    destruct (Links.foundIn readDoc u files); [congruence | reflexivity].
  - unfold Links.checkExternalLinks. fold files. fold allUrls.
    fold uniqueUrls. rewrite checkUrlsBatch_map.
    destruct (results_counts uniqueUrls) as (R1 & R2 & R3).
    destruct (Nat.eqb_spec (List.length uniqueUrls) 0) as [E|E].
    + now apply length_zero_iff_nil.
    + cbn [Links.results Links.redirects Links.okResults Links.errors
             Links.timeouts Links.allValid].
      split; [intros Z; apply E; now rewrite Z|].
      split; [reflexivity|]. split; [exact R1|]. split; [exact R2|].
      rewrite <- R3, andb_true_iff, !Nat.eqb_eq. reflexivity.
Qed.

End LinkCheck.
